(* ===== verification/_CoqProject ===== *)
-Q . S2P
Prelude.v
TimePoint.v
Monitor.v
Timer.v
TimerContainer.v
EventLoopTimers.v
Poller.v
Descriptors.v
Signals.v
FunctorQueue.v
BlockingQueue.v
WakeUp.v
EventLoop.v
EventLoopInvariant.v
EventLoopLife.v
Shutdown.v
LockFreeQueue.v
TcpBuffer.v
HttpRequest.v
HttpParser.v
HttpGrammar.v
TcpConnectSocketfd.v
Echo.v
EventLoopThreadPool.v
TcpServer.v
ConnectionDestroying.v
ListenSocketfd.v
Preconnect.v
TcpClient.v
Any.v
SlabMemory.v
Alignment.v
SlabAllocator.v
ThreadLocalSlabAllocator.v
StringSlabAllocator.v
SemiLockFreeSlabAllocator.v
SlabLifetime.v
Format.v
Sockets.v
ThisThread.v
LogBuilder.v
LogFile.v
LogCollector.v
HttpResponse.v
HttpServer.v
StaticServer.v
RequestArrival.v
ServerStart.v
Programs.v
