(* ===== verification/Prelude.v ===== *)
(** * xubinh_webserver in Rocq

    This library models the network library xubinh_webserver (C++, under [src/])
    and the HTTP server built on it, and proves what makes its parts correct.  The
    definitions are translated from the code by hand: pure functions, explicit
    state, and step machines where threads interleave.

    ** The program

    An [EventLoop] per thread waits in [epoll_wait] for its descriptors, dispatches
    their events, runs the functors other threads left for it and expires its
    timers.  A [TcpServer] accepts connections in the main loop and spreads them
    over the loops of an [EventLoopThreadPool]; each connection is a
    [TcpConnectSocketfd] with an input and an output buffer.  The HTTP server parses
    requests out of the input buffer.  All threads log into one [LogCollector],
    whose background thread writes [LogFile]s.  Nodes, timers and buffers come from
    slab allocators.

    ** Conventions

    - [result] (this file) is the outcome of C++ code: a value, or [Fatal]
      ([LOG_FATAL], [abort]), [Uncaught] (an exception: the code base has no
      handler), [UndefinedBehaviour], or [OutOfFuel], which is not an outcome of
      the code.  It is proved not to occur, except where the code itself may not
      return: a sending loop on a kernel that keeps failing, whose theorems say how
      many errors it takes, and a callback that calls itself.
    - Integers are [Z] with their width written out: [i64] is undefined on
      overflow, [u64] wraps around.  Sizes of containers that fit in memory are
      [nat].  A [char] array is a list of [ascii].
    - A pointer is an address ([Z]) into an explicit heap where identity matters
      (timers, slabs), and the value it points to where it does not.
    - System calls, the clock, [strftime], [aligned_alloc] and user callbacks are
      parameters; type classes ([Epoll], [Socket], [LogSink], ...) state what is
      relied on, and every theorem with such hypotheses is instantiated at a
      concrete implementation by its witness.
    - Critical sections and atomic operations are single steps; memory is
      sequentially consistent, so weak memory orders are not covered.

    ** Files, and the code they model

    - [TimePoint] ([util/time_point.h]): nanosecond arithmetic, conversion to and
      from [timespec].  [Timer] ([timer.cc]): how often a timer fires and when it
      expires next, with [expire_until] equal to a closed form.  [TimerContainer]
      ([timer_container.h]): the ordered set.  [EventLoopTimers] ([event_loop.cc],
      [timerfd.cc]): adding, cancelling, expiring and releasing timers on a heap;
      no timer is forgotten: the kernel timer is always armed in time.
    - [Poller] ([event_poller.cc], [pollable_file_descriptor.cc]): the kernel's
      interest list always mirrors the flags of a descriptor.
      [Descriptors] ([eventfd.cc], [timerfd.cc] and the rest of the two files):
      limits, blocking mode, event descriptors that are read to what was written.
    - [FunctorQueue] is the interface of a queue of functors; [BlockingQueue]
      ([util/blocking_queue.cc]) and [LockFreeQueue] ([util/lock_free_queue.h])
      implement it: no lost wake-up for the monitor, and linearizable first in first
      out behaviour of the lock-free queue under every interleaving.
    - [WakeUp] ([event_loop.cc], [eventfd.cc]): producers, pilot lamps, event
      descriptors and the loop, over any [FunctorQueue]: a functor in a queue is
      always covered by a wake-up under way, and the loop makes progress.
    - [EventLoop] ([event_loop.cc]): the whole loop over the poller, its descriptors,
      its queues and its timers, an iteration at a time.  [EventLoopInvariant]: it
      never fails and never blocks with work forgotten, whatever its clients and
      other threads do; an iteration handles what it found, in order; it heeds a
      request to stop.  [EventLoopLife]: construction and destruction, and a concrete
      loop the theorems are applied to.
    - [TcpBuffer] ([tcp_buffer.cc]): what [append] and the line searches do, for any
      allocator of its string ([StringAllocator]): [std_strings] is that of
      [std::string], [slab_strings] the one the program uses, which is undefined for
      most sizes a buffer grows to.
      [TcpConnectSocketfd] ([tcp_connect_socketfd.cc]): sending, flushing, half
      close, reading and reset; bytes leave in order, none twice, none dropped, whatever
      the kernel answers; how the loops end when it only answers errors is told too.
    - [EventLoopThreadPool] ([util/thread.cc], [event_loop_thread*.cc]): life cycle
      and round robin.  [TcpServer] ([tcp_server.cc]): every connection is in the
      table or on its way out, against the interface [ServerConnection], which
      [TcpConnectSocketfd] implements.  [ServerStart] ([tcp_server.cc],
      [http_server.cc]): starting a server puts its listening socket and its timer into
      the main loop.
    - [HttpRequest], [HttpParser] ([example/http/server]): request and header
      lines; the result of the parser does not depend on how the bytes arrive.
      [HttpGrammar]: the requests it accepts, rejects and waits for are those of a
      grammar.
    - [SlabMemory], [SlabAllocator], [ThreadLocalSlabAllocator],
      [SemiLockFreeSlabAllocator], [StringSlabAllocator] ([util/slab_allocator.h],
      [util/slab_allocator.cc]): no slab is handed out twice, whatever the clients
      write to the slabs they hold; for the compare-and-swap allocator under every
      interleaving, with calls that run alone returning within six steps.
      [SlabLifetime]: the destructors give back every chunk once; a thread that ends
      takes its chunks with it, whoever holds their slabs.  [Alignment]
      ([util/alignment.cc]): slabs are pointers aligned for their type.
    - [Format], [LogBuilder], [LogFile], [LogCollector] ([util/format.h],
      [log_*.cc]): numbers print to what they are; a log line has its format and
      never overflows its buffer; files together hold what was written; every entry
      is accounted for, and stopping the collector writes them all.
    - [HttpResponse] ([http_response.cc]): a response is read back by the library's
      own parser to exactly what was set.  [HttpServer] ([http_server.cc]): one
      message, closing after an answer, removing inactive connections.
      [StaticServer] ([example/http/server/server.cc]): which file a request gets,
      and the theorem [request_served] from the bytes of the request in the input
      buffer to the bytes of the file in the stream of the connection.
      [RequestArrival]: the same from the read events of the connection on, however
      the request is cut into pieces ([request_served_in_pieces]).
      [Programs] (the [main] functions of the servers): the loop they put together, with
      the listening socket and the timers it is given before it runs, meets what the
      theorems on loops start from.
    - [ListenSocketfd] ([listen_socketfd.cc]): what is accepted reaches the server in
      order.  [Preconnect] ([preconnect_socketfd.cc]): an attempt to connect goes on
      until exactly one outcome, with the schedule of its retries and the ways a run
      ends early.  [TcpClient]
      ([tcp_client.cc]): the client's life cycle over the interfaces
      [ConnectDescriptor] and [ClientConnection].
    - [Any] ([util/any.h]): a type-erased value behaves like a value; no holder leaks
      or dangles.  [ThisThread] ([util/this_thread.cc], [util/time_point.cc]): the
      cached dates are those formatted anew, a thread's number, and sleeping.
    - [Sockets] ([inet_address.cc], [socketfd.cc]): addresses as bytes of memory, given
      as text, handed to the kernel by bind and connect and got back from getsockname,
      getpeername and accept.  [Monitor] ([util/mutex.cc],
      [util/mutex_guard.h], [util/condition_variable.cc]): mutual exclusion around data,
      and waiting with a timeout.  [Signals] ([signalfd.cc]): signal sets, and signals
      read from a descriptor.  [Shutdown] (the dispatchers in [example]): a terminating
      signal ends the event loop.
    - [ConnectionDestroying] ([tcp_server.cc] as [script/build.sh] configures it): the
      thread that destroys closed connections destroys each of them once.
      [Echo] ([example/echo]): complete lines come back unchanged, however they arrive.

    ** Bounds and fuel

    [Timer.expire_until] runs with as much fuel as the timer crosses intervals;
    [TcpConnectSocketfd] sends with the length of the data and as many more steps
    as its kernel has patience ([send_patience], any number) for errors that mean
    nothing to the code, and receives with as many steps as the kernel has chunks; the decimal loops of [Format] have fuel 20,
    the digits of a 64-bit number.  The tag of the semi lock-free allocator and the
    tail of the schedules it is proved for are bounded by [2 ^ 64] steps.  The fuel of
    [HttpServer.shutdown_connection] is the depth of the stack: one level is enough for
    an answer that is written at once, and [closing_write_never_returns] shows that no
    depth is enough otherwise.

    ** Not modelled

    [strerror_r] ([util/errno.cc]), the template machinery ([util/type_traits.h],
    [util/type_name.h]), the [main] function of the echo client, benchmarks, tests and
    scripts have no behaviour of their own beyond the calls they make.  What
    [server->stop()] does in a signal dispatcher is [TcpServer.stop]; to the loop in
    [Shutdown] it is the descriptors that leave the poller.  Declarations, defaulted
    and deleted members and registrations of callbacks are parameters or arguments of
    the models.  Of all strings on the slab allocator only those of the buffers ask it
    for memory in the model; a path, a header or a body is a list of bytes.  The only
    reference to the connection of a [TcpClient] is the client's.  The loops of worker
    threads have kernels and clocks of their own and are not part of [Programs].
    Memory that the kernel or the allocator of the system is asked for is
    a parameter; the release of what a slab holds is left out where it only frees
    memory. *)
From Stdlib Require Export Ascii Lia ZArith.
From Stdlib Require String.
From stdpp Require Export base tactics numbers list strings gmap sets.

#[global] Set Default Goal Selector "!".
#[global] Set Default Proof Using "Type".

(** * Outcomes of C++ code

    A C++ function either returns, or the process is lost: [LOG_FATAL] and
    [::abort()] terminate it, an exception escapes every handler of this code
    base (there is no [catch] in it), or the behaviour is undefined.
    [OutOfFuel] is not an outcome of the code: it marks a loop whose fuel was
    too small.  The development proves that it is not produced, or when: only where
    the code itself may go on for ever. *)
Inductive failure : Type :=
| Fatal
| Uncaught
| UndefinedBehaviour
| OutOfFuel.

Inductive result (A : Type) : Type :=
| Ok (a : A)
| Err (e : failure).
Arguments Ok {A} a.
Arguments Err {A} e.

#[export] Instance failure_eq_dec : EqDecision failure.
Proof. solve_decision. Defined.

#[export] Instance result_ret : MRet result := fun A a => Ok a.
#[export] Instance result_bind : MBind result := fun A B f r =>
  match r with Ok a => f a | Err e => Err e end.
#[export] Instance result_fmap : FMap result := fun A B f r =>
  match r with Ok a => Ok (f a) | Err e => Err e end.

Declare Scope cpp_scope.
Delimit Scope cpp_scope with cpp.
Open Scope cpp_scope.

Notation "'let*' x ':=' e 'in' k" :=
  (match e with Ok x => k | Err e' => Err e' end)
  (at level 10, x pattern, e at level 100, k at level 200) : cpp_scope.

Definition of_option {A} (e : failure) (o : option A) : result A :=
  match o with Some a => Ok a | None => Err e end.

Lemma bind_ok {A B} (r : result A) (f : A -> result B) b :
  (let* a := r in f a) = Ok b -> exists a, r = Ok a /\ f a = Ok b.
Proof. destruct r; naive_solver. Qed.

Lemma of_option_ok {A} e (o : option A) a : of_option e o = Ok a -> o = Some a.
Proof. destruct o; naive_solver. Qed.

(** Inverts every [Ok] equation of the context. *)
Ltac inv_ok :=
  repeat match goal with
  | H : Ok _ = Ok _ |- _ => injection H as H; subst
  | H : Err _ = Ok _ |- _ => discriminate H
  | H : Ok _ = Err _ |- _ => discriminate H
  | H : of_option _ _ = Ok _ |- _ => apply of_option_ok in H
  | H : match ?e with Ok _ => _ | Err _ => _ end = Ok _ |- _ =>
      let E := fresh "E" in destruct e eqn:E; [| discriminate H]
  | H : (_, _) = (_, _) |- _ => injection H as H; subst
  end.

(** * Fixed-width integers *)
Definition int64_min : Z := - 2 ^ 63.
Definition int64_max : Z := 2 ^ 63 - 1.
Definition in_int64 (z : Z) : bool := (int64_min <=? z)%Z && (z <=? int64_max)%Z.

(** Signed 64-bit arithmetic: a result outside the type is undefined. *)
Definition i64 (z : Z) : result Z := if in_int64 z then Ok z else Err UndefinedBehaviour.

(** Unsigned 64-bit arithmetic ([size_t], [uint64_t]) wraps around. *)
Definition u64 (z : Z) : Z := (z mod 2 ^ 64)%Z.

Lemma in_int64_spec z : in_int64 z = true <-> (int64_min <= z <= int64_max)%Z.
Proof. unfold in_int64. rewrite andb_true_iff, !Z.leb_le. done. Qed.

Lemma i64_ok z : (int64_min <= z <= int64_max)%Z -> i64 z = Ok z.
Proof. intros H. unfold i64. apply in_int64_spec in H. by rewrite H. Qed.

Lemma i64_inv z w : i64 z = Ok w -> w = z /\ (int64_min <= z <= int64_max)%Z.
Proof.
  unfold i64. destruct (in_int64 z) eqn:E; [| done]. intros [= ->].
  split; [done |]. by apply in_int64_spec.
Qed.

Lemma u64_small z : (0 <= z < 2 ^ 64)%Z -> u64 z = z.
Proof. apply Z.mod_small. Qed.

Lemma u64_range z : (0 <= u64 z < 2 ^ 64)%Z.
Proof. by apply Z.mod_pos_bound. Qed.

Create HintDb cpp.
#[export] Hint Resolve u64_range : cpp.

(** * Bytes

    A [char] array is a list of [ascii]; [str] turns a literal into one. *)
Abbreviation bytes := (list ascii).
Definition str (s : string) : bytes := String.list_ascii_of_string s.

#[export] Instance ascii_countable : Countable ascii :=
  inj_countable' N_of_ascii ascii_of_N ascii_N_embedding.

Definition NUL : ascii := ascii_of_nat 0.
Definition LF : ascii := ascii_of_nat 10.
Definition CR : ascii := ascii_of_nat 13.
Definition SP : ascii := ascii_of_nat 32.
Definition crlf : bytes := [CR; LF].

(** The characters of a string up to its first NUL, as a system call sees them. *)
Fixpoint c_str (s : bytes) : bytes :=
  match s with [] => [] | c :: s => if decide (c = NUL) then [] else c :: c_str s end.

Lemma c_str_id s : NUL ∉ s -> c_str s = s.
Proof.
  induction s as [| c s IH]; [done |]. rewrite not_elem_of_cons. intros [Hc Hs]. simpl.
  rewrite decide_False by done. by rewrite IH.
Qed.

(** [::isspace] in the C locale. *)
Definition isspace (c : ascii) : bool :=
  let n := nat_of_ascii c in (n =? 32) || ((9 <=? n) && (n <=? 13)).

Definition isdigit (c : ascii) : bool :=
  let n := nat_of_ascii c in (48 <=? n) && (n <=? 57).

(** The bytes in [[i, j)] of a list. *)
Definition slice {A} (l : list A) (i j : nat) : list A := take (j - i) (drop i l).

Lemma length_slice {A} (l : list A) i j :
  j <= length l -> length (slice l i j) = j - i.
Proof. intros H. unfold slice. rewrite length_take, length_drop. lia. Qed.

Lemma slice_app_l {A} (l k : list A) i j :
  j <= length l -> slice (l ++ k) i j = slice l i j.
Proof.
  intros H. unfold slice. destruct (decide (i <= length l)) as [Hi | Hi].
  - rewrite drop_app_le by done. rewrite take_app_le; [done |].
    rewrite length_drop. lia.
  - replace (j - i) with 0 by lia. done.
Qed.

Lemma slice_mid {A} (p l k : list A) i j :
  i = length p -> j = length p + length l -> slice (p ++ l ++ k) i j = l.
Proof.
  intros -> ->. unfold slice. rewrite drop_app_length.
  replace (length p + length l - length p) with (length l) by lia.
  by rewrite take_app_length.
Qed.

Lemma slice_all {A} (l : list A) : slice l 0 (length l) = l.
Proof. unfold slice. rewrite Nat.sub_0_r, drop_0. by apply take_ge. Qed.

Lemma slice_split {A} (l : list A) i j k :
  i <= j <= k -> slice l i k = slice l i j ++ slice l j k.
Proof.
  intros H. unfold slice. replace (k - i) with ((j - i) + (k - j)) by lia.
  rewrite <- take_take_drop, drop_drop.
  by replace (i + (j - i)) with j by lia.
Qed.

Lemma lookup_slice {A} (l : list A) i j k : k < j - i -> slice l i j !! k = l !! (i + k).
Proof. intros H. unfold slice. rewrite lookup_take_lt by done. by rewrite lookup_drop. Qed.

Lemma slice_replicate {A} (l : list A) i j x :
  j <= length l -> (forall k, i <= k < j -> l !! k = Some x) -> slice l i j = replicate (j - i) x.
Proof.
  intros Hj H. apply list_eq. intros k. destruct (decide (k < j - i)) as [Hk | Hk].
  - rewrite lookup_slice, H, lookup_replicate_2 by lia. done.
  - rewrite !lookup_ge_None_2; [done | rewrite length_replicate; lia |].
    rewrite length_slice; lia.
Qed.

Lemma not_elem_of_slice {A} (l : list A) i j x :
  (forall k, i <= k < j -> l !! k <> Some x) -> x ∉ slice l i j.
Proof.
  intros H [k Hk]%list_elem_of_lookup.
  assert (k < j - i).
  { apply lookup_lt_Some in Hk. unfold slice in Hk. rewrite length_take in Hk. lia. }
  rewrite lookup_slice in Hk by done. apply (H (i + k)); [lia | done].
Qed.
