(* ===== verification/TimePoint.v ===== *)
(** Time points and time intervals: [include/util/time_point.h] and the clock
    conversion of [src/util/time_point.cc].

    Both classes hold one [int64_t] count of nanoseconds; the kernel interface
    takes a [timespec]. C++ division and remainder truncate ([Z.quot],
    [Z.rem]); signed arithmetic outside the type is undefined ([i64]). *)
From S2P Require Import Prelude.
Open Scope Z_scope.

Record timespec := mkTimespec { tv_sec : Z; tv_nsec : Z }.

#[export] Instance timespec_eq_dec : EqDecision timespec.
Proof. solve_decision. Defined.

Module TimeInterval.

Record t := mk { nanoseconds : Z }.

#[global] Instance t_eq_dec : EqDecision t.
Proof. solve_decision. Defined.

Definition FOREVER : Z := 0x7fffffffffffffff.
Definition SECOND : Z := 1000 * 1000 * 1000.

Definition get_timespec (ns : Z) : timespec :=
  {| tv_sec := ns `quot` SECOND; tv_nsec := ns `rem` SECOND |}.

Definition to_timespec (d : t) : timespec := get_timespec (nanoseconds d).

Definition operator_bool (d : t) : bool := negb (nanoseconds d =? 0).

Definition add (d e : t) : result t :=
  let* n := i64 (nanoseconds d + nanoseconds e) in Ok (mk n).
Definition sub (d e : t) : result t :=
  let* n := i64 (nanoseconds d - nanoseconds e) in Ok (mk n).
Definition mul (d : t) (multiplier : Z) : result t :=
  let* n := i64 (nanoseconds d * multiplier) in Ok (mk n).

Definition lt (d e : t) : bool := nanoseconds d <? nanoseconds e.
Definition le (d e : t) : bool := nanoseconds d <=? nanoseconds e.
Definition gt (d e : t) : bool := nanoseconds e <? nanoseconds d.
Definition ge (d e : t) : bool := nanoseconds e <=? nanoseconds d.
Definition eq (d e : t) : bool := nanoseconds d =? nanoseconds e.
Definition ne (d e : t) : bool := negb (nanoseconds d =? nanoseconds e).

End TimeInterval.

Module TimePoint.

Record t := mk { nanoseconds_from_epoch : Z }.

#[global] Instance t_eq_dec : EqDecision t.
Proof. solve_decision. Defined.

Definition FOREVER : t := mk 0x7ffffffffffffffe.

(** [ts] is what [::clock_gettime(CLOCK_REALTIME, &ts)] stored. *)
Definition get_nanoseconds_from_epoch (ts : timespec) : result Z :=
  let* s := i64 (tv_sec ts * TimeInterval.SECOND) in i64 (s + tv_nsec ts).

Definition get_timespec (ns : Z) : timespec :=
  {| tv_sec := ns `quot` TimeInterval.SECOND;
     tv_nsec := ns `rem` TimeInterval.SECOND |}.

Definition to_timespec (p : t) : timespec := get_timespec (nanoseconds_from_epoch p).

Definition add (p : t) (d : TimeInterval.t) : result t :=
  let* n := i64 (nanoseconds_from_epoch p + TimeInterval.nanoseconds d) in Ok (mk n).
Definition sub (p : t) (d : TimeInterval.t) : result t :=
  let* n := i64 (nanoseconds_from_epoch p - TimeInterval.nanoseconds d) in Ok (mk n).
Definition diff (p q : t) : result TimeInterval.t :=
  let* n := i64 (nanoseconds_from_epoch p - nanoseconds_from_epoch q) in
  Ok (TimeInterval.mk n).

Definition lt (p q : t) : bool := nanoseconds_from_epoch p <? nanoseconds_from_epoch q.
Definition le (p q : t) : bool := nanoseconds_from_epoch p <=? nanoseconds_from_epoch q.
Definition gt (p q : t) : bool := nanoseconds_from_epoch q <? nanoseconds_from_epoch p.
Definition ge (p q : t) : bool := nanoseconds_from_epoch q <=? nanoseconds_from_epoch p.
Definition eq (p q : t) : bool := nanoseconds_from_epoch p =? nanoseconds_from_epoch q.
Definition ne (p q : t) : bool := negb (nanoseconds_from_epoch p =? nanoseconds_from_epoch q).

(** A time point the type can hold. *)
Definition valid (p : t) : Prop := int64_min <= nanoseconds_from_epoch p <= int64_max.

Lemma eta p : mk (nanoseconds_from_epoch p) = p.
Proof. by destruct p. Qed.

Lemma eq_ns p q : nanoseconds_from_epoch p = nanoseconds_from_epoch q -> p = q.
Proof. destruct p, q; simpl; congruence. Qed.

Lemma add_ok p d :
  int64_min <= nanoseconds_from_epoch p + TimeInterval.nanoseconds d <= int64_max ->
  add p d = Ok (mk (nanoseconds_from_epoch p + TimeInterval.nanoseconds d)).
Proof. intros H. unfold add. by rewrite i64_ok. Qed.

Lemma sub_ok p d :
  int64_min <= nanoseconds_from_epoch p - TimeInterval.nanoseconds d <= int64_max ->
  sub p d = Ok (mk (nanoseconds_from_epoch p - TimeInterval.nanoseconds d)).
Proof. intros H. unfold sub. by rewrite i64_ok. Qed.

Lemma quot_rem_second ns :
  ns = (ns `quot` TimeInterval.SECOND) * TimeInterval.SECOND + ns `rem` TimeInterval.SECOND.
Proof. pose proof (Z.quot_rem' ns TimeInterval.SECOND). lia. Qed.

Lemma quot_second_bounds ns :
  int64_min <= ns <= int64_max ->
  int64_min <= (ns `quot` TimeInterval.SECOND) * TimeInterval.SECOND <= int64_max.
Proof.
  intros H. pose proof (quot_rem_second ns) as E.
  assert (HS : 0 < TimeInterval.SECOND) by done.
  assert (int64_min <= 0 <= int64_max) by done.
  destruct (Z.le_gt_cases 0 ns).
  - pose proof (Z.rem_bound_pos ns TimeInterval.SECOND ltac:(lia) HS).
    pose proof (Z.quot_pos ns TimeInterval.SECOND ltac:(lia) HS). nia.
  - pose proof (Z.rem_nonpos ns TimeInterval.SECOND ltac:(lia) ltac:(lia)).
    pose proof (Z.quot_opp_l ns TimeInterval.SECOND ltac:(lia)).
    pose proof (Z.quot_pos (- ns) TimeInterval.SECOND ltac:(lia) HS). nia.
Qed.

(** Every [int64_t] time point survives the conversion to a [timespec] and
    back through the clock's formula, without overflow; from the epoch on, the
    nanosecond field is a valid one. *)
Theorem timespec_roundtrip (p : t) (Hp : valid p) :
  get_nanoseconds_from_epoch (to_timespec p) = Ok (nanoseconds_from_epoch p) /\
  (0 <= nanoseconds_from_epoch p ->
   0 <= tv_sec (to_timespec p) /\ 0 <= tv_nsec (to_timespec p) < TimeInterval.SECOND).
Proof.
  unfold get_nanoseconds_from_epoch, to_timespec, get_timespec; simpl. split.
  - rewrite i64_ok by (by apply quot_second_bounds).
    rewrite <- quot_rem_second. by rewrite i64_ok.
  - intros H. split; [by apply Z.quot_pos |].
    by apply Z.rem_bound_pos.
Qed.

Lemma timespec_roundtrip_witness :
  valid (mk 1700000000123456789) /\
  get_nanoseconds_from_epoch (to_timespec (mk 1700000000123456789)) = Ok 1700000000123456789 /\
  tv_nsec (to_timespec (mk 1700000000123456789)) = 123456789.
Proof.
  assert (H : valid (mk 1700000000123456789)) by (split; vm_compute; discriminate).
  split; [exact H |]. split; [exact (proj1 (timespec_roundtrip _ H)) | reflexivity].
Defined.

End TimePoint.

#[export] Hint Resolve TimePoint.eq_ns : cpp.
