(* ===== verification/Monitor.v ===== *)
(** Mutexes, guards and condition variables: [src/util/mutex.cc],
    [include/util/mutex_guard.h], [src/util/condition_variable.cc] and
    [include/util/condition_variable.h].

    The pthread functions are an interface; its laws are what their manual pages
    promise for a default mutex.  Other developments of this library take a critical
    section to be one step; [monitor_mutual_exclusion] is why they may. *)
From S2P Require Import Prelude TimePoint.
Open Scope Z_scope.

Definition EBUSY : Z := 16.
Definition EINVAL : Z := 22.
Definition ETIMEDOUT : Z := 110.

(** [pthread_mutex_lock] and the end of a wait are given the calling thread and are
    [None] while it has to sleep; [cond_wait_begin] is what a wait does before the
    thread sleeps.  The codes returned are errors, and 0. *)
Class Pthread (K : Type) := {
  pthread_mutex_init : K -> Z * K;
  pthread_mutex_destroy : K -> Z * K;
  pthread_mutex_lock : Z -> K -> option (Z * K);
  pthread_mutex_trylock : Z -> K -> Z * K;
  pthread_mutex_unlock : Z -> K -> Z * K;
  pthread_cond_init : K -> Z * K;
  pthread_cond_destroy : K -> Z * K;
  pthread_cond_signal : K -> Z * K;
  pthread_cond_broadcast : K -> Z * K;
  cond_wait_begin : Z -> K -> Z * K;
  cond_wait_end : Z -> K -> option (Z * K);
  owner : K -> option Z
}.

(** A default mutex: the owner does not lock it again, only the owner unlocks it or
    waits, and it is free when it is destroyed. *)
Class PthreadLaws (K : Type) `{Pthread K} : Prop := {
  init_free k : (pthread_mutex_init k).1 = 0 -> owner (pthread_mutex_init k).2 = None;
  lock_free t k :
    owner k = None -> exists k', pthread_mutex_lock t k = Some (0, k') /\ owner k' = Some t;
  lock_held t t' k : owner k = Some t' -> pthread_mutex_lock t k = None;
  trylock_free t k :
    owner k = None -> exists k', pthread_mutex_trylock t k = (0, k') /\ owner k' = Some t;
  trylock_held t t' k :
    owner k = Some t' -> exists k', pthread_mutex_trylock t k = (EBUSY, k') /\ owner k' = Some t';
  unlock_own t k :
    owner k = Some t -> exists k', pthread_mutex_unlock t k = (0, k') /\ owner k' = None;
  destroy_free k : owner k = None -> (pthread_mutex_destroy k).1 = 0;
  wait_begin_own t k :
    owner k = Some t -> exists k', cond_wait_begin t k = (0, k') /\ owner k' = None;
  wait_end_free t k c k' :
    cond_wait_end t k = Some (c, k') -> c = 0 /\ owner k = None /\ owner k' = Some t;
  signal_ok k : (pthread_cond_signal k).1 = 0 /\ owner (pthread_cond_signal k).2 = owner k;
  broadcast_ok k :
    (pthread_cond_broadcast k).1 = 0 /\ owner (pthread_cond_broadcast k).2 = owner k
}.

Section Operations.
Context {K : Type} `{Pthread K}.

(** Any error is printed, and the process is aborted. *)
Definition check (r : Z * K) : result K :=
  let '(saved_errno, k) := r in if negb (saved_errno =? 0) then Err Fatal else Ok k.

(** * [Mutex] *)
Definition new_Mutex (k : K) : result K := check (pthread_mutex_init k).
Definition delete_Mutex (k : K) : result K := check (pthread_mutex_destroy k).
Definition lock (t : Z) (k : K) : option (result K) := check <$> pthread_mutex_lock t k.

Definition try_lock (t : Z) (k : K) : result (bool * K) :=
  let '(saved_errno, k) := pthread_mutex_trylock t k in
  if saved_errno =? 0 then Ok (true, k)
  else if saved_errno =? EBUSY then Ok (false, k)
  else Err Fatal.

Definition unlock (t : Z) (k : K) : result K := check (pthread_mutex_unlock t k).

(** * [MutexGuard]: the constructor and the destructor *)
Definition new_MutexGuard (t : Z) (k : K) : option (result K) := lock t k.
Definition delete_MutexGuard (t : Z) (k : K) : result K := unlock t k.

(** * [ConditionVariable] *)
Definition new_ConditionVariable (k : K) : result K := check (pthread_cond_init k).
Definition delete_ConditionVariable (k : K) : result K := check (pthread_cond_destroy k).
Definition notify_one (k : K) : result K := check (pthread_cond_signal k).
Definition notify_all (k : K) : result K := check (pthread_cond_broadcast k).

(** The two halves of [wait]. *)
Definition wait_begin (t : Z) (k : K) : result K := check (cond_wait_begin t k).
Definition wait_end (t : Z) (k : K) : option (result K) := check <$> cond_wait_end t k.
End Operations.

(** * Waiting, as the waiting thread sees it

    One return of [pthread_cond_wait] or [pthread_cond_timedwait]: its code, the time,
    and what other threads did to the data the mutex protects meanwhile. *)
Record wake (W : Type) := mkWake {
  code : Z;
  at_time : TimePoint.t;
  meanwhile : W -> W
}.
Arguments mkWake {W}.
Arguments code {W}.
Arguments at_time {W}.
Arguments meanwhile {W}.

Inductive TimeoutStatus := NOT_TIMEOUT | TIMEOUT.

Section Waiting.
Context {W : Type} (predicate : W -> bool).

(** [None]: still asleep when the given returns are used up. *)
Definition wait (wakes : list (wake W)) (w : W) : option (result (W * list (wake W))) :=
  match wakes with
  | [] => None
  | wk :: wakes =>
      Some (if negb (code wk =? 0) then Err Fatal else Ok (meanwhile wk w, wakes))
  end.

Fixpoint wait_predicate (wakes : list (wake W)) (w : W) : option (result (W * list (wake W))) :=
  if predicate w then Some (Ok (w, wakes))
  else
    match wakes with
    | [] => None
    | wk :: wakes =>
        if negb (code wk =? 0) then Some (Err Fatal) else wait_predicate wakes (meanwhile wk w)
    end.

(** [pthread_cond_timedwait] returns [EINVAL] at once for a malformed [timespec]. *)
Definition well_formed (ts : timespec) : bool :=
  (0 <=? tv_nsec ts) && (tv_nsec ts <? TimeInterval.SECOND).

Definition wait_until (time_point : TimePoint.t) (wakes : list (wake W)) (w : W)
    : option (result (TimeoutStatus * W * list (wake W))) :=
  let time_specification := TimePoint.to_timespec time_point in
  if negb (well_formed time_specification) then Some (Err Fatal)
  else
    match wakes with
    | [] => None
    | wk :: wakes =>
        Some (if code wk =? 0 then Ok (NOT_TIMEOUT, meanwhile wk w, wakes)
              else if code wk =? ETIMEDOUT then Ok (TIMEOUT, meanwhile wk w, wakes)
              else Err Fatal)
    end.

Fixpoint wait_until_predicate (time_point : TimePoint.t) (wakes : list (wake W)) (w : W)
    : option (result (bool * W * list (wake W))) :=
  if predicate w then Some (Ok (true, w, wakes))
  else
    if negb (well_formed (TimePoint.to_timespec time_point)) then Some (Err Fatal)
    else
      match wakes with
      | [] => None
      | wk :: wakes =>
          if code wk =? 0 then wait_until_predicate time_point wakes (meanwhile wk w)
          else if code wk =? ETIMEDOUT
          then let w := meanwhile wk w in Some (Ok (predicate w, w, wakes))
          else Some (Err Fatal)
      end.

Definition wait_for (time_interval : TimeInterval.t) (now : TimePoint.t) (wakes : list (wake W))
    (w : W) : option (result (TimeoutStatus * W * list (wake W))) :=
  match TimePoint.add now time_interval with
  | Err e => Some (Err e)
  | Ok time_point => wait_until time_point wakes w
  end.

Definition wait_for_predicate (time_interval : TimeInterval.t) (now : TimePoint.t)
    (wakes : list (wake W)) (w : W) : option (result (bool * W * list (wake W))) :=
  match TimePoint.add now time_interval with
  | Err e => Some (Err e)
  | Ok time_point => wait_until_predicate time_point wakes w
  end.

(** ** What the loops promise *)
Definition after (wakes : list (wake W)) (w : W) : W :=
  foldl (fun w wk => meanwhile wk w) w wakes.

(** The predicate did not hold before the last of these returns. *)
Definition false_before (used : list (wake W)) (w : W) : Prop :=
  forall l1 l2, used = l1 ++ l2 -> l2 <> [] -> predicate (after l1 w) = false.

(** What [pthread_cond_timedwait] returns, given the deadline. *)
Definition returns_by (deadline : Z) (wk : wake W) : Prop :=
  code wk = 0 \/
  (code wk = ETIMEDOUT /\ deadline <= TimePoint.nanoseconds_from_epoch (at_time wk)).

Lemma false_before_cons wk used w :
  predicate w = false -> false_before used (meanwhile wk w) -> false_before (wk :: used) w.
Proof.
  intros Hw Hu [| x l1] l2 E Hne; [done |]. injection E as <- E. by apply (Hu l1 l2).
Qed.

Lemma false_before_nil w : false_before [] w.
Proof. intros l1 l2 E Hne. by destruct l1, l2. Qed.

(** The loop over [wait_until] is the one of the header. *)
Lemma wait_until_predicate_unfold time_point wakes w :
  wait_until_predicate time_point wakes w =
  if predicate w then Some (Ok (true, w, wakes))
  else
    match wait_until time_point wakes w with
    | None => None
    | Some (Err e) => Some (Err e)
    | Some (Ok (TIMEOUT, w, wakes)) => Some (Ok (predicate w, w, wakes))
    | Some (Ok (NOT_TIMEOUT, w, wakes)) => wait_until_predicate time_point wakes w
    end.
Proof.
  unfold wait_until. destruct wakes as [| wk wakes]; simpl; destruct (predicate w); try done;
    destruct (well_formed _); try done; simpl.
  destruct (code wk =? 0); [done |]. by destruct (code wk =? ETIMEDOUT).
Qed.

Lemma wait_until_predicate_spec time_point wakes w :
  well_formed (TimePoint.to_timespec time_point) = true ->
  Forall (returns_by (TimePoint.nanoseconds_from_epoch time_point)) wakes ->
  match wait_until_predicate time_point wakes w with
  | None => false_before wakes w /\ predicate (after wakes w) = false /\
            Forall (fun wk => code wk = 0) wakes
  | Some (Err _) => False
  | Some (Ok (b, w', rest)) =>
      exists used, wakes = used ++ rest /\ w' = after used w /\ predicate w' = b /\
        false_before used w /\
        (b = false -> exists wk, wk ∈ used /\
           TimePoint.nanoseconds_from_epoch time_point
           <= TimePoint.nanoseconds_from_epoch (at_time wk))
  end.
Proof.
  intros Hwf Hok. revert w. induction Hok as [| wk wakes Hwk Hok IH]; intros w; simpl;
    destruct (predicate w) eqn:Ep; rewrite ?Hwf; simpl.
  - exists []. repeat split; [done | apply false_before_nil | discriminate].
  - repeat split; [apply false_before_nil | apply Forall_nil_2].
  - exists []. repeat split; [done | apply false_before_nil | discriminate].
  - destruct Hwk as [E0 | [E0 Ht]]; rewrite E0; simpl.
    + specialize (IH (meanwhile wk w)).
      destruct (wait_until_predicate _ _ _) as [[[[b w'] rest] | e] |]; [| done |].
      * destruct IH as (used & -> & -> & Hb & Hf & Hto). exists (wk :: used).
        repeat split; [done | by apply false_before_cons |]. intros E.
        destruct (Hto E) as (x & Hx & Hl). exists x. split; [by apply elem_of_cons; right | done].
      * destruct IH as (Hf & Hp & Hc).
        repeat split; [by apply false_before_cons | done | by constructor].
    + exists [wk]. split; [done |]. split; [done |]. split; [done |].
      split; [apply false_before_cons; [done | apply false_before_nil] |].
      intros _. exists wk. split; [by apply elem_of_cons; left | done].
Qed.
End Waiting.

(** C24: Waiting with a timeout: the answer is whether the condition holds when the
    waiting ends, it ends at the first return at which it does, it gives up only
    once the interval is over, and a thread that is still asleep has missed neither.
    The only failure is a deadline past the largest time point. *)
Theorem wait_for_spec {W} (predicate : W -> bool) interval now wakes (w : W)
    (Hnow : 0 <= TimePoint.nanoseconds_from_epoch now <= int64_max)
    (Hint : 0 <= TimeInterval.nanoseconds interval)
    (Hok : Forall (returns_by (TimePoint.nanoseconds_from_epoch now
                               + TimeInterval.nanoseconds interval)) wakes) :
  let deadline := TimePoint.nanoseconds_from_epoch now + TimeInterval.nanoseconds interval in
  match wait_for_predicate predicate interval now wakes w with
  | Some (Err e) => e = UndefinedBehaviour /\ int64_max < deadline
  | None => false_before predicate wakes w /\ predicate (after wakes w) = false /\
            Forall (fun wk => code wk = 0) wakes
  | Some (Ok (b, w', rest)) =>
      exists used, wakes = used ++ rest /\ w' = after used w /\ predicate w' = b /\
        false_before predicate used w /\
        (b = false -> exists wk, wk ∈ used /\
           deadline <= TimePoint.nanoseconds_from_epoch (at_time wk))
  end.
Proof.
  intros deadline. unfold wait_for_predicate, TimePoint.add, i64. fold deadline.
  destruct (in_int64 deadline) eqn:E; simpl.
  - pose proof (wait_until_predicate_spec predicate (TimePoint.mk deadline) wakes w) as Hs.
    cut (well_formed (TimePoint.to_timespec (TimePoint.mk deadline)) = true).
    { intros Hwf. specialize (Hs Hwf Hok). by destruct (wait_until_predicate _ _ _ _) as [[|] |]. }
    unfold well_formed, TimePoint.to_timespec, TimePoint.get_timespec. simpl.
    pose proof (Z.rem_bound_pos deadline TimeInterval.SECOND).
    assert (0 <= deadline) by (unfold deadline; lia).
    apply andb_true_iff. rewrite Z.leb_le, Z.ltb_lt. unfold TimeInterval.SECOND in *. lia.
  - split; [done |]. unfold in_int64, int64_min, int64_max in *.
    apply andb_false_iff in E as [E | E]; apply Z.leb_gt in E; lia.
Qed.

(** A deadline before the epoch is not a [timespec] the call accepts. *)
Theorem wait_before_epoch_is_fatal {W} (predicate : W -> bool) time_point wakes (w : W)
    (Hn : TimePoint.nanoseconds_from_epoch time_point < 0)
    (Hs : Z.rem (TimePoint.nanoseconds_from_epoch time_point) TimeInterval.SECOND <> 0)
    (Hp : predicate w = false) :
  wait_until_predicate predicate time_point wakes w = Some (Err Fatal).
Proof.
  assert (Hwf : well_formed (TimePoint.to_timespec time_point) = false).
  { apply andb_false_iff. left. apply Z.leb_gt. simpl.
    pose proof (Z.rem_nonpos (TimePoint.nanoseconds_from_epoch time_point) TimeInterval.SECOND
                  ltac:(discriminate) ltac:(lia)). lia. }
  destruct wakes; simpl; by rewrite Hp, Hwf.
Qed.

(** * Threads around one mutex

    A thread is outside of the scopes of its guards, inside one, or asleep in a wait.
    [shared] is the data the mutex protects. *)
Inductive position := Outside | Inside | Asleep.

#[export] Instance position_eq_dec : EqDecision position.
Proof. solve_decision. Defined.

Section Threads.
Set Default Proof Using "Type*".
Context {K W : Type} {HP : Pthread K} {HPl : PthreadLaws K}.
(** What holds of the data while no thread is inside: a thread that leaves or waits
    has to see to it. *)
Context (consistent : W -> Prop).

Record machine := mkMachine {
  mutex : K;
  positions : gmap Z position;
  shared : W
}.

Inductive step : machine -> machine -> Prop :=
| enters t m k :
    positions m !! t = Some Outside -> new_MutexGuard t (mutex m) = Some (Ok k) ->
    step m (mkMachine k (<[t := Inside]> (positions m)) (shared m))
| tries t m (b : bool) k :
    positions m !! t = Some Outside -> try_lock t (mutex m) = Ok (b, k) ->
    step m (mkMachine k (<[t := if b then Inside else Outside]> (positions m)) (shared m))
| works t m w :
    positions m !! t = Some Inside ->
    step m (mkMachine (mutex m) (positions m) w)
| leaves t m k :
    positions m !! t = Some Inside -> consistent (shared m) ->
    delete_MutexGuard t (mutex m) = Ok k ->
    step m (mkMachine k (<[t := Outside]> (positions m)) (shared m))
| sleeps t m k :
    positions m !! t = Some Inside -> consistent (shared m) -> wait_begin t (mutex m) = Ok k ->
    step m (mkMachine k (<[t := Asleep]> (positions m)) (shared m))
| wakes t m k :
    positions m !! t = Some Asleep -> wait_end t (mutex m) = Some (Ok k) ->
    step m (mkMachine k (<[t := Inside]> (positions m)) (shared m))
| notifies t m p k (all : bool) :
    positions m !! t = Some p -> p <> Asleep ->
    (if all then notify_all (mutex m) else notify_one (mutex m)) = Ok k ->
    step m (mkMachine k (positions m) (shared m)).

(** The mutex is held just by the thread that is inside, and what it protects is
    consistent while there is none. *)
Record machine_ok (m : machine) : Prop := {
  m_owner t : positions m !! t = Some Inside <-> owner (mutex m) = Some t;
  m_shared : owner (mutex m) = None -> consistent (shared m)
}.

Lemma check_0 (r : Z * K) (k : K) : r = (0, k) -> check r = Ok k.
Proof using Type. by intros ->. Qed.

Lemma locked_by t k r :
  new_MutexGuard t k = Some r -> owner k = None /\ exists k', r = Ok k' /\ owner k' = Some t.
Proof.
  unfold new_MutexGuard, lock. intros E. destruct (owner k) as [t' |] eqn:Eo.
  { by rewrite (lock_held t t' k Eo) in E. }
  destruct (lock_free t k Eo) as (k' & Ek & Ho). rewrite Ek in E. injection E as <-.
  split; [done |]. by exists k'.
Qed.

Lemma tried_by t k :
  exists b k', try_lock t k = Ok (b, k') /\
    (b = true /\ owner k = None /\ owner k' = Some t \/
     b = false /\ owner k <> None /\ owner k' = owner k).
Proof.
  unfold try_lock. destruct (owner k) as [t' |] eqn:Eo.
  - destruct (trylock_held t t' k Eo) as (k' & -> & Ho). exists false, k'. split; [done |].
    right. by rewrite Ho.
  - destruct (trylock_free t k Eo) as (k' & -> & Ho). exists true, k'. split; [done |]. by left.
Qed.

Lemma unlocked_by t k :
  owner k = Some t -> exists k', delete_MutexGuard t k = Ok k' /\ owner k' = None.
Proof. intros Ho. destruct (unlock_own t k Ho) as (k' & E & Hn). exists k'. by rewrite <- (check_0 _ _ E). Qed.

Lemma slept_by t k :
  owner k = Some t -> exists k', wait_begin t k = Ok k' /\ owner k' = None.
Proof. intros Ho. destruct (wait_begin_own t k Ho) as (k' & E & Hn). exists k'. by rewrite <- (check_0 _ _ E). Qed.

Lemma woken_by t k r :
  wait_end t k = Some r -> owner k = None /\ exists k', r = Ok k' /\ owner k' = Some t.
Proof.
  unfold wait_end. destruct (cond_wait_end t k) as [[c k'] |] eqn:E; [| done].
  intros [= <-]. destruct (wait_end_free t k c k' E) as (-> & Hn & Ho).
  split; [done |]. by exists k'.
Qed.

Lemma notified (all : bool) k :
  exists k', (if all then notify_all k else notify_one k) = Ok k' /\ owner k' = owner k.
Proof.
  destruct all; [destruct (broadcast_ok k) as [E Ho] | destruct (signal_ok k) as [E Ho]].
  - unfold notify_all. destruct (pthread_cond_broadcast k) as [c k']. simpl in *. subst c. by exists k'.
  - unfold notify_one. destruct (pthread_cond_signal k) as [c k']. simpl in *. subst c. by exists k'.
Qed.

(** A step of a thread that is inside, or goes inside, moves the ownership with it. *)
Lemma position_moves m t p k w :
  machine_ok m ->
  (p = Inside -> owner (mutex m) = None /\ owner k = Some t) ->
  (p <> Inside -> owner (mutex m) = Some t /\ owner k = None /\ consistent w) ->
  machine_ok (mkMachine k (<[t := p]> (positions m)) w).
Proof.
  intros [Ho Hs] Hin Hout. destruct (decide (p = Inside)) as [-> | Hne].
  - destruct (Hin eq_refl) as [Hn Hk]. constructor; simpl; [| congruence].
    intros t'. rewrite Hk. destruct (decide (t' = t)) as [-> | Ht].
    + by rewrite lookup_insert_eq.
    + rewrite lookup_insert_ne by done. split; [| congruence].
      intros Hp. apply Ho in Hp. congruence.
  - destruct (Hout Hne) as (Hn & Hk & Hc). constructor; simpl; [| done].
    intros t'. rewrite Hk. split; [| done]. destruct (decide (t' = t)) as [-> | Ht].
    + rewrite lookup_insert_eq. congruence.
    + rewrite lookup_insert_ne by done. intros Hp. apply Ho in Hp. congruence.
Qed.

Lemma owner_same m k w :
  machine_ok m -> owner k = owner (mutex m) ->
  (owner k = None -> consistent w) -> machine_ok (mkMachine k (positions m) w).
Proof. intros [Ho Hs] E Hc. constructor; simpl; [intros t; by rewrite E | done]. Qed.

Lemma step_ok m m' : machine_ok m -> step m m' -> machine_ok m'.
Proof.
  intros Hm Hstep. pose proof (m_owner _ Hm) as Ho. pose proof (m_shared _ Hm) as Hs.
  destruct Hstep as [t m k Hp E | t m b k Hp E | t m w Hp | t m k Hp Hc E | t m k Hp Hc E
                    | t m k Hp E | t m p k all Hp Hne E].
  - destruct (locked_by _ _ _ E) as (Hn & k' & [= <-] & Hk). apply position_moves; [done .. |].
    intros Hne. done.
  - destruct (tried_by t (mutex m)) as (b' & k' & E' & Hb). rewrite E in E'.
    injection E' as <- <-. destruct Hb as [(-> & Hn & Hk) | (-> & Hn & Hk)].
    + by apply position_moves.
    + rewrite insert_id by done. apply owner_same; [done | done |]. rewrite Hk. done.
  - apply owner_same; [done | done |]. intros Hn. apply Ho in Hp. congruence.
  - apply Ho in Hp. destruct (unlocked_by t _ Hp) as (k' & E' & Hn). rewrite E in E'.
    injection E' as <-. by apply position_moves.
  - apply Ho in Hp. destruct (slept_by t _ Hp) as (k' & E' & Hn). rewrite E in E'.
    injection E' as <-. by apply position_moves.
  - destruct (woken_by _ _ _ E) as (Hn & k' & [= <-] & Hk). by apply position_moves.
  - destruct (notified all (mutex m)) as (k' & E' & Hk). rewrite E in E'. injection E' as <-.
    apply owner_same; [done | done |]. rewrite Hk. done.
Qed.

Lemma reachable_ok m m' : machine_ok m -> rtc step m m' -> machine_ok m'.
Proof. intros Hm Hr. induction Hr as [| m1 m2 m3 H12 H23 IH]; [done |]. by apply IH, (step_ok m1). Qed.

Lemma nobody_inside m :
  machine_ok m -> (forall t, positions m !! t <> Some Inside) -> owner (mutex m) = None.
Proof using Type.
  intros [Ho _] Hn. destruct (owner (mutex m)) as [t |] eqn:E; [| done].
  exfalso. apply (Hn t). by apply Ho.
Qed.

(** C10: However the threads' guards, waits and notifications interleave: two threads are
    never inside together, a step that changes the data is one of the thread inside,
    the data is consistent whenever nobody is, and whoever then asks for the mutex
    gets it; and no call of a thread that goes in, tries, leaves or waits fails. *)
Theorem monitor_mutual_exclusion k threads w m
    (Hk : owner k = None) (Hw : consistent w)
    (Hm : rtc step (mkMachine k (gset_to_gmap Outside threads) w) m) :
  (forall t t', positions m !! t = Some Inside -> positions m !! t' = Some Inside -> t = t') /\
  (forall m', step m m' ->
     shared m' = shared m \/
     exists t, positions m !! t = Some Inside /\ positions m' = positions m) /\
  ((forall t, positions m !! t <> Some Inside) ->
     consistent (shared m) /\ forall t, exists k', new_MutexGuard t (mutex m) = Some (Ok k')) /\
  (forall t r, new_MutexGuard t (mutex m) = Some r -> exists k', r = Ok k') /\
  (forall t, exists b k', try_lock t (mutex m) = Ok (b, k')) /\
  (forall t, positions m !! t = Some Inside ->
     (exists k', delete_MutexGuard t (mutex m) = Ok k') /\
     (exists k', wait_begin t (mutex m) = Ok k')).
Proof.
  assert (Hok : machine_ok m).
  { eapply reachable_ok; [| exact Hm]. constructor; simpl; [| done]. intros t.
    rewrite lookup_gset_to_gmap_Some, Hk. split; [by intros [] | done]. }
  pose proof (m_owner _ Hok) as Ho. split; [| split; [| split; [| split; [| split]]]].
  - intros t t' H1 H2. apply Ho in H1, H2. congruence.
  - intros m' Hst. destruct Hst; auto. right. eauto.
  - intros Hn. pose proof (nobody_inside m Hok Hn) as Hf. split; [by apply (m_shared _ Hok) |].
    intros t. destruct (lock_free t _ Hf) as (k' & E & _). exists k'.
    unfold new_MutexGuard, lock. by rewrite E.
  - intros t r E. destruct (locked_by _ _ _ E) as (_ & k' & -> & _). by exists k'.
  - intros t. destruct (tried_by t (mutex m)) as (b & k' & E & _). by exists b, k'.
  - intros t Hin. apply Ho in Hin. destruct (unlocked_by _ _ Hin) as (k1 & E1 & _).
    destruct (slept_by _ _ Hin) as (k2 & E2 & _). eauto.
Qed.
End Threads.

(** * A mutex that remembers its owner *)
#[export] Instance sample_pthread : Pthread (option Z) := {|
  pthread_mutex_init _ := (0, None);
  pthread_mutex_destroy o := (match o with Some _ => EBUSY | None => 0 end, o);
  pthread_mutex_lock t o := match o with Some _ => None | None => Some (0, Some t) end;
  pthread_mutex_trylock t o := match o with Some _ => (EBUSY, o) | None => (0, Some t) end;
  pthread_mutex_unlock _ _ := (0, None);
  pthread_cond_init o := (0, o);
  pthread_cond_destroy o := (0, o);
  pthread_cond_signal o := (0, o);
  pthread_cond_broadcast o := (0, o);
  cond_wait_begin _ _ := (0, None);
  cond_wait_end t o := match o with Some _ => None | None => Some (0, Some t) end;
  owner o := o
|}.

#[export] Instance sample_pthread_laws : PthreadLaws (option Z).
Proof.
  constructor; simpl; try done; try (by intros; subst; eauto).
  - intros t [] c k'; [done |]. by intros [= <- <-].
Qed.

(** Thread 1 waits for the counter to be positive, thread 2 increments it. *)
Definition counting (o : option Z) (p1 p2 : position) (n : Z) : machine (K := option Z) (W := Z) :=
  mkMachine o (<[1 := p1]> (<[2 := p2]> ∅)) n.

Lemma counting_step o p1 p2 n m :
  step (Z.le 0) (counting o p1 p2 n) m -> forall o' p1' p2' n',
  m = mkMachine o' (positions m) n' -> positions m = <[1 := p1']> (<[2 := p2']> ∅) ->
  step (Z.le 0) (counting o p1 p2 n) (counting o' p1' p2' n').
Proof. intros Hs o' p1' p2' n' E Hp. unfold counting at 2. rewrite <- Hp, <- E. exact Hs. Qed.

Lemma counting_run :
  rtc (step (Z.le 0)) (mkMachine None (gset_to_gmap Outside {[1; 2]}) 0)
    (counting (Some 1) Inside Outside 1).
Proof.
  change (mkMachine None (gset_to_gmap Outside {[1; 2]}) 0) with (counting None Outside Outside 0).
  apply (rtc_l _ _ (counting (Some 1) Inside Outside 0)).
  { eapply counting_step; [by apply (enters _ 1) | reflexivity | reflexivity]. }
  apply (rtc_l _ _ (counting None Asleep Outside 0)).
  { eapply counting_step; [by apply (sleeps _ 1) | reflexivity | reflexivity]. }
  apply (rtc_l _ _ (counting (Some 2) Asleep Inside 0)).
  { eapply counting_step; [by apply (enters _ 2) | reflexivity | reflexivity]. }
  apply (rtc_l _ _ (counting (Some 2) Asleep Inside 1)).
  { by apply (works _ 2 (counting (Some 2) Asleep Inside 0)). }
  apply (rtc_l _ _ (counting None Asleep Outside 1)).
  { eapply counting_step; [by apply (leaves _ 2) | reflexivity | reflexivity]. }
  apply (rtc_l _ _ (counting None Asleep Outside 1)).
  { by apply (notifies _ 2 (counting None Asleep Outside 1) Outside None false). }
  apply rtc_once. eapply counting_step; [by apply (wakes _ 1) | reflexivity | reflexivity].
Qed.

Lemma monitor_mutual_exclusion_witness :
  (exists k', delete_MutexGuard 1 (mutex (counting (Some 1) Inside Outside 1)) = Ok k') /\
  forall t, positions (counting (Some 1) Inside Outside 1) !! t = Some Inside -> 1 = t.
Proof.
  destruct (monitor_mutual_exclusion (HP := sample_pthread) (Z.le 0) None {[1; 2]} 0 _ eq_refl
              (Z.le_refl 0) counting_run) as (H1 & _ & _ & _ & _ & H2).
  split; [apply (H2 1); reflexivity |]. intros t. apply H1. reflexivity.
Defined.

Lemma wait_for_spec_witness :
  wait_for_predicate (fun n => 0 <? n) (TimeInterval.mk 10) (TimePoint.mk 5)
    [mkWake 0 (TimePoint.mk 7) id; mkWake 110 (TimePoint.mk 15) (Z.add 1)] 0
  = Some (Ok (true, 1, [])).
Proof.
  pose proof (wait_for_spec (fun n => 0 <? n) (TimeInterval.mk 10) (TimePoint.mk 5)
                [mkWake 0 (TimePoint.mk 7) id; mkWake 110 (TimePoint.mk 15) (Z.add 1)] 0) as Hs.
  destruct (wait_for_predicate _ _ _ _ _) as [[[[b w] rest] |] |] eqn:E;
    [| vm_compute in E; discriminate E ..].
  destruct Hs as (used & _ & _ & Hb & _); [split; discriminate | discriminate | |].
  - apply Forall_cons_2; [by left |]. apply Forall_cons_2; [right; split; [done | discriminate] |].
    apply Forall_nil_2.
  - vm_compute in E. injection E as <- <- <-. reflexivity.
Defined.

Lemma wait_before_epoch_is_fatal_witness :
  wait_until_predicate (fun b => b) (TimePoint.mk (-1)) [] false = Some (Err Fatal).
Proof. by apply wait_before_epoch_is_fatal. Defined.
