(* ===== verification/Timer.v ===== *)
(** One timer element: [include/timer.h], [src/timer.cc].

    The callback is user code: it transforms a state [W] outside the timer
    (the fields of a [Timer] are private to the functions below, so the
    callback does not reach them). *)
From S2P Require Import Prelude TimePoint.
Open Scope Z_scope.

(** [callback] names the [std::function] the timer holds. *)
Record Timer := mkTimer {
  _expiration_time_point : TimePoint.t;
  _repetition_time_interval : TimeInterval.t;
  _number_of_repetitions_left : Z;
  _callback : nat
}.

#[export] Instance Timer_eq_dec : EqDecision Timer.
Proof. solve_decision. Defined.

(** The constructor: [Timer::Timer]. *)
Definition new_Timer (expiration : TimePoint.t) (interval : TimeInterval.t)
    (repetitions : Z) (callback : nat) : Timer :=
  {| _expiration_time_point := expiration;
     _repetition_time_interval :=
       TimeInterval.mk (Z.max 0 (TimeInterval.nanoseconds interval));
     _number_of_repetitions_left := Z.max (-1) repetitions;
     _callback := callback |}.

Definition get_expiration_time_point (t : Timer) : TimePoint.t := _expiration_time_point t.

(** What the constructor establishes and [expire_once] keeps. *)
Definition timer_wf (t : Timer) : Prop :=
  0 <= TimeInterval.nanoseconds (_repetition_time_interval t) /\
  -1 <= _number_of_repetitions_left t.

Section Expire.
Context {W : Type} (run_callback : nat -> W -> result W).

Definition expire_once (t : Timer) (w : W) : result (bool * Timer * W) :=
  let* w := run_callback (_callback t) w in
  if negb (TimeInterval.operator_bool (_repetition_time_interval t))
     || (_number_of_repetitions_left t =? 0)
  then Ok (false, t, w)
  else
    let* e := TimePoint.add (_expiration_time_point t) (_repetition_time_interval t) in
    let left := _number_of_repetitions_left t in
    Ok (true,
        {| _expiration_time_point := e;
           _repetition_time_interval := _repetition_time_interval t;
           _number_of_repetitions_left := if 0 <? left then left - 1 else left;
           _callback := _callback t |}, w).

Fixpoint expire_until_loop (fuel : nat) (t : Timer) (time_point : TimePoint.t) (w : W)
    : result (bool * Timer * W) :=
  match fuel with
  | O => Err OutOfFuel
  | S fuel =>
      let* (still_valid, t, w) := expire_once t w in
      if negb still_valid || TimePoint.gt (_expiration_time_point t) time_point
      then Ok (still_valid, t, w)
      else expire_until_loop fuel t time_point w
  end.

(** Iterations that are always enough: a valid repeating timer advances by at
    least one nanosecond per iteration. *)
Definition expire_until_fuel (t : Timer) (time_point : TimePoint.t) : nat :=
  Z.to_nat (TimePoint.nanoseconds_from_epoch time_point
            - TimePoint.nanoseconds_from_epoch (_expiration_time_point t)) + 1.

Definition expire_until (t : Timer) (time_point : TimePoint.t) (w : W)
    : result (bool * Timer * W) :=
  expire_until_loop (expire_until_fuel t time_point) t time_point w.
End Expire.

(** * Specification: how often a timer fires, and where it ends up *)

(** Expirations needed to get strictly past [time_point] (at least one). *)
Definition crossings (t : Timer) (time_point : TimePoint.t) : Z :=
  Z.max 0 ((TimePoint.nanoseconds_from_epoch time_point
            - TimePoint.nanoseconds_from_epoch (_expiration_time_point t))
           / TimeInterval.nanoseconds (_repetition_time_interval t)) + 1.

Definition repeats (t : Timer) : bool :=
  negb (TimeInterval.nanoseconds (_repetition_time_interval t) =? 0)
  && negb (_number_of_repetitions_left t =? 0).

Definition survives (t : Timer) (time_point : TimePoint.t) : bool :=
  repeats t &&
  ((_number_of_repetitions_left t <? 0)
   || (crossings t time_point <=? _number_of_repetitions_left t)).

Definition fires (t : Timer) (time_point : TimePoint.t) : Z :=
  if survives t time_point then crossings t time_point
  else if repeats t then _number_of_repetitions_left t + 1 else 1.

(** [t] after [n] successful repetitions. *)
Definition advance (t : Timer) (n : Z) : Timer :=
  {| _expiration_time_point :=
       TimePoint.mk (TimePoint.nanoseconds_from_epoch (_expiration_time_point t)
                     + n * TimeInterval.nanoseconds (_repetition_time_interval t));
     _repetition_time_interval := _repetition_time_interval t;
     _number_of_repetitions_left :=
       if _number_of_repetitions_left t <? 0 then _number_of_repetitions_left t
       else _number_of_repetitions_left t - n;
     _callback := _callback t |}.

Definition expired (t : Timer) (time_point : TimePoint.t) : Timer :=
  advance t (if survives t time_point then fires t time_point
             else fires t time_point - 1).

Fixpoint run_times {W} (run : nat -> W -> result W) (callback n : nat) (w : W) : result W :=
  match n with
  | O => Ok w
  | S n => let* w := run callback w in run_times run callback n w
  end.

(** The arithmetic of the repetitions stays in [int64_t]. *)
Definition no_overflow (t : Timer) (time_point : TimePoint.t) : Prop :=
  TimePoint.valid (_expiration_time_point t) /\
  Z.max (TimePoint.nanoseconds_from_epoch (_expiration_time_point t))
        (TimePoint.nanoseconds_from_epoch time_point)
  + TimeInterval.nanoseconds (_repetition_time_interval t) <= int64_max.

Lemma new_Timer_wf e i n c : timer_wf (new_Timer e i n c).
Proof. unfold timer_wf; simpl. lia. Qed.

Lemma advance_0 t : advance t 0 = t.
Proof.
  destruct t as [[e] [i] n c]; unfold advance; simpl.
  destruct (n <? 0); do 2 f_equal; lia.
Qed.

Lemma advance_advance t m n :
  0 <= m -> m <= _number_of_repetitions_left t \/ _number_of_repetitions_left t < 0 ->
  advance (advance t m) n = advance t (m + n).
Proof.
  destruct t as [[e] [i] k c]; unfold advance; simpl; intros Hm Hk.
  f_equal; [f_equal; lia |].
  repeat case_match; lia.
Qed.

#[export] Hint Resolve new_Timer_wf : cpp.


Section Spec.
Context {W : Type} (run : nat -> W -> result W).

Lemma expire_once_last t w :
  repeats t = false ->
  expire_once run t w = let* w := run (_callback t) w in Ok (false, t, w).
Proof.
  unfold repeats, expire_once, TimeInterval.operator_bool. intros H.
  destruct (run _ w); [| done]. rewrite negb_involutive.
  apply andb_false_iff in H as [->%negb_false_iff | ->%negb_false_iff]; [done |].
  by rewrite orb_true_r.
Qed.

Lemma expire_once_repeats t w :
  timer_wf t -> TimePoint.valid (_expiration_time_point t) -> repeats t = true ->
  TimePoint.nanoseconds_from_epoch (_expiration_time_point t)
  + TimeInterval.nanoseconds (_repetition_time_interval t) <= int64_max ->
  expire_once run t w = let* w := run (_callback t) w in Ok (true, advance t 1, w).
Proof.
  intros [Hi Hn] Hv H Ho. unfold expire_once, TimeInterval.operator_bool.
  unfold repeats in H. apply andb_true_iff in H as [H1 H2].
  destruct (run _ w); [| done]. rewrite H1. apply negb_true_iff in H2.
  rewrite H2. apply Z.eqb_neq in H2. simpl.
  unfold TimePoint.valid in Hv. rewrite TimePoint.add_ok by lia.
  unfold advance. rewrite Z.mul_1_l. apply negb_true_iff, Z.eqb_neq in H1.
  do 4 f_equal. repeat case_match; lia.
Qed.

(** One iteration of the specification. *)
Lemma survives_step t time_point :
  timer_wf t -> repeats t = true ->
  TimePoint.gt (_expiration_time_point (advance t 1)) time_point = false ->
  crossings (advance t 1) time_point = crossings t time_point - 1 /\
  survives (advance t 1) time_point = survives t time_point /\
  fires (advance t 1) time_point = fires t time_point - 1 /\ 2 <= crossings t time_point.
Proof.
  intros [Hi Hn] H Hgt. unfold repeats in H.
  destruct t as [[e] [i] n c], time_point as [p]; simpl in *.
  unfold TimePoint.gt in Hgt; simpl in Hgt. apply Z.ltb_ge in Hgt.
  apply andb_true_iff in H as [Hi0%negb_true_iff%Z.eqb_neq Hn0%negb_true_iff%Z.eqb_neq].
  assert (Hc : crossings (advance (mkTimer (TimePoint.mk e) (TimeInterval.mk i) n c) 1)
                 (TimePoint.mk p)
               = crossings (mkTimer (TimePoint.mk e) (TimeInterval.mk i) n c)
                   (TimePoint.mk p) - 1
               /\ 2 <= crossings (mkTimer (TimePoint.mk e) (TimeInterval.mk i) n c)
                   (TimePoint.mk p)).
  { unfold crossings; simpl.
    replace (p - (e + 1 * i)) with (p - e + (-1) * i) by lia.
    rewrite Z.div_add by lia.
    assert (1 <= (p - e) / i) by (apply Z.div_le_lower_bound; lia). lia. }
  destruct Hc as [Hc Hc2]. split; [done |].
  unfold fires, survives. rewrite Hc. unfold repeats; simpl.
  destruct (i =? 0) eqn:?; [lia |]. simpl.
  repeat (case_match; simpl in *; try lia); repeat split; lia.
Qed.

Lemma expire_until_loop_spec fuel t time_point w :
  timer_wf t -> no_overflow t time_point ->
  (Z.to_nat (crossings t time_point) <= fuel)%nat ->
  expire_until_loop run fuel t time_point w
  = let* w := run_times run (_callback t) (Z.to_nat (fires t time_point)) w in
    Ok (survives t time_point, expired t time_point, w).
Proof.
  revert t w. induction fuel as [| fuel IH]; intros t w Hwf Hov Hf.
  { unfold crossings in Hf. lia. }
  simpl. destruct Hov as [Hv Ho]. destruct (repeats t) eqn:Hr.
  - rewrite expire_once_repeats by (auto; lia).
    destruct (TimePoint.gt (_expiration_time_point (advance t 1)) time_point) eqn:Hgt.
    + assert (Hc : crossings t time_point = 1).
      { unfold TimePoint.gt in Hgt; simpl in Hgt. apply Z.ltb_lt in Hgt.
        unfold crossings. destruct Hwf as [Hi _].
        unfold repeats in Hr. apply andb_true_iff in Hr as [Hr _].
        apply negb_true_iff, Z.eqb_neq in Hr.
        rewrite Z.max_l; [done |]. apply Z.lt_succ_r, Z.div_lt_upper_bound; lia. }
      assert (Hs : survives t time_point = true).
      { unfold survives. rewrite Hr, Hc. simpl. destruct Hwf as [_ Hn].
        unfold repeats in Hr. apply andb_true_iff in Hr as [_ Hr].
        apply negb_true_iff, Z.eqb_neq in Hr. apply orb_true_iff.
        destruct (Z.lt_total (_number_of_repetitions_left t) 0) as [|[|]]; [left|..|right]; lia. }
      unfold expired, fires. rewrite Hs, Hc. simpl.
      destruct (run _ w); [| done]. by rewrite Hgt.
    + pose proof (survives_step t time_point Hwf Hr Hgt) as (Hc & Hs & Hfi & Hc2).
      unfold TimePoint.gt in Hgt; simpl in Hgt. apply Z.ltb_ge in Hgt.
      destruct Hwf as [Hi Hn].
      assert (Hrep : _number_of_repetitions_left t <> 0).
      { unfold repeats in Hr. intros E. rewrite E, andb_false_r in Hr. done. }
      assert (Hpos : 2 <= fires t time_point).
      { unfold fires. rewrite Hr. destruct (survives t time_point) eqn:Es; [done |].
        unfold survives in Es. rewrite Hr in Es. simpl in Es.
        apply orb_false_iff in Es as [?%Z.ltb_ge _]. lia. }
      replace (Z.to_nat (fires t time_point))
        with (S (Z.to_nat (fires t time_point - 1))) by lia.
      simpl. destruct (run _ w) as [w1 |]; [| done]. simpl.
      unfold TimePoint.gt at 1; simpl. rewrite (proj2 (Z.ltb_ge _ _) Hgt). rewrite IH.
      * rewrite Hfi, Hs. unfold expired. rewrite Hs, Hfi.
        destruct (run_times _ _ _ _); [| done]. do 3 f_equal.
        rewrite advance_advance by lia. f_equal. destruct (survives t time_point); lia.
      * unfold timer_wf; simpl. split; [done |]. case_match; lia.
      * unfold no_overflow, TimePoint.valid in *; simpl. lia.
      * rewrite Hc. lia.
  - rewrite expire_once_last by done. unfold expired, fires, survives. rewrite Hr. simpl.
    destruct (run _ w); [| done]. by rewrite advance_0.
Qed.

Lemma expire_until_fuel_enough t time_point :
  timer_wf t -> (Z.to_nat (crossings t time_point) <= expire_until_fuel t time_point)%nat.
Proof.
  intros [Hi _]. unfold crossings, expire_until_fuel.
  set (i := TimeInterval.nanoseconds _) in *.
  set (d := TimePoint.nanoseconds_from_epoch time_point - _).
  destruct (decide (i = 0)) as [-> |]; [rewrite Z.div_0_r; lia |].
  destruct (Z.le_gt_cases 0 d).
  - assert (d / i <= d) by (apply Z.div_le_upper_bound; nia). lia.
  - assert (d / i < 0) by (apply Z.div_lt_upper_bound; lia). lia.
Qed.

(** [expire_until] terminates and behaves as specified: the callback runs exactly
    [fires] times (one more than the whole intervals between the expiration and
    [time_point], capped by the repetitions left), the verdict is [survives], and
    a timer that is still valid expires strictly after [time_point]. *)
Theorem expire_until_spec t time_point w
    (Hwf : timer_wf t) (Hov : no_overflow t time_point) :
  expire_until run t time_point w
  = (let* w := run_times run (_callback t) (Z.to_nat (fires t time_point)) w in
     Ok (survives t time_point, expired t time_point, w)) /\
  timer_wf (expired t time_point) /\
  (survives t time_point = true ->
   TimePoint.gt (_expiration_time_point (expired t time_point)) time_point = true).
Proof.
  split; [apply expire_until_loop_spec; auto using expire_until_fuel_enough |].
  destruct Hwf as [Hi Hn]. unfold expired, fires. split.
  - unfold timer_wf; simpl. split; [done |].
    destruct (survives t time_point) eqn:Hs; unfold survives in Hs;
      repeat (case_match; simpl in *; try lia).
  - intros Hs. rewrite Hs. unfold TimePoint.gt; simpl. apply Z.ltb_lt.
    unfold survives, repeats in Hs. rewrite !andb_true_iff in Hs.
    destruct Hs as [[H1%negb_true_iff%Z.eqb_neq _] _]. unfold crossings.
    set (i := TimeInterval.nanoseconds _) in *.
    set (e := TimePoint.nanoseconds_from_epoch (_expiration_time_point t)).
    set (p := TimePoint.nanoseconds_from_epoch time_point).
    pose proof (Z.mul_succ_div_gt (p - e) i ltac:(lia)). nia.
Qed.
End Spec.

Definition sample_timer : Timer :=
  new_Timer (TimePoint.mk 100) (TimeInterval.mk 10) 5 0.

Lemma expire_until_spec_witness :
  timer_wf sample_timer /\ no_overflow sample_timer (TimePoint.mk 125) /\
  expire_until (fun _ n => Ok (S n)) sample_timer (TimePoint.mk 125) O
  = Ok (true, mkTimer (TimePoint.mk 130) (TimeInterval.mk 10) 2 0, 3%nat).
Proof.
  assert (H1 : timer_wf sample_timer) by (apply new_Timer_wf).
  assert (H2 : no_overflow sample_timer (TimePoint.mk 125))
    by (repeat split; vm_compute; discriminate).
  split; [exact H1 |]. split; [exact H2 |].
  rewrite (proj1 (expire_until_spec (fun _ n => Ok (S n)) _ _ O H1 H2)). reflexivity.
Defined.
