(* ===== verification/TimerContainer.v ===== *)
(** The timer container: [include/timer_container.h], [src/timer_container.cc].

    [std::set<std::pair<TimePoint, const Timer *>>] is a list kept strictly
    sorted by the lexicographic order of the pairs. An address is a [Z], the
    null pointer is [0]; the timers live in a heap ([gmap]), from which a
    deleted timer is absent: reading it there is undefined behaviour. *)
From S2P Require Import Prelude TimePoint Timer.
From Stdlib Require Import Sorted.
Open Scope Z_scope.

Abbreviation ptr := Z.
Definition nullptr : ptr := 0.
Abbreviation timer_heap := (gmap ptr Timer).
Abbreviation entry := (TimePoint.t * ptr)%type.
Abbreviation TimerContainer := (list entry).

Definition deref (h : timer_heap) (p : ptr) : result Timer :=
  of_option UndefinedBehaviour (h !! p).

Definition entry_ltb (a b : entry) : bool :=
  TimePoint.lt a.1 b.1 || (TimePoint.eq a.1 b.1 && (a.2 <? b.2)).

Definition entry_lt (a b : entry) : Prop := entry_ltb a b = true.

(** [std::set::insert]: no effect on a pair that is already there. *)
Fixpoint set_insert (e : entry) (c : TimerContainer) : TimerContainer :=
  match c with
  | [] => [e]
  | x :: c' => if entry_ltb e x then e :: c
               else if entry_ltb x e then x :: set_insert e c' else c
  end.

(** [std::set::erase(key)]: the number of erased elements, and the rest. *)
Fixpoint set_erase (e : entry) (c : TimerContainer) : Z * TimerContainer :=
  match c with
  | [] => (0, [])
  | x :: c' => if entry_ltb e x then (0, c)
               else if entry_ltb x e then let '(n, c') := set_erase e c' in (n, x :: c')
               else (1, c')
  end.

(** [begin() .. lower_bound(key)] and [lower_bound(key) .. end()]. *)
Fixpoint set_split (key : entry) (c : TimerContainer) : TimerContainer * TimerContainer :=
  match c with
  | [] => ([], [])
  | x :: c' => if entry_ltb x key
               then let '(a, b) := set_split key c' in (x :: a, b) else ([], c)
  end.

Definition get_earliest_expiration_time_point (c : TimerContainer) : TimePoint.t :=
  match c with [] => TimePoint.FOREVER | e :: _ => e.1 end.

Definition empty (c : TimerContainer) : bool := match c with [] => true | _ => false end.

Definition container_size (c : TimerContainer) : nat := length c.

Definition insert_one (h : timer_heap) (timer_ptr : ptr) (c : TimerContainer)
    : result TimerContainer :=
  let* t := deref h timer_ptr in
  Ok (set_insert (get_expiration_time_point t, timer_ptr) c).

Fixpoint insert_all (h : timer_heap) (timers : list ptr) (c : TimerContainer)
    : result TimerContainer :=
  match timers with
  | [] => Ok c
  | p :: timers =>
      let* t := deref h p in
      insert_all h timers (set_insert (get_expiration_time_point t, p) c)
  end.

Definition remove_one (h : timer_heap) (timer_ptr : ptr) (c : TimerContainer)
    : result (bool * TimerContainer) :=
  let* t := deref h timer_ptr in
  let '(n, c) := set_erase (get_expiration_time_point t, timer_ptr) c in
  Ok (negb (n =? 0), c).

Definition move_out_before_or_at (expiration : TimePoint.t) (c : TimerContainer)
    : result (list ptr * TimerContainer) :=
  let* bound := TimePoint.add expiration (TimeInterval.mk 1) in
  let '(out, rest) := set_split (bound, nullptr) c in
  Ok (out.*2, rest).

(** * Lemmas *)
Definition sorted (c : TimerContainer) : Prop := StronglySorted entry_lt c.

Lemma sorted_nil : sorted [].
Proof. constructor. Qed.

Lemma entry_ltb_spec a b :
  entry_ltb a b = true <->
  TimePoint.nanoseconds_from_epoch a.1 < TimePoint.nanoseconds_from_epoch b.1 \/
  (TimePoint.nanoseconds_from_epoch a.1 = TimePoint.nanoseconds_from_epoch b.1
   /\ a.2 < b.2).
Proof.
  unfold entry_ltb, TimePoint.lt, TimePoint.eq.
  rewrite orb_true_iff, andb_true_iff, !Z.ltb_lt, Z.eqb_eq. done.
Qed.

Lemma entry_lt_trans a b c : entry_lt a b -> entry_lt b c -> entry_lt a c.
Proof. unfold entry_lt. rewrite !entry_ltb_spec. lia. Qed.

Lemma entry_ltb_asym a b : entry_ltb a b = true -> entry_ltb b a = false.
Proof.
  intros H. apply not_true_is_false. rewrite entry_ltb_spec in *. lia.
Qed.

Lemma entry_ltb_irrefl a : entry_ltb a a = false.
Proof. apply not_true_is_false. rewrite entry_ltb_spec. lia. Qed.

Lemma entry_total a b : entry_ltb a b = false -> entry_ltb b a = false -> a = b.
Proof.
  intros H1%not_true_iff_false H2%not_true_iff_false.
  rewrite entry_ltb_spec in H1, H2. destruct a as [[x] p], b as [[y] q]; simpl in *.
  assert (x = y /\ p = q) as [-> ->] by lia. done.
Qed.

Lemma elem_of_set_insert e x c : x ∈ set_insert e c <-> x = e \/ x ∈ c.
Proof.
  induction c as [| y c IH]; simpl; [rewrite elem_of_cons, elem_of_nil; tauto |].
  destruct (entry_ltb e y) eqn:E1; [by rewrite !elem_of_cons |].
  destruct (entry_ltb y e) eqn:E2.
  - rewrite !elem_of_cons, IH. tauto.
  - pose proof (entry_total _ _ E1 E2) as ->. rewrite !elem_of_cons. tauto.
Qed.

Lemma set_insert_nonempty e c : set_insert e c <> [].
Proof. destruct c; simpl; repeat case_match; done. Qed.

Lemma sorted_cons_inv x c : sorted (x :: c) -> sorted c /\ forall y, y ∈ c -> entry_lt x y.
Proof.
  intros H. apply StronglySorted_inv in H as [H1 H2]. split; [done |].
  by apply Forall_forall.
Qed.

Lemma sorted_cons x c : sorted c -> (forall y, y ∈ c -> entry_lt x y) -> sorted (x :: c).
Proof. intros H1 H2. constructor; [done |]. by apply Forall_forall. Qed.

Lemma sorted_set_insert e c : sorted c -> sorted (set_insert e c).
Proof.
  induction c as [| y c IH]; simpl; intros Hs.
  { apply sorted_cons; [done |]. set_solver. }
  destruct (sorted_cons_inv _ _ Hs) as [Hc Hy].
  destruct (entry_ltb e y) eqn:E1.
  - apply sorted_cons; [done |]. intros z [-> | Hz]%elem_of_cons; [done |].
    eapply entry_lt_trans; [exact E1 | eauto].
  - destruct (entry_ltb y e) eqn:E2; [| done].
    apply sorted_cons; [auto |]. intros z [-> | Hz]%elem_of_set_insert; eauto.
Qed.

Lemma set_erase_spec e c :
  sorted c ->
  (set_erase e c).1 = (if decide (e ∈ c) then 1 else 0) /\
  sorted (set_erase e c).2 /\
  forall x, x ∈ (set_erase e c).2 <-> x ∈ c /\ x <> e.
Proof.
  induction c as [| y c IH]; simpl; intros Hs.
  { split; [| split; [done | set_solver]]. destruct (decide (e ∈ [])); set_solver. }
  destruct (sorted_cons_inv _ _ Hs) as [Hc Hy].
  destruct (entry_ltb e y) eqn:E1; simpl.
  - assert (Hn : e ∉ y :: c).
    { intros [-> | Hin]%elem_of_cons; [by rewrite entry_ltb_irrefl in E1 |].
      apply Hy in Hin. pose proof (entry_lt_trans _ _ _ E1 Hin) as Habs.
      unfold entry_lt in Habs. by rewrite entry_ltb_irrefl in Habs. }
    destruct (decide (e ∈ y :: c)); [done |]. split; [done |]. split; [done |]. set_solver.
  - destruct (entry_ltb y e) eqn:E2; simpl.
    + destruct (IH Hc) as (H1 & H2 & H3). destruct (set_erase e c) as [n c'] eqn:E.
      simpl in *. assert (y <> e) by (intros ->; by rewrite entry_ltb_irrefl in E2).
      split; [| split].
      * rewrite H1. destruct (decide (e ∈ c)), (decide (e ∈ y :: c)); set_solver.
      * apply sorted_cons; [done |]. intros z Hz. apply H3 in Hz as [? ?]. auto.
      * intros x. rewrite !elem_of_cons, H3. naive_solver.
    + pose proof (entry_total _ _ E1 E2) as <-. simpl.
      destruct (decide (e ∈ e :: c)); [| set_solver]. split; [done |]. split; [done |].
      intros x. split.
      * intros Hx. split; [set_solver |]. intros ->. apply Hy in Hx.
        unfold entry_lt in Hx. by rewrite entry_ltb_irrefl in Hx.
      * set_solver.
Qed.

Lemma set_erase_absent e c : e ∉ c -> set_erase e c = (0, c).
Proof.
  induction c as [| y c IH]; simpl; [done |]. rewrite not_elem_of_cons. intros [H1 H2].
  destruct (entry_ltb e y) eqn:E1; [done |]. destruct (entry_ltb y e) eqn:E2.
  - by rewrite (IH H2).
  - destruct (H1 (entry_total _ _ E1 E2)).
Qed.

Lemma sorted_all_equal e c :
  sorted c -> e ∈ c -> (forall x, x ∈ c -> x = e) -> c = [e].
Proof.
  intros Hs Hin H. destruct c as [| y c]; [set_solver |].
  rewrite (H y) in * by set_solver. destruct c as [| z c]; [done |].
  destruct (sorted_cons_inv _ _ Hs) as [_ Hlt]. specialize (Hlt z ltac:(set_solver)).
  rewrite (H z) in Hlt by set_solver. unfold entry_lt in Hlt. by rewrite entry_ltb_irrefl in Hlt.
Qed.

Lemma set_split_spec k c :
  sorted c ->
  c = (set_split k c).1 ++ (set_split k c).2 /\
  (forall x, x ∈ (set_split k c).1 -> entry_ltb x k = true) /\
  (forall x, x ∈ (set_split k c).2 -> entry_ltb x k = false) /\
  sorted (set_split k c).2.
Proof.
  induction c as [| y c IH]; simpl; intros Hs; [repeat split; set_solver |].
  destruct (sorted_cons_inv _ _ Hs) as [Hc Hy].
  destruct (entry_ltb y k) eqn:E; simpl.
  - destruct (IH Hc) as (H1 & H2 & H3 & H4).
    destruct (set_split k c) as [a b]; simpl in *. split; [by rewrite H1 |].
    split; [| done]. intros x [-> | ?]%elem_of_cons; auto.
  - repeat split; [set_solver | | done].
    intros x [-> | Hx]%elem_of_cons; [done |]. apply Hy in Hx.
    destruct (entry_ltb x k) eqn:E'; [| done].
    pose proof (entry_lt_trans _ _ _ Hx E') as Habs. unfold entry_lt in Habs. congruence.
Qed.

#[export] Hint Resolve sorted_set_insert : cpp.

Lemma get_earliest_insert e c :
  sorted c ->
  get_earliest_expiration_time_point (set_insert e c)
  = match c with
    | [] => e.1
    | x :: _ => if TimePoint.lt e.1 x.1 then e.1 else x.1
    end.
Proof.
  intros _. destruct c as [| x c]; simpl; [done |].
  destruct (entry_ltb e x) eqn:E1; simpl.
  - apply entry_ltb_spec in E1. unfold TimePoint.lt. case_match eqn:E; [done |].
    apply Z.ltb_ge in E. apply TimePoint.eq_ns. lia.
  - assert (TimePoint.lt e.1 x.1 = false) as ->.
    { apply not_true_is_false. intros H. apply Z.ltb_lt in H.
      apply not_true_iff_false in E1. rewrite entry_ltb_spec in E1. lia. }
    by destruct (entry_ltb x e).
Qed.

(** Moving out is a partition of the container at the given time point: what is
    moved out is due (at or before it), what stays expires strictly later, both
    keep the container's order; no addition overflows because [FOREVER] leaves
    room for the [+ 1]. *)
Lemma move_out_split (tp : TimePoint.t) (c : TimerContainer)
    (Hs : sorted c) (Hp : Forall (fun e => 0 < e.2) c)
    (Htp : TimePoint.valid tp) (Hf : TimePoint.le tp TimePoint.FOREVER = true) :
  exists out rest,
    c = out ++ rest /\ move_out_before_or_at tp c = Ok (out.*2, rest) /\
    Forall (fun e => TimePoint.le e.1 tp = true) out /\
    Forall (fun e => TimePoint.gt e.1 tp = true) rest /\ sorted rest.
Proof.
  unfold TimePoint.valid in Htp. unfold TimePoint.le in Hf. apply Z.leb_le in Hf.
  unfold move_out_before_or_at. rewrite TimePoint.add_ok; simpl.
  2:{ change (TimePoint.nanoseconds_from_epoch TimePoint.FOREVER) with (int64_max - 1) in Hf.
      lia. }
  set (k := (TimePoint.mk (TimePoint.nanoseconds_from_epoch tp + 1), nullptr)).
  destruct (set_split_spec k c Hs) as (H1 & H2 & H3 & H4).
  destruct (set_split k c) as [out rest]; simpl in *. exists out, rest.
  split; [done |]. split; [done |]. subst c. apply Forall_app in Hp as [Hp1 Hp2].
  repeat split; [| | done]; apply Forall_forall; intros e He.
  - pose proof (H2 e He) as He'. apply entry_ltb_spec in He'. rewrite Forall_forall in Hp1.
    specialize (Hp1 e He). unfold TimePoint.le, nullptr in *; simpl in *.
    apply Z.leb_le. lia.
  - pose proof (H3 e He) as He'. apply not_true_iff_false in He'. rewrite entry_ltb_spec in He'.
    rewrite Forall_forall in Hp2. specialize (Hp2 e He).
    unfold TimePoint.gt, nullptr in *; simpl in *. apply Z.ltb_lt. lia.
Qed.
