(* ===== verification/EventLoopTimers.v ===== *)
(** The timers of an event loop: the timer operations of [src/event_loop.cc]
    over the timer container, and the alarm of [src/timerfd.cc].

    All operations run in the loop's owner thread ([EventLoop::run] executes
    its functor there).  The kernel timer is the [it_value] last stored by
    [timerfd_settime]; all zero means disarmed.  [operator new], the outcome of
    the system call and the user's callbacks are parameters; a callback is a
    script of the two timer operations the loop offers it. *)
From S2P Require Import Prelude TimePoint Timer TimerContainer.
Open Scope Z_scope.

(** Return value of [timerfd_settime]: [0], [-1] with [ECANCELED], another [-1]. *)
Inductive settime_outcome := SettimeDone | SettimeCanceled | SettimeFailed.

(** What a callback does with the loop: [run_at_time_point], [cancel_a_timer]. *)
Inductive action :=
| ActRunAt (time_point : TimePoint.t) (interval : TimeInterval.t) (repetitions : Z)
    (callback : nat)
| ActCancel (timer_ptr : ptr).

(** Observable effects, oldest first. *)
Inductive timer_event := EvCallback (callback : nat) | EvDelete (timer_ptr : ptr).

Record loop_timers := mkLoop {
  _timer_container : TimerContainer;
  _next_earliest_expiration_time : TimePoint.t;
  it_value : timespec;
  heap : timer_heap;
  trace : list timer_event
}.

Definition with_container c s :=
  mkLoop c (_next_earliest_expiration_time s) (it_value s) (heap s) (trace s).
Definition with_next n s := mkLoop (_timer_container s) n (it_value s) (heap s) (trace s).
Definition with_it_value v s :=
  mkLoop (_timer_container s) (_next_earliest_expiration_time s) v (heap s) (trace s).
Definition with_heap h s :=
  mkLoop (_timer_container s) (_next_earliest_expiration_time s) (it_value s) h (trace s).
Definition emit ev s :=
  mkLoop (_timer_container s) (_next_earliest_expiration_time s) (it_value s) (heap s)
    (trace s ++ [ev]).

Definition disarmed : timespec := {| tv_sec := 0; tv_nsec := 0 |}.

(** A loop as its constructor leaves it before the first timer is added. *)
Definition new_loop_timers : loop_timers := mkLoop [] TimePoint.FOREVER disarmed ∅ [].

Section EventLoop.
Context (_alarm_advancing_threshold : Z).
Context (timerfd_settime : timespec -> settime_outcome).
Context (operator_new : timer_heap -> ptr).
Context (callback_script : nat -> list action).

Definition settime (v : timespec) (s : loop_timers) : result loop_timers :=
  match timerfd_settime v with
  | SettimeFailed => Err Fatal
  | SettimeDone | SettimeCanceled => Ok (with_it_value v s)
  end.

Definition set_alarm_at_time_point (time_point : TimePoint.t) (s : loop_timers)
    : result loop_timers :=
  settime (TimePoint.to_timespec time_point) s.

Definition cancel_alarm (s : loop_timers) : result loop_timers := settime disarmed s.

(** [delete timer_ptr]: undefined on a pointer that is not live. *)
Definition delete_timer (p : ptr) (s : loop_timers) : result loop_timers :=
  let* _ := deref (heap s) p in
  Ok (emit (EvDelete p) (with_heap (delete p (heap s)) s)).

(** The two ways the code moves the alarm to the earliest timer: earlier, when
    it gains more than the threshold, and later, when there is any gain. *)
Definition advance_alarm (s : loop_timers) : result loop_timers :=
  let earliest := get_earliest_expiration_time_point (_timer_container s) in
  let* bound := TimePoint.sub (_next_earliest_expiration_time s)
                  (TimeInterval.mk _alarm_advancing_threshold) in
  if TimePoint.lt earliest bound
  then let* s := set_alarm_at_time_point earliest s in Ok (with_next earliest s)
  else Ok s.

Definition delay_alarm (s : loop_timers) : result loop_timers :=
  let earliest := get_earliest_expiration_time_point (_timer_container s) in
  if TimePoint.lt (_next_earliest_expiration_time s) earliest
  then let* s := set_alarm_at_time_point earliest s in Ok (with_next earliest s)
  else Ok s.

Definition cancel_alarm_forever (s : loop_timers) : result loop_timers :=
  let* s := cancel_alarm s in Ok (with_next TimePoint.FOREVER s).

Definition _add_a_timer_and_update_alarm (timer_ptr : ptr) (s : loop_timers)
    : result loop_timers :=
  let* c := insert_one (heap s) timer_ptr (_timer_container s) in
  advance_alarm (with_container c s).

Definition _cancel_a_timer_and_update_alarm (timer_ptr : ptr) (s : loop_timers)
    : result loop_timers :=
  let* (removed, c) := remove_one (heap s) timer_ptr (_timer_container s) in
  let s := with_container c s in
  if negb removed then Ok s
  else if empty c then cancel_alarm_forever s
  else let* s := delay_alarm s in delete_timer timer_ptr s.

(** [run_at_time_point] in the owner thread: the identifier and the new state. *)
Definition run_at_time_point (time_point : TimePoint.t) (interval : TimeInterval.t)
    (repetitions : Z) (callback : nat) (s : loop_timers) : result (ptr * loop_timers) :=
  let p := operator_new (heap s) in
  let s := with_heap (<[p := new_Timer time_point interval repetitions callback]> (heap s)) s in
  let* s := _add_a_timer_and_update_alarm p s in Ok (p, s).

Definition cancel_a_timer (timer_identifier : ptr) (s : loop_timers) : result loop_timers :=
  _cancel_a_timer_and_update_alarm timer_identifier s.

Definition run_action (a : action) (s : loop_timers) : result loop_timers :=
  match a with
  | ActRunAt time_point interval repetitions callback =>
      let* (_, s) := run_at_time_point time_point interval repetitions callback s in Ok s
  | ActCancel p => cancel_a_timer p s
  end.

Fixpoint run_actions (acts : list action) (s : loop_timers) : result loop_timers :=
  match acts with
  | [] => Ok s
  | a :: acts => let* s := run_action a s in run_actions acts s
  end.

Definition run_callback (callback : nat) (s : loop_timers) : result loop_timers :=
  run_actions (callback_script callback) (emit (EvCallback callback) s).

(** The loop over [expired_timers].  The timer is read before its callbacks run
    and written back after them: a callback that cancels this very timer finds
    no entry of it in the container, with the old expiration or the new one. *)
Fixpoint expire_each (expired_timers : list ptr) (time_point : TimePoint.t)
    (timers_that_are_still_valid : list ptr) (s : loop_timers)
    : result (list ptr * loop_timers) :=
  match expired_timers with
  | [] => Ok (timers_that_are_still_valid, s)
  | p :: expired_timers =>
      let* t := deref (heap s) p in
      let* (still_valid, t, s) := expire_until run_callback t time_point s in
      let s := with_heap (<[p := t]> (heap s)) s in
      if still_valid
      then expire_each expired_timers time_point (timers_that_are_still_valid ++ [p]) s
      else
        let* s := delete_timer p s in
        expire_each expired_timers time_point timers_that_are_still_valid s
  end.

Definition _expire_timers_and_update_alarm (time_point : TimePoint.t) (s : loop_timers)
    : result loop_timers :=
  let* (expired_timers, c) := move_out_before_or_at time_point (_timer_container s) in
  let s := with_container c s in
  let* s := if empty c then cancel_alarm_forever s else delay_alarm s in
  let* (valid, s) := expire_each expired_timers time_point [] s in
  if bool_decide (valid = []) then Ok s
  else
    let* c := insert_all (heap s) valid (_timer_container s) in
    advance_alarm (with_container c s).

Fixpoint delete_all (timers : list ptr) (s : loop_timers) : result loop_timers :=
  match timers with
  | [] => Ok s
  | p :: timers => let* s := delete_timer p s in delete_all timers s
  end.

Definition _release_all_timers (s : loop_timers) : result loop_timers :=
  let* (all_timers, c) := move_out_before_or_at TimePoint.FOREVER (_timer_container s) in
  delete_all all_timers (with_container c s).
End EventLoop.

Lemma delete_all_ok ps s :
  NoDup ps -> (forall p, p ∈ ps -> heap s !! p <> None) ->
  exists s', delete_all ps s = Ok s' /\ trace s' = trace s ++ (EvDelete <$> ps) /\
    _timer_container s' = _timer_container s /\
    (forall q, heap s' !! q = if decide (q ∈ ps) then None else heap s !! q).
Proof.
  revert s. induction ps as [| p ps IH]; simpl; intros s Hnd Hl.
  { exists s. rewrite app_nil_r. by repeat split. }
  apply NoDup_cons in Hnd as [Hp Hnd]. unfold delete_timer, deref.
  destruct (heap s !! p) as [t |] eqn:E; [| by destruct (Hl p ltac:(set_solver))]. simpl.
  destruct (IH (emit (EvDelete p) (with_heap (delete p (heap s)) s)) Hnd)
    as (s' & -> & Ht & Hc & Hh); simpl in *.
  { intros q Hq. rewrite lookup_delete_ne by (intros ->; done). apply Hl. set_solver. }
  exists s'. split; [done |]. split; [rewrite Ht, <- app_assoc; done |]. split; [done |].
  intros q. rewrite Hh. destruct (decide (q = p)) as [-> | Hne].
  - rewrite lookup_delete_eq. destruct (decide (p ∈ ps)), (decide (p ∈ p :: ps)); set_solver.
  - rewrite lookup_delete_ne by done.
    destruct (decide (q ∈ ps)), (decide (q ∈ p :: ps)); set_solver.
Qed.

(** * Invariant

    [horizon] bounds the clock; a timer is admissible when its repetitions stay
    clear of [FOREVER] up to that bound. *)
Section Invariant.
Set Default Proof Using "Type*".
Context (threshold horizon : Z).
Context (timerfd_settime : timespec -> settime_outcome).
Context (operator_new : timer_heap -> ptr).
Context (script : nat -> list action).

Definition ns := TimePoint.nanoseconds_from_epoch.

#[local] Arguments ns : simpl never.

Definition limit : Z := ns TimePoint.FOREVER - threshold.

Definition admissible (t : Timer) : Prop :=
  let i := TimeInterval.nanoseconds (_repetition_time_interval t) in
  timer_wf t /\ 0 < ns (_expiration_time_point t) <= horizon + i /\ horizon + 2 * i < limit.

(** What the code relies on: the system call accepts every valid [timespec],
    and [new] returns a fresh non-null address. *)
Record environment_ok : Prop := {
  threshold_range : 0 <= threshold <= ns TimePoint.FOREVER;
  settime_valid v :
    0 <= tv_sec v -> 0 <= tv_nsec v < TimeInterval.SECOND ->
    timerfd_settime v <> SettimeFailed;
  new_fresh h : 0 < operator_new h /\ h !! operator_new h = None
}.

Definition action_ok (a : action) : Prop :=
  match a with
  | ActRunAt tp i n c => admissible (new_Timer tp i n c)
  | ActCancel _ => True
  end.

Definition schedules (a : action) : bool :=
  match a with ActRunAt _ _ _ _ => true | ActCancel _ => false end.

Definition entry_ok (h : timer_heap) (e : entry) : Prop :=
  exists t, h !! e.2 = Some t /\ _expiration_time_point t = e.1 /\ 0 < e.2 /\ admissible t.

(** [fired] is the time at which the kernel timer fired, until the loop has
    handled it; the kernel timer is then disarmed unless it was set again. *)
Definition awaiting (fired : option TimePoint.t) (s : loop_timers) : Prop :=
  it_value s = disarmed /\
  exists now, fired = Some now /\ ns (_next_earliest_expiration_time s) <= ns now.

Definition alarm_state (fired : option TimePoint.t) (s : loop_timers) : Prop :=
  let next := _next_earliest_expiration_time s in
  match _timer_container s with
  | [] => it_value s = disarmed /\ next = TimePoint.FOREVER
  | e :: _ =>
      (it_value s = TimePoint.to_timespec next \/
       awaiting fired s) /\
      ns e.1 <= ns next <= ns e.1 + threshold
  end.

Definition inv (fired : option TimePoint.t) (s : loop_timers) : Prop :=
  sorted (_timer_container s) /\ Forall (entry_ok (heap s)) (_timer_container s) /\
  alarm_state fired s.

(** Live timers that are out of the container. *)
Definition pending (Q : Timer -> Prop) (D : list ptr) (s : loop_timers) : Prop :=
  forall p, p ∈ D ->
    0 < p /\ (exists t, heap s !! p = Some t /\ admissible t /\ Q t) /\
    p ∉ (_timer_container s).*2.

Definition keeps (D : list ptr) (s s' : loop_timers) : Prop :=
  forall p, p ∈ D -> heap s' !! p = heap s !! p.

(** Operations of the loop's alarm change only the alarm. *)
Definition same_timers (s s' : loop_timers) : Prop :=
  _timer_container s' = _timer_container s /\ heap s' = heap s /\ trace s' = trace s.

(** The condition under which [advance_alarm] establishes [alarm_state]. *)
Definition alarm_pre (fired : option TimePoint.t) (s : loop_timers) : Prop :=
  let next := _next_earliest_expiration_time s in
  match _timer_container s with
  | [] => next = TimePoint.FOREVER
  | e :: _ =>
      0 < ns e.1 /\ ns e.1 < limit /\ ns e.1 <= ns next <= ns TimePoint.FOREVER /\
      ((it_value s = TimePoint.to_timespec next \/
        awaiting fired s)
       \/ ns e.1 < ns next - threshold)
  end.

Hypothesis Henv : environment_ok.

Lemma forever_ns : ns TimePoint.FOREVER = int64_max - 1.
Proof. done. Qed.

Lemma set_alarm_ok tp s :
  0 <= ns tp ->
  set_alarm_at_time_point timerfd_settime tp s
  = Ok (with_it_value (TimePoint.to_timespec tp) s).
Proof.
  intros H. unfold set_alarm_at_time_point, settime.
  destruct (timerfd_settime _) eqn:E; [done | done |].
  exfalso. revert E. apply (settime_valid Henv); simpl.
  - by apply Z.quot_pos.
  - by apply Z.rem_bound_pos.
Qed.

Lemma cancel_alarm_forever_ok s :
  cancel_alarm_forever timerfd_settime s
  = Ok (with_next TimePoint.FOREVER (with_it_value disarmed s)).
Proof.
  unfold cancel_alarm_forever, cancel_alarm, settime.
  destruct (timerfd_settime _) eqn:E; [done | done |].
  exfalso. revert E. by apply (settime_valid Henv).
Qed.

Lemma advance_alarm_ok fired s :
  _timer_container s <> [] -> alarm_pre fired s ->
  exists s', advance_alarm threshold timerfd_settime s = Ok s' /\
    same_timers s s' /\ alarm_state fired s'.
Proof.
  pose proof (threshold_range Henv) as Ht. rewrite forever_ns in Ht.
  unfold alarm_pre, advance_alarm. intros Hne H.
  destruct (_timer_container s) as [| e c] eqn:Ec; [done |]. simpl.
  rewrite forever_ns in H. destruct H as (H0 & H1 & H2 & H3). unfold ns in *.
  rewrite TimePoint.sub_ok by (simpl; assert (int64_min = - int64_max - 1) by done; lia).
  simpl. unfold TimePoint.lt; simpl. destruct (_ <? _) eqn:E.
  - rewrite set_alarm_ok by (unfold ns; lia). eexists. split; [done |].
    split; [done |]. unfold alarm_state; simpl. rewrite Ec. unfold ns.
    split; [by left | lia].
  - apply Z.ltb_ge in E. exists s. split; [done |]. split; [done |].
    unfold alarm_state. rewrite Ec. unfold ns. split; [| lia].
    destruct H3 as [H3 | H3]; [exact H3 | lia].
Qed.

Lemma delay_alarm_ok fired e c s :
  _timer_container s = e :: c -> 0 < ns e.1 ->
  ns (_next_earliest_expiration_time s) <= ns e.1 + threshold ->
  (it_value s = TimePoint.to_timespec (_next_earliest_expiration_time s)
   \/ awaiting fired s)
  \/ ns (_next_earliest_expiration_time s) < ns e.1 ->
  exists s', delay_alarm timerfd_settime s = Ok s' /\ same_timers s s' /\ alarm_state fired s'.
Proof.
  pose proof (threshold_range Henv) as Ht.
  unfold delay_alarm. intros Ec H0 H1 H2. rewrite Ec. simpl.
  unfold TimePoint.lt. fold ns. destruct (_ <? _) eqn:E.
  - rewrite set_alarm_ok by lia. eexists. split; [done |]. split; [done |].
    unfold alarm_state; simpl. rewrite Ec. split; [by left | lia].
  - apply Z.ltb_ge in E. exists s. split; [done |]. split; [done |].
    unfold alarm_state. rewrite Ec. split; [| lia].
    destruct H2 as [H2 | H2]; [exact H2 | lia].
Qed.

(** ** Insertion and removal *)
Lemma sorted_head_le (e : entry) c x : sorted (e :: c) -> x ∈ e :: c -> ns e.1 <= ns x.1.
Proof.
  intros Hs [-> | Hx]%elem_of_cons; [done |].
  apply sorted_cons_inv in Hs as [_ H]. apply H in Hx. apply entry_ltb_spec in Hx.
  unfold ns. lia.
Qed.

Lemma admissible_range t : admissible t -> 0 < ns (_expiration_time_point t) < limit.
Proof. intros ([Hi _] & Hadm & Hlim). lia. Qed.

Lemma alarm_state_pre fired s :
  inv fired s -> alarm_pre fired s.
Proof.
  pose proof (threshold_range Henv) as Ht.
  intros (Hs & Hf & Ha). unfold alarm_state, alarm_pre in *.
  destruct (_timer_container s) as [| e c]; [tauto |].
  inversion Hf as [| ? ? (t & _ & Ee & _ & Hadm) _]; subst.
  apply admissible_range in Hadm. rewrite Ee in Hadm. unfold limit in *.
  destruct Ha as [Ha1 Ha2]. repeat split; try lia. by left.
Qed.

Lemma alarm_pre_insert fired s t p :
  sorted (_timer_container s) -> alarm_pre fired s -> admissible t ->
  alarm_pre fired
    (with_container (set_insert (_expiration_time_point t, p) (_timer_container s)) s).
Proof.
  pose proof (threshold_range Henv) as Ht.
  intros Hs Hp Hadm%admissible_range. unfold alarm_pre in *. simpl.
  pose proof (get_earliest_insert (_expiration_time_point t, p) _ Hs) as He.
  destruct (set_insert _ _) as [| x c'] eqn:Ei.
  { by apply set_insert_nonempty in Ei. }
  simpl in He. destruct (_timer_container s) as [| e c]; rewrite He; simpl.
  - rewrite Hp. unfold limit in *. repeat split; first [lia | right; lia].
  - unfold limit, TimePoint.lt in *. fold ns.
    destruct (ns (_expiration_time_point t) <? ns e.1) eqn:E; [| done].
    apply Z.ltb_lt in E. repeat split; try lia. destruct Hp as (_ & _ & _ & [? | ?]); [by left |].
    right. lia.
Qed.

(** Changing the heap away from the container's timers. *)
Lemma entries_frame h h' (c : TimerContainer) :
  (forall p, p ∈ c.*2 -> h' !! p = h !! p) -> Forall (entry_ok h) c -> Forall (entry_ok h') c.
Proof.
  intros Hh Hf. rewrite Forall_forall in *. intros e He.
  destruct (Hf e He) as (t & H1 & H2). exists t. split; [| done].
  rewrite Hh; [done |]. by apply list_elem_of_fmap_2.
Qed.

Lemma add_inv fired Q D p t s :
  inv fired s -> pending Q D s -> heap s !! p = Some t -> admissible t -> 0 < p -> p ∉ D ->
  exists s', _add_a_timer_and_update_alarm threshold timerfd_settime p s = Ok s' /\
    inv fired s' /\ pending Q D s' /\ heap s' = heap s /\ trace s' = trace s /\
    _timer_container s' = set_insert (_expiration_time_point t, p) (_timer_container s).
Proof.
  intros Hinv Hpend Hp Hadm H0 HD. pose proof (alarm_state_pre _ _ Hinv) as Hpre.
  destruct Hinv as (Hs & Hf & _).
  unfold _add_a_timer_and_update_alarm, insert_one, deref. rewrite Hp. simpl.
  unfold get_expiration_time_point.
  pose proof (alarm_pre_insert fired s t p Hs Hpre Hadm) as Hpre'.
  destruct (advance_alarm_ok fired (with_container _ s) (set_insert_nonempty _ _) Hpre') as (s' & -> & (Hc & Hh & Htr) & Ha).
  simpl in *. exists s'. split; [done |]. split; [| split; [| done]].
  - split; [| split; [| done]]; rewrite Hc; [by apply sorted_set_insert |]. rewrite Hh.
    apply Forall_forall. intros e [-> | He]%elem_of_set_insert; [by exists t |].
    rewrite Forall_forall in Hf. auto.
  - intros q Hq. destruct (Hpend q Hq) as (Hq0 & Hq1 & Hq2). rewrite Hh, Hc.
    split; [done |]. split; [done |]. intros (e & -> & He)%list_elem_of_fmap.
    apply elem_of_set_insert in He as [-> | He]; [done |].
    apply Hq2. by apply list_elem_of_fmap_2.
Qed.

Lemma pending_same Q D s s' :
  _timer_container s' = _timer_container s -> keeps D s s' -> pending Q D s -> pending Q D s'.
Proof.
  intros Hc Hk H p Hp. destruct (H p Hp) as (H0 & H1 & H2). by rewrite Hc, (Hk p Hp).
Qed.

(** After the removal of some entries, either the container is empty and the
    alarm is cancelled, or the alarm is moved to the next earliest timer. *)
Definition update_after_removal (s : loop_timers) : result loop_timers :=
  if empty (_timer_container s) then cancel_alarm_forever timerfd_settime s
  else delay_alarm timerfd_settime s.

Lemma update_after_removal_ok fired fired' s c :
  inv fired s -> sorted c -> (forall x, x ∈ c -> x ∈ _timer_container s) ->
  (forall now, fired = Some now -> fired' = fired \/
     forall x, x ∈ c -> ns now < ns x.1) ->
  exists s', update_after_removal (with_container c s) = Ok s' /\
    same_timers (with_container c s) s' /\ inv fired' s'.
Proof.
  intros (Hs & Hf & Ha) Hc Hsub Hfired. unfold update_after_removal. simpl.
  assert (Hent : Forall (entry_ok (heap s)) c).
  { rewrite Forall_forall in *. auto. }
  destruct c as [| x c]; simpl.
  { rewrite cancel_alarm_forever_ok. eexists. split; [done |]. split; [done |].
    split; [apply sorted_nil | split; [apply Forall_nil_2 | done]]. }
  assert (Hx : x ∈ _timer_container s) by (apply Hsub; set_solver).
  unfold alarm_state in Ha. destruct (_timer_container s) as [| e c0] eqn:E; [set_solver |].
  pose proof (sorted_head_le _ _ _ Hs Hx) as Hle. destruct Ha as [Ha1 Ha2].
  assert (Hpos : 0 < ns x.1).
  { apply Forall_cons_1 in Hent as [(t & _ & <- & _ & Hadm) _].
    apply admissible_range in Hadm. lia. }
  destruct (delay_alarm_ok fired' x c (with_container (x :: c) s))
    as (s' & H1 & (Hc' & Hh & Htr) & H3); simpl; [done | done | lia | |].
  { destruct Ha1 as [Ha1 | (Hd & now & Ha1 & Hn)]; [by left; left |].
    destruct (Hfired _ Ha1) as [-> | Hl]; [left; right; split; eauto |].
    right. specialize (Hl x ltac:(set_solver)). lia. }
  exists s'. split; [done |]. split; [done |].
  split; [by rewrite Hc' | split; [by rewrite Hc', Hh | done]].
Qed.

Lemma inv_frame fired s s' :
  inv fired s -> _timer_container s' = _timer_container s ->
  _next_earliest_expiration_time s' = _next_earliest_expiration_time s ->
  it_value s' = it_value s ->
  (forall p, p ∈ (_timer_container s).*2 -> heap s' !! p = heap s !! p) -> inv fired s'.
Proof.
  intros (Hs & Hf & Ha) Hc Hn Hi Hh. unfold inv, alarm_state, awaiting. rewrite Hc, Hn, Hi.
  split; [done |]. split; [by eapply entries_frame | done].
Qed.

(** A live timer has at most one entry in the container. *)
Lemma entry_unique h (c : TimerContainer) p t tp :
  Forall (entry_ok h) c -> h !! p = Some t -> (tp, p) ∈ c -> tp = _expiration_time_point t.
Proof.
  rewrite Forall_forall. intros Hf Hp Hin.
  destruct (Hf _ Hin) as (t' & Ht' & E & _); simpl in *. congruence.
Qed.

Lemma cancel_inv fired Q D p t s :
  inv fired s -> pending Q D s -> heap s !! p = Some t ->
  exists s', cancel_a_timer timerfd_settime p s = Ok s' /\
    inv fired s' /\ pending Q D s' /\ keeps D s s'.
Proof.
  intros Hinv Hpend Hp. unfold cancel_a_timer, _cancel_a_timer_and_update_alarm.
  unfold remove_one, deref. rewrite Hp. simpl.
  destruct Hinv as (Hs & Hf & Ha) eqn:HE; clear HE.
  set (e := (get_expiration_time_point t, p)).
  destruct (set_erase_spec e _ Hs) as (H1 & H2 & H3).
  destruct (set_erase e (_timer_container s)) as [n c] eqn:E; simpl in *.
  assert (Hsub : forall x, x ∈ c -> x ∈ _timer_container s) by (intros x Hx; by apply H3).
  destruct (decide (e ∈ _timer_container s)) as [Hin | Hout]; subst n; simpl.
  2:{ assert (c = _timer_container s) as ->.
{ rewrite set_erase_absent in E by done. by injection E. }
      exists s. by destruct s. }
  assert (HD : p ∉ D) by (intros HpD; apply (Hpend p HpD); by apply (list_elem_of_fmap_2 snd _ e)).
  destruct (update_after_removal_ok fired fired s c (conj Hs (conj Hf Ha)) H2 Hsub)
    as (s1 & Hs1 & (Hc1 & Hh1 & _) & Hinv1); [auto |].
  unfold update_after_removal in Hs1. simpl in *.
  assert (Hpend1 : pending Q D s1).
  { intros q Hq. destruct (Hpend q Hq) as (Hq0 & Hq1 & Hq2). rewrite Hh1, Hc1.
    split; [done |]. split; [done |]. intros (x & -> & Hx)%list_elem_of_fmap.
    apply Hq2, list_elem_of_fmap_2, Hsub, Hx. }
  destruct (empty c).
  { exists s1. split; [done |]. split; [done |]. split; [done |]. intros q _. by rewrite Hh1. }
  rewrite Hs1. unfold delete_timer, deref. rewrite Hh1, Hp. simpl.
  assert (Hpc : p ∉ (_timer_container s1).*2).
  { intros (x & -> & Hx)%list_elem_of_fmap. rewrite Hc1 in Hx. destruct x as [tp q].
    pose proof (entry_unique _ _ _ _ tp Hf Hp (Hsub _ Hx)) as ->.
    by apply H3 in Hx as [_ ?]. }
  assert (Hk : keeps D s (emit (EvDelete p) (with_heap (delete p (heap s1)) s1))).
  { intros q Hq. simpl. rewrite lookup_delete_ne by (intros Epq; apply HD; by rewrite Epq).
    by rewrite Hh1. }
  eexists. split; [done |]. split; [| split; [| rewrite <- Hh1; exact Hk]].
  - eapply inv_frame; [exact Hinv1 | done | done | done |]. intros q Hq; simpl.
    rewrite Hh1. apply lookup_delete_ne. intros Epq. apply Hpc. by rewrite Epq.
  - eapply pending_same; [| | exact Hpend1]; [done |]. intros q Hq. simpl.
    rewrite Hh1. apply lookup_delete_ne. intros Epq. apply HD. by rewrite Epq.
Qed.

(** ** Callbacks *)
Lemma pending_fresh Q D s :
  pending Q D s -> operator_new (heap s) ∉ D.
Proof.
  intros H Hin. destruct (H _ Hin) as (_ & (t & Ht & _) & _).
  destruct (new_fresh Henv (heap s)) as [_ Hn]. congruence.
Qed.

Lemma run_at_inv fired Q D tp i n c s :
  inv fired s -> pending Q D s -> admissible (new_Timer tp i n c) ->
  exists p s', run_at_time_point threshold timerfd_settime operator_new tp i n c s = Ok (p, s') /\
    inv fired s' /\ pending Q D s' /\ keeps D s s' /\ trace s' = trace s /\
    heap s !! p = None /\ heap s' = <[p := new_Timer tp i n c]> (heap s) /\
    _timer_container s' = set_insert (tp, p) (_timer_container s).
Proof.
  intros Hinv Hpend Hadm. unfold run_at_time_point.
  destruct (new_fresh Henv (heap s)) as [H0 Hn].
  pose proof (pending_fresh _ _ _ Hpend) as HD. set (p := operator_new (heap s)) in *.
  set (h := <[p := new_Timer tp i n c]> (heap s)).
  assert (Hk : forall q, heap s !! q <> None -> h !! q = heap s !! q).
  { intros q Hq. apply lookup_insert_ne. by intros <-. }
  destruct (add_inv fired Q D p (new_Timer tp i n c) (with_heap h s))
    as (s' & -> & H1 & H2 & H3 & H4 & H5); simpl in *; try done.
  - eapply inv_frame; [exact Hinv | done | done | done |]. intros q Hq. simpl.
    apply Hk. apply list_elem_of_fmap in Hq as (x & -> & Hx).
    destruct Hinv as (_ & Hf & _). rewrite Forall_forall in Hf.
    destruct (Hf x Hx) as (t & -> & _). done.
  - eapply pending_same; [| | exact Hpend]; [done |]. intros q Hq. simpl. apply Hk.
    destruct (Hpend q Hq) as (_ & (t & -> & _) & _). done.
  - apply lookup_insert_eq.
  - exists p, s'. split; [done |]. split; [done |]. split; [done |]. split; [| done].
    intros q Hq. rewrite H3. apply Hk.
    destruct (Hpend q Hq) as (_ & (t & -> & _) & _). done.
Qed.

Lemma keeps_trans D s1 s2 s3 : keeps D s1 s2 -> keeps D s2 s3 -> keeps D s1 s3.
Proof. intros H1 H2 p Hp. by rewrite H2, H1. Qed.

Lemma run_actions_inv fired Q D acts s s' :
  Forall action_ok acts -> inv fired s -> pending Q D s ->
  run_actions threshold timerfd_settime operator_new acts s = Ok s' ->
  inv fired s' /\ pending Q D s' /\ keeps D s s'.
Proof.
  intros Hok. revert s. induction Hok as [| a acts Ha _ IH]; simpl; intros s Hinv Hpend H.
  { by inv_ok. }
  assert (Hstep : forall s1, run_action threshold timerfd_settime operator_new a s = Ok s1 ->
            inv fired s1 /\ pending Q D s1 /\ keeps D s s1).
  { intros s1. destruct a as [tp i n c | p]; simpl in *.
    - destruct (run_at_inv fired Q D tp i n c s Hinv Hpend Ha) as (p & s2 & -> & ? & ? & ? & _).
      intros [= <-]. done.
    - destruct (heap s !! p) as [t |] eqn:E.
      + destruct (cancel_inv fired Q D p t s Hinv Hpend E) as (s2 & -> & H').
        intros [= <-]. done.
      + unfold cancel_a_timer, _cancel_a_timer_and_update_alarm, remove_one, deref.
        by rewrite E. }
  destruct (run_action _ _ _ a s) as [s1 |]; [| done].
  destruct (Hstep s1 eq_refl) as (H1 & H2 & H3).
  destruct (IH s1 H1 H2 H) as (? & ? & ?). eauto using keeps_trans.
Qed.

(** Scripts that only schedule: they succeed, and add entries and timers only. *)
Definition extends (s s' : loop_timers) : Prop :=
  (forall p t, heap s !! p = Some t -> heap s' !! p = Some t) /\
  (forall e, e ∈ _timer_container s -> e ∈ _timer_container s').

Lemma run_actions_schedule fired Q D acts s :
  Forall action_ok acts -> forallb schedules acts = true -> inv fired s -> pending Q D s ->
  exists s', run_actions threshold timerfd_settime operator_new acts s = Ok s' /\
    trace s' = trace s /\ extends s s'.
Proof.
  intros Hok. revert s. induction Hok as [| a acts Ha _ IH]; simpl; intros s Hs Hinv Hpend.
  { by exists s. }
  apply andb_true_iff in Hs as [Hsa Hs]. destruct a as [tp i n c | p]; [| done]. simpl.
  destruct (run_at_inv fired Q D tp i n c s Hinv Hpend Ha)
    as (p & s1 & -> & H1 & H2 & _ & Ht & Hn & Hh & Hc).
  destruct (IH s1 Hs H1 H2) as (s2 & -> & Ht2 & [He1 He2]). exists s2. split; [done |].
  split; [congruence |]. split.
  - intros q t Hq. apply He1. rewrite Hh, lookup_insert_ne; [done |]. intros ->. congruence.
  - intros e He. apply He2. rewrite Hc. apply elem_of_set_insert. by right.
Qed.

Definition cb : nat -> loop_timers -> result loop_timers :=
  run_callback threshold timerfd_settime operator_new script.

Definition scripts_ok : Prop := forall c, Forall action_ok (script c).
Definition scripts_schedule : Prop := forall c, forallb schedules (script c) = true.

Hypothesis Hscripts : scripts_ok.

Lemma emit_inv fired Q D ev s :
  inv fired s -> pending Q D s -> inv fired (emit ev s) /\ pending Q D (emit ev s).
Proof. intros H1 H2. split; [by eapply inv_frame | by eapply pending_same]. Qed.

Lemma run_times_inv fired Q D c n s s' :
  inv fired s -> pending Q D s -> run_times cb c n s = Ok s' ->
  inv fired s' /\ pending Q D s' /\ keeps D s s'.
Proof.
  revert s. induction n as [| n IH]; simpl; intros s Hinv Hpend H; [by inv_ok |].
  destruct (cb c s) as [s1 |] eqn:E; [| done].
  destruct (emit_inv fired Q D (EvCallback c) s Hinv Hpend) as [Hi Hp].
  destruct (run_actions_inv fired Q D _ _ s1 (Hscripts c) Hi Hp E) as (H1 & H2 & H3).
  destruct (IH s1 H1 H2 H) as (? & ? & ?). split; [done |]. split; [done |].
  eapply keeps_trans; [exact H3 | done].
Qed.

Lemma run_times_schedule fired Q D c n s :
  scripts_schedule -> inv fired s -> pending Q D s ->
  exists s', run_times cb c n s = Ok s' /\
    trace s' = trace s ++ repeat (EvCallback c) n /\ extends s s'.
Proof.
  intros Hsch. revert s. induction n as [| n IH]; simpl; intros s Hinv Hpend.
  { exists s. by rewrite app_nil_r. }
  destruct (emit_inv fired Q D (EvCallback c) s Hinv Hpend) as [Hi Hp].
  destruct (run_actions_schedule fired Q D _ _ (Hscripts c) (Hsch c) Hi Hp)
    as (s1 & E & Ht & Hext).
  destruct (run_actions_inv fired Q D _ _ s1 (Hscripts c) Hi Hp E) as (H1 & H2 & _).
  unfold cb at 1, run_callback. rewrite E.
  destruct (IH s1 H1 H2) as (s2 & -> & Ht2 & He2). exists s2. split; [done |].
  split; [rewrite Ht2, Ht; simpl; by rewrite <- app_assoc |].
  destruct Hext as [Ha Hb], He2 as [Hc Hd]. split; [intros; apply Hc, Ha; done |].
  intros; by apply Hd, Hb.
Qed.

(** ** Expiration *)
Definition due (time_point : TimePoint.t) (t : Timer) : Prop :=
  ns (_expiration_time_point t) <= ns time_point.

Lemma due_no_overflow tp t :
  admissible t -> due tp t -> 0 <= ns tp <= horizon -> no_overflow t tp.
Proof.
  pose proof (threshold_range Henv) as Ht. rewrite forever_ns in Ht.
  intros ([Hi Hn] & H1 & H2) Hd Htp. unfold limit, due in *. rewrite forever_ns in H2.
  split; [split; fold ns; assert (int64_min < 0) by done; lia |]. fold ns. lia.
Qed.

Lemma expired_admissible tp t :
  admissible t -> due tp t -> 0 <= ns tp <= horizon -> survives t tp = true ->
  admissible (expired t tp) /\ ns tp < ns (_expiration_time_point (expired t tp)).
Proof.
  intros Hadm Hd Htp Hs. pose proof (due_no_overflow tp t Hadm Hd Htp) as Hov.
  destruct Hadm as ([Hi Hn] & H1 & H2).
  unfold expired, fires. rewrite Hs. unfold survives in Hs.
  apply andb_true_iff in Hs as [Hr Hs]. unfold repeats in Hr.
  apply andb_true_iff in Hr as [Hr1%negb_true_iff%Z.eqb_neq Hr2%negb_true_iff%Z.eqb_neq].
  unfold crossings, due, admissible, timer_wf, ns in *. simpl in *.
  set (i := TimeInterval.nanoseconds _) in *.
  set (e := TimePoint.nanoseconds_from_epoch (_expiration_time_point t)) in *.
  set (q := TimePoint.nanoseconds_from_epoch tp) in *.
  pose proof (Z.mul_succ_div_gt (q - e) i ltac:(lia)).
  pose proof (Z.mul_div_le (q - e) i ltac:(lia)).
  assert (0 <= (q - e) / i) by (apply Z.div_pos; lia).
  rewrite Z.max_r by done.
  repeat split; try nia. case_match; [done |]. simpl in Hs. apply Z.leb_le in Hs. lia.
Qed.

Definition any_timer (_ : Timer) : Prop := True.

(** The state of the loop over the expired timers [L], [V] being still valid. *)
Definition expiring (fired : option TimePoint.t) (tp : TimePoint.t) (L V : list ptr)
    (s : loop_timers) : Prop :=
  inv fired s /\ pending (due tp) L s /\ pending any_timer V s /\ NoDup (L ++ V).

(** One timer after its callbacks: written back, or deleted. *)
Definition settle (p : ptr) (t : Timer) (tp : TimePoint.t) (s : loop_timers) : loop_timers :=
  let h := <[p := expired t tp]> (heap s) in
  if survives t tp then with_heap h s else emit (EvDelete p) (with_heap (delete p h) s).

Definition keep_valid (p : ptr) (t : Timer) (tp : TimePoint.t) (V : list ptr) : list ptr :=
  if survives t tp then V ++ [p] else V.

Lemma expire_each_step p t L tp V s :
  admissible t -> due tp t -> 0 <= ns tp <= horizon -> heap s !! p = Some t ->
  expire_each threshold timerfd_settime operator_new script (p :: L) tp V s
  = let* s1 := run_times cb (_callback t) (Z.to_nat (fires t tp)) s in
    expire_each threshold timerfd_settime operator_new script L tp
      (keep_valid p t tp V) (settle p t tp s1).
Proof.
  intros Hadm Hd Htp Hp. simpl. unfold deref at 1. rewrite Hp. simpl.
  pose proof (due_no_overflow tp t Hadm Hd Htp) as Hov. destruct Hadm as (Hwf & _).
  unfold expire_until. fold cb.
  rewrite expire_until_loop_spec by auto using expire_until_fuel_enough.
  destruct (run_times _ _ _ s) as [s1 |]; [| done].
  unfold settle, keep_valid. destruct (survives t tp); [done |].
  unfold delete_timer, deref. simpl. by rewrite lookup_insert_eq.
Qed.

Lemma pending_keeps Q D s s' :
  pending Q D s -> pending any_timer D s' -> keeps D s s' -> pending Q D s'.
Proof.
  intros H H' Hk p Hp. destruct (H p Hp) as (H0 & H1 & _), (H' p Hp) as (_ & _ & H2).
  by rewrite (Hk p Hp).
Qed.

Lemma pending_sub Q (D D' : list ptr) s :
  (forall p, p ∈ D' -> p ∈ D) -> pending Q D s -> pending Q D' s.
Proof. intros H Hp p Hin. by apply Hp, H. Qed.

Lemma pending_any Q D s : pending Q D s -> pending any_timer D s.
Proof. intros H p Hp. destruct (H p Hp) as (? & (t & ? & ? & _) & ?). naive_solver. Qed.

Lemma settle_lookup_ne p t tp s q : q <> p -> heap (settle p t tp s) !! q = heap s !! q.
Proof.
  intros H. unfold settle. destruct (survives t tp); simpl.
  - by rewrite lookup_insert_ne.
  - by rewrite lookup_delete_ne, lookup_insert_ne.
Qed.

Lemma settle_container p t tp s : _timer_container (settle p t tp s) = _timer_container s.
Proof. unfold settle. by destruct (survives t tp). Qed.

Lemma expiring_step fired tp p L V s s1 t :
  expiring fired tp (p :: L) V s -> 0 <= ns tp <= horizon -> heap s !! p = Some t ->
  run_times cb (_callback t) (Z.to_nat (fires t tp)) s = Ok s1 ->
  expiring fired tp L (keep_valid p t tp V) (settle p t tp s1) /\ keeps (L ++ V) s s1.
Proof.
  intros (Hinv & HL & HV & Hnd) Htp Hp Hrun.
  assert (HD : pending any_timer (p :: L ++ V) s).
  { intros q [-> | [Hq | Hq]%elem_of_app]%elem_of_cons; [| | by apply HV].
    - apply (pending_any _ _ _ HL). set_solver.
    - apply (pending_any _ _ _ HL). set_solver. }
  destruct (run_times_inv _ _ _ _ _ _ _ Hinv HD Hrun) as (Hinv1 & HD1 & Hk).
  destruct (HD1 p ltac:(set_solver)) as (H0 & _ & Hpc).
  destruct (HL p ltac:(set_solver)) as (_ & (t' & Ht' & Hadm & Hdue) & _).
  replace t' with t in * by congruence.
  simpl in Hnd. apply NoDup_cons in Hnd as [Hpn Hnd].
  rewrite not_elem_of_app in Hpn. destruct Hpn as [HpL HpV].
  assert (Hframe : forall Q D, p ∉ D -> pending Q D s1 -> pending Q D (settle p t tp s1)).
  { intros Q D HpD. apply pending_same; [apply settle_container |].
    intros q Hq. apply settle_lookup_ne. intros ->. done. }
  split; [| intros q Hq; apply Hk; set_solver]. split; [| split; [| split]].
  - eapply inv_frame; [exact Hinv1 | apply settle_container | | |];
      [unfold settle; by destruct (survives t tp) .. |].
    intros q Hq. apply settle_lookup_ne. intros ->. done.
  - apply Hframe; [done |]. apply (pending_keeps _ _ s).
    + apply (pending_sub _ (p :: L)); [set_solver | done].
    + apply (pending_sub _ (p :: L ++ V)); [set_solver | done].
    + intros q Hq. apply Hk. set_solver.
  - assert (HV1 : pending any_timer V (settle p t tp s1)).
    { apply Hframe; [done |]. apply (pending_sub _ (p :: L ++ V)); [set_solver | done]. }
    unfold keep_valid, settle in *. destruct (survives t tp) eqn:Es; [| done].
    intros q [Hq | ->%list_elem_of_singleton]%elem_of_app; [by apply HV1 |].
    split; [done |]. split; [| done]. exists (expired t tp). simpl.
    rewrite lookup_insert_eq. split; [done |]. split; [| done].
    by apply expired_admissible.
  - unfold keep_valid. destruct (survives t tp); [| done]. rewrite app_assoc.
    apply NoDup_app. split; [done |]. split; [set_solver | apply NoDup_singleton].
Qed.

Lemma expire_each_inv fired tp L V s V' s' :
  expiring fired tp L V s -> 0 <= ns tp <= horizon ->
  expire_each threshold timerfd_settime operator_new script L tp V s = Ok (V', s') ->
  expiring fired tp [] V' s'.
Proof.
  intros H Htp. revert V s H. induction L as [| p L IH]; intros V s H Hrun.
  { simpl in Hrun. by inv_ok. }
  destruct H as (Hinv & HL & HV & Hnd) eqn:EH; clear EH.
  destruct (HL p ltac:(set_solver)) as (_ & (t & Hp & Hadm & Hdue) & _).
  rewrite (expire_each_step p t) in Hrun by done.
  destruct (run_times _ _ _ s) as [s1 |] eqn:E; [| done].
  destruct (expiring_step fired tp p L V s s1 t (conj Hinv (conj HL (conj HV Hnd)))
              Htp Hp E) as [H1 _]. by apply (IH _ _ H1).
Qed.

(** The effects of one due timer of the heap [h]. *)
Definition effects (h : timer_heap) (tp : TimePoint.t) (p : ptr) : list timer_event :=
  match h !! p with
  | Some t => repeat (EvCallback (_callback t)) (Z.to_nat (fires t tp))
              ++ (if survives t tp then [] else [EvDelete p])
  | None => []
  end.

Lemma effects_keeps s s' tp L :
  keeps L s s' -> effects (heap s') tp <$> L = effects (heap s) tp <$> L.
Proof.
  intros H. apply list_fmap_ext. intros i p Hp. unfold effects.
  rewrite H; [done | by eapply list_elem_of_lookup_2].
Qed.

Lemma settle_trace p t tp s :
  trace (settle p t tp s) = trace s ++ (if survives t tp then [] else [EvDelete p]).
Proof. unfold settle. destruct (survives t tp); simpl; by rewrite ?app_nil_r. Qed.

Definition survivor_of (tp : TimePoint.t) (h : timer_heap) (L V : list ptr) (s : loop_timers) : Prop :=
  forall p t, p ∈ L -> h !! p = Some t -> survives t tp = true ->
    p ∈ V /\ heap s !! p = Some (expired t tp).

Lemma expire_each_schedule fired tp L V s :
  scripts_schedule -> expiring fired tp L V s -> 0 <= ns tp <= horizon ->
  exists V' s',
    expire_each threshold timerfd_settime operator_new script L tp V s = Ok (V', s') /\
    trace s' = trace s ++ concat (effects (heap s) tp <$> L) /\
    (forall e, e ∈ _timer_container s -> e ∈ _timer_container s') /\
    keeps V s s' /\ (forall p, p ∈ V -> p ∈ V') /\ survivor_of tp (heap s) L V' s'.
Proof.
  intros Hsch H Htp. revert V s H. induction L as [| p L IH]; intros V s H.
  { exists V, s. simpl. rewrite app_nil_r. repeat split; set_solver. }
  pose proof H as (Hinv & HL & HV & Hnd).
  destruct (HL p ltac:(set_solver)) as (_ & (t & Hp & Hadm & Hdue) & _).
  rewrite (expire_each_step p t) by done.
  destruct (run_times_schedule fired (due tp) (p :: L) (_callback t) (Z.to_nat (fires t tp)) s
              Hsch Hinv HL) as (s1 & Hr & Ht & _ & Hext). rewrite Hr.
  destruct (expiring_step fired tp p L V s s1 t H Htp Hp Hr) as [H1 Hk].
  destruct (IH _ _ H1) as (V' & s2 & -> & Ht2 & Hc2 & Hk2 & HV2 & Hs2).
  simpl in Hnd. apply NoDup_cons in Hnd as [Hpn Hnd]. rewrite not_elem_of_app in Hpn.
  assert (Hks : keeps (L ++ V) s (settle p t tp s1)).
  { intros q Hq. rewrite settle_lookup_ne by set_solver. by apply Hk. }
  exists V', s2. split; [done |]. split; [| split; [| split; [| split]]].
  - rewrite Ht2, settle_trace, Ht. simpl. unfold effects at 2. rewrite Hp.
    rewrite (effects_keeps s) by (intros q Hq; apply Hks; set_solver).
    by rewrite <- !app_assoc.
  - intros e He. apply Hc2. rewrite settle_container. by apply Hext.
  - intros q Hq. rewrite Hk2; [apply Hks; set_solver |].
    unfold keep_valid. destruct (survives t tp); set_solver.
  - intros q Hq. apply HV2. unfold keep_valid. destruct (survives t tp); set_solver.
  - intros q t' Hq Hq' Hs'. apply elem_of_cons in Hq as [-> | Hq].
    + replace t' with t in * by congruence. unfold keep_valid in *. rewrite Hs' in *.
      split; [apply HV2; set_solver |]. rewrite Hk2 by set_solver.
      unfold settle. rewrite Hs'. simpl. apply lookup_insert_eq.
    + apply (Hs2 q t' Hq); [| done]. rewrite Hks; [done | set_solver].
Qed.

Lemma insert_all_inv V s c fired :
  sorted c -> Forall (entry_ok (heap s)) c -> alarm_pre fired (with_container c s) ->
  pending any_timer V s ->
  exists c', insert_all (heap s) V c = Ok c' /\ sorted c' /\ Forall (entry_ok (heap s)) c' /\
    alarm_pre fired (with_container c' s) /\ (V <> [] -> c' <> []) /\
    (forall e, e ∈ c' <-> e ∈ c \/
       exists p t, p ∈ V /\ heap s !! p = Some t /\ e = (_expiration_time_point t, p)).
Proof.
  revert c. induction V as [| p V IH]; simpl; intros c Hs Hf Ha Hp.
  { exists c. repeat split; try done; [tauto |]. intros [? | (? & ? & ? & _)]; [done | set_solver]. }
  destruct (Hp p ltac:(set_solver)) as (H0 & (t & Ht & Hadm & _) & _).
  unfold deref. rewrite Ht. simpl. unfold get_expiration_time_point.
  set (e := (_expiration_time_point t, p)).
  destruct (IH (set_insert e c)) as (c' & -> & H1 & H2 & H3 & _ & H4).
  - by apply sorted_set_insert.
  - apply Forall_forall. intros x [-> | Hx]%elem_of_set_insert; [by exists t |].
    rewrite Forall_forall in Hf. auto.
  - by apply (alarm_pre_insert fired (with_container c s)).
  - by apply (pending_sub _ (p :: V)); [set_solver |].
  - exists c'. split; [done |]. split; [done |]. split; [done |]. split; [done |].
    split.
    + intros _ ->. specialize (H4 e). rewrite elem_of_set_insert in H4. set_solver.
    + intros x. rewrite H4, elem_of_set_insert. split.
      * intros [[-> | ?] | (q & t' & ? & ? & ?)]; [right | by left | right].
        -- exists p, t. set_solver.
        -- exists q, t'. set_solver.
      * intros [? | (q & t' & [-> | Hq]%elem_of_cons & Hq' & ->)]; [by left; right | |].
        -- left; left. by replace t' with t by congruence.
        -- right. by exists q, t'.
Qed.

Lemma container_ptrs_NoDup h (c : TimerContainer) :
  sorted c -> Forall (entry_ok h) c -> NoDup c.*2.
Proof using Henv.
  clear Hscripts.
  induction c as [| x c IH]; simpl; intros Hs Hf; [constructor |].
  destruct (sorted_cons_inv _ _ Hs) as [Hc Hx].
  pose proof (Forall_cons_1 _ _ _ Hf) as [(t & Ht & Hte & _) Hf'].
  apply NoDup_cons. split; [| by apply IH].
  intros (y & Hy & Hin)%list_elem_of_fmap. destruct x as [tp p], y as [tp' q]. simpl in *. subst q.
  rewrite (entry_unique h c p t tp' Hf' Ht Hin), Hte in Hin. apply Hx in Hin.
  unfold entry_lt in Hin. by rewrite entry_ltb_irrefl in Hin.
Qed.

Definition handled_by (fired : option TimePoint.t) (tp : TimePoint.t) : Prop :=
  forall now, fired = Some now -> ns now <= ns tp.

Lemma expire_begin fired tp s :
  inv fired s -> handled_by fired tp -> 0 <= ns tp <= horizon -> horizon < limit ->
  exists due_entries rest s1,
    _timer_container s = due_entries ++ rest /\
    move_out_before_or_at tp (_timer_container s) = Ok (due_entries.*2, rest) /\
    update_after_removal (with_container rest s) = Ok s1 /\
    same_timers (with_container rest s) s1 /\
    Forall (fun e => TimePoint.le e.1 tp = true) due_entries /\
    Forall (fun e => TimePoint.gt e.1 tp = true) rest /\
    expiring None tp due_entries.*2 [] s1.
Proof.
  pose proof (threshold_range Henv) as Ht. rewrite forever_ns in Ht.
  intros Hinv Hf Htp Hh. pose proof Hinv as (Hs & He & _). unfold limit in Hh.
  rewrite forever_ns in Hh.
  destruct (move_out_split tp _ Hs) as (out & rest & Hc & Hm & Hout & Hrest & Hsr).
  { eapply Forall_impl; [exact He |]. by intros e (t & _ & _ & ? & _). }
  { split; fold ns; assert (int64_min < 0) by done; lia. }
  { unfold TimePoint.le. fold ns. apply Z.leb_le. rewrite forever_ns. lia. }
  destruct (update_after_removal_ok fired None s rest Hinv Hsr) as (s1 & Hu & Hst & Hi).
  { intros x Hx. rewrite Hc. set_solver. }
  { intros now ->. right. intros x Hx. rewrite Forall_forall in Hrest.
    specialize (Hrest x Hx). apply Z.ltb_lt in Hrest. specialize (Hf now eq_refl).
    unfold ns in *. lia. }
  exists out, rest, s1. repeat (split; [done |]).
  pose proof (container_ptrs_NoDup _ _ Hs He) as Hnd. rewrite Hc, fmap_app in Hnd.
  apply NoDup_app in Hnd as (Hnd1 & Hnd2 & _). rewrite Hc in He.
  apply Forall_app in He as [He _]. destruct Hst as (Hsc & Hsh & _). simpl in *.
  split; [| split; [set_solver | by rewrite app_nil_r]].
  intros p (e & -> & Hin)%list_elem_of_fmap. rewrite Forall_forall in He, Hout.
  destruct (He e Hin) as (t & Hlt & Hte & H0 & Hadm). split; [done |]. split.
  - exists t. rewrite Hsh. repeat (split; [done |]). specialize (Hout e Hin).
    apply Z.leb_le in Hout. unfold due. by rewrite Hte.
  - rewrite Hsc. apply Hnd2. by apply list_elem_of_fmap_2.
Qed.

Definition reinsert (V : list ptr) (s : loop_timers) : result loop_timers :=
  if bool_decide (V = []) then Ok s
  else let* c := insert_all (heap s) V (_timer_container s) in
       advance_alarm threshold timerfd_settime (with_container c s).

Lemma reinsert_ok fired tp V s :
  expiring fired tp [] V s ->
  exists s', reinsert V s = Ok s' /\ inv fired s' /\ heap s' = heap s /\ trace s' = trace s /\
    (forall e, e ∈ _timer_container s' <-> e ∈ _timer_container s \/
       exists p t, p ∈ V /\ heap s !! p = Some t /\ e = (_expiration_time_point t, p)).
Proof.
  intros (Hinv & _ & HV & _). unfold reinsert. case_bool_decide as E.
  { subst V. exists s. repeat (split; [done |]). set_solver. }
  pose proof (alarm_state_pre _ _ Hinv) as Hpre. destruct Hinv as (Hs & Hf & _).
  destruct (insert_all_inv V s (_timer_container s) fired Hs Hf) as
    (c & -> & H1 & H2 & H3 & H4 & H5); [by destruct s | done |].
  destruct (advance_alarm_ok fired (with_container c s) (H4 E) H3)
    as (s' & -> & (Hc & Hh & Ht) & Ha). simpl in *.
  exists s'. split; [done |]. split; [| by rewrite Hh, Ht, Hc].
  split; [by rewrite Hc | split; [by rewrite Hc, Hh | done]].
Qed.

Lemma expire_unfold tp s :
  _expire_timers_and_update_alarm threshold timerfd_settime operator_new script tp s
  = let* (expired_timers, c) := move_out_before_or_at tp (_timer_container s) in
    let* s1 := update_after_removal (with_container c s) in
    let* (V, s2) := expire_each threshold timerfd_settime operator_new script
                      expired_timers tp [] s1 in
    reinsert V s2.
Proof. done. Qed.

Lemma expire_inv fired tp s s' :
  inv fired s -> handled_by fired tp -> 0 <= ns tp <= horizon -> horizon < limit ->
  _expire_timers_and_update_alarm threshold timerfd_settime operator_new script tp s = Ok s' ->
  inv None s'.
Proof.
  intros Hinv Hf Htp Hh. rewrite expire_unfold.
  destruct (expire_begin fired tp s Hinv Hf Htp Hh)
    as (out & rest & s1 & _ & -> & -> & _ & _ & _ & Hexp).
  destruct (expire_each _ _ _ _ _ _ _ s1) as [[V s2] |] eqn:E; [| done].
  pose proof (expire_each_inv _ _ _ _ _ _ _ Hexp Htp E) as H2.
  destruct (reinsert_ok _ _ _ _ H2) as (s3 & -> & H3 & _). by intros [= <-].
Qed.

Lemma expire_total fired tp s :
  scripts_schedule -> inv fired s -> handled_by fired tp -> 0 <= ns tp <= horizon ->
  horizon < limit ->
  exists s', _expire_timers_and_update_alarm threshold timerfd_settime operator_new script tp s
             = Ok s'.
Proof.
  intros Hsch Hinv Hf Htp Hh.
  destruct (expire_begin fired tp s Hinv Hf Htp Hh)
    as (out & rest & s1 & _ & Hm & Hu & _ & _ & _ & Hexp).
  destruct (expire_each_schedule _ _ _ _ _ Hsch Hexp Htp) as (V & s2 & E & _).
  pose proof (expire_each_inv _ _ _ _ _ _ _ Hexp Htp E) as He2.
  destruct (reinsert_ok _ _ _ _ He2) as (s3 & E3 & _).
  exists s3. by rewrite expire_unfold, Hm, Hu, E.
Qed.

(** * The loop's timer steps

    The alarm fires when the time it is armed for has come; it is handled by an
    expiration at that time or later.  In between, functors may add and cancel. *)
Inductive timers_step :
    option TimePoint.t * loop_timers -> option TimePoint.t * loop_timers -> Prop :=
| StepRunAt fired s tp i n c p s' :
    admissible (new_Timer tp i n c) ->
    run_at_time_point threshold timerfd_settime operator_new tp i n c s = Ok (p, s') ->
    timers_step (fired, s) (fired, s')
| StepCancel fired s p s' :
    cancel_a_timer timerfd_settime p s = Ok s' -> timers_step (fired, s) (fired, s')
| StepFire fired s armed now :
    it_value s = TimePoint.to_timespec armed -> it_value s <> disarmed ->
    ns armed <= ns now -> timers_step (fired, s) (Some now, with_it_value disarmed s)
| StepExpire fired s tp s' :
    handled_by fired tp -> 0 <= ns tp <= horizon ->
    _expire_timers_and_update_alarm threshold timerfd_settime operator_new script tp s = Ok s' ->
    timers_step (fired, s) (None, s').

Lemma ns_timespec a : ns a = tv_sec (TimePoint.to_timespec a) * TimeInterval.SECOND
                             + tv_nsec (TimePoint.to_timespec a).
Proof. apply TimePoint.quot_rem_second. Qed.

Lemma pending_none Q s : pending Q [] s.
Proof using Type. by intros p Hp%elem_of_nil. Qed.

Lemma timers_step_inv x y :
  horizon < limit -> timers_step x y -> inv x.1 x.2 -> inv y.1 y.2.
Proof.
  intros Hh Hstep. destruct Hstep as [fired s tp i n c p s' Hadm H | fired s p s' H
    | fired s armed now H1 H2 H3 | fired s tp s' H1 H2 H3]; simpl; intros Hinv.
  - destruct (run_at_inv fired any_timer [] tp i n c s Hinv (pending_none _ s) Hadm)
      as (q & s1 & E & Hinv1 & _). congruence.
  - destruct (heap s !! p) as [t |] eqn:E.
    + destruct (cancel_inv fired any_timer [] p t s Hinv (pending_none _ s) E)
        as (s1 & E1 & Hinv1 & _). congruence.
    + unfold cancel_a_timer, _cancel_a_timer_and_update_alarm, remove_one, deref in H.
      by rewrite E in H.
  - destruct Hinv as (Hs & Hf & Ha). split; [done |]. split; [done |].
    unfold alarm_state in *; simpl. destruct (_timer_container s) as [| e c]; [by destruct Ha |].
    destruct Ha as [Ha1 Ha2]. split; [| done]. right. split; [done |]. exists now. split; [done |]. simpl.
    destruct Ha1 as [Ha1 | [Ha1 _]]; [| done].
    rewrite ns_timespec, <- Ha1, H1, <- ns_timespec. done.
  - by eapply expire_inv.
Qed.

Lemma timers_reachable_inv x y :
  horizon < limit -> rtc timers_step x y -> inv x.1 x.2 -> inv y.1 y.2.
Proof. intros Hh. induction 1; eauto using timers_step_inv. Qed.

Lemma new_loop_inv : inv None new_loop_timers.
Proof. split; [apply sorted_nil | split; [apply Forall_nil_2 | done]]. Qed.

(** C1: Every reachable state of a loop's timers is sound, whatever the callbacks do
    with the loop: the container is sorted and holds only live timers under their
    own expiration; an empty container means a disarmed alarm; and no timer is
    forgotten: as long as no fired alarm awaits its handling, the kernel timer is
    armed for at most [threshold] nanoseconds after every timer's expiration, and
    never before the earliest one. *)
Theorem timers_no_timer_forgotten fired s
    (Hh : horizon < limit)
    (Hreach : rtc timers_step (None, new_loop_timers) (fired, s)) :
  sorted (_timer_container s) /\
  (forall e, e ∈ _timer_container s ->
     exists t, heap s !! e.2 = Some t /\ _expiration_time_point t = e.1) /\
  (_timer_container s = [] -> it_value s = disarmed) /\
  (fired = None -> _timer_container s <> [] ->
     exists a, it_value s = TimePoint.to_timespec a /\ it_value s <> disarmed /\
       (exists e, e ∈ _timer_container s /\ ns e.1 <= ns a) /\
       forall e, e ∈ _timer_container s -> ns a <= ns e.1 + threshold).
Proof.
  pose proof (timers_reachable_inv _ _ Hh Hreach new_loop_inv) as (Hs & Hf & Ha). simpl in *.
  split; [done |]. rewrite Forall_forall in Hf. split.
  { intros e He. destruct (Hf e He) as (t & ? & ? & _). eauto. }
  unfold alarm_state in Ha. destruct (_timer_container s) as [| e c] eqn:Ec.
  { split; [by intros; apply Ha | done]. }
  split; [done |]. intros -> _. destruct Ha as [[Ha | [_ (? & ? & _)]] Hr]; [| done].
  destruct (Hf e ltac:(set_solver)) as (t & _ & Ht & _ & Hadm%admissible_range).
  rewrite Ht in Hadm. eexists. split; [exact Ha |]. split; [| split].
  - intros Hd. pose proof (ns_timespec (_next_earliest_expiration_time s)) as Hn.
    rewrite <- Ha, Hd in Hn. simpl in Hn. lia.
  - exists e. split; [set_solver | lia].
  - intros x Hx. pose proof (sorted_head_le _ _ _ Hs Hx). lia.
Qed.

(** Expiration, for callbacks that only schedule timers: it returns, and the
    timers at or before [tp] are handled in the order of their expirations, each
    by as many runs of its callback as it has expirations up to [tp], exactly the
    exhausted ones being deleted; a surviving timer is back in the container
    under its next expiration, later timers are untouched, and the alarm is
    consistent again. *)
Theorem expire_timers_spec fired tp s
    (Hsch : scripts_schedule) (Hinv : inv fired s) (Hf : handled_by fired tp)
    (Htp : 0 <= ns tp <= horizon) (Hh : horizon < limit) :
  exists due_entries rest s',
    _timer_container s = due_entries ++ rest /\
    Forall (fun e => TimePoint.le e.1 tp = true) due_entries /\
    Forall (fun e => TimePoint.gt e.1 tp = true) rest /\
    _expire_timers_and_update_alarm threshold timerfd_settime operator_new script tp s = Ok s' /\
    trace s' = trace s ++ concat (effects (heap s) tp <$> due_entries.*2) /\
    (forall e, e ∈ rest -> e ∈ _timer_container s') /\
    (forall p t, p ∈ due_entries.*2 -> heap s !! p = Some t -> survives t tp = true ->
       heap s' !! p = Some (expired t tp) /\
       (_expiration_time_point (expired t tp), p) ∈ _timer_container s') /\
    inv None s'.
Proof.
  destruct (expire_begin fired tp s Hinv Hf Htp Hh)
    as (out & rest & s1 & Hc & Hm & Hu & (Hc1 & Hh1 & Ht1) & H1 & H2 & Hexp).
  destruct (expire_each_schedule _ _ _ _ _ Hsch Hexp Htp)
    as (V & s2 & E & Ht2 & Hc2 & _ & _ & Hsv).
  pose proof (expire_each_inv _ _ _ _ _ _ _ Hexp Htp E) as He2.
  destruct (reinsert_ok _ _ _ _ He2) as (s3 & E3 & Hinv3 & Hh3 & Ht3 & Hc3).
  exists out, rest, s3. rewrite expire_unfold, Hm, Hu, E. simpl in *.
  rewrite Hh1 in *. repeat (split; [done |]). split; [by rewrite Ht3, Ht2, Ht1 |].
  split; [intros e He; apply Hc3; left; apply Hc2; by rewrite Hc1 |].
  split; [| done]. intros p t Hp Hpt Hs. destruct (Hsv p t Hp Hpt Hs) as [HV Hp2].
  rewrite Hh3. split; [done |]. apply Hc3. right. by exists p, (expired t tp).
Qed.

(** The destructor of the loop deletes every timer of the container exactly
    once, in the order of their expirations, and nothing else. *)
Theorem release_all_timers_spec fired s (Hinv : inv fired s) :
  exists s', _release_all_timers s = Ok s' /\ _timer_container s' = [] /\
    trace s' = trace s ++ (EvDelete <$> (_timer_container s).*2) /\
    (forall p, p ∈ (_timer_container s).*2 -> heap s' !! p = None) /\
    (forall p, p ∉ (_timer_container s).*2 -> heap s' !! p = heap s !! p).
Proof using Henv.
  clear Hscripts.
  pose proof (threshold_range Henv) as Ht. destruct Hinv as (Hs & Hf & _).
  destruct (move_out_split TimePoint.FOREVER _ Hs)
    as (out & rest & Hc & Hm & _ & Hrest & _); [| by split | done |].
  { eapply Forall_impl; [exact Hf |]. by intros e (t & _ & _ & ? & _). }
  assert (rest = []) as ->.
  { destruct rest as [| e rest]; [done |]. rewrite Forall_forall in Hf, Hrest.
    destruct (Hf e) as (t & _ & Et & _ & Hadm%admissible_range); [rewrite Hc; set_solver |].
    specialize (Hrest e ltac:(set_solver)). apply Z.ltb_lt in Hrest.
    rewrite Et in Hadm. unfold limit, ns in *. lia. }
  rewrite app_nil_r in Hc. subst out. unfold _release_all_timers. rewrite Hm. simpl.
  destruct (delete_all_ok (_timer_container s).*2 (with_container [] s))
    as (s' & -> & Htr & Hcc & Hh); [by eapply container_ptrs_NoDup | |].
  { intros p (e & -> & He)%list_elem_of_fmap. simpl. rewrite Forall_forall in Hf.
    by destruct (Hf e He) as (t & -> & _). }
  exists s'. split; [done |]. split; [done |]. split; [done |]. simpl in *.
  split; intros p Hp; rewrite Hh; by destruct (decide _).
Qed.

(** Cancellation, on every branch.  A timer that is not live (it expired and was
    deleted) is read all the same: undefined behaviour.  A live timer outside the
    container is left alone.  Cancelling the last timer disarms the alarm but
    does not delete the timer; cancelling any other timer deletes it. *)
Theorem cancel_a_timer_spec fired p s (Hinv : inv fired s) :
  match heap s !! p with
  | None => cancel_a_timer timerfd_settime p s = Err UndefinedBehaviour
  | Some t =>
      if decide ((_expiration_time_point t, p) ∈ _timer_container s)
      then exists s', cancel_a_timer timerfd_settime p s = Ok s' /\ inv fired s' /\
        (forall e, e ∈ _timer_container s' <->
           e ∈ _timer_container s /\ e <> (_expiration_time_point t, p)) /\
        (if decide (_timer_container s = [(_expiration_time_point t, p)])
         then it_value s' = disarmed /\ heap s' = heap s
         else heap s' = delete p (heap s))
      else cancel_a_timer timerfd_settime p s = Ok s
  end.
Proof using Henv.
  clear Hscripts.
  destruct (heap s !! p) as [t |] eqn:Hp.
  2:{ unfold cancel_a_timer, _cancel_a_timer_and_update_alarm, remove_one, deref.
      by rewrite Hp. }
  destruct (cancel_inv fired any_timer [] p t s Hinv (pending_none _ s) Hp)
    as (s0 & Hok & Hinv0 & _).
  unfold cancel_a_timer, _cancel_a_timer_and_update_alarm, remove_one, deref in *.
  rewrite Hp in *. simpl in *. unfold get_expiration_time_point in *.
  set (e := (_expiration_time_point t, p)) in *. destruct (decide (e ∈ _)) as [Hin | Hout].
  2:{ rewrite (set_erase_absent e _ Hout) in *. by destruct s. }
  exists s0. split; [done |]. split; [done |]. pose proof Hinv as (Hs & Hf & Ha).
  destruct (set_erase_spec e _ Hs) as (H1 & H2 & H3). rewrite decide_True in H1 by done.
  destruct (set_erase e (_timer_container s)) as [n c]; simpl in *. subst n. simpl in Hok.
  destruct (update_after_removal_ok fired fired s c Hinv H2) as (s1 & E & (Hc1 & Hh1 & _) & _);
    [intros x Hx; by apply H3 | auto |].
  unfold update_after_removal in E. simpl in *.
  assert (Hlast : c = [] <-> _timer_container s = [e]).
  { split; intros Hnil.
    - assert (Hall : forall x, x ∈ _timer_container s -> x = e).
      { intros x Hx. destruct (decide (x = e)); [done |]. subst c.
        by destruct (proj2 (H3 x) (conj Hx n)). }
      by apply sorted_all_equal.
    - destruct c as [| y c]; [done |]. destruct (proj1 (H3 y) ltac:(set_solver)) as [Hy Hne].
      rewrite Hnil in Hy. set_solver. }
  destruct (empty c) eqn:Ee.
  - destruct c; [| done]. rewrite decide_True by (by apply Hlast).
    rewrite E in Hok. injection Hok as <-. rewrite cancel_alarm_forever_ok in E.
    injection E as <-. simpl. split; [exact H3 | done].
  - rewrite decide_False by (intros Hl; by apply Hlast in Hl as ->).
    rewrite E in Hok. unfold delete_timer, deref in Hok. rewrite Hh1, Hp in Hok. simpl in Hok.
    injection Hok as <-. simpl. rewrite Hc1. split; [exact H3 | done].
Qed.
End Invariant.

(** * A concrete loop *)
Definition sample_settime (v : timespec) : settime_outcome :=
  if (0 <=? tv_sec v) && (0 <=? tv_nsec v) && (tv_nsec v <? TimeInterval.SECOND)
  then SettimeDone else SettimeFailed.

Definition sample_new (h : timer_heap) : ptr :=
  map_fold (fun k _ m => Z.max k m) 0 h + 16.

Lemma sample_new_bound (h : timer_heap) :
  0 <= map_fold (fun k _ m => Z.max k m) 0 h /\
  forall k, h !! k <> None -> k <= map_fold (fun k _ m => Z.max k m) 0 h.
Proof.
  apply (map_fold_weak_ind (fun m (h : timer_heap) => 0 <= m /\ forall k, h !! k <> None -> k <= m)).
  - split; [done |]. intros k. by rewrite lookup_empty.
  - intros k x h' m _ [H0 IH]. split; [lia |]. intros k' Hk.
    destruct (decide (k' = k)) as [-> | Hne]; [lia |].
    rewrite lookup_insert_ne in Hk by done. specialize (IH _ Hk). lia.
Qed.

Lemma sample_environment : environment_ok 3 sample_settime sample_new.
Proof.
  split.
  - split; vm_compute; discriminate.
  - intros v H1 H2. unfold sample_settime.
    rewrite (proj2 (Z.leb_le _ _) H1), (proj2 (Z.leb_le 0 _) (proj1 H2)),
      (proj2 (Z.ltb_lt _ _) (proj2 H2)). done.
  - intros h. unfold sample_new. destruct (sample_new_bound h) as [H0 H]. split; [lia |].
    destruct (h !! _) eqn:E; [| done]. specialize (H _ ltac:(by rewrite E)). lia.
Qed.

(** Callback 1 schedules callback 0 ten nanoseconds after time 120. *)
Definition sample_script (c : nat) : list action :=
  if decide (c = 1%nat)
  then [ActRunAt (TimePoint.mk 130) (TimeInterval.mk 0) 0 0%nat] else [].

Definition sample_horizon : Z := 1000000.

Lemma sample_admissible tp i n c :
  0 < tp -> 0 <= i -> -1 <= n -> tp <= sample_horizon -> i <= sample_horizon ->
  admissible 3 sample_horizon (new_Timer (TimePoint.mk tp) (TimeInterval.mk i) n c).
Proof.
  intros. unfold admissible, limit, ns, sample_horizon in *. simpl.
  rewrite Z.max_r by done. split; [apply new_Timer_wf |]. simpl. lia.
Qed.

Lemma sample_scripts_ok : scripts_ok 3 sample_horizon sample_script.
Proof.
  intros c. unfold sample_script. destruct (decide _); [| constructor].
  repeat constructor; simpl; unfold limit, ns, sample_horizon; simpl; lia.
Qed.

Lemma sample_scripts_schedule : scripts_schedule sample_script.
Proof. intros c. unfold sample_script. by destruct (decide _). Qed.

(** Two timers: callback 1 every 10 ns twice more, callback 0 once. *)
Definition sample_loop : loop_timers :=
  mkLoop [(TimePoint.mk 100, 16); (TimePoint.mk 105, 32); (TimePoint.mk 500, 48)]
    (TimePoint.mk 100) (TimePoint.to_timespec (TimePoint.mk 100))
    (<[16 := new_Timer (TimePoint.mk 100) (TimeInterval.mk 10) 2 1%nat]>
     (<[32 := new_Timer (TimePoint.mk 105) (TimeInterval.mk 0) 0 0%nat]>
      {[48 := new_Timer (TimePoint.mk 500) (TimeInterval.mk 0) 0 0%nat]})) [].

Lemma sample_inv : inv 3 sample_horizon None sample_loop.
Proof.
  split; [| split].
  - repeat (apply sorted_cons; [| by repeat (setoid_rewrite elem_of_cons); intros y Hy;
      repeat destruct Hy as [-> | Hy]; first [reflexivity | by apply elem_of_nil in Hy]]).
    apply sorted_nil.
  - repeat apply Forall_cons_2; [| | | apply Forall_nil_2]; eexists;
      (split; [reflexivity |]; split; [reflexivity |]; split; [reflexivity |]);
      apply sample_admissible; unfold sample_horizon; lia.
  - split; [by left | split; vm_compute; discriminate].
Qed.

Lemma expire_timers_spec_witness :
  exists s', _expire_timers_and_update_alarm 3 sample_settime sample_new sample_script
               (TimePoint.mk 112) sample_loop = Ok s' /\
    trace s' = [EvCallback 1; EvCallback 1; EvCallback 0; EvDelete 32] /\
    (_timer_container s').*2 = [16; 64; 80; 48].
Proof.
  destruct (expire_timers_spec 3 sample_horizon sample_settime sample_new sample_script
              sample_environment sample_scripts_ok None (TimePoint.mk 112) sample_loop
              sample_scripts_schedule sample_inv)
    as (d & r & s' & _ & _ & _ & E & _); [done | done | done |].
  exists s'. split; [exact E |].
  assert (Hc : _expire_timers_and_update_alarm 3 sample_settime sample_new sample_script
               (TimePoint.mk 112) sample_loop = Ok s') by exact E.
  vm_compute in Hc. injection Hc as <-. split; reflexivity.
Defined.

(** One timer scheduled, then the alarm fires late and is handled. *)
Definition sample_added : loop_timers :=
  mkLoop [(TimePoint.mk 100, 16)] (TimePoint.mk 100) (TimePoint.to_timespec (TimePoint.mk 100))
    {[16 := new_Timer (TimePoint.mk 100) (TimeInterval.mk 10) (-1) 0%nat]} [].

Definition sample_expired : loop_timers :=
  mkLoop [(TimePoint.mk 110, 16)] (TimePoint.mk 110) (TimePoint.to_timespec (TimePoint.mk 110))
    {[16 := mkTimer (TimePoint.mk 110) (TimeInterval.mk 10) (-1) 0%nat]} [EvCallback 0].

Lemma timers_no_timer_forgotten_witness :
  rtc (timers_step 3 sample_horizon sample_settime sample_new sample_script)
    (None, new_loop_timers) (None, sample_expired) /\
  exists a, it_value sample_expired = TimePoint.to_timespec a /\ ns a <= 110 + 3.
Proof.
  assert (Hr : rtc (timers_step 3 sample_horizon sample_settime sample_new sample_script)
                 (None, new_loop_timers) (None, sample_expired)).
  { eapply rtc_l with (None, sample_added).
    { eapply (StepRunAt _ _ _ _ _ _ _ (TimePoint.mk 100) (TimeInterval.mk 10) (-1) 0%nat 16).
      - apply sample_admissible; unfold sample_horizon; lia.
      - vm_compute. reflexivity. }
    eapply rtc_l with (Some (TimePoint.mk 103), with_it_value disarmed sample_added).
    { apply (StepFire _ _ _ _ _ _ _ (TimePoint.mk 100)); [reflexivity | discriminate |].
      vm_compute. discriminate. }
    eapply rtc_l; [| apply rtc_refl].
    apply (StepExpire _ _ _ _ _ _ _ (TimePoint.mk 104)).
    - intros now [= <-]. vm_compute. discriminate.
    - split; vm_compute; discriminate.
    - vm_compute. reflexivity. }
  split; [exact Hr |].
  destruct (timers_no_timer_forgotten 3 sample_horizon sample_settime sample_new sample_script
              sample_environment sample_scripts_ok None sample_expired ltac:(reflexivity) Hr)
    as (_ & _ & _ & H).
  destruct (H eq_refl ltac:(discriminate)) as (a & Ha & _ & _ & Hle).
  exists a. split; [exact Ha |].
  apply (Hle (TimePoint.mk 110, 16)). unfold sample_expired. simpl. left.
Defined.

Lemma release_all_timers_spec_witness :
  exists s', _release_all_timers sample_loop = Ok s' /\
    trace s' = [EvDelete 16; EvDelete 32; EvDelete 48].
Proof.
  destruct (release_all_timers_spec 3 sample_horizon sample_settime sample_new
              sample_environment None sample_loop sample_inv) as (s' & E & _ & Ht & _).
  exists s'. split; [exact E | exact Ht].
Defined.

(** The only timer of [sample_added] is cancelled and stays allocated. *)
Lemma cancel_a_timer_spec_witness :
  inv 3 sample_horizon None sample_added /\
  exists s', cancel_a_timer sample_settime 16 sample_added = Ok s' /\
    it_value s' = disarmed /\ heap s' = heap sample_added.
Proof.
  assert (Hinv : inv 3 sample_horizon None sample_added).
  { split; [apply sorted_cons; [apply sorted_nil | intros y Hy; by apply elem_of_nil in Hy] |].
    split; [| split; [by left | split; vm_compute; discriminate]].
    apply Forall_cons_2; [| apply Forall_nil_2]. eexists. split; [reflexivity |].
    split; [reflexivity |]. split; [reflexivity |].
    apply sample_admissible; unfold sample_horizon; lia. }
  split; [exact Hinv |].
  destruct (cancel_a_timer_spec 3 sample_horizon sample_settime sample_new
              sample_environment None 16 sample_added Hinv) as (s' & E & _ & _ & H).
  exists s'. split; [exact E | exact H].
Defined.
