(* ===== verification/Poller.v ===== *)
(** The epoll poller and the pollable file descriptors:
    [src/event_poller.cc], [src/pollable_file_descriptor.cc] and their headers.

    The kernel is an interface: [epoll_ctl], [close] and the documented way they
    change the interest list.  All operations run in the owner thread of the
    event loop, where [EventLoop::run] calls its functor at once. *)
From S2P Require Import Prelude.
Open Scope Z_scope.

(** * Event masks ([uint32_t]) *)
Definition EPOLLIN : Z := 0x1.
Definition EPOLLPRI : Z := 0x2.
Definition EPOLLOUT : Z := 0x4.
Definition EPOLLERR : Z := 0x8.
Definition EPOLLHUP : Z := 0x10.
Definition EPOLLRDHUP : Z := 0x2000.
Definition EPOLLET : Z := 0x80000000.

Definition EVENT_TYPE_READ : Z := Z.lor (Z.lor EPOLLIN EPOLLPRI) EPOLLRDHUP.
Definition EVENT_TYPE_WRITE : Z := EPOLLOUT.
Definition EVENT_TYPE_CLOSE : Z := EPOLLHUP.
Definition EVENT_TYPE_ERROR : Z := EPOLLERR.
Definition EVENT_TYPE_ALL : Z := Z.lor EVENT_TYPE_READ EVENT_TYPE_WRITE.

(** [_event.events & ~mask] on 32 bits. *)
Definition and_not (events mask : Z) : Z := Z.land events (Z.lxor mask 0xffffffff).

(** * The kernel *)
Inductive epoll_op := EPOLL_CTL_ADD | EPOLL_CTL_MOD | EPOLL_CTL_DEL.

(** [data.ptr] and [events] *)
Record epoll_event := mkEvent { data_ptr : Z; events : Z }.

(** [None] is a failing call ([-1]). *)
Class Epoll (K : Type) := {
  epoll_ctl : K -> epoll_op -> Z -> epoll_event -> option K;
  sys_close : K -> Z -> option K;
  opened : K -> gset Z;
  interest : K -> gmap Z epoll_event
}.

(** The documented behaviour: [EEXIST], [ENOENT], [EBADF] are the failures, and
    closing a descriptor removes it from the interest list. *)
Class EpollLaws (K : Type) `{Epoll K} : Prop := {
  ctl_add k fd ev :
    fd ∈ opened k -> interest k !! fd = None ->
    exists k', epoll_ctl k EPOLL_CTL_ADD fd ev = Some k' /\
      interest k' = <[fd := ev]> (interest k) /\ opened k' = opened k;
  ctl_add_exists k fd ev :
    is_Some (interest k !! fd) -> epoll_ctl k EPOLL_CTL_ADD fd ev = None;
  ctl_mod k fd ev :
    fd ∈ opened k -> is_Some (interest k !! fd) ->
    exists k', epoll_ctl k EPOLL_CTL_MOD fd ev = Some k' /\
      interest k' = <[fd := ev]> (interest k) /\ opened k' = opened k;
  ctl_mod_absent k fd ev :
    interest k !! fd = None -> epoll_ctl k EPOLL_CTL_MOD fd ev = None;
  ctl_del k fd ev :
    fd ∈ opened k -> is_Some (interest k !! fd) ->
    exists k', epoll_ctl k EPOLL_CTL_DEL fd ev = Some k' /\
      interest k' = delete fd (interest k) /\ opened k' = opened k;
  ctl_del_absent k fd ev :
    interest k !! fd = None -> epoll_ctl k EPOLL_CTL_DEL fd ev = None;
  close_opened k fd :
    fd ∈ opened k ->
    exists k', sys_close k fd = Some k' /\
      interest k' = delete fd (interest k) /\ opened k' = opened k ∖ {[fd]}
}.

(** * The poller *)
Record EventPoller (K : Type) := mkPoller {
  kernel : K;
  _fds_that_are_listening_on : list bool;
  _number_of_fds_that_are_listening_on : Z
}.
Arguments mkPoller {K}.
Arguments kernel {K}.
Arguments _fds_that_are_listening_on {K}.
Arguments _number_of_fds_that_are_listening_on {K}.

(** [ptr[i]] on a C++ array: undefined outside the array. *)
Definition array_get {A} (l : list A) (i : Z) : result A :=
  if i <? 0 then Err UndefinedBehaviour else of_option UndefinedBehaviour (l !! Z.to_nat i).
Definition array_set {A} (l : list A) (i : Z) (a : A) : list A := <[Z.to_nat i := a]> l.

Section Poller.
Context {K : Type} `{Epoll K}.

Definition new_EventPoller (k : K) (max_size : nat) : EventPoller K :=
  mkPoller k (replicate max_size false) 0.

Definition size (p : EventPoller K) : Z := _number_of_fds_that_are_listening_on p.
Definition poller_empty (p : EventPoller K) : bool := size p =? 0.

Definition register_event_for_fd (fd : Z) (event : epoll_event) (p : EventPoller K)
    : result (EventPoller K) :=
  let* is_attached := array_get (_fds_that_are_listening_on p) fd in
  let op := if is_attached then EPOLL_CTL_MOD else EPOLL_CTL_ADD in
  match epoll_ctl (kernel p) op fd event with
  | None => Err Fatal
  | Some k =>
      if negb is_attached
      then Ok (mkPoller k (array_set (_fds_that_are_listening_on p) fd true)
                 (u64 (_number_of_fds_that_are_listening_on p + 1)))
      else Ok (mkPoller k (_fds_that_are_listening_on p)
                 (_number_of_fds_that_are_listening_on p))
  end.

Definition detach_fd (fd : Z) (p : EventPoller K) : result (EventPoller K) :=
  let* is_attached := array_get (_fds_that_are_listening_on p) fd in
  if negb is_attached then Ok p
  else
    match epoll_ctl (kernel p) EPOLL_CTL_DEL fd (mkEvent 0 0) with
    | None => Err Fatal
    | Some k =>
        Ok (mkPoller k (array_set (_fds_that_are_listening_on p) fd false)
              (u64 (_number_of_fds_that_are_listening_on p - 1)))
    end.

(** ** Pollable file descriptors *)
Record PollableFd := mkPfd {
  self : Z;
  _fd : Z;
  _is_reading : bool;
  _is_writing : bool;
  _is_detached : bool;
  _initial_epoll_event : Z;
  _event : epoll_event
}.

Definition with_flags (reading writing detached : bool) (ev : Z) (d : PollableFd) : PollableFd :=
  mkPfd (self d) (_fd d) reading writing detached (_initial_epoll_event d)
    (mkEvent (data_ptr (_event d)) ev).

(** The constructor; a negative descriptor is fatal. *)
Definition new_PollableFd (self fd : Z) (prefer_et : bool) : result PollableFd :=
  let initial := if prefer_et then EPOLLET else 0 in
  if fd <? 0 then Err Fatal
  else Ok (mkPfd self fd false false true initial (mkEvent self initial)).

Abbreviation state := (PollableFd * EventPoller K)%type.

Definition _register_event (s : state) : result state :=
  let '(d, p) := s in
  let d := with_flags (_is_reading d) (_is_writing d) false (events (_event d)) d in
  let* p := register_event_for_fd (_fd d) (_event d) p in Ok (d, p).

Definition enable_read_event (s : state) : result state :=
  let '(d, p) := s in
  if _is_reading d then Ok s
  else _register_event
         (with_flags true (_is_writing d) (_is_detached d)
            (Z.lor (events (_event d)) EVENT_TYPE_READ) d, p).

Definition disable_read_event (s : state) : result state :=
  let '(d, p) := s in
  if negb (_is_reading d) then Ok s
  else _register_event
         (with_flags false (_is_writing d) (_is_detached d)
            (and_not (events (_event d)) EVENT_TYPE_READ) d, p).

Definition enable_write_event (s : state) : result state :=
  let '(d, p) := s in
  if _is_writing d then Ok s
  else _register_event
         (with_flags (_is_reading d) true (_is_detached d)
            (Z.lor (events (_event d)) EVENT_TYPE_WRITE) d, p).

Definition disable_write_event (s : state) : result state :=
  let '(d, p) := s in
  if negb (_is_writing d) then Ok s
  else _register_event
         (with_flags (_is_reading d) false (_is_detached d)
            (and_not (events (_event d)) EVENT_TYPE_WRITE) d, p).

Definition detach_from_poller (s : state) : result state :=
  let '(d, p) := s in
  if _is_detached d then Ok s
  else
    let d := with_flags false false true (_initial_epoll_event d) d in
    let* p := detach_fd (_fd d) p in Ok (d, p).

Definition close_fd (s : state) : result state :=
  let '(d, p) := s in
  match sys_close (kernel p) (_fd d) with
  | None => Err Fatal
  | Some k => Ok (d, mkPoller k (_fds_that_are_listening_on p)
                       (_number_of_fds_that_are_listening_on p))
  end.

Definition reset_to (new_fd : Z) (s : state) : result state :=
  if new_fd <? 0 then Err Fatal
  else
    let* s := detach_from_poller s in
    let* (d, p) := close_fd s in
    Ok (mkPfd (self d) new_fd (_is_reading d) (_is_writing d) (_is_detached d)
          (_initial_epoll_event d) (_event d), p).
End Poller.

(** * Dispatching

    The callbacks transform a state [W]; an unset callback is [None].  The
    lifetime guard is the reference count of the guarded object, if one is
    registered. *)
Record handlers (W : Type) := mkHandlers {
  _close_event_callback : option (W -> result W);
  _error_event_callback : option (W -> result W);
  _read_event_callback : option (W -> result W);
  _write_event_callback : option (W -> result W)
}.
Arguments mkHandlers {W}.
Arguments _close_event_callback {W}.
Arguments _error_event_callback {W}.
Arguments _read_event_callback {W}.
Arguments _write_event_callback {W}.

Definition has_event (active_events mask : Z) : bool := negb (Z.land active_events mask =? 0).

Definition run_if {W} (cond : bool) (callback : option (W -> result W)) (w : W) : result W :=
  if cond then match callback with Some f => f w | None => Ok w end else Ok w.

Definition _dispatch_active_events {W} (h : handlers W) (active_events : Z) (w : W) : result W :=
  let* w := run_if (has_event active_events EVENT_TYPE_CLOSE) (_close_event_callback h) w in
  let* w := run_if (has_event active_events EVENT_TYPE_ERROR) (_error_event_callback h) w in
  let* w := run_if (has_event active_events EVENT_TYPE_READ) (_read_event_callback h) w in
  run_if (has_event active_events EVENT_TYPE_WRITE) (_write_event_callback h) w.

(** [guard]: [None] when no guard is registered, otherwise whether the guarded
    object is still alive. *)
Definition dispatch_active_events {W} (h : handlers W) (guard : option bool)
    (active_events : Z) (w : W) : result W :=
  match guard with
  | None | Some true => _dispatch_active_events h active_events w
  | Some false => Err Fatal
  end.

(** * Waiting for events

    [epoll_wait] is retried while a signal interrupts it; [waits] are the
    results of the successive calls, and [None] means that the thread is still
    blocked in a call.  Every reported event is stored in its dispatcher, in
    the order of the array. *)
Inductive wait_result :=
| WaitEvents (evs : list epoll_event)
| WaitInterrupted
| WaitFailed.

Fixpoint epoll_wait_loop (waits : list wait_result)
    : option (result (list epoll_event * list wait_result)) :=
  match waits with
  | [] => None
  | WaitInterrupted :: waits => epoll_wait_loop waits
  | WaitFailed :: _ => Some (Err Fatal)
  | WaitEvents evs :: waits => Some (Ok (evs, waits))
  end.

Fixpoint store_active_events (evs : list epoll_event) (active : gmap Z Z)
    : list Z * gmap Z Z :=
  match evs with
  | [] => ([], active)
  | ev :: evs =>
      let '(dispatchers, active) :=
        store_active_events evs (<[data_ptr ev := events ev]> active) in
      (data_ptr ev :: dispatchers, active)
  end.

Definition poll_for_active_events_of_all_fds (waits : list wait_result) (active : gmap Z Z)
    : option (result (list Z * gmap Z Z * list wait_result)) :=
  match epoll_wait_loop waits with
  | None => None
  | Some r =>
      Some (let* (evs, waits) := r in
            let '(dispatchers, active) := store_active_events evs active in
            Ok (dispatchers, active, waits))
  end.

(** * The kernel's interest list mirrors the descriptor's flags *)
Inductive fd_command :=
| EnableRead | DisableRead | EnableWrite | DisableWrite | Detach.

(** All the calls of a client but [close_fd], which ends the object *)
Inductive fd_call := Command (c : fd_command) | ResetTo (new_fd : Z).

(** What a client expects of its calls: the flags (reading, writing, detached) they
    leave, the descriptor the object ends with, those it has closed on the way. *)
Definition expected (f : bool * bool * bool) (c : fd_call) : bool * bool * bool :=
  let '(r, w, det) := f in
  match c with
  | Command EnableRead => (true, w, false)
  | Command DisableRead => (false, w, if r then false else det)
  | Command EnableWrite => (r, true, false)
  | Command DisableWrite => (r, false, if w then false else det)
  | Command Detach | ResetTo _ => (false, false, true)
  end.

Fixpoint left_with (fd : Z) (cs : list fd_call) : Z :=
  match cs with
  | [] => fd
  | ResetTo new_fd :: cs => left_with new_fd cs
  | Command _ :: cs => left_with fd cs
  end.

Fixpoint closed_by (fd : Z) (cs : list fd_call) : gset Z :=
  match cs with
  | [] => ∅
  | ResetTo new_fd :: cs => {[fd]} ∪ closed_by new_fd cs
  | Command _ :: cs => closed_by fd cs
  end.

Lemma left_or_closed fd cs : left_with fd cs = fd \/ fd ∈ closed_by fd cs.
Proof.
  induction cs as [| [c | new_fd] cs IH]; simpl; [by left | done | right; set_solver].
Qed.

Section Mirror.
Set Default Proof Using "Type*".
Context {K : Type} `{Epoll K} `{!EpollLaws K}.

Definition run_command (c : fd_command) (s : PollableFd * EventPoller K)
    : result (PollableFd * EventPoller K) :=
  match c with
  | EnableRead => enable_read_event s
  | DisableRead => disable_read_event s
  | EnableWrite => enable_write_event s
  | DisableWrite => disable_write_event s
  | Detach => detach_from_poller s
  end.

Fixpoint run_commands (cs : list fd_command) (s : PollableFd * EventPoller K)
    : result (PollableFd * EventPoller K) :=
  match cs with
  | [] => Ok s
  | c :: cs => let* s := run_command c s in run_commands cs s
  end.

(** The mask the flags stand for. *)
Definition mask_of (d : PollableFd) : Z :=
  Z.lor (_initial_epoll_event d)
    (Z.lor (if _is_reading d then EVENT_TYPE_READ else 0)
           (if _is_writing d then EVENT_TYPE_WRITE else 0)).

Definition listening (p : EventPoller K) (fd : Z) : bool :=
  default false (_fds_that_are_listening_on p !! Z.to_nat fd).

(** The table and the counter of the poller agree with the kernel. *)
Definition poller_ok (p : EventPoller K) : Prop :=
  (forall fd, 0 <= fd -> listening p fd = true <-> is_Some (interest (kernel p) !! fd)) /\
  size p = u64 (Z.of_nat (base.size (interest (kernel p)))).

Definition fd_usable (p : EventPoller K) (fd : Z) : Prop :=
  0 <= fd < Z.of_nat (length (_fds_that_are_listening_on p)) /\ fd ∈ opened (kernel p).

Definition mirror (s : PollableFd * EventPoller K) : Prop :=
  let '(d, p) := s in
  fd_usable p (_fd d) /\
  (_initial_epoll_event d = 0 \/ _initial_epoll_event d = EPOLLET) /\
  _event d = mkEvent (self d) (mask_of d) /\
  (_is_detached d = true -> _is_reading d = false /\ _is_writing d = false) /\
  interest (kernel p) !! _fd d = (if _is_detached d then None else Some (_event d)).

Definition others_kept (fd : Z) (p p' : EventPoller K) : Prop :=
  length (_fds_that_are_listening_on p') = length (_fds_that_are_listening_on p) /\
  opened (kernel p') = opened (kernel p) /\
  forall fd', fd' <> fd -> interest (kernel p') !! fd' = interest (kernel p) !! fd'.

Lemma array_get_listening p fd :
  fd_usable p fd -> array_get (_fds_that_are_listening_on p) fd = Ok (listening p fd).
Proof.
  intros [[H0 H1] _]. unfold array_get, listening. rewrite (proj2 (Z.ltb_ge _ _) H0).
  destruct (lookup_lt_is_Some_2 (_fds_that_are_listening_on p) (Z.to_nat fd) ltac:(lia))
    as [b ->]. done.
Qed.

Lemma listening_set p fd b k n fd' :
  fd_usable p fd -> 0 <= fd' ->
  listening (mkPoller k (array_set (_fds_that_are_listening_on p) fd b) n) fd'
  = if decide (fd' = fd) then b else listening p fd'.
Proof.
  intros [[H0 H1] _] H'. unfold listening, array_set; simpl.
  destruct (decide (fd' = fd)) as [-> | Hne].
  - rewrite list_lookup_insert_eq by lia. done.
  - rewrite list_lookup_insert_ne by lia. done.
Qed.

Lemma u64_add a b : u64 (u64 a + b) = u64 (a + b).
Proof. unfold u64. by rewrite Zplus_mod_idemp_l. Qed.

Lemma register_ok p fd ev :
  poller_ok p -> fd_usable p fd ->
  exists p', register_event_for_fd fd ev p = Ok p' /\ poller_ok p' /\
    interest (kernel p') = <[fd := ev]> (interest (kernel p)) /\ others_kept fd p p'.
Proof.
  intros [Hl Hn] Hu. unfold register_event_for_fd. rewrite array_get_listening by done. simpl.
  pose proof Hu as [[H0 H1] Hop]. pose proof (Hl fd H0) as Hfd.
  destruct (listening p fd); simpl.
  - assert (Hs : is_Some (interest (kernel p) !! fd)) by (by apply Hfd).
    destruct (ctl_mod (kernel p) fd ev Hop Hs) as (k & -> & Hk & Ho).
    eexists. split; [done |]. split; [| split; [done |]]; simpl.
    + split; unfold size; simpl; rewrite Hk.
      * intros fd' Hfd'. unfold listening in *; simpl. rewrite Hl by done.
        destruct (decide (fd' = fd)) as [-> |]; [by rewrite lookup_insert_eq |].
        by rewrite lookup_insert_ne.
      * by rewrite map_size_insert_Some.
    + split; [done |]. split; [done |]. intros fd' Hne. simpl. rewrite Hk.
      by rewrite lookup_insert_ne.
  - assert (Hs : interest (kernel p) !! fd = None).
    { apply eq_None_not_Some. intros Hs%Hfd. done. }
    destruct (ctl_add (kernel p) fd ev Hop Hs) as (k & -> & Hk & Ho).
    eexists. split; [done |]. split; [| split; [done |]]; simpl.
    + split; unfold size; simpl; rewrite Hk.
      * intros fd' Hfd'. rewrite listening_set by done.
        destruct (decide (fd' = fd)) as [-> |]; [by rewrite lookup_insert_eq |].
        rewrite lookup_insert_ne by done. by apply Hl.
      * rewrite map_size_insert_None by done. unfold size in Hn. rewrite Hn, u64_add.
        f_equal. lia.
    + split; [by unfold array_set; simpl; rewrite length_insert |]. split; [done |].
      intros fd' Hne. simpl. rewrite Hk. by rewrite lookup_insert_ne.
Qed.

Lemma detach_ok p fd :
  poller_ok p -> fd_usable p fd ->
  exists p', detach_fd fd p = Ok p' /\ poller_ok p' /\
    interest (kernel p') = delete fd (interest (kernel p)) /\ others_kept fd p p'.
Proof.
  intros [Hl Hn] Hu. unfold detach_fd. rewrite array_get_listening by done. simpl.
  pose proof Hu as [[H0 H1] Hop]. pose proof (Hl fd H0) as Hfd.
  destruct (listening p fd); simpl.
  - assert (Hs : is_Some (interest (kernel p) !! fd)) by (by apply Hfd).
    destruct (ctl_del (kernel p) fd (mkEvent 0 0) Hop Hs) as (k & -> & Hk & Ho).
    eexists. split; [done |]. split; [| split; [done |]]; simpl.
    + split; unfold size; simpl; rewrite Hk.
      * intros fd' Hfd'. rewrite listening_set by done.
        destruct (decide (fd' = fd)) as [-> |].
        -- rewrite lookup_delete_eq. split; [done | by intros []].
        -- rewrite lookup_delete_ne by done. by apply Hl.
      * rewrite map_size_delete_Some by done. unfold size in Hn.
        pose proof (map_size_ne_0_lookup_2 (interest (kernel p)) fd Hs).
        rewrite Hn. replace (u64 _ - 1) with (u64 (Z.of_nat (base.size (interest (kernel p)))) + -1) by lia.
        rewrite u64_add. f_equal. lia.
    + split; [by unfold array_set; simpl; rewrite length_insert |]. split; [done |].
      intros fd' Hne. simpl. rewrite Hk. by rewrite lookup_delete_ne.
  - assert (Hs : interest (kernel p) !! fd = None).
    { apply eq_None_not_Some. intros Hs%Hfd. done. }
    exists p. split; [done |]. split; [done |]. split; [by rewrite delete_id |]. done.
Qed.

(** ** Descriptors *)
Definition good (fd : Z) (p : EventPoller K) (s : PollableFd * EventPoller K) : Prop :=
  mirror s /\ poller_ok s.2 /\ _fd s.1 = fd /\ others_kept fd p s.2.

Lemma usable_kept fd p p' : others_kept fd p p' -> fd_usable p fd -> fd_usable p' fd.
Proof. intros (Hl & Ho & _) [H1 H2]. split; [by rewrite Hl | by rewrite Ho]. Qed.

(** Registering the descriptor under flags that match its mask. *)
Lemma register_event_good d p (r w det : bool) ev :
  mirror (d, p) -> poller_ok p ->
  ev = Z.lor (_initial_epoll_event d)
         (Z.lor (if r then EVENT_TYPE_READ else 0) (if w then EVENT_TYPE_WRITE else 0)) ->
  exists s', _register_event (with_flags r w det ev d, p) = Ok s' /\ good (_fd d) p s' /\
    _is_reading s'.1 = r /\ _is_writing s'.1 = w /\ _is_detached s'.1 = false.
Proof.
  intros (Hu & Hi & He & _ & _) Hok Hev. unfold _register_event. simpl.
  destruct (register_ok p (_fd d) (mkEvent (data_ptr (_event d)) ev) Hok Hu)
    as (p' & -> & Hok' & Hint & Hoth).
  eexists. split; [done |]. split; [| done]. split; [| by split].
  split; [by eapply usable_kept |]. split; [done |]. split.
  { simpl. rewrite He. by subst ev. }
  split; [done |]. simpl. by rewrite Hint, lookup_insert_eq.
Qed.

Lemma mask_enable_read d :
  _is_reading d = false ->
  Z.lor (mask_of d) EVENT_TYPE_READ
  = Z.lor (_initial_epoll_event d)
      (Z.lor EVENT_TYPE_READ (if _is_writing d then EVENT_TYPE_WRITE else 0)).
Proof.
  intros Hf. unfold mask_of. rewrite Hf, Z.lor_0_l, <- Z.lor_assoc. f_equal. apply Z.lor_comm.
Qed.

Lemma mask_enable_write d :
  _is_writing d = false ->
  Z.lor (mask_of d) EVENT_TYPE_WRITE
  = Z.lor (_initial_epoll_event d)
      (Z.lor (if _is_reading d then EVENT_TYPE_READ else 0) EVENT_TYPE_WRITE).
Proof. intros Hf. unfold mask_of. by rewrite Hf, Z.lor_0_r, <- Z.lor_assoc. Qed.

Lemma mask_disable_read d :
  _initial_epoll_event d = 0 \/ _initial_epoll_event d = EPOLLET -> _is_reading d = true ->
  and_not (mask_of d) EVENT_TYPE_READ
  = Z.lor (_initial_epoll_event d)
      (Z.lor 0 (if _is_writing d then EVENT_TYPE_WRITE else 0)).
Proof. unfold mask_of. intros [-> | ->] ->; by destruct (_is_writing d). Qed.

Lemma mask_disable_write d :
  _initial_epoll_event d = 0 \/ _initial_epoll_event d = EPOLLET -> _is_writing d = true ->
  and_not (mask_of d) EVENT_TYPE_WRITE
  = Z.lor (_initial_epoll_event d)
      (Z.lor (if _is_reading d then EVENT_TYPE_READ else 0) 0).
Proof. unfold mask_of. intros [-> | ->] ->; by destruct (_is_reading d). Qed.

Lemma good_refl d p : mirror (d, p) -> poller_ok p -> good (_fd d) p (d, p).
Proof. intros H1 H2. split; [done |]. split; [done |]. split; [done |]. by repeat split. Qed.

Lemma run_command_good c d p :
  mirror (d, p) -> poller_ok p ->
  exists s', run_command c (d, p) = Ok s' /\ good (_fd d) p s'.
Proof.
  intros Hm Hok. pose proof Hm as (Hu & Hi & He & Hdet & Hint).
  unfold run_command, enable_read_event, disable_read_event, enable_write_event,
    disable_write_event, detach_from_poller.
  destruct c; rewrite ?He; cbn [events].
  - destruct (_is_reading d) eqn:Er; [eauto using good_refl |].
    destruct (register_event_good d p true (_is_writing d) (_is_detached d) _ Hm Hok
                (mask_enable_read d Er)) as (s' & -> & Hg & _). eauto.
  - destruct (_is_reading d) eqn:Er; cbn [negb]; [| eauto using good_refl].
    destruct (register_event_good d p false (_is_writing d) (_is_detached d) _ Hm Hok
                (mask_disable_read d Hi Er)) as (s' & -> & Hg & _). eauto.
  - destruct (_is_writing d) eqn:Er; [eauto using good_refl |].
    destruct (register_event_good d p (_is_reading d) true (_is_detached d) _ Hm Hok
                (mask_enable_write d Er)) as (s' & -> & Hg & _). eauto.
  - destruct (_is_writing d) eqn:Er; cbn [negb]; [| eauto using good_refl].
    destruct (register_event_good d p (_is_reading d) false (_is_detached d) _ Hm Hok
                (mask_disable_write d Hi Er)) as (s' & -> & Hg & _). eauto.
  - destruct (_is_detached d) eqn:Ed; [eauto using good_refl |].
    cbn [_fd with_flags].
    destruct (detach_ok p (_fd d) Hok Hu) as (p' & -> & Hok' & Hk & Hoth).
    eexists. split; [done |]. split; [| by split].
    split; [by eapply usable_kept |]. split; [done |]. simpl. split.
    { rewrite He. unfold mask_of; simpl. by rewrite Z.lor_0_r. }
    split; [done |]. by rewrite Hk, lookup_delete_eq.
Qed.

(** What a command leaves of the flags (reading, writing, detached). *)
Definition flags (d : PollableFd) : bool * bool * bool :=
  (_is_reading d, _is_writing d, _is_detached d).

Definition flags_after (c : fd_command) (d : PollableFd) : bool * bool * bool :=
  match c with
  | EnableRead => if _is_reading d then flags d else (true, _is_writing d, false)
  | DisableRead => if _is_reading d then (false, _is_writing d, false) else flags d
  | EnableWrite => if _is_writing d then flags d else (_is_reading d, true, false)
  | DisableWrite => if _is_writing d then (_is_reading d, false, false) else flags d
  | Detach => (false, false, true)
  end.

(** A command makes at most one call to the kernel. *)
Definition one_ctl (k k' : K) : Prop :=
  k' = k \/ exists op fd ev, epoll_ctl k op fd ev = Some k'.

Lemma register_event_for_fd_ctl fd ev p p' :
  register_event_for_fd fd ev p = Ok p' -> one_ctl (kernel p) (kernel p').
Proof.
  unfold register_event_for_fd. destruct (array_get _ _) as [b |]; [| done].
  destruct (epoll_ctl _ _ _ _) as [k |] eqn:E; [| done].
  destruct b; intros [= <-]; right; simpl; eauto.
Qed.

Lemma run_command_flags c d p d' p' :
  mirror (d, p) -> run_command c (d, p) = Ok (d', p') ->
  flags d' = flags_after c d /\ one_ctl (kernel p) (kernel p').
Proof.
  intros (_ & _ & _ & Hdet & _).
  assert (Hreg : forall e, _register_event (e, p) = Ok (d', p') ->
            flags d' = (_is_reading e, _is_writing e, false) /\ one_ctl (kernel p) (kernel p')).
  { intros e. unfold _register_event. destruct (register_event_for_fd _ _ p) eqn:E; [| done].
    intros [= <- <-]. split; [done |]. by eapply register_event_for_fd_ctl. }
  destruct c; cbn [run_command flags_after]; unfold enable_read_event, disable_read_event,
    enable_write_event, disable_write_event, detach_from_poller.
  1-4: destruct (_is_reading d) eqn:Er, (_is_writing d) eqn:Ew; cbn [negb];
    first [by intros [= <- <-]; split; [| left]
          | intros [-> ?]%Hreg; split; [simpl; congruence | done]].
  destruct (_is_detached d) eqn:Ed.
  - intros [= <- <-]. destruct (Hdet eq_refl) as [Hr Hw].
    unfold flags. rewrite Hr, Hw, Ed. by split; [| left].
  - cbn [_fd with_flags]. unfold detach_fd. destruct (array_get _ _) as [[] |]; [| | done]; cbn [negb].
    + destruct (epoll_ctl _ _ _ _) as [k |] eqn:E; [| done]. intros [= <- <-].
      split; [done |]. right. eauto.
    + intros [= <- <-]. by split; [| left].
Qed.

Lemma run_command_self c d p d' p' :
  run_command c (d, p) = Ok (d', p') -> self d' = self d /\ _fd d' = _fd d.
Proof.
  unfold run_command, enable_read_event, disable_read_event, enable_write_event,
    disable_write_event, detach_from_poller, _register_event.
  destruct c; repeat first [case_match | progress simplify_eq/=]; intros; by simplify_eq/=.
Qed.

Lemma run_commands_good cs d p :
  mirror (d, p) -> poller_ok p ->
  exists s', run_commands cs (d, p) = Ok s' /\ good (_fd d) p s'.
Proof.
  revert d p. induction cs as [| c cs IH]; simpl; intros d p Hm Hok.
  { eauto using good_refl. }
  destruct (run_command_good c d p Hm Hok) as ([d1 p1] & -> & Hm1 & Hok1 & Hfd1 & Ho1).
  destruct (IH d1 p1 Hm1 Hok1) as (s2 & -> & Hm2 & Hok2 & Hfd2 & Ho2). simpl in *.
  exists s2. split; [done |]. split; [done |]. split; [done |].
  split; [congruence |]. rewrite Hfd1 in Ho2.
  destruct Ho1 as (? & ? & Ha), Ho2 as (? & ? & Hb).
  split; [congruence |]. split; [congruence |]. intros fd' Hne. by rewrite Hb, Ha.
Qed.

(** [reset_to] detaches before it closes: the old descriptor leaves the poller's
    table, the interest list and the process, and the object is ready for the new
    one, unregistered. *)
Theorem reset_to_spec d p new_fd
    (Hm : mirror (d, p)) (Hok : poller_ok p) (Hnew : 0 <= new_fd) :
  exists d' p', reset_to new_fd (d, p) = Ok (d', p') /\ _fd d' = new_fd /\
    (_is_reading d', _is_writing d', _is_detached d') = (false, false, true) /\
    _event d' = mkEvent (self d) (_initial_epoll_event d) /\
    listening p' (_fd d) = false /\ interest (kernel p') !! _fd d = None /\
    opened (kernel p') = opened (kernel p) ∖ {[_fd d]} /\ poller_ok p' /\
    self d' = self d /\ _initial_epoll_event d' = _initial_epoll_event d /\
    length (_fds_that_are_listening_on p') = length (_fds_that_are_listening_on p) /\
    forall fd', fd' <> _fd d -> interest (kernel p') !! fd' = interest (kernel p) !! fd'.
Proof.
  destruct (run_command_good Detach d p Hm Hok) as ([d1 p1] & E & Hm1 & Hok1 & Hfd & Hoth).
  simpl in Hfd, Hok1, Hoth. cbn [run_command] in E. unfold reset_to. rewrite (proj2 (Z.ltb_ge _ _) Hnew), E.
  destruct Hm1 as (Hu & _ & He & Hdet & Hint).
  assert (Hd : _is_detached d1 = true /\ self d1 = self d /\
               _initial_epoll_event d1 = _initial_epoll_event d).
  { unfold detach_from_poller in E. destruct (_is_detached d) eqn:?; [by injection E as <- _ |].
    destruct (detach_fd _ p); [| done]. by injection E as <- _. }
  destruct Hd as (Hd & Hs & Hi). destruct (Hdet Hd) as [Hr Hw]. rewrite Hd in Hint.
  unfold close_fd. destruct Hu as [Hrange Hop].
  destruct (close_opened (kernel p1) (_fd d1) Hop) as (k & -> & Hk & Hok').
  do 2 eexists. split; [done |]. simpl. rewrite Hr, Hw, Hd, He, Hk, Hok'.
  rewrite <- Hfd. destruct Hoth as (Hlen & Ho & Hothers). rewrite Ho.
  unfold mask_of. rewrite Hr, Hw, Hs, Hi, !Z.lor_0_r. repeat (split; [done |]).
  assert (Hl : listening p1 (_fd d1) = false).
  { apply not_true_is_false. rewrite (proj1 Hok1) by lia. rewrite Hint. by intros []. }
  split; [done |]. rewrite lookup_delete_eq. split; [done |]. split; [done |].
  split; [split; unfold size; simpl; rewrite Hk, delete_id by done; apply Hok1 |].
  repeat (split; [done |]). intros fd' Hne. rewrite lookup_delete_ne by done.
  apply Hothers. congruence.
Qed.
Definition run_call (c : fd_call) (s : PollableFd * EventPoller K) : result (PollableFd * EventPoller K) :=
  match c with Command c => run_command c s | ResetTo new_fd => reset_to new_fd s end.

Fixpoint run_calls (cs : list fd_call) (s : PollableFd * EventPoller K)
    : result (PollableFd * EventPoller K) :=
  match cs with
  | [] => Ok s
  | c :: cs => let* s := run_call c s in run_calls cs s
  end.

(** An object is reset to another open descriptor, below the size of the poller's
    table and not registered yet. *)
Definition call_ok (c : fd_call) (s : PollableFd * EventPoller K) : Prop :=
  match c with
  | Command _ => True
  | ResetTo new_fd =>
      new_fd <> _fd s.1 /\ fd_usable s.2 new_fd /\ interest (kernel s.2) !! new_fd = None
  end.

Fixpoint calls_ok (cs : list fd_call) (s : PollableFd * EventPoller K) : Prop :=
  match cs with
  | [] => True
  | c :: cs => call_ok c s /\ forall s', run_call c s = Ok s' -> calls_ok cs s'
  end.

(** One call: the object, the poller and the kernel agree afterwards. *)
Definition call_done (c : fd_call) (d : PollableFd) (p : EventPoller K) (s : PollableFd * EventPoller K)
    : Prop :=
  mirror s /\ poller_ok s.2 /\ self s.1 = self d /\ flags s.1 = expected (flags d) c /\
  _fd s.1 = left_with (_fd d) [c] /\ opened (kernel s.2) = opened (kernel p) ∖ closed_by (_fd d) [c] /\
  forall fd, fd <> _fd s.1 ->
    interest (kernel s.2) !! fd = if decide (fd ∈ closed_by (_fd d) [c]) then None
                                  else interest (kernel p) !! fd.

Lemma flags_after_expected c d p :
  mirror (d, p) -> flags_after c d = expected (flags d) (Command c).
Proof.
  intros (_ & _ & _ & Hdet & _). unfold flags_after, flags, expected.
  destruct c; [destruct (_is_reading d) eqn:Er | by destruct (_is_reading d)
              | destruct (_is_writing d) eqn:Ew | by destruct (_is_writing d) | done]; try done.
  all: destruct (_is_detached d); [| done]; by destruct (Hdet eq_refl).
Qed.

Lemma run_call_done c d p :
  mirror (d, p) -> poller_ok p -> call_ok c (d, p) ->
  exists s', run_call c (d, p) = Ok s' /\ call_done c d p s'.
Proof.
  intros Hm Hok Hc. destruct c as [c | new_fd]; simpl.
  - destruct (run_command_good c d p Hm Hok) as ([d' p'] & E & Hm' & Hok' & Hfd & _ & Ho & Hi).
    destruct (run_command_flags c d p d' p' Hm E) as [Hf _].
    destruct (run_command_self c d p d' p' E) as [Hs _].
    exists (d', p'). split; [done |]. do 3 (split; [done |]).
    split; [by rewrite <- (flags_after_expected c d p Hm) |]. split; [done |]. simpl in *.
    split; [rewrite Ho; set_solver |]. intros fd Hne. rewrite Hi by congruence.
    by destruct (decide _).
  - destruct Hc as (Hne & [Hrange Hop] & Hnone). simpl in *.
    destruct (reset_to_spec d p new_fd Hm Hok ltac:(lia))
      as (d' & p' & E & Hfd & Hfl & He & Hl & Hi & Ho & Hok' & Hs & Hini & Hlen & Hoth).
    injection Hfl as Hr Hw Hdet. exists (d', p'). split; [done |]. split; [| split; [done |]].
    + destruct Hm as (_ & Hm & _). split; [split; simpl; [lia | set_solver] |].
      split; [by rewrite Hini |]. split; [| split; [done |]].
      * rewrite He, Hs, <- Hini. unfold mask_of. by rewrite Hr, Hw, !Z.lor_0_r.
      * rewrite Hfd, Hdet. rewrite Hoth by done. done.
    + split; [done |]. unfold flags. simpl. rewrite Hr, Hw, Hdet. split; [by destruct (flags d) as [[] ]|].
      split; [done |]. split; [rewrite Ho; set_solver |]. intros fd Hfd'.
      destruct (decide (fd ∈ _)) as [Hin | Hin].
      * assert (fd = _fd d) as -> by set_solver. done.
      * apply Hoth. set_solver.
Qed.

(** C20: Whatever sequence of calls a client makes on a descriptor (enabling and
    disabling reads and writes, detaching it, resetting it to fresh descriptors; not
    [close_fd], which ends the object): no [epoll_ctl] call fails; the flags are
    those the calls stand for, and the kernel's interest list holds exactly the mask
    of the flags for the descriptor the object is left with (nothing when it is
    detached); the descriptors it was reset from are closed and unknown to the
    kernel, all others are untouched; the poller's table agrees with the interest
    list, and the size the loop's exit test reads is the number of registered
    descriptors. *)
Theorem interest_mirrors_flags cs d p
    (Hm : mirror (d, p)) (Hok : poller_ok p) (Hcs : calls_ok cs (d, p)) :
  exists d' p', run_calls cs (d, p) = Ok (d', p') /\
    _fd d' = left_with (_fd d) cs /\ flags d' = fold_left expected cs (flags d) /\
    interest (kernel p') !! _fd d'
    = (if _is_detached d' then None else Some (mkEvent (self d) (mask_of d'))) /\
    opened (kernel p') = opened (kernel p) ∖ closed_by (_fd d) cs /\
    (forall fd, fd <> _fd d' ->
       interest (kernel p') !! fd
       = if decide (fd ∈ closed_by (_fd d) cs) then None else interest (kernel p) !! fd) /\
    (forall fd, 0 <= fd -> listening p' fd = true <-> is_Some (interest (kernel p') !! fd)) /\
    size p' = u64 (Z.of_nat (base.size (interest (kernel p')))) /\ mirror (d', p').
Proof.
  revert d p Hm Hok Hcs. induction cs as [| c cs IH]; intros d p Hm Hok Hcs.
  - exists d, p. do 3 (split; [done |]). pose proof Hm as (_ & _ & He & _ & Hi). rewrite Hi, He.
    split; [done |]. split; [simpl; set_solver |]. split; [| by destruct Hok].
    intros fd _. by rewrite decide_False by set_solver.
  - destruct Hcs as [Hc Hcs].
    destruct (run_call_done c d p Hm Hok Hc) as ([d1 p1] & E1 & Hm1 & Hok1 & Hs1 & Hf1 & Hfd1 & Ho1 & Hi1).
    destruct (IH d1 p1 Hm1 Hok1 (Hcs _ E1)) as (d' & p' & E & Hfd & Hf & Hself & Ho & Hi & Hl & Hsz & Hm').
    cbn [fst snd] in *. exists d', p'. cbn [run_calls fold_left]. rewrite E1.
    assert (Hleft : left_with (_fd d) (c :: cs) = left_with (_fd d1) cs) by (rewrite Hfd1; by destruct c).
    assert (Hclosed : closed_by (_fd d) (c :: cs) = closed_by (_fd d) [c] ∪ closed_by (_fd d1) cs).
    { rewrite Hfd1. destruct c; simpl; set_solver. }
    split; [done |]. split; [by rewrite Hfd, <- Hleft |]. split; [by rewrite Hf, Hf1 |].
    split; [by rewrite Hself, Hs1 |].
    rewrite Hclosed. split; [rewrite Ho, Ho1; set_solver |]. split; [| done].
    intros fd Hne. rewrite Hi by done. destruct (decide (fd ∈ closed_by (_fd d1) cs)) as [Hin | Hin].
    { by rewrite decide_True by set_solver. }
    destruct (decide (fd = _fd d1)) as [-> | Hne1].
    + by destruct (left_or_closed (_fd d1) cs); [congruence |].
    + rewrite Hi1 by done. destruct (decide (fd ∈ closed_by (_fd d) [c])).
      * by rewrite decide_True by set_solver.
      * by rewrite decide_False by set_solver.
Qed.

End Mirror.

(** * A concrete kernel: the open descriptors and the interest list *)
Record sample_kernel := mkKernel { k_opened : gset Z; k_interest : gmap Z epoll_event }.

#[export] Instance sample_epoll : Epoll sample_kernel := {
  epoll_ctl k op fd ev :=
    if decide (fd ∈ k_opened k) then
      match op, k_interest k !! fd with
      | EPOLL_CTL_ADD, None | EPOLL_CTL_MOD, Some _ =>
          Some (mkKernel (k_opened k) (<[fd := ev]> (k_interest k)))
      | EPOLL_CTL_DEL, Some _ => Some (mkKernel (k_opened k) (delete fd (k_interest k)))
      | _, _ => None
      end
    else None;
  sys_close k fd :=
    if decide (fd ∈ k_opened k)
    then Some (mkKernel (k_opened k ∖ {[fd]}) (delete fd (k_interest k))) else None;
  opened := k_opened;
  interest := k_interest
}.

#[export] Instance sample_epoll_laws : EpollLaws sample_kernel.
Proof.
  split; intros k fd; simpl.
  - intros ev H1 H2. rewrite decide_True, H2 by done. eauto.
  - intros ev [x H1]. rewrite H1. by destruct (decide _).
  - intros ev H1 [x H2]. rewrite decide_True, H2 by done. eauto.
  - intros ev H1. rewrite H1. by destruct (decide _).
  - intros ev H1 [x H2]. rewrite decide_True, H2 by done. eauto.
  - intros ev H1. rewrite H1. by destruct (decide _).
  - intros H1. rewrite decide_True by done. eauto.
Qed.

Definition sample_poller : EventPoller sample_kernel :=
  new_EventPoller (mkKernel {[3; 5]} ∅) 16.
Definition sample_fd : PollableFd :=
  mkPfd 1000 5 false false true EPOLLET (mkEvent 1000 EPOLLET).

Lemma sample_mirror : mirror (sample_fd, sample_poller) /\ poller_ok sample_poller.
Proof.
  split; [split; [split; [simpl; lia | simpl; set_solver] |] |].
  - split; [by right | split; [reflexivity | split; [done | reflexivity]]].
  - split; [| reflexivity]. intros fd _. unfold listening. simpl.
    rewrite lookup_empty. split; [| by intros []].
    assert (Hr : forall n m, default false (replicate n false !! m) = false).
    { intros n m. destruct (replicate n false !! m) eqn:E; [| done].
      by apply lookup_replicate in E as [-> _]. }
    change (default false (replicate 16 false !! Z.to_nat fd) = true -> is_Some (@None epoll_event)).
    by rewrite Hr.
Qed.

Definition sample_calls : list fd_call :=
  [Command EnableRead; Command EnableWrite; ResetTo 3; Command EnableWrite; Command EnableRead;
   Command DisableRead].

Lemma sample_calls_ok : calls_ok sample_calls (sample_fd, sample_poller).
Proof.
  split; [exact I |]. intros s1 E1. split; [exact I |]. intros s2 E2.
  vm_compute in E1. injection E1 as <-. vm_compute in E2. injection E2 as <-. split.
  { split; [discriminate |]. split; [| reflexivity].
    split; [split; [discriminate | reflexivity] |]. by vm_compute. }
  intros s3 _. do 3 (split; [exact I | intros ? _]). exact I.
Qed.

Lemma interest_mirrors_flags_witness :
  exists d' p', run_calls sample_calls (sample_fd, sample_poller) = Ok (d', p') /\
    _fd d' = 3 /\ flags d' = (false, true, false) /\
    interest (kernel p') !! 3 = Some (mkEvent 1000 0x80000004) /\ interest (kernel p') !! 5 = None.
Proof.
  destruct (interest_mirrors_flags sample_calls sample_fd sample_poller
              (proj1 sample_mirror) (proj2 sample_mirror) sample_calls_ok)
    as (d' & p' & E & Hfd & Hf & _).
  exists d', p'. split; [exact E | split; [exact Hfd | split; [exact Hf |]]].
  vm_compute in E. injection E as <- <-. split; reflexivity.
Defined.

Lemma reset_to_spec_witness :
  exists d' p', reset_to 7 (sample_fd, sample_poller) = Ok (d', p') /\ _fd d' = 7 /\
    interest (kernel p') !! 5 = None.
Proof.
  destruct (reset_to_spec sample_fd sample_poller 7 (proj1 sample_mirror) (proj2 sample_mirror)
              ltac:(lia)) as (d' & p' & E & H1 & _ & _ & _ & H2 & _).
  exists d', p'. split; [exact E | split; [exact H1 | exact H2]].
Defined.
