(* ===== verification/Descriptors.v ===== *)
(** Descriptors of the process: resource limits ([src/event_poller.cc]), blocking
    mode, construction and registration of callbacks
    ([src/pollable_file_descriptor.cc] and its header), and the two kinds of
    descriptors a loop owns, [src/eventfd.cc] and [src/timerfd.cc].

    The system calls are an interface over the one of [Poller]; its laws are what
    their manual pages promise. *)
From S2P Require Import Prelude Poller.
Open Scope Z_scope.

(** * The system calls *)
Definition O_NONBLOCK : Z := 0x800.
Definition EFD_CLOEXEC : Z := 0x80000.
Definition EFD_NONBLOCK : Z := O_NONBLOCK.
Definition TFD_CLOEXEC : Z := 0x80000.
Definition TFD_NONBLOCK : Z := O_NONBLOCK.

Inductive errno := EAGAIN | ECANCELED | OtherErrno (e : Z).

(** What [read] and [write] of eight bytes return; a value is read when all of
    them are. *)
Inductive read_outcome := ReadFailed (e : errno) | ReadBytes (bytes_read value : Z).
Inductive write_outcome := WriteFailed (e : errno) | WroteBytes (bytes_written : Z).

(** [None] is a failing call; [sys_eventfd], [sys_timerfd_create] and
    [sys_epoll_create1] return the descriptor, or [-1]. *)
Class Descriptors (K : Type) := {
  fcntl_getfl : Z -> K -> option Z;
  fcntl_setfl : Z -> Z -> K -> option K;
  getrlimit : K -> option (Z * Z);
  setrlimit : Z * Z -> K -> option K;
  sys_epoll_create1 : K -> Z * K;
  sys_eventfd : Z -> K -> Z * K;
  sys_timerfd_create : Z -> K -> Z * K;
  sys_read : Z -> K -> read_outcome * K;
  sys_write : Z -> Z -> K -> write_outcome * K;
  counter : K -> Z -> option Z
}.

(** Calls that touch neither the set of open descriptors, nor the interest list,
    nor the limits; and those that keep the modes of the descriptors, too. *)
Definition same_files {K} `{Epoll K, Descriptors K} (k k' : K) : Prop :=
  opened k' = opened k /\ interest k' = interest k /\ getrlimit k' = getrlimit k.

Definition same_modes {K} `{Epoll K, Descriptors K} (k k' : K) : Prop :=
  same_files k k' /\ forall fd, fcntl_getfl fd k' = fcntl_getfl fd k.

(** A call that opens a descriptor, or fails and changes nothing: the number is
    below the soft limit and was not in use. *)
Definition opens {K} `{Epoll K, Descriptors K} (k : K) (fd : Z) (k' : K) : Prop :=
  (fd = -1 /\ k' = k) \/
  ((fd ∉ opened k) /\ 0 <= fd /\
   (forall limits, getrlimit k = Some limits -> fd < limits.1) /\
   interest k !! fd = None /\
   opened k' = {[fd]} ∪ opened k /\ interest k' = interest k /\ getrlimit k' = getrlimit k /\
   forall fd', fd' <> fd -> fcntl_getfl fd' k' = fcntl_getfl fd' k).

Class DescriptorLaws (K : Type) `{Epoll K, Descriptors K} : Prop := {
  getfl_opened fd k :
    fd ∈ opened k -> exists flags, fcntl_getfl fd k = Some flags /\ 0 <= flags < 2 ^ 31;
  setfl_nonblock fd flags flags' k :
    fd ∈ opened k -> fcntl_getfl fd k = Some flags ->
    flags' = Z.lor flags O_NONBLOCK \/ flags' = Z.ldiff flags O_NONBLOCK ->
    exists k', fcntl_setfl fd flags' k = Some k' /\ fcntl_getfl fd k' = Some flags' /\
      (forall fd', fd' <> fd -> fcntl_getfl fd' k' = fcntl_getfl fd' k) /\ same_files k k' /\
      counter k' = counter k;
  getrlimit_ok k :
    exists soft hard, getrlimit k = Some (soft, hard) /\ (0 <= soft <= hard) /\ hard < 2 ^ 64;
  setrlimit_below soft hard soft' k :
    getrlimit k = Some (soft, hard) -> 0 <= soft' <= hard ->
    exists k', setrlimit (soft', hard) k = Some k' /\ getrlimit k' = Some (soft', hard) /\
      opened k' = opened k /\ interest k' = interest k;
  eventfd_opens flags k fd k' :
    sys_eventfd flags k = (fd, k') ->
    opens k fd k' /\
    (fd <> -1 ->
     counter k' fd = Some 0 /\ forall fd', fd' <> fd -> counter k' fd' = counter k fd');
  timerfd_opens flags k fd k' :
    sys_timerfd_create flags k = (fd, k') -> opens k fd k' /\ counter k' = counter k;
  epoll_create1_opens k fd k' :
    sys_epoll_create1 k = (fd, k') -> opens k fd k' /\ counter k' = counter k;
  write_counter fd v c k :
    counter k fd = Some c -> 0 <= v -> c + v < 2 ^ 64 - 1 ->
    exists k', sys_write fd v k = (WroteBytes 8, k') /\ counter k' fd = Some (c + v) /\
      same_modes k k';
  read_counter fd c k :
    counter k fd = Some c -> 0 < c ->
    exists k', sys_read fd k = (ReadBytes 8 c, k') /\ counter k' fd = Some 0 /\
      same_modes k k';
  read_empty_counter fd flags k :
    counter k fd = Some 0 -> fcntl_getfl fd k = Some flags -> Z.land flags O_NONBLOCK <> 0 ->
    sys_read fd k = (ReadFailed EAGAIN, k);
  read_frame fd k :
    same_modes k (sys_read fd k).2 /\
    forall fd', fd' <> fd -> counter (sys_read fd k).2 fd' = counter k fd';
  write_frame fd v k :
    same_modes k (sys_write fd v k).2 /\
    forall fd', fd' <> fd -> counter (sys_write fd v k).2 fd' = counter k fd';
  ctl_frame op fd ev k k' :
    epoll_ctl k op fd ev = Some k' ->
    counter k' = counter k /\ getrlimit k' = getrlimit k /\
    forall fd', fcntl_getfl fd' k' = fcntl_getfl fd' k
}.

Section Operations.
Context {K : Type} `{Epoll K, Descriptors K}.

(** * Limits and construction of the poller *)
Definition get_limit_of_max_number_of_opened_file_descriptors_per_process (k : K) : result Z :=
  let* (rlim_cur, _) := of_option Fatal (getrlimit k) in Ok rlim_cur.

Definition set_limit_of_max_number_of_opened_file_descriptors_per_process
    (max_limit_of_open_fd : Z) (k : K) : result K :=
  let* (_, rlim_max) := of_option Fatal (getrlimit k) in
  let* k := of_option Fatal (setrlimit (Z.min max_limit_of_open_fd rlim_max, rlim_max) k) in
  let* _ := of_option Fatal (getrlimit k) in
  Ok k.

(** [sizeof(epoll_event)], and the largest array [new] accepts. *)
Definition SIZEOF_EPOLL_EVENT : Z := 12.
Definition PTRDIFF_MAX : Z := 2 ^ 63 - 1.

(** The poller and its own descriptor. *)
Definition construct_EventPoller (k : K) : result (Z * EventPoller K) :=
  let '(_epoll_fd, k) := sys_epoll_create1 k in
  if _epoll_fd =? -1 then Err Fatal
  else
    let* _max_size_of_event_array :=
      get_limit_of_max_number_of_opened_file_descriptors_per_process k in
    if PTRDIFF_MAX <? _max_size_of_event_array * SIZEOF_EPOLL_EVENT then Err Uncaught
    else Ok (_epoll_fd, new_EventPoller k (Z.to_nat _max_size_of_event_array)).

(** The destructor warns when descriptors are left, and ignores what [close]
    returns. *)
Definition delete_EventPoller (_epoll_fd : Z) (p : EventPoller K) : bool * K :=
  (negb (_number_of_fds_that_are_listening_on p =? 0),
   default (kernel p) (sys_close (kernel p) _epoll_fd)).

(** * Blocking mode and the full constructor of a pollable descriptor *)
Definition set_fd_as_blocking (fd : Z) (k : K) : result K :=
  let* flags := of_option Fatal (fcntl_getfl fd k) in
  of_option Fatal (fcntl_setfl fd (Z.ldiff flags O_NONBLOCK) k).

Definition set_fd_as_nonblocking (fd : Z) (k : K) : result K :=
  let* flags := of_option Fatal (fcntl_getfl fd k) in
  of_option Fatal (fcntl_setfl fd (Z.lor flags O_NONBLOCK) k).

Definition construct_PollableFd (self fd : Z) (prefer_et need_set_non_blocking : bool) (k : K)
    : result (PollableFd * K) :=
  let* d := new_PollableFd self fd prefer_et in
  if need_set_non_blocking
  then let* k := set_fd_as_nonblocking fd k in Ok (d, k)
  else Ok (d, k).

Definition get_fd (d : PollableFd) : Z := _fd d.
Definition is_reading (d : PollableFd) : bool := _is_reading d.
Definition is_writing (d : PollableFd) : bool := _is_writing d.
Definition is_detached (d : PollableFd) : bool := _is_detached d.

(** * Registration of callbacks: each replaces one of the four *)
Section Callbacks.
Context {S : Type}.
Definition no_callbacks : handlers S := mkHandlers None None None None.
Definition register_read_event_callback (f : S -> result S) (h : handlers S) : handlers S :=
  mkHandlers (_close_event_callback h) (_error_event_callback h) (Some f)
    (_write_event_callback h).
Definition register_write_event_callback (f : S -> result S) (h : handlers S) : handlers S :=
  mkHandlers (_close_event_callback h) (_error_event_callback h) (_read_event_callback h)
    (Some f).
Definition register_close_event_callback (f : S -> result S) (h : handlers S) : handlers S :=
  mkHandlers (Some f) (_error_event_callback h) (_read_event_callback h)
    (_write_event_callback h).
Definition register_error_event_callback (f : S -> result S) (h : handlers S) : handlers S :=
  mkHandlers (_close_event_callback h) (Some f) (_read_event_callback h)
    (_write_event_callback h).
End Callbacks.

(** * The descriptors of a loop

    Both are constructed non-blocking and edge-triggered, are started once a
    message callback is registered, and leave the poller before they close. *)
Definition with_kernel (k : K) (p : EventPoller K) : EventPoller K :=
  mkPoller k (_fds_that_are_listening_on p) (_number_of_fds_that_are_listening_on p).

Definition message_fd_construct (self fd : Z) (p : EventPoller K)
    : result (PollableFd * EventPoller K) :=
  let* (d, k) := construct_PollableFd self fd true true (kernel p) in
  Ok (d, with_kernel k p).

Definition message_fd_start (has_message_callback : bool) (s : PollableFd * EventPoller K)
    : result (PollableFd * EventPoller K) :=
  if negb has_message_callback then Err Fatal else enable_read_event s.

Definition message_fd_delete (s : PollableFd * EventPoller K)
    : result (PollableFd * EventPoller K) :=
  let* s := detach_from_poller s in close_fd s.

(** ** [Eventfd] *)
Definition _DEFAULT_EVENTFD_FLAGS : Z := Z.lor EFD_CLOEXEC EFD_NONBLOCK.

Definition create_eventfd (flags : Z) (k : K) : Z * K :=
  sys_eventfd (if flags =? 0 then _DEFAULT_EVENTFD_FLAGS else flags) k.

(** A failed or short write is logged and forgotten. *)
Definition increment_by_value (fd value : Z) (k : K) : K := (sys_write fd (u64 value) k).2.

Definition _retrieve_the_sum (fd : Z) (k : K) : Z * K :=
  match sys_read fd k with
  | (ReadFailed _, k) => (0, k)
  | (ReadBytes bytes_read sum, k) => (if bytes_read <? 8 then 0 else sum, k)
  end.

(** ** [Timerfd] *)
Definition _DEFAULT_TIMERFD_FLAGS : Z := Z.lor TFD_CLOEXEC TFD_NONBLOCK.

(** The flags passed in are computed and not used. *)
Definition create_timerfd (flags : Z) (k : K) : Z * K :=
  sys_timerfd_create _DEFAULT_TIMERFD_FLAGS k.

Definition _retrieve_the_number_of_expirations (fd : Z) (k : K) : Z * K :=
  match sys_read fd k with
  | (ReadFailed ECANCELED, k) => (0, k)
  | (ReadFailed EAGAIN, k) => (0, k)
  | (ReadFailed _, k) => (0, k)
  | (ReadBytes bytes_read number_of_expirations, k) =>
      (if bytes_read <? 8 then 0 else number_of_expirations, k)
  end.
End Operations.

(** * Blocking mode *)
Section Laws.
Set Default Proof Using "Type*".
Context {K : Type} {HE : Epoll K} {HEl : EpollLaws K} {HD : Descriptors K} {HDl : DescriptorLaws K}.

Definition nonblocking (fd : Z) (k : K) : Prop :=
  exists flags, fcntl_getfl fd k = Some flags /\ Z.testbit flags 11 = true.

Lemma nonblocking_mask flags : Z.testbit flags 11 = true -> Z.land flags O_NONBLOCK <> 0.
Proof.
  intros Hb H0. assert (Hf : Z.testbit (Z.land flags O_NONBLOCK) 11 = true).
  { by rewrite Z.land_spec, Hb. }
  by rewrite H0 in Hf.
Qed.

Lemma set_nonblocking_ok fd k :
  fd ∈ opened k ->
  exists k', set_fd_as_nonblocking fd k = Ok k' /\ nonblocking fd k' /\ same_files k k' /\
    counter k' = counter k /\ forall fd', fd' <> fd -> fcntl_getfl fd' k' = fcntl_getfl fd' k.
Proof.
  intros Ho. destruct (getfl_opened fd k Ho) as (flags & Hg & _).
  destruct (setfl_nonblock fd flags _ k Ho Hg (or_introl eq_refl))
    as (k' & Hs & Hg' & Hother & Hf & Hc).
  exists k'. unfold set_fd_as_nonblocking. rewrite Hg. simpl. rewrite Hs.
  split; [done |]. split; [| done]. exists (Z.lor flags O_NONBLOCK). split; [done |].
  rewrite Z.lor_spec. by rewrite orb_true_r.
Qed.

(** Setting a descriptor non-blocking and back: each call sets one bit of its
    flags and no other, other descriptors keep theirs, and a descriptor that was
    blocking is as it was. *)
Theorem blocking_round_trip fd flags k
    (Ho : fd ∈ opened k) (Hg : fcntl_getfl fd k = Some flags)
    (Hb : Z.testbit flags 11 = false) :
  exists k1 k2, set_fd_as_nonblocking fd k = Ok k1 /\ set_fd_as_blocking fd k1 = Ok k2 /\
    fcntl_getfl fd k1 = Some (Z.lor flags O_NONBLOCK) /\
    (forall fd', fcntl_getfl fd' k2 = fcntl_getfl fd' k) /\ same_files k k2.
Proof.
  destruct (setfl_nonblock fd flags _ k Ho Hg (or_introl eq_refl))
    as (k1 & Hs1 & Hg1 & Ho1 & Hf1 & _).
  assert (Ho' : fd ∈ opened k1) by (destruct Hf1 as (-> & _); done).
  destruct (setfl_nonblock fd _ _ k1 Ho' Hg1 (or_intror eq_refl))
    as (k2 & Hs2 & Hg2 & Ho2 & Hf2 & _).
  exists k1, k2. unfold set_fd_as_nonblocking, set_fd_as_blocking. rewrite Hg. simpl.
  rewrite Hs1. split; [done |]. rewrite Hg1. simpl. rewrite Hs2. split; [done |].
  split; [done |]. split.
  - intros fd'. destruct (decide (fd' = fd)) as [-> | Hne]; [| by rewrite Ho2, Ho1].
    rewrite Hg2, Hg. f_equal. apply Z.bits_inj'. intros i Hi.
    rewrite Z.ldiff_spec, Z.lor_spec. change O_NONBLOCK with (2 ^ 11).
    destruct (decide (i = 11)) as [-> | Hne].
    + rewrite Hb. by rewrite Z.pow2_bits_true.
    + rewrite Z.pow2_bits_false by lia. by rewrite orb_false_r, andb_true_r.
  - destruct Hf1 as (? & ? & ?), Hf2 as (? & ? & ?). repeat split; congruence.
Qed.

(** The soft limit becomes what was asked for, or the hard limit if that is less;
    the hard limit stays; and it is what a poller then allocates for. *)
Theorem set_limit_spec soft hard limit k
    (Hl : getrlimit k = Some (soft, hard)) (H0 : 0 <= limit) :
  exists k',
    set_limit_of_max_number_of_opened_file_descriptors_per_process limit k = Ok k' /\
    getrlimit k' = Some (Z.min limit hard, hard) /\
    get_limit_of_max_number_of_opened_file_descriptors_per_process k' = Ok (Z.min limit hard) /\
    opened k' = opened k /\ interest k' = interest k.
Proof.
  destruct (getrlimit_ok k) as (s & h & Hk & Hr & _).
  rewrite Hl in Hk. injection Hk as <- <-.
  destruct (setrlimit_below soft hard (Z.min limit hard) k Hl) as (k' & Hs & Hg & Ho & Hi);
    [lia |].
  exists k'. unfold set_limit_of_max_number_of_opened_file_descriptors_per_process,
    get_limit_of_max_number_of_opened_file_descriptors_per_process.
  rewrite Hl. simpl. rewrite Hs. simpl. rewrite Hg. done.
Qed.

(** * Event descriptors *)
Fixpoint increments (fd : Z) (values : list Z) (k : K) : K :=
  match values with
  | [] => k
  | v :: values => increments fd values (increment_by_value fd v k)
  end.

Lemma same_modes_trans k1 k2 k3 : same_modes k1 k2 -> same_modes k2 k3 -> same_modes k1 k3.
Proof.
  intros [(? & ? & ?) ?] [(? & ? & ?) ?]. split; [repeat split; congruence |].
  intros fd. congruence.
Qed.

Lemma increments_ok fd values c k :
  counter k fd = Some c -> 0 <= c -> Forall (fun v => 0 <= v) values ->
  c + foldr Z.add 0 values < 2 ^ 64 - 1 ->
  counter (increments fd values k) fd = Some (c + foldr Z.add 0 values) /\
  same_modes k (increments fd values k).
Proof.
  revert c k. induction values as [| v values IH]; simpl; intros c k Hc H0 Hf Hs.
  { rewrite Z.add_0_r. by repeat split. }
  apply Forall_cons in Hf as [Hv Hf].
  assert (Hsum : 0 <= foldr Z.add 0 values).
  { clear -Hf. induction Hf; simpl; lia. }
  destruct (write_counter fd v c k Hc Hv) as (k' & E & Hc' & Hm); [lia |].
  unfold increment_by_value. rewrite u64_small by lia. rewrite E. simpl.
  destruct (IH (c + v) k' Hc') as [H1 H2]; [lia | done | lia |].
  rewrite H1. split; [f_equal; lia | by eapply same_modes_trans].
Qed.

(** A loop that is notified any number of times reads the sum of the increments
    once; reading again before the next notification gives 0, which the message
    callback gets all the same. *)
Theorem retrieve_the_sum_spec fd values k
    (Hc : counter k fd = Some 0) (Hv : Forall (fun v => 0 <= v) values)
    (Hs : foldr Z.add 0 values < 2 ^ 64 - 1) (Hn : nonblocking fd k) :
  exists k1, _retrieve_the_sum fd (increments fd values k) = (foldr Z.add 0 values, k1) /\
    _retrieve_the_sum fd k1 = (0, k1) /\ counter k1 fd = Some 0 /\ same_modes k k1.
Proof.
  destruct (increments_ok fd values 0 k Hc) as [Hc1 Hm1]; [lia | done | lia |].
  rewrite Z.add_0_l in Hc1. set (k0 := increments fd values k) in *.
  assert (Hsum : 0 <= foldr Z.add 0 values) by (clear -Hv; induction Hv; simpl; lia).
  assert (Hempty : forall k', same_modes k k' -> counter k' fd = Some 0 ->
            _retrieve_the_sum fd k' = (0, k')).
  { intros k' [_ Hm] Hc'. destruct Hn as (flags & Hg & Hb).
    unfold _retrieve_the_sum. erewrite read_empty_counter; [done | done | by rewrite Hm |].
    by apply nonblocking_mask. }
  destruct (decide (foldr Z.add 0 values = 0)) as [E | E].
  - exists k0. rewrite E in *. auto using eq_refl.
  - destruct (read_counter fd _ k0 Hc1) as (k1 & Er & Hc2 & Hm2); [lia |].
    exists k1. unfold _retrieve_the_sum at 1. rewrite Er. split; [done |].
    assert (Hm : same_modes k k1) by (by eapply same_modes_trans).
    auto.
Qed.

Lemma retrieve_the_sum_kernel fd k : (_retrieve_the_sum fd k).2 = (sys_read fd k).2.
Proof using Type. unfold _retrieve_the_sum. by destruct (sys_read fd k) as [[] ?]. Qed.

Lemma retrieve_the_number_of_expirations_kernel fd k :
  (_retrieve_the_number_of_expirations fd k).2 = (sys_read fd k).2.
Proof using Type.
  unfold _retrieve_the_number_of_expirations. by destruct (sys_read fd k) as [[[] |] ?].
Qed.

(** Reading leaves an empty counter, whether it was empty or not. *)
Lemma read_empties fd c k :
  counter k fd = Some c -> 0 <= c -> nonblocking fd k ->
  counter (sys_read fd k).2 fd = Some 0.
Proof.
  intros Hc H0 (fl & Hg & Hb). destruct (decide (c = 0)) as [-> | Hne].
  - by rewrite (read_empty_counter fd fl k Hc Hg (nonblocking_mask fl Hb)).
  - destruct (read_counter fd c k Hc) as (k' & -> & Hc' & _); [lia | done].
Qed.

(** * Life cycle of a loop's descriptor *)
Lemma one_ctl_frame k k' :
  one_ctl k k' ->
  counter k' = counter k /\ forall fd, fcntl_getfl fd k' = fcntl_getfl fd k.
Proof.
  intros [-> | (op & fd & ev & E)]; [done |]. by destruct (ctl_frame _ _ _ _ _ E) as (? & _ & ?).
Qed.

Definition table_covers (p : EventPoller K) : Prop :=
  forall limits, getrlimit (kernel p) = Some limits ->
    limits.1 <= Z.of_nat (length (_fds_that_are_listening_on p)).

Definition fresh_message_fd (self fd : Z) : PollableFd :=
  mkPfd self fd false false true EPOLLET (mkEvent self EPOLLET).

Lemma poller_ok_kernel k p :
  interest k = interest (kernel p) -> poller_ok p -> poller_ok (with_kernel k p).
Proof. intros Hi [H1 H2]. split; unfold size in *; simpl; by rewrite Hi. Qed.

Lemma new_poller_ok k n : interest k = ∅ -> poller_ok (new_EventPoller k n).
Proof using Type.
  intros Hi. split.
  - intros fd _. unfold listening. simpl. rewrite Hi, lookup_empty.
    split; [| by intros []]. intros Hl. exfalso.
    destruct (_ !! Z.to_nat fd) eqn:E in Hl; [| done]. simpl in Hl.
    apply lookup_replicate in E as [-> _]. done.
  - unfold size. simpl. by rewrite Hi, map_size_empty.
Qed.

Lemma message_fd_construct_ok self fd k p :
  poller_ok p -> table_covers p -> opens (kernel p) fd k -> fd <> -1 ->
  exists p', message_fd_construct self fd (with_kernel k p)
             = Ok (fresh_message_fd self fd, p') /\
    mirror (fresh_message_fd self fd, p') /\ poller_ok p' /\ table_covers p' /\
    nonblocking fd (kernel p') /\ counter (kernel p') = counter k /\
    opened (kernel p') = {[fd]} ∪ opened (kernel p) /\
    interest (kernel p') = interest (kernel p) /\
    getrlimit (kernel p') = getrlimit (kernel p) /\
    (forall fd', fd' <> fd -> fcntl_getfl fd' (kernel p') = fcntl_getfl fd' (kernel p)) /\
    length (_fds_that_are_listening_on p') = length (_fds_that_are_listening_on p).
Proof.
  intros Hok Hcov [[-> _] | (Hno & H0 & Hlim & Hnone & Ho & Hi & Hr & Hmd)] Hne; [done |].
  unfold message_fd_construct, construct_PollableFd, new_PollableFd.
  rewrite (proj2 (Z.ltb_ge _ _) H0). simpl.
  destruct (set_nonblocking_ok fd k) as (k' & -> & Hnb & (Ho' & Hi' & Hr') & Hc & Hmd').
  { rewrite Ho. set_solver. }
  eexists. split; [done |]. simpl.
  destruct (getrlimit_ok (kernel p)) as (soft & hard & Hg & _ & _).
  split; [| split; [| split; [| repeat split; try done; try congruence]]].
  4: by intros fd' Hf; rewrite Hmd', Hmd.
  - split; [| split; [by right | split; [done | split; [done |]]]].
    + split; simpl; [| rewrite Ho', Ho; set_solver]. split; [done |].
      pose proof (Hlim _ Hg). specialize (Hcov _ Hg). simpl in *. lia.
    + simpl. by rewrite Hi', Hi.
  - apply poller_ok_kernel; [done |]. by apply poller_ok_kernel.
  - intros limits. simpl. rewrite Hr', Hr. apply Hcov.
Qed.

Lemma message_fd_start_ok d p :
  mirror (d, p) -> poller_ok p -> _is_reading d = false -> _is_writing d = false ->
  _initial_epoll_event d = EPOLLET ->
  exists p', message_fd_start true (d, p)
      = Ok (with_flags true false false (Z.lor EPOLLET EVENT_TYPE_READ) d, p') /\
    mirror (with_flags true false false (Z.lor EPOLLET EVENT_TYPE_READ) d, p') /\
    poller_ok p' /\ others_kept (_fd d) p p' /\ one_ctl (kernel p) (kernel p') /\
    interest (kernel p')
    = <[_fd d := mkEvent (self d) (Z.lor EPOLLET EVENT_TYPE_READ)]> (interest (kernel p)).
Proof.
  intros Hm Hok Hr Hw Hi. pose proof Hm as (Hu & _ & He & _ & _).
  unfold message_fd_start; simpl. unfold enable_read_event, _register_event.
  rewrite Hr, Hw. simpl.
  assert (Hmask : Z.lor (events (_event d)) EVENT_TYPE_READ = Z.lor EPOLLET EVENT_TYPE_READ).
  { rewrite He. unfold mask_of. rewrite Hr, Hw, Hi. reflexivity. }
  rewrite Hmask, He. simpl.
  destruct (register_ok p (_fd d) (mkEvent (self d) (Z.lor EPOLLET EVENT_TYPE_READ)) Hok Hu)
    as (p' & E & Hok' & Hint & Hoth).
  exists p'. rewrite E. unfold with_flags; simpl. split; [by rewrite He |].
  split; [| split; [done | split; [done |]]].
  - split; [by eapply usable_kept |]. split; [by right |]. simpl.
    rewrite He. unfold mask_of; simpl. rewrite Hi. split; [done |]. split; [done |].
    by rewrite Hint, lookup_insert_eq.
  - split; [by eapply register_event_for_fd_ctl | done].
Qed.

Lemma message_fd_delete_ok d p :
  mirror (d, p) -> poller_ok p ->
  exists d' p', message_fd_delete (d, p) = Ok (d', p') /\ _is_detached d' = true /\
    poller_ok p' /\ interest (kernel p') = delete (_fd d) (interest (kernel p)) /\
    opened (kernel p') = opened (kernel p) ∖ {[_fd d]} /\
    length (_fds_that_are_listening_on p') = length (_fds_that_are_listening_on p).
Proof.
  intros Hm Hok. unfold message_fd_delete.
  destruct (run_command_good Detach d p Hm Hok) as ([d1 p1] & E & Hm1 & Hok1 & Hfd & Hl & Ho & Hk).
  destruct (run_command_flags Detach d p d1 p1 Hm E) as [Hflags _].
  cbn [run_command fst snd] in *. rewrite E.
  destruct Hm1 as (Hu & _ & _ & _ & Hint). injection Hflags as _ _ Hdet. rewrite Hdet in Hint.
  unfold close_fd. destruct (close_opened (kernel p1) (_fd d1)) as (k & -> & Hki & Hko);
    [apply Hu |].
  do 2 eexists. split; [done |]. split; [done |]. simpl.
  split; [| split; [| split; [| done]]].
  - destruct Hok1 as [H1 H2]. split; unfold size in *; simpl; by rewrite Hki, delete_id.
  - rewrite Hki, delete_id by done. apply map_eq. intros fd.
    destruct (decide (fd = _fd d)) as [-> | Hne].
    + rewrite lookup_delete_eq. by rewrite <- Hfd.
    + rewrite lookup_delete_ne by done. by apply Hk.
  - by rewrite Hko, Ho, Hfd.
Qed.

(** An eventfd of a loop, created, started and destroyed: while it lives the
    kernel watches it for reading, edge-triggered, and it never blocks; afterwards
    the process has the descriptors and the poller the registrations it had. *)
Theorem eventfd_life_cycle self p
    (Hok : poller_ok p) (Hcov : table_covers p) :
  let '(fd, k) := create_eventfd 0 (kernel p) in
  fd <> -1 ->
  exists d p1 p2 d3 p3,
    message_fd_construct self fd (with_kernel k p) = Ok (d, p1) /\
    message_fd_start true (d, p1)
    = Ok (with_flags true false false (Z.lor EPOLLET EVENT_TYPE_READ) d, p2) /\
    interest (kernel p2) = <[fd := mkEvent self (Z.lor EPOLLET EVENT_TYPE_READ)]>
                             (interest (kernel p)) /\
    nonblocking fd (kernel p1) /\
    message_fd_delete (with_flags true false false (Z.lor EPOLLET EVENT_TYPE_READ) d, p2)
    = Ok (d3, p3) /\
    interest (kernel p3) = interest (kernel p) /\ opened (kernel p3) = opened (kernel p) /\
    size p3 = size p.
Proof.
  destruct (create_eventfd 0 (kernel p)) as [fd k] eqn:E. intros Hne.
  destruct (eventfd_opens _ _ _ _ E) as [Hop _].
  destruct (message_fd_construct_ok self fd k p Hok Hcov Hop Hne)
    as (p1 & E1 & Hm1 & Hok1 & _ & Hnb & _ & Ho1 & Hi1 & _ & _ & _).
  destruct (message_fd_start_ok _ p1 Hm1 Hok1) as (p2 & E2 & Hm2 & Hok2 & Hk2 & _ & Hi2);
    [done .. |].
  destruct (message_fd_delete_ok _ p2 Hm2 Hok2) as (d3 & p3 & E3 & _ & Hok3 & Hi3 & Ho3 & _).
  exists (fresh_message_fd self fd), p1, p2, d3, p3.
  destruct Hop as [[-> _] | (Hno & _ & _ & Hnone & _)]; [done |].
  rewrite Hi1 in Hi2. simpl in *.
  assert (Hint : interest (kernel p3) = interest (kernel p)).
  { by rewrite Hi3, Hi2, delete_insert_id. }
  repeat (split; [done |]). split; [| ].
  - destruct Hk2 as (_ & -> & _) in Ho3. rewrite Ho3, Ho1. set_solver.
  - destruct Hok3 as [_ ->], Hok as [_ ->]. by rewrite Hint.
Qed.
End Laws.

(** * A concrete kernel *)
Record loop_kernel := mkLoopKernel {
  lk_opened : gset Z;
  lk_interest : gmap Z epoll_event;
  lk_flags : gmap Z Z;
  lk_limits : Z * Z;
  lk_counters : gmap Z Z
}.

Definition lk_set_interest (i : gmap Z epoll_event) (k : loop_kernel) : loop_kernel :=
  mkLoopKernel (lk_opened k) i (lk_flags k) (lk_limits k) (lk_counters k).
Definition lk_set_counter (fd c : Z) (k : loop_kernel) : loop_kernel :=
  mkLoopKernel (lk_opened k) (lk_interest k) (lk_flags k) (lk_limits k)
    (<[fd := c]> (lk_counters k)).

#[export] Instance loop_kernel_epoll : Epoll loop_kernel := {
  epoll_ctl k op fd ev :=
    if decide (fd ∈ lk_opened k) then
      match op, lk_interest k !! fd with
      | EPOLL_CTL_ADD, None | EPOLL_CTL_MOD, Some _ =>
          Some (lk_set_interest (<[fd := ev]> (lk_interest k)) k)
      | EPOLL_CTL_DEL, Some _ => Some (lk_set_interest (delete fd (lk_interest k)) k)
      | _, _ => None
      end
    else None;
  sys_close k fd :=
    if decide (fd ∈ lk_opened k)
    then Some (mkLoopKernel (lk_opened k ∖ {[fd]}) (delete fd (lk_interest k)) (lk_flags k)
                 (lk_limits k) (lk_counters k))
    else None;
  opened := lk_opened;
  interest := lk_interest
}.

#[export] Instance loop_kernel_epoll_laws : EpollLaws loop_kernel.
Proof.
  split; intros k fd; simpl.
  - intros ev H1 H2. rewrite decide_True, H2 by done. eauto.
  - intros ev [x H1]. rewrite H1. by destruct (decide _).
  - intros ev H1 [x H2]. rewrite decide_True, H2 by done. eauto.
  - intros ev H1. rewrite H1. by destruct (decide _).
  - intros ev H1 [x H2]. rewrite decide_True, H2 by done. eauto.
  - intros ev H1. rewrite H1. by destruct (decide _).
  - intros H1. rewrite decide_True by done. eauto.
Qed.

(** The next number is one more than the greatest in use. *)
Definition next_fd (k : loop_kernel) : Z := 1 + set_fold Z.max 2 (lk_opened k).

(** The limits of a process are sane, its flags are [int]s. *)
Definition sane_limits (l : Z * Z) : Z * Z :=
  if decide ((0 <= l.1 <= l.2) /\ l.2 < 2 ^ 64) then l else (1024, 4096).
Definition sane_flags (flags : Z) : Z := flags mod 2 ^ 31.

Definition lk_open (flags : Z) (k : loop_kernel) : Z * loop_kernel :=
  let fd := next_fd k in
  if decide (fd < (sane_limits (lk_limits k)).1 /\ lk_interest k !! fd = None)
  then (fd, mkLoopKernel ({[fd]} ∪ lk_opened k) (lk_interest k) (<[fd := flags]> (lk_flags k))
              (lk_limits k) (lk_counters k))
  else (-1, k).

#[export] Instance loop_kernel_descriptors : Descriptors loop_kernel := {
  fcntl_getfl fd k := Some (sane_flags (default 0 (lk_flags k !! fd)));
  fcntl_setfl fd flags k :=
    Some (mkLoopKernel (lk_opened k) (lk_interest k) (<[fd := flags]> (lk_flags k))
            (lk_limits k) (lk_counters k));
  getrlimit k := Some (sane_limits (lk_limits k));
  setrlimit l k := Some (mkLoopKernel (lk_opened k) (lk_interest k) (lk_flags k) l (lk_counters k));
  sys_epoll_create1 k := lk_open 0 k;
  sys_eventfd flags k :=
    let '(fd, k) := lk_open flags k in
    (fd, if fd =? -1 then k else lk_set_counter fd 0 k);
  sys_timerfd_create flags k := lk_open flags k;
  sys_read fd k :=
    match lk_counters k !! fd with
    | Some c => if 0 <? c then (ReadBytes 8 c, lk_set_counter fd 0 k) else (ReadFailed EAGAIN, k)
    | None => (ReadFailed EAGAIN, k)
    end;
  sys_write fd v k :=
    match lk_counters k !! fd with
    | Some c => (WroteBytes 8, lk_set_counter fd (c + v) k)
    | None => (WriteFailed (OtherErrno 9), k)
    end;
  counter k fd := lk_counters k !! fd
}.

Lemma next_fd_fresh k : 2 < next_fd k /\ next_fd k ∉ lk_opened k.
Proof.
  unfold next_fd.
  assert (Hf : 2 <= set_fold Z.max 2 (lk_opened k) /\
               forall x, x ∈ lk_opened k -> x <= set_fold Z.max 2 (lk_opened k)).
  { apply (set_fold_ind_L (fun m X => 2 <= m /\ forall x, x ∈ X -> x <= m)); [set_solver |].
    intros x X m _ [H2 IH]. split; [lia |].
    intros y [->%elem_of_singleton | Hy]%elem_of_union; [lia |]. specialize (IH _ Hy). lia. }
  destruct Hf as [H2 Hf]. split; [lia |]. intros Hin. specialize (Hf _ Hin). lia.
Qed.

Lemma lk_open_opens flags k fd k' :
  lk_open flags k = (fd, k') -> opens k fd k' /\ lk_counters k' = lk_counters k.
Proof.
  unfold lk_open. destruct (next_fd_fresh k) as [H2 Hno].
  destruct (decide _) as [[Hlt Hnone] | _]; intros [= <- <-]; [| by split; [left |]].
  split; [| done]. right. split; [done |]. split; [lia |].
  split; [by intros limits [= <-] |]. repeat (split; [done |]).
  intros fd' Hne. simpl. by rewrite lookup_insert_ne.
Qed.

Lemma sane_flags_range flags : 0 <= sane_flags flags < 2 ^ 31.
Proof. by apply Z.mod_pos_bound. Qed.

Lemma sane_flags_id flags flags' :
  0 <= flags < 2 ^ 31 ->
  flags' = Z.lor flags O_NONBLOCK \/ flags' = Z.ldiff flags O_NONBLOCK ->
  sane_flags flags' = flags'.
Proof.
  intros Hr Hf. unfold sane_flags. apply Z.bits_inj'. intros i Hi.
  destruct (decide (i < 31)) as [Hlt | Hge].
  { by rewrite Z.mod_pow2_bits_low. }
  rewrite Z.mod_pow2_bits_high by lia.
  assert (Hfi : Z.testbit flags i = false).
  { rewrite <- (Z.mod_small flags (2 ^ 31)) by done. apply Z.mod_pow2_bits_high. lia. }
  assert (Hoi : Z.testbit O_NONBLOCK i = false).
  { change O_NONBLOCK with (2 ^ 11). apply Z.pow2_bits_false. lia. }
  destruct Hf as [-> | ->]; by rewrite ?Z.lor_spec, ?Z.ldiff_spec, Hfi, ?Hoi.
Qed.

#[export] Instance loop_kernel_descriptor_laws : DescriptorLaws loop_kernel.
Proof.
  split.
  - intros fd k _. eexists. split; [done | apply sane_flags_range].
  - intros fd flags flags' k _ [= <-] Hf. eexists. split; [done |]. simpl.
    rewrite lookup_insert_eq. simpl.
    rewrite (sane_flags_id _ _ (sane_flags_range _) Hf). split; [done |].
    split; [| done]. intros fd' Hne. by rewrite lookup_insert_ne.
  - intros k. simpl. unfold sane_limits. destruct (decide _) as [Hd | _].
    + destruct (lk_limits k) as [s h]. eauto.
    + exists 1024, 4096. split; [done | lia].
  - intros soft hard soft' k [= Hk] Hs. eexists. split; [done |]. split; [| done].
    simpl. unfold sane_limits in *. destruct (decide _) as [Hd | _] in Hk.
    + rewrite decide_True; [done |]. rewrite Hk in Hd. simpl in *. lia.
    + rewrite decide_True; [done |]. injection Hk as <- <-. simpl. lia.
  - intros flags k fd k'. simpl. destruct (lk_open flags k) as [fd0 k0] eqn:E.
    destruct (lk_open_opens _ _ _ _ E) as [Ho Hc]. intros [= <- <-].
    destruct (fd0 =? -1) eqn:Ef; [apply Z.eqb_eq in Ef | apply Z.eqb_neq in Ef]; [done |].
    destruct Ho as [[-> _] | Ho]; [done |]. split; [by right |]. intros _. simpl.
    rewrite lookup_insert_eq. split; [done |]. intros fd' Hne.
    rewrite lookup_insert_ne by done. by rewrite Hc.
  - intros flags k fd k' E. destruct (lk_open_opens _ _ _ _ E) as [Ho Hc].
    split; [done |]. simpl. by rewrite Hc.
  - intros k fd k' E. destruct (lk_open_opens _ _ _ _ E) as [Ho Hc].
    split; [done |]. simpl. by rewrite Hc.
  - intros fd v c k Hc Hv Hs. simpl in *. rewrite Hc. eexists. split; [done |].
    simpl. rewrite lookup_insert_eq. done.
  - intros fd c k Hc H0. simpl in *. rewrite Hc, (proj2 (Z.ltb_lt _ _) H0).
    eexists. split; [done |]. simpl. by rewrite lookup_insert_eq.
  - intros fd flags k Hc _ _. simpl in *. by rewrite Hc.
  - intros fd k. simpl. destruct (lk_counters k !! fd); [| done]. destruct (_ <? _); [| done].
    split; [done |]. intros fd' Hne. simpl. by rewrite lookup_insert_ne.
  - intros fd v k. simpl. destruct (lk_counters k !! fd); [| done].
    split; [done |]. intros fd' Hne. simpl. by rewrite lookup_insert_ne.
  - intros op fd ev k k'. simpl. destruct (decide _); [| done].
    destruct op, (lk_interest k !! fd); by intros [= <-].
Qed.

Definition sample_loop_kernel : loop_kernel :=
  mkLoopKernel {[0; 1; 2]} ∅ ∅ (64, 1024) ∅.

Lemma blocking_round_trip_witness :
  exists k1 k2, set_fd_as_nonblocking 1 sample_loop_kernel = Ok k1 /\
    set_fd_as_blocking 1 k1 = Ok k2 /\ fcntl_getfl 1 k1 = Some 0x800 /\
    fcntl_getfl 1 k2 = Some 0.
Proof.
  destruct (blocking_round_trip 1 0 sample_loop_kernel) as (k1 & k2 & E1 & E2 & H1 & H2 & _);
    [vm_compute; reflexivity .. |].
  exists k1, k2. split; [exact E1 |]. split; [exact E2 |]. split; [exact H1 |].
  rewrite H2. vm_compute. reflexivity.
Defined.

Lemma set_limit_spec_witness :
  exists k', set_limit_of_max_number_of_opened_file_descriptors_per_process 5000
               sample_loop_kernel = Ok k' /\
    get_limit_of_max_number_of_opened_file_descriptors_per_process k' = Ok 1024.
Proof.
  destruct (set_limit_spec 64 1024 5000 sample_loop_kernel) as (k' & E & _ & H & _);
    [vm_compute; reflexivity | lia |].
  exists k'. split; [exact E | exact H].
Defined.

Definition sample_eventfd : Z * loop_kernel := create_eventfd 0 sample_loop_kernel.

Lemma retrieve_the_sum_spec_witness :
  sample_eventfd.1 = 3 /\
  exists k1, _retrieve_the_sum 3 (increments 3 [1; 1; 5] sample_eventfd.2) = (7, k1) /\
    _retrieve_the_sum 3 k1 = (0, k1).
Proof.
  split; [vm_compute; reflexivity |].
  destruct (retrieve_the_sum_spec 3 [1; 1; 5] sample_eventfd.2) as (k1 & E1 & E2 & _).
  - vm_compute; reflexivity.
  - repeat constructor; lia.
  - simpl. lia.
  - exists 0x80800. split; vm_compute; reflexivity.
  - exists k1. split; [exact E1 | exact E2].
Defined.

Lemma eventfd_life_cycle_witness :
  exists fd k d p1, create_eventfd 0 sample_loop_kernel = (fd, k) /\
    message_fd_construct 4096 fd (with_kernel k (new_EventPoller sample_loop_kernel 64))
    = Ok (d, p1) /\ _fd d = 3.
Proof.
  pose proof (eventfd_life_cycle 4096 (new_EventPoller sample_loop_kernel 64)) as Hl.
  destruct (create_eventfd 0 (kernel (new_EventPoller sample_loop_kernel 64))) as [fd k] eqn:E.
  assert (Hfd : fd = 3) by (vm_compute in E; by injection E).
  destruct Hl as (d & p1 & p2 & d3 & p3 & E1 & _ & Hi & _).
  - by apply new_poller_ok.
  - intros limits [= <-]. vm_compute. discriminate.
  - by subst fd.
  - exists fd, k, d, p1. split; [exact E |]. split; [exact E1 |].
    subst fd. revert E1. unfold message_fd_construct. vm_compute in E. injection E as <-.
    vm_compute. intros [= <- _]. reflexivity.
Defined.
