(* ===== verification/Signals.v ===== *)
(** Signals as descriptors: [src/signalfd.cc] and [include/signalfd.h]. *)
From S2P Require Import Prelude Poller Descriptors.
Open Scope Z_scope.

(** * Signals *)
Definition SIGHUP : Z := 1.
Definition SIGINT : Z := 2.
Definition SIGQUIT : Z := 3.
Definition SIGKILL : Z := 9.
Definition SIGTERM : Z := 15.
Definition SIGSTOP : Z := 19.
Definition SIGTSTP : Z := 20.

Definition valid_signal (signal : Z) : bool := (1 <=? signal) && (signal <=? 64).

(** [sigaddset] and [sigdelset] change nothing for a number that is not a signal. *)
Definition sigaddset (signal : Z) (set : gset Z) : gset Z :=
  if valid_signal signal then {[signal]} ∪ set else set.
Definition sigdelset (signal : Z) (set : gset Z) : gset Z :=
  if valid_signal signal then set ∖ {[signal]} else set.

(** * [SignalSet] *)
Definition SignalSet : Type := gset Z.
Definition new_SignalSet : SignalSet := ∅.

Definition add_signal (signal : Z) (s : SignalSet) : result SignalSet :=
  if (signal =? SIGKILL) || (signal =? SIGSTOP) then Err Fatal else Ok (sigaddset signal s).

(** The two that cannot be caught are only warned about. *)
Definition remove_signal (signal : Z) (s : SignalSet) : SignalSet := sigdelset signal s.

Fixpoint add_signals (signals : list Z) (s : SignalSet) : result SignalSet :=
  match signals with
  | [] => Ok s
  | signal :: signals => let* s := add_signal signal s in add_signals signals s
  end.

(** * System calls *)
Class SignalCalls (K : Type) := {
  blocked : K -> gset Z;
  sigprocmask_block : gset Z -> K -> option K;
  sigprocmask_unblock : gset Z -> K -> option K;
  sys_signalfd : gset Z -> Z -> K -> Z * K
}.

Section Operations.
Context {K : Type} `{Epoll K, Descriptors K, SignalCalls K}.

Definition block_signals (signals_to_block : SignalSet) (k : K) : result K :=
  of_option Fatal (sigprocmask_block signals_to_block k).
Definition unblock_signals (signals_to_unblock : SignalSet) (k : K) : result K :=
  of_option Fatal (sigprocmask_unblock signals_to_unblock k).

Definition _DEFAULT_SIGNALFD_FLAGS : Z := Z.lor 0x800 0x80000.

Definition create_signalfd (initial_listening_set : SignalSet) (flags : Z) (k : K)
    : result (Z * K) :=
  let flags := if flags =? 0 then _DEFAULT_SIGNALFD_FLAGS else flags in
  let '(fd, k) := sys_signalfd initial_listening_set flags k in
  if fd =? -1 then Err Fatal else Ok (fd, k).

(** * [Signalfd]: its constructor and [start] are those of an eventfd *)
Definition new_Signalfd (self fd : Z) (p : EventPoller K) : result (PollableFd * EventPoller K) :=
  message_fd_construct self fd p.

Definition signalfd_start (has_signal_dispatcher : bool) (s : PollableFd * EventPoller K)
    : result (PollableFd * EventPoller K) :=
  if negb has_signal_dispatcher then Err Fatal else enable_read_event s.

Definition signalfd_stop (s : PollableFd * EventPoller K) : result (PollableFd * EventPoller K) :=
  detach_from_poller s.

(** The destructor closes the descriptor, whether it was stopped or not. *)
Definition delete_Signalfd (s : PollableFd * EventPoller K) : result (PollableFd * EventPoller K) :=
  close_fd s.
End Operations.

(** * Reading

    A call of [read] gives one whole record, or fails; [errno] is what it is left
    as. *)
Inductive signal_read := SignalInfo (ssi_signo : Z) | NoSignalInfo (e : errno).

Section Reading.
Context {W : Type} (read : W -> signal_read * W) (_signal_dispatcher : Z -> W -> result W).

(** One signal at a time, until none is left. *)
Fixpoint signalfd_read_event_callback (fuel : nat) (w : W) : result W :=
  match fuel with
  | O => Err OutOfFuel
  | S fuel =>
      match read w with
      | (NoSignalInfo EAGAIN, w) => Ok w
      | (NoSignalInfo _, w) => Err Fatal
      | (SignalInfo ssi_signo, w) =>
          let* w := _signal_dispatcher ssi_signo w in signalfd_read_event_callback fuel w
      end
  end.

(** The signals that are pending, in the order in which they are read. *)
Context (pending : W -> list Z).

Record pending_signals : Prop := {
  read_some signal rest w :
    pending w = signal :: rest -> exists w', read w = (SignalInfo signal, w') /\ pending w' = rest;
  read_none w : pending w = [] -> (read w).1 = NoSignalInfo EAGAIN
}.

(** What the callback does, without its loop. *)
Fixpoint dispatch_each (signals : list Z) (w : W) : result W :=
  match signals with
  | [] => Ok (read w).2
  | signal :: signals =>
      let* w := _signal_dispatcher signal (read w).2 in dispatch_each signals w
  end.

(** Every signal that is pending is dispatched once, in order, and the loop ends:
    its fuel is the number of signals, if the dispatcher leaves them alone. *)
Theorem signals_read_in_order fuel w
    (Hp : pending_signals)
    (Hd : forall signal w w', _signal_dispatcher signal w = Ok w' -> pending w' = pending w)
    (Hf : (length (pending w) < fuel)%nat) :
  signalfd_read_event_callback fuel w = dispatch_each (pending w) w.
Proof.
  revert w Hf. induction fuel as [| fuel IH]; intros w Hf; [lia |]. cbn [signalfd_read_event_callback].
  destruct (pending w) as [| signal rest] eqn:E; cbn [dispatch_each].
  - pose proof (read_none Hp w E) as Hr. destruct (read w) as [r w']. simpl in Hr. by subst r.
  - destruct (read_some Hp signal rest w E) as (w' & Hr & Hw'). rewrite Hr. simpl.
    destruct (_signal_dispatcher signal w') as [w2 |] eqn:Ed; [| done]. simpl.
    rewrite IH; rewrite (Hd _ _ _ Ed), Hw'; [done |]. simpl in Hf. lia.
Qed.
End Reading.

(** * The destructor *)
Section Laws.
Set Default Proof Using "Type*".
Context {K : Type} {HE : Epoll K} {HEl : EpollLaws K} {HD : Descriptors K} {HDl : DescriptorLaws K}.

(** A descriptor that was stopped first goes without a trace. *)
Theorem stopped_signalfd_is_gone d p
    (Hm : mirror (d, p)) (Hok : poller_ok p) :
  exists d1 p1 d2 p2, signalfd_stop (d, p) = Ok (d1, p1) /\ delete_Signalfd (d1, p1) = Ok (d2, p2) /\
    poller_ok p2 /\ interest (kernel p2) = delete (_fd d) (interest (kernel p)) /\
    opened (kernel p2) = opened (kernel p) ∖ {[_fd d]}.
Proof.
  destruct (message_fd_delete_ok d p Hm Hok) as (d2 & p2 & E & _ & Hok2 & Hi & Ho & _).
  unfold message_fd_delete in E. unfold signalfd_stop, delete_Signalfd.
  destruct (detach_from_poller (d, p)) as [[d1 p1] |]; [| done]. by exists d1, p1, d2, p2.
Qed.

(** One that was not stays in the table and the count of the poller after it is
    closed: the loop goes on waiting for it, and the next descriptor that gets its
    number cannot be registered. *)
Theorem unstopped_signalfd_leaves_mark d p
    (Hm : mirror (d, p)) (Hok : poller_ok p) (Hd : _is_detached d = false) :
  exists p', delete_Signalfd (d, p) = Ok (d, p') /\
    interest (kernel p') !! _fd d = None /\ listening p' (_fd d) = true /\ size p' = size p /\
    forall k ev, interest k !! _fd d = None ->
      register_event_for_fd (_fd d) ev (with_kernel k p') = Err Fatal.
Proof.
  destruct Hm as ([Hr Ho] & _ & _ & _ & Hint). rewrite Hd in Hint.
  destruct (close_opened (kernel p) (_fd d) Ho) as (k' & Hc & Hi & _).
  unfold delete_Signalfd, close_fd. rewrite Hc. eexists. split; [done |]. simpl.
  assert (Hl : listening p (_fd d) = true) by (apply Hok; [lia | by rewrite Hint]).
  split; [rewrite Hi; apply lookup_delete_eq |]. split; [done |]. split; [done |].
  intros k ev Hk. unfold register_event_for_fd, array_get. simpl.
  rewrite (proj2 (Z.ltb_ge _ _) (proj1 Hr)). unfold listening in Hl.
  destruct (_ !! Z.to_nat (_fd d)) as [b |]; [| done]. simpl in Hl |- *. subst b.
  by rewrite (ctl_mod_absent k (_fd d) ev Hk).
Qed.
End Laws.

(** * Samples *)
Definition sample_poller : EventPoller loop_kernel := new_EventPoller sample_loop_kernel 64.

Lemma sample_signalfd :
  exists d (p : EventPoller loop_kernel), mirror (d, p) /\ poller_ok p /\ _is_detached d = false /\ _fd d = 3.
Proof.
  destruct (lk_open_opens 0 sample_loop_kernel 3 (lk_open 0 sample_loop_kernel).2) as [Ho _];
    [vm_compute; reflexivity |].
  destruct (message_fd_construct_ok 7000 3 (lk_open 0 sample_loop_kernel).2 sample_poller)
    as (p1 & _ & Hm & Hok & _); [by apply new_poller_ok | | exact Ho | done |].
  { intros limits E. vm_compute in E. injection E as <-. vm_compute. discriminate. }
  destruct (message_fd_start_ok _ _ Hm Hok) as (p2 & _ & Hm2 & Hok2 & _); [done .. |].
  eexists _, p2. split; [exact Hm2 |]. split; [exact Hok2 |]. split; reflexivity.
Qed.

Lemma stopped_signalfd_is_gone_witness :
  exists d (p : EventPoller loop_kernel) d1 p1 d2 p2, _is_detached d = false /\
    signalfd_stop (d, p) = Ok (d1, p1) /\ delete_Signalfd (d1, p1) = Ok (d2, p2).
Proof.
  destruct sample_signalfd as (d & p & Hm & Hok & Hd & _).
  destruct (stopped_signalfd_is_gone d p Hm Hok) as (d1 & p1 & d2 & p2 & E1 & E2 & _).
  exists d, p, d1, p1, d2, p2. split; [exact Hd |]. split; [exact E1 | exact E2].
Defined.

Lemma unstopped_signalfd_leaves_mark_witness :
  exists d (p : EventPoller loop_kernel) p', delete_Signalfd (d, p) = Ok (d, p') /\
    register_event_for_fd 3 (mkEvent 0 0) (with_kernel sample_loop_kernel p') = Err Fatal.
Proof.
  destruct sample_signalfd as (d & p & Hm & Hok & Hd & Hfd).
  destruct (unstopped_signalfd_leaves_mark d p Hm Hok Hd) as (p' & E & _ & _ & _ & Hr).
  rewrite Hfd in Hr. exists d, p, p'. split; [exact E |]. apply Hr. reflexivity.
Defined.

(** The state of a reader: what is pending, and what was dispatched. *)
Definition sample_read (w : list Z * list Z) : signal_read * (list Z * list Z) :=
  match w.1 with
  | [] => (NoSignalInfo EAGAIN, w)
  | signal :: rest => (SignalInfo signal, (rest, w.2))
  end.
Definition sample_dispatcher (signal : Z) (w : list Z * list Z) : result (list Z * list Z) :=
  if signal =? SIGTSTP then Ok w else Ok (w.1, w.2 ++ [signal]).

Lemma signals_read_in_order_witness :
  signalfd_read_event_callback sample_read sample_dispatcher 4 ([SIGHUP; SIGTSTP; SIGTERM], [])
  = Ok ([], [SIGHUP; SIGTERM]).
Proof.
  rewrite (signals_read_in_order sample_read sample_dispatcher fst); [reflexivity | | | simpl; lia].
  - constructor; intros; destruct w as [p l]; simpl in *; subst p; [| reflexivity].
    eexists. split; reflexivity.
  - intros signal w w'. unfold sample_dispatcher. destruct (signal =? SIGTSTP); by intros [= <-].
Defined.
