(* ===== verification/FunctorQueue.v ===== *)
(** What an event loop relies on in its functor queues
    ([EventLoop::FunctorQueue] of [include/event_loop.h]): the interface that
    the blocking queue and the lock-free queue implement. *)
From S2P Require Import Prelude.

(** [q_push] is [None] when the pushing thread has to wait. *)
Class FunctorQueue (Q A : Type) := {
  q_ok : Q -> Prop;
  contents : Q -> list A;
  q_push : A -> Q -> option Q;
  q_drain : Q -> result (list A * Q)
}.

Class FunctorQueueLaws (Q A : Type) `{FunctorQueue Q A} : Prop := {
  q_push_spec a q q' :
    q_ok q -> q_push a q = Some q' -> q_ok q' /\ contents q' = contents q ++ [a];
  q_push_empty a q : q_ok q -> contents q = [] -> is_Some (q_push a q);
  q_drain_spec q :
    q_ok q -> exists q', q_drain q = Ok (contents q, q') /\ q_ok q' /\ contents q' = []
}.
