(* ===== verification/BlockingQueue.v ===== *)
(** The bounded blocking queue: [src/util/blocking_queue.cc], as the class of
    queues an event loop uses, and as a monitor: threads that wait on the two
    condition variables, notified outside the critical section. *)
From S2P Require Import Prelude FunctorQueue.

Record BlockingQueue (A : Type) := mkQueue { _queue : list A; _capacity : nat }.
Arguments mkQueue {A}.
Arguments _queue {A}.
Arguments _capacity {A}.

Section Queue.
Context {A : Type}.
Implicit Types (q : BlockingQueue A) (a : A).

Definition new_BlockingQueue (capacity : nat) : BlockingQueue A := mkQueue [] capacity.

Definition is_full q : bool := _capacity q <=? length (_queue q).
Definition is_empty q : bool := match _queue q with [] => true | _ => false end.

(** The critical sections.  [None]: the predicate of the wait is false, the
    thread goes to sleep on the condition variable. *)
Definition push a q : option (BlockingQueue A) :=
  if is_full q then None else Some (mkQueue (_queue q ++ [a]) (_capacity q)).

Definition pop q : option (A * BlockingQueue A) :=
  match _queue q with [] => None | a :: l => Some (a, mkQueue l (_capacity q)) end.

Definition pop_all q : list A * BlockingQueue A := (_queue q, mkQueue [] (_capacity q)).
End Queue.

#[export] Instance blocking_functor_queue A : FunctorQueue (BlockingQueue A) A := {
  q_ok q := 0 < _capacity q;
  contents := _queue;
  q_push := push;
  q_drain q := Ok (pop_all q)
}.

#[export] Instance blocking_functor_queue_laws A : FunctorQueueLaws (BlockingQueue A) A.
Proof.
  split; simpl; unfold push, is_full.
  - intros a q q' H. case_match; [done |]. by intros [= <-].
  - intros a q H ->. simpl. rewrite leb_correct_conv by done. eauto.
  - intros q H. eexists. by split.
Qed.

(** * The monitor *)
Section Monitor.
Context {A : Type}.

Record monitor := mkMonitor {
  queue : BlockingQueue A;
  waiting_to_push : list A;      (* asleep on [_cond_queue_not_full] *)
  woken_to_push : list A;        (* woken, before they check their predicate again *)
  waiting_to_pop : nat;          (* asleep on [_cond_queue_not_empty] *)
  woken_to_pop : nat;
  notify_not_empty : nat;        (* [notify_one] calls still to be made *)
  notify_not_full : nat;
  notify_all_not_full : nat;     (* [notify_all] calls still to be made *)
  pushed : list A;
  popped : list A
}.

Inductive action :=
| Push (a : A)          (* a thread enters [push] *)
| PushAgain (k : nat)   (* the [k]-th woken pusher checks its predicate again *)
| Pop
| PopAgain
| PopAll
| NotifyNotEmpty
| NotifyNotFull (k : nat)   (* the [k]-th sleeping pusher is the one woken *)
| NotifyAllNotFull
| SpuriousPush (k : nat)
| SpuriousPop.

Definition enter_push (a : A) (m : monitor) : monitor :=
  match push a (queue m) with
  | None =>
      mkMonitor (queue m) (waiting_to_push m ++ [a]) (woken_to_push m) (waiting_to_pop m)
        (woken_to_pop m) (notify_not_empty m) (notify_not_full m) (notify_all_not_full m)
        (pushed m) (popped m)
  | Some q =>
      mkMonitor q (waiting_to_push m) (woken_to_push m) (waiting_to_pop m)
        (woken_to_pop m) (S (notify_not_empty m)) (notify_not_full m) (notify_all_not_full m)
        (pushed m ++ [a]) (popped m)
  end.

Definition enter_pop (m : monitor) : monitor :=
  match pop (queue m) with
  | None =>
      mkMonitor (queue m) (waiting_to_push m) (woken_to_push m) (S (waiting_to_pop m))
        (woken_to_pop m) (notify_not_empty m) (notify_not_full m) (notify_all_not_full m)
        (pushed m) (popped m)
  | Some (a, q) =>
      mkMonitor q (waiting_to_push m) (woken_to_push m) (waiting_to_pop m)
        (woken_to_pop m) (notify_not_empty m) (S (notify_not_full m)) (notify_all_not_full m)
        (pushed m) (popped m ++ [a])
  end.

Definition enter_pop_all (m : monitor) : monitor :=
  let '(l, q) := pop_all (queue m) in
  mkMonitor q (waiting_to_push m) (woken_to_push m) (waiting_to_pop m)
    (woken_to_pop m) (notify_not_empty m) (notify_not_full m) (S (notify_all_not_full m))
    (pushed m) (popped m ++ l).

Definition with_pushers (waiting woken : list A) (one all : nat) (m : monitor) : monitor :=
  mkMonitor (queue m) waiting woken (waiting_to_pop m) (woken_to_pop m)
    (notify_not_empty m) one all (pushed m) (popped m).

Definition with_poppers (waiting woken one : nat) (m : monitor) : monitor :=
  mkMonitor (queue m) (waiting_to_push m) (woken_to_push m) waiting woken
    one (notify_not_full m) (notify_all_not_full m) (pushed m) (popped m).

Definition wake_pusher (k : nat) (one : nat) (m : monitor) : option monitor :=
  match waiting_to_push m !! k with
  | Some a =>
      Some (with_pushers (delete k (waiting_to_push m)) (woken_to_push m ++ [a]) one
              (notify_all_not_full m) m)
  | None => None
  end.

Definition monitor_step (act : action) (m : monitor) : option monitor :=
  match act with
  | Push a => Some (enter_push a m)
  | PushAgain k =>
      match woken_to_push m !! k with
      | None => None
      | Some a =>
          Some (enter_push a (with_pushers (waiting_to_push m) (delete k (woken_to_push m))
                  (notify_not_full m) (notify_all_not_full m) m))
      end
  | Pop => Some (enter_pop m)
  | PopAgain =>
      match woken_to_pop m with
      | O => None
      | S n => Some (enter_pop (with_poppers (waiting_to_pop m) n (notify_not_empty m) m))
      end
  | PopAll => Some (enter_pop_all m)
  | NotifyNotEmpty =>
      match notify_not_empty m, waiting_to_pop m with
      | O, _ => None
      | S n, O => Some (with_poppers 0 (woken_to_pop m) n m)
      | S n, S w => Some (with_poppers w (S (woken_to_pop m)) n m)
      end
  | NotifyNotFull k =>
      match notify_not_full m, waiting_to_push m with
      | O, _ => None
      | S n, [] => Some (with_pushers [] (woken_to_push m) n (notify_all_not_full m) m)
      | S n, _ => wake_pusher k n m
      end
  | NotifyAllNotFull =>
      match notify_all_not_full m with
      | O => None
      | S n => Some (with_pushers [] (woken_to_push m ++ waiting_to_push m)
                       (notify_not_full m) n m)
      end
  | SpuriousPush k => wake_pusher k (notify_not_full m) m
  | SpuriousPop =>
      match waiting_to_pop m with
      | O => None
      | S w => Some (with_poppers w (S (woken_to_pop m)) (notify_not_empty m) m)
      end
  end.

Fixpoint monitor_run (acts : list action) (m : monitor) : option monitor :=
  match acts with
  | [] => Some m
  | a :: acts => match monitor_step a m with Some m' => monitor_run acts m' | None => None end
  end.

Definition new_monitor (capacity : nat) : monitor :=
  mkMonitor (new_BlockingQueue capacity) [] [] 0 0 0 0 0 [] [].

(** * Invariant: sleeping threads are backed by notifications to come *)
Record monitor_inv (capacity : nat) (m : monitor) : Prop := {
  m_capacity : _capacity (queue m) = capacity;
  m_bound : length (_queue (queue m)) <= capacity;
  m_fifo : pushed m = popped m ++ _queue (queue m);
  m_pushers : waiting_to_push m = [] \/ 0 < notify_all_not_full m \/
    capacity - length (_queue (queue m)) <= notify_not_full m + length (woken_to_push m);
  m_poppers : waiting_to_pop m = 0 \/
    length (_queue (queue m)) <= notify_not_empty m + woken_to_pop m
}.

(** Entering [push], or checking its predicate again ([w] is [1] then). *)
Lemma enter_push_inv c w a m :
  _capacity (queue m) = c -> length (_queue (queue m)) <= c ->
  pushed m = popped m ++ _queue (queue m) ->
  (waiting_to_push m = [] \/ 0 < notify_all_not_full m \/
   c - length (_queue (queue m)) <= notify_not_full m + length (woken_to_push m) + w) ->
  w <= 1 ->
  (waiting_to_pop m = 0 \/
   length (_queue (queue m)) <= notify_not_empty m + woken_to_pop m) ->
  monitor_inv c (enter_push a m).
Proof.
  intros Hc Hb Hf Hp Hw Hq. unfold enter_push, push, is_full. rewrite Hc.
  destruct (c <=? length (_queue (queue m))) eqn:E.
  - apply Nat.leb_le in E. split; simpl; try done. right; right. lia.
  - apply Nat.leb_gt in E. split; simpl; rewrite ?length_app; simpl; try done; try lia.
    + by rewrite Hf, app_assoc.
    + destruct Hp as [? | [? | ?]]; [by left | by right; left | right; right; lia].
Qed.

Lemma enter_pop_inv c w m :
  _capacity (queue m) = c -> length (_queue (queue m)) <= c ->
  pushed m = popped m ++ _queue (queue m) ->
  (waiting_to_push m = [] \/ 0 < notify_all_not_full m \/
   c - length (_queue (queue m)) <= notify_not_full m + length (woken_to_push m)) ->
  w <= 1 ->
  (waiting_to_pop m = 0 \/
   length (_queue (queue m)) <= notify_not_empty m + woken_to_pop m + w) ->
  monitor_inv c (enter_pop m).
Proof.
  intros Hc Hb Hf Hp Hw Hq. unfold enter_pop, pop.
  destruct (_queue (queue m)) as [| a l] eqn:E; simpl in *.
  - split; simpl; rewrite ?E; simpl; try done; try lia.
  - split; simpl; try done; try lia.
    + by rewrite Hf, <- app_assoc.
    + destruct Hp as [? | [? | ?]]; [by left | by right; left | right; right; lia].
Qed.

Lemma wake_pusher_inv c k n m m' :
  monitor_inv c m -> n + 1 >= notify_not_full m -> wake_pusher k n m = Some m' ->
  monitor_inv c m'.
Proof.
  intros [Hc Hb Hf Hp Hq] Hn. unfold wake_pusher.
  destruct (waiting_to_push m !! k) as [a |] eqn:E; [| done]. intros [= <-].
  split; simpl; try done. rewrite length_app; simpl.
  destruct Hp as [Hp | [Hp | Hp]]; [by rewrite Hp in E | by right; left | right; right; lia].
Qed.

Lemma length_delete_lookup {B} (l : list B) k x :
  l !! k = Some x -> length l = S (length (delete k l)).
Proof.
  intros H. rewrite length_delete by eauto. apply lookup_lt_Some in H. lia.
Qed.

Lemma monitor_step_inv c act m m' :
  monitor_inv c m -> monitor_step act m = Some m' -> monitor_inv c m'.
Proof.
  intros Hinv. pose proof Hinv as [Hc Hb Hf Hp Hq]. destruct act; simpl.
  - intros [= <-]. apply (enter_push_inv c 0); auto.
    destruct Hp as [? | [? | ?]]; [by left | by right; left | right; right; lia].
  - destruct (woken_to_push m !! k) as [a |] eqn:E; [| done]. intros [= <-].
    apply length_delete_lookup in E.
    apply (enter_push_inv c 1); simpl; auto.
    destruct Hp as [? | [? | ?]]; [by left | by right; left | right; right; lia].
  - intros [= <-]. apply (enter_pop_inv c 0); auto; lia.
  - destruct (woken_to_pop m) eqn:E; [done |]. intros [= <-].
    apply (enter_pop_inv c 1); simpl; auto. lia.
  - intros [= <-]. split; simpl; try done; try lia. by rewrite Hf, app_nil_r.
  - destruct (notify_not_empty m) eqn:E1; [done |].
    destruct (waiting_to_pop m) eqn:E2; intros [= <-]; split; simpl; try done; lia.
  - destruct (notify_not_full m) eqn:E1; [done |].
    destruct (waiting_to_push m) as [| x l] eqn:E2.
    + intros [= <-]. split; simpl; try done. by left.
    + apply wake_pusher_inv; [done | lia].
  - destruct (notify_all_not_full m) eqn:E1; [done |]. intros [= <-].
    split; simpl; try done. by left.
  - apply wake_pusher_inv; [done | lia].
  - destruct (waiting_to_pop m) eqn:E; [done |]. intros [= <-].
    split; simpl; try done. lia.
Qed.

(** In every interleaving the queue respects its capacity, elements come out in
    the order they went in, none lost or duplicated, and no thread sleeps for
    nothing: once all notifications are delivered and every woken thread has
    checked its predicate again, a thread asleep in [push] faces a full queue and
    a thread asleep in [pop] an empty one. *)
Theorem monitor_no_lost_wakeup capacity acts m
    (Hrun : monitor_run acts (new_monitor capacity) = Some m) :
  length (_queue (queue m)) <= capacity /\
  pushed m = popped m ++ _queue (queue m) /\
  (notify_not_full m = 0 -> notify_all_not_full m = 0 -> woken_to_push m = [] ->
   waiting_to_push m <> [] -> length (_queue (queue m)) = capacity) /\
  (notify_not_empty m = 0 -> woken_to_pop m = 0 -> waiting_to_pop m <> 0 ->
   _queue (queue m) = []).
Proof.
  assert (Hinv : monitor_inv capacity m).
  { revert Hrun. assert (H0 : monitor_inv capacity (new_monitor capacity)).
    { split; simpl; try done; try lia; by left. }
    revert H0. generalize (new_monitor capacity). induction acts as [| a acts IH]; simpl.
    - by intros m0 H0 [= <-].
    - intros m0 H0. destruct (monitor_step a m0) as [m1 |] eqn:E; [| done].
      apply IH. by eapply monitor_step_inv. }
  destruct Hinv as [Hc Hb Hf Hp Hq]. split; [done |]. split; [done |]. split.
  - intros H1 H2 H3 H4. rewrite H1, H2, H3 in Hp. simpl in Hp.
    destruct Hp as [? | [? | ?]]; [done | lia | lia].
  - intros H1 H2 H3. rewrite H1, H2 in Hq.
    destruct Hq as [? | Hq]; [done |]. apply length_zero_iff_nil. lia.
Qed.
End Monitor.

(** Capacity 1: the second pusher sleeps until the pop is notified. *)
Lemma monitor_no_lost_wakeup_witness :
  exists m, monitor_run [Push 1; Push 2; Pop; NotifyNotFull 0; PushAgain 0; NotifyNotEmpty]
              (new_monitor 1) = Some m /\
    _queue (queue m) = [2] /\ pushed m = popped m ++ _queue (queue m).
Proof.
  eexists. split; [reflexivity |]. split; [reflexivity |].
  exact (proj1 (proj2 (monitor_no_lost_wakeup 1
    [Push 1; Push 2; Pop; NotifyNotFull 0; PushAgain 0; NotifyNotEmpty] _ eq_refl))).
Defined.
