(* ===== verification/WakeUp.v ===== *)
(** How other threads hand functors to an event loop, and how the loop is woken:
    [_leave_to_owner_thread], [_wake_up_this_loop], [ask_to_stop], [loop] and
    [_invoke_all_functors] of [src/event_loop.cc], with [src/eventfd.cc].

    Threads interleave at the granularity of the operations on shared state:
    the queue (under its own synchronisation), the pilot lamp of a queue (an
    atomic flag) and its eventfd, which is registered edge-triggered.  Memory is
    sequentially consistent here; timers and sockets only appear as other
    reasons for [epoll_wait] to return. *)
From S2P Require Import Prelude FunctorQueue BlockingQueue.
From stdpp Require Import functions.

(** A thread outside the loop: after its push, and after winning the lamp. *)
Inductive producer_pc := PIdle | PPushed (i : nat) | PWon (i : nat).

#[export] Instance producer_pc_eq_dec : EqDecision producer_pc.
Proof. solve_decision. Defined.

(** The loop: at the top of its [while], blocked in [epoll_wait], reading the
    reported eventfds one by one, between the read of an eventfd and the reset of
    its lamp, and draining the queues from index [k] on, the last time or not. *)
Inductive loop_pc :=
| LTop
| LPoll
| LRead (reported : list nat)
| LLampOff (i : nat) (reported : list nat)
| LDrain (final : bool) (k : nat)
| LExited.

Section WakeUp.
Context {Q A : Type} `{FunctorQueue Q A}.
Context (_number_of_functor_blocking_queues : nat).

Record loop_state := mkState {
  _functor_blocking_queues : nat -> Q;
  _eventfd_pilot_lamps : nat -> bool;
  eventfd_counter : nat -> Z;
  eventfd_edge : nat -> bool;
  producers : nat -> producer_pc;
  loop : loop_pc;
  _eventfd_triggered : bool;
  _need_stop : bool;
  stop_seen : bool;
  pushed : nat -> list A;
  executed : nat -> list A
}.

Inductive label :=
| Push (t i : nat) (a : A)
| CasLamp (t : nat)
| WriteEventfd (t : nat)
| AskToStop (t : nat)
| CheckStop (poller_is_idle : bool)
| EpollWait (reported : list nat)
| ReadEventfd
| LampOff
| Drain.

Definition set_queue (i : nat) (q : Q) s :=
  mkState (<[i := q]> (_functor_blocking_queues s)) (_eventfd_pilot_lamps s)
    (eventfd_counter s) (eventfd_edge s) (producers s) (loop s) (_eventfd_triggered s)
    (_need_stop s) (stop_seen s) (pushed s) (executed s).
Definition set_lamp (i : nat) (b : bool) s :=
  mkState (_functor_blocking_queues s) (<[i := b]> (_eventfd_pilot_lamps s))
    (eventfd_counter s) (eventfd_edge s) (producers s) (loop s) (_eventfd_triggered s)
    (_need_stop s) (stop_seen s) (pushed s) (executed s).
Definition set_eventfd (i : nat) (c : Z) (e : bool) s :=
  mkState (_functor_blocking_queues s) (_eventfd_pilot_lamps s)
    (<[i := c]> (eventfd_counter s)) (<[i := e]> (eventfd_edge s)) (producers s) (loop s)
    (_eventfd_triggered s) (_need_stop s) (stop_seen s) (pushed s) (executed s).
Definition set_edges f s :=
  mkState (_functor_blocking_queues s) (_eventfd_pilot_lamps s)
    (eventfd_counter s) f (producers s) (loop s)
    (_eventfd_triggered s) (_need_stop s) (stop_seen s) (pushed s) (executed s).
Definition set_producer (t : nat) (p : producer_pc) s :=
  mkState (_functor_blocking_queues s) (_eventfd_pilot_lamps s)
    (eventfd_counter s) (eventfd_edge s) (<[t := p]> (producers s)) (loop s)
    (_eventfd_triggered s) (_need_stop s) (stop_seen s) (pushed s) (executed s).
Definition set_loop pc trig s :=
  mkState (_functor_blocking_queues s) (_eventfd_pilot_lamps s)
    (eventfd_counter s) (eventfd_edge s) (producers s) pc trig
    (_need_stop s) (stop_seen s) (pushed s) (executed s).
Definition set_stop need seen s :=
  mkState (_functor_blocking_queues s) (_eventfd_pilot_lamps s)
    (eventfd_counter s) (eventfd_edge s) (producers s) (loop s) (_eventfd_triggered s)
    need seen (pushed s) (executed s).
Definition log_push (i : nat) (a : A) s :=
  mkState (_functor_blocking_queues s) (_eventfd_pilot_lamps s)
    (eventfd_counter s) (eventfd_edge s) (producers s) (loop s) (_eventfd_triggered s)
    (_need_stop s) (stop_seen s) (<[i := pushed s i ++ [a]]> (pushed s)) (executed s).
Definition log_executed (i : nat) (l : list A) s :=
  mkState (_functor_blocking_queues s) (_eventfd_pilot_lamps s)
    (eventfd_counter s) (eventfd_edge s) (producers s) (loop s) (_eventfd_triggered s)
    (_need_stop s) (stop_seen s) (pushed s) (<[i := executed s i ++ l]> (executed s)).

(** The constructor's state, the queues given. *)
Definition initial (q : nat -> Q) : loop_state :=
  mkState q (fun _ => false) (fun _ => 0%Z) (fun _ => false) (fun _ => PIdle) LTop false
    false false (fun _ => []) (fun _ => []).

(** [_leave_to_owner_thread], first half: the push (the index is in range). *)
Definition push_functor (t i : nat) (a : A) (s : loop_state) : option loop_state :=
  if decide (producers s t = PIdle /\ i < _number_of_functor_blocking_queues) then
    match q_push a (_functor_blocking_queues s i) with
    | None => None
    | Some q => Some (set_producer t (PPushed i) (log_push i a (set_queue i q s)))
    end
  else None.

(** [_wake_up_this_loop]: the compare-exchange on the lamp ... *)
Definition cas_lamp (t : nat) (s : loop_state) : option loop_state :=
  match producers s t with
  | PPushed i =>
      if _eventfd_pilot_lamps s i then Some (set_producer t PIdle s)
      else Some (set_producer t (PWon i) (set_lamp i true s))
  | _ => None
  end.

(** ... and [increment_by_value(1)], an event for an edge-triggered poller. *)
Definition write_eventfd (t : nat) (s : loop_state) : option loop_state :=
  match producers s t with
  | PWon i =>
      Some (set_producer t PIdle (set_eventfd i (eventfd_counter s i + 1)%Z true s))
  | _ => None
  end.

(** [ask_to_stop]: the flag is set before the wake-up of queue 0. *)
Definition ask_to_stop (t : nat) (s : loop_state) : option loop_state :=
  if decide (producers s t = PIdle /\ 0 < _number_of_functor_blocking_queues)
  then Some (set_producer t (PPushed 0) (set_stop true (stop_seen s) s))
  else None.

(** The top of the loop; [poller_is_idle]: only the loop's own descriptors are
    left in the poller. *)
Definition check_stop (poller_is_idle : bool) (s : loop_state) : option loop_state :=
  match loop s with
  | LTop =>
      let s := set_stop (_need_stop s) (_need_stop s) s in
      if _need_stop s && poller_is_idle
      then Some (set_loop (LDrain true 0) (_eventfd_triggered s) s)
      else Some (set_loop LPoll (_eventfd_triggered s) s)
  | _ => None
  end.

(** [epoll_wait] returns; the reported eventfds leave the ready list. *)
Definition epoll_wait (reported : list nat) (s : loop_state) : option loop_state :=
  match loop s with
  | LPoll =>
      if decide (Forall (fun i => eventfd_edge s i = true) reported)
      then Some (set_loop (LRead reported) (_eventfd_triggered s)
                   (set_edges (fun i => if decide (i ∈ reported) then false
                                        else eventfd_edge s i) s))
      else None
  | _ => None
  end.

(** [_retrieve_the_sum]: the counter is reset whatever it was (an empty eventfd
    fails with [EAGAIN], and the message callback runs all the same).  When every
    event is dispatched the loop checks [_eventfd_triggered]. *)
Definition read_eventfd (s : loop_state) : option loop_state :=
  match loop s with
  | LRead (i :: reported) =>
      Some (set_loop (LLampOff i reported) (_eventfd_triggered s)
              (set_eventfd i 0%Z (eventfd_edge s i) s))
  | LRead [] =>
      Some (set_loop (if _eventfd_triggered s then LDrain false 0 else LTop)
              (_eventfd_triggered s) s)
  | _ => None
  end.

(** The message callback: lamp off, [_eventfd_triggered] on. *)
Definition lamp_off (s : loop_state) : option loop_state :=
  match loop s with
  | LLampOff i reported => Some (set_loop (LRead reported) true (set_lamp i false s))
  | _ => None
  end.

(** [_invoke_all_functors], one queue per step. *)
Definition drain (s : loop_state) : option loop_state :=
  match loop s with
  | LDrain final k =>
      if decide (k < _number_of_functor_blocking_queues) then
        match q_drain (_functor_blocking_queues s k) with
        | Err _ => None
        | Ok (l, q) =>
            Some (set_loop (LDrain final (S k)) (_eventfd_triggered s)
                    (log_executed k l (set_queue k q s)))
        end
      else if final then Some (set_loop LExited (_eventfd_triggered s) s)
      else Some (set_loop LTop false s)
  | _ => None
  end.

Definition step (l : label) (s : loop_state) : option loop_state :=
  match l with
  | Push t i a => push_functor t i a s
  | CasLamp t => cas_lamp t s
  | WriteEventfd t => write_eventfd t s
  | AskToStop t => ask_to_stop t s
  | CheckStop b => check_stop b s
  | EpollWait r => epoll_wait r s
  | ReadEventfd => read_eventfd s
  | LampOff => lamp_off s
  | Drain => drain s
  end.

Fixpoint run (ls : list label) (s : loop_state) : option loop_state :=
  match ls with
  | [] => Some s
  | l :: ls => match step l s with Some s' => run ls s' | None => None end
  end.

(** * Invariant *)
Context `{!FunctorQueueLaws Q A}.
Set Default Proof Using "Type*".

Definition some_producer (p : producer_pc) (s : loop_state) : Prop :=
  exists t, producers s t = p.

(** A lamp that is on announces an event that is written, reported or coming. *)
Definition lamp_covered (i : nat) (s : loop_state) : Prop :=
  some_producer (PWon i) s \/ eventfd_edge s i = true \/
  match loop s with
  | LRead r => i ∈ r
  | LLampOff j r => i = j \/ i ∈ r
  | _ => False
  end.

(** A non-empty queue has a thread about to wake the loop, an event the loop will
    see, or a drain of the loop that has not passed it yet. *)
Definition work_covered (i : nat) (s : loop_state) : Prop :=
  some_producer (PPushed i) s \/ some_producer (PWon i) s \/ eventfd_edge s i = true \/
  match loop s with
  | LRead r => r <> [] \/ _eventfd_triggered s = true
  | LLampOff _ _ => True
  | LDrain _ k => k <= i
  | LExited => True
  | _ => False
  end.

Definition stop_covered (s : loop_state) : Prop :=
  some_producer (PPushed 0) s \/ some_producer (PWon 0) s \/ eventfd_edge s 0 = true \/
  loop s <> LPoll.

Record queue_inv (i : nat) (s : loop_state) : Prop := {
  inv_ok : q_ok (_functor_blocking_queues s i);
  inv_fifo : pushed s i = executed s i ++ contents (_functor_blocking_queues s i);
  inv_lamp : _eventfd_pilot_lamps s i = true -> lamp_covered i s;
  inv_work : contents (_functor_blocking_queues s i) <> [] -> work_covered i s
}.

Definition inv (s : loop_state) : Prop :=
  (forall i, i < _number_of_functor_blocking_queues -> queue_inv i s) /\
  (_need_stop s = true -> stop_seen s = false -> stop_covered s) /\
  (forall t i, producers s t = PPushed i -> i < _number_of_functor_blocking_queues).

Lemma lamp_work i s : lamp_covered i s -> work_covered i s.
Proof.
  unfold lamp_covered, work_covered. destruct (loop s); try tauto.
  intros [? | [? | Hi]]; [tauto | tauto |]. right; right; right; left. by intros ->; apply elem_of_nil in Hi.
Qed.

Lemma lamp_stop s : lamp_covered 0 s -> stop_covered s.
Proof.
  unfold lamp_covered, stop_covered. destruct (loop s); try tauto; by right; right; right.
Qed.

(** A producer's own step cannot take away what another one announces. *)
Lemma some_producer_insert p t x s :
  some_producer p s -> producers s t <> p -> some_producer p (set_producer t x s).
Proof.
  intros [t' Ht'] Hne. exists t'. simpl. rewrite fn_lookup_insert_ne; [done |]. by intros ->.
Qed.

Lemma some_producer_new p t s : some_producer p (set_producer t p s).
Proof. exists t. simpl. by rewrite fn_lookup_insert. Qed.

(** The loop's part of the three coverages. *)
Lemma lamp_covered_mono i s s' :
  (some_producer (PWon i) s -> some_producer (PWon i) s' \/ eventfd_edge s' i = true) ->
  eventfd_edge s' i = eventfd_edge s i \/ eventfd_edge s' i = true -> loop s' = loop s ->
  lamp_covered i s -> lamp_covered i s'.
Proof.
  intros Hp He Hl. unfold lamp_covered. rewrite Hl.
  intros [H1 | [H1 | H1]]; [destruct (Hp H1); tauto | | by right; right].
  right; left. destruct He as [-> | ->]; done.
Qed.

Lemma work_covered_mono i s s' :
  (some_producer (PPushed i) s -> some_producer (PPushed i) s' \/ work_covered i s') ->
  (some_producer (PWon i) s -> some_producer (PWon i) s' \/ eventfd_edge s' i = true) ->
  eventfd_edge s' i = eventfd_edge s i \/ eventfd_edge s' i = true ->
  loop s' = loop s -> _eventfd_triggered s' = _eventfd_triggered s ->
  work_covered i s -> work_covered i s'.
Proof.
  intros Hp Hw He Hl Ht [H1 | [H1 | [H1 | H1]]].
  - destruct (Hp H1); [by left | done].
  - right. destruct (Hw H1); [by left | by right; left].
  - right; right; left. destruct He as [-> | ->]; done.
  - right; right; right. by rewrite Hl, Ht.
Qed.

Lemma stop_covered_mono s s' :
  (some_producer (PPushed 0) s -> some_producer (PPushed 0) s' \/ stop_covered s') ->
  (some_producer (PWon 0) s -> some_producer (PWon 0) s' \/ eventfd_edge s' 0 = true) ->
  eventfd_edge s' 0 = eventfd_edge s 0 \/ eventfd_edge s' 0 = true ->
  loop s' = loop s -> stop_covered s -> stop_covered s'.
Proof.
  intros Hp Hw He Hl [H1 | [H1 | [H1 | H1]]].
  - destruct (Hp H1); [by left | done].
  - right. destruct (Hw H1); [by left | by right; left].
  - right; right; left. destruct He as [-> | ->]; done.
  - right; right; right. by rewrite Hl.
Qed.

(** ** Steps of the other threads *)
Lemma push_inv t i a s s' : inv s -> push_functor t i a s = Some s' -> inv s'.
Proof.
  intros (Hq & Hs & Hr). unfold push_functor. case_decide as Hd; [| done].
  destruct Hd as [Ht Hi]. destruct (q_push a _) as [q |] eqn:E; [| done]. intros [= <-].
  set (s' := set_producer t (PPushed i) (log_push i a (set_queue i q s))).
  assert (Hk : forall p, p <> PIdle -> some_producer p s -> some_producer p s').
  { intros p Hp Hsp. apply some_producer_insert; [exact Hsp | simpl; congruence]. }
  assert (Hlamp : forall j, lamp_covered j s -> lamp_covered j s').
  { intros j. apply lamp_covered_mono; auto. }
  assert (Hwork : forall j, work_covered j s -> work_covered j s').
  { intros j. apply work_covered_mono; auto. }
  split; [| split].
  - intros j Hj. destruct (Hq j Hj) as [Hok Hf Hl Hw].
    destruct (q_push_spec a _ q (inv_ok _ _ (Hq i Hi)) E) as [Hok' Hc'].
    destruct (decide (j = i)) as [-> | Hne].
    + split; simpl; rewrite ?fn_lookup_insert; [done | by rewrite Hc', Hf, app_assoc | by auto |].
      intros _. left. apply some_producer_new.
    + by split; simpl; rewrite ?fn_lookup_insert_ne by done; auto.
  - intros H1 H2. apply (stop_covered_mono s); auto.
  - intros t' j. simpl. destruct (decide (t' = t)) as [-> | Hne].
    + rewrite fn_lookup_insert. by intros [= <-].
    + rewrite fn_lookup_insert_ne by done. apply Hr.
Qed.

Lemma cas_inv t s s' : inv s -> cas_lamp t s = Some s' -> inv s'.
Proof.
  intros (Hq & Hs & Hr). unfold cas_lamp.
  destruct (producers s t) as [| i | i] eqn:Et; [done | | done].
  pose proof (Hr t i Et) as Hi.
  assert (Hk : forall p x, p <> PPushed i -> some_producer p s ->
            some_producer p (set_producer t x s)).
  { intros p x Hp Hsp. apply some_producer_insert; [exact Hsp | congruence]. }
  assert (Hr' : forall t' j x, x <> PPushed j -> <[t := x]> (producers s) t' = PPushed j ->
            j < _number_of_functor_blocking_queues).
  { intros t' j x Hx. destruct (decide (t' = t)) as [-> |].
    - by rewrite fn_lookup_insert.
    - rewrite fn_lookup_insert_ne by done. apply Hr. }
  destruct (_eventfd_pilot_lamps s i) eqn:El; intros [= <-].
  - set (s' := set_producer t PIdle s).
    assert (Hk' : forall p, p <> PPushed i -> some_producer p s -> some_producer p s')
      by (intros p Hp Hsp; exact (Hk p PIdle Hp Hsp)).
    assert (Hl : forall j, lamp_covered j s -> lamp_covered j s').
    { intros j. apply lamp_covered_mono; auto. }
    pose proof (Hl i (inv_lamp _ _ (Hq i Hi) El)) as Hli.
    assert (Hw : forall j, work_covered j s -> work_covered j s').
    { intros j. destruct (decide (j = i)) as [-> |]; [intros _; by apply lamp_work |].
      apply work_covered_mono; auto. intros Hp. left. apply Hk'; congruence. }
    split; [| split].
    + intros j Hj. destruct (Hq j Hj) as [Hok Hf Hl' Hw']. split; simpl; auto.
    + intros H1 H2. apply (stop_covered_mono s); auto. intros Hp.
      destruct (decide (i = 0)) as [-> |]; [right; by apply lamp_stop |].
      left. apply Hk'; congruence.
    + intros t' j. simpl. by apply Hr'.
  - set (s' := set_producer t (PWon i) (set_lamp i true s)).
    assert (Hk' : forall p, p <> PPushed i -> some_producer p s -> some_producer p s')
      by (intros p Hp Hsp; exact (Hk p (PWon i) Hp Hsp)).
    assert (Hnew : some_producer (PWon i) s') by apply some_producer_new.
    assert (Hw : forall j, work_covered j s -> work_covered j s').
    { intros j. destruct (decide (j = i)) as [-> |]; [intros _; by right; left |].
      apply work_covered_mono; auto. intros Hp. left. apply Hk'; congruence. }
    split; [| split].
    + intros j Hj. destruct (Hq j Hj) as [Hok Hf Hl' Hw']. split; simpl; auto.
      destruct (decide (j = i)) as [-> | Hne]; [intros _; by left |].
      rewrite fn_lookup_insert_ne by done. intros H1%Hl'. revert H1.
      apply lamp_covered_mono; auto.
    + intros H1 H2. apply (stop_covered_mono s); auto. intros Hp.
      destruct (decide (i = 0)) as [-> |]; [right; by right; left |].
      left. apply Hk'; congruence.
    + intros t' j. simpl. by apply Hr'.
Qed.

Lemma write_inv t s s' : inv s -> write_eventfd t s = Some s' -> inv s'.
Proof.
  intros (Hq & Hs & Hr). unfold write_eventfd.
  destruct (producers s t) as [| i | i] eqn:Et; [done | done |]. intros [= <-].
  set (s' := set_producer t PIdle (set_eventfd i (eventfd_counter s i + 1)%Z true s)).
  assert (He : forall j, eventfd_edge s' j = eventfd_edge s j \/ eventfd_edge s' j = true).
  { intros j. simpl. destruct (decide (j = i)) as [-> |];
      [right; apply fn_lookup_insert | left; by apply fn_lookup_insert_ne]. }
  assert (Hk : forall p, p <> PWon i -> some_producer p s -> some_producer p s').
  { intros p Hp Hsp. apply some_producer_insert; [exact Hsp | simpl; congruence]. }
  assert (Hw : forall j, some_producer (PWon j) s ->
            some_producer (PWon j) s' \/ eventfd_edge s' j = true).
  { intros j Hj. destruct (decide (j = i)) as [-> |];
      [right; apply fn_lookup_insert | left; apply Hk; congruence]. }
  split; [| split].
  - intros j Hj. destruct (Hq j Hj) as [Hok Hf Hl Hwk]. split; simpl; try done.
    + intros H1%Hl. revert H1. apply lamp_covered_mono; auto.
    + intros H1%Hwk. revert H1. apply work_covered_mono; auto.
  - intros H1 H2. apply (stop_covered_mono s); auto.
  - intros t' j. simpl. destruct (decide (t' = t)) as [-> |].
    + by rewrite fn_lookup_insert.
    + rewrite fn_lookup_insert_ne by done. apply Hr.
Qed.

Lemma ask_inv t s s' : inv s -> ask_to_stop t s = Some s' -> inv s'.
Proof.
  intros (Hq & Hs & Hr). unfold ask_to_stop. case_decide as Hd; [| done].
  destruct Hd as [Et HN]. intros [= <-].
  set (s' := set_producer t (PPushed 0) (set_stop true (stop_seen s) s)).
  assert (Hk : forall p, p <> PIdle -> some_producer p s -> some_producer p s').
  { intros p Hp Hsp. apply some_producer_insert; [exact Hsp | simpl; congruence]. }
  split; [| split].
  - intros j Hj. destruct (Hq j Hj) as [Hok Hf Hl Hw]. split; simpl; try done.
    + intros H1%Hl. revert H1. apply lamp_covered_mono; auto.
    + intros H1%Hw. revert H1. apply work_covered_mono; auto.
  - intros _ _. left. apply some_producer_new.
  - intros t' j. simpl. destruct (decide (t' = t)) as [-> |].
    + rewrite fn_lookup_insert. by intros [= <-].
    + rewrite fn_lookup_insert_ne by done. apply Hr.
Qed.

(** ** Steps of the loop *)
Lemma check_inv b s s' : inv s -> check_stop b s = Some s' -> inv s'.
Proof.
  intros (Hq & Hs & Hr). unfold check_stop. destruct (loop s) eqn:El; try done. simpl.
  intros H1. assert (Hpc : (loop s' = LDrain true 0 \/ loop s' = LPoll) /\
    s' = set_loop (loop s') (_eventfd_triggered s) (set_stop (_need_stop s) (_need_stop s) s)).
  { destruct (_need_stop s && b); injection H1 as <-; auto. }
  destruct Hpc as [Hpc ->]. clear H1. split; [| split].
  - intros j Hj. destruct (Hq j Hj) as [Hok Hf Hl Hw]. split; simpl; try done.
    + intros H2%Hl. unfold lamp_covered in *. rewrite El in H2. simpl.
      destruct H2 as [H2 | [H2 | []]]; [by left | by right; left].
    + intros H2%Hw. unfold work_covered in *. rewrite El in H2. simpl.
      destruct H2 as [H2 | [H2 | [H2 | []]]]; auto.
  - simpl. congruence.
  - apply Hr.
Qed.

Lemma epoll_inv r s s' : inv s -> epoll_wait r s = Some s' -> inv s'.
Proof.
  intros (Hq & Hs & Hr). unfold epoll_wait. destruct (loop s) eqn:El; try done.
  case_decide as Hd; [| done]. intros [= <-]. split; [| split].
  - intros j Hj. destruct (Hq j Hj) as [Hok Hf Hl Hw]. split; simpl; try done.
    + intros H1%Hl. unfold lamp_covered in *. rewrite El in H1. simpl.
      destruct H1 as [H1 | [H1 | []]]; [by left |]. right.
      destruct (decide (j ∈ r)); auto.
    + intros H1%Hw. unfold work_covered in *. rewrite El in H1. simpl.
      destruct H1 as [H1 | [H1 | [H1 | []]]]; [by left | by right; left |]. right; right.
      destruct (decide (j ∈ r)) as [Hjr |]; [| by left].
      right. left. intros ->. by apply elem_of_nil in Hjr.
  - intros _ _. by right; right; right.
  - apply Hr.
Qed.

Lemma read_inv s s' : inv s -> read_eventfd s = Some s' -> inv s'.
Proof.
  intros (Hq & Hs & Hr). unfold read_eventfd.
  destruct (loop s) as [| | [| i r] | | |] eqn:El; try done; intros [= <-].
  - split; [| split].
    + intros j Hj. destruct (Hq j Hj) as [Hok Hf Hl Hw]. split; simpl; try done.
      * intros H1%Hl. unfold lamp_covered in *. rewrite El in H1. simpl.
        destruct H1 as [H1 | [H1 | H1]]; [by left | by right; left |].
        by apply elem_of_nil in H1.
      * intros H1%Hw. unfold work_covered in *. rewrite El in H1. simpl.
        destruct H1 as [H1 | [H1 | [H1 | [H1 | ->]]]]; auto; [done |].
        right; right; right. lia.
    + intros _ _. right; right; right. simpl. by destruct (_eventfd_triggered s).
    + apply Hr.
  - assert (He : forall j, <[i := eventfd_edge s i]> (eventfd_edge s) j = eventfd_edge s j).
    { intros j. destruct (decide (j = i)) as [-> |];
        [apply fn_lookup_insert | by apply fn_lookup_insert_ne]. }
    split; [| split].
    + intros j Hj. destruct (Hq j Hj) as [Hok Hf Hl Hw]. split; simpl; try done.
      * intros H1%Hl. unfold lamp_covered in *. rewrite El in H1. simpl. rewrite He.
        destruct H1 as [H1 | [H1 | H1]]; auto. right; right.
        apply elem_of_cons in H1. tauto.
      * intros H1%Hw. unfold work_covered in *. simpl. rewrite He. tauto.
    + intros _ _. by right; right; right.
    + apply Hr.
Qed.

Lemma lamp_off_inv s s' : inv s -> lamp_off s = Some s' -> inv s'.
Proof.
  intros (Hq & Hs & Hr). unfold lamp_off.
  destruct (loop s) as [| | | i r | |] eqn:El; try done. intros [= <-]. split; [| split].
  - intros j Hj. destruct (Hq j Hj) as [Hok Hf Hl Hw]. split; simpl; try done.
    + destruct (decide (j = i)) as [-> | Hne]; [by rewrite fn_lookup_insert |].
      rewrite fn_lookup_insert_ne by done. intros H1%Hl. unfold lamp_covered in *.
      rewrite El in H1. simpl. tauto.
    + intros H1%Hw. unfold work_covered in *. simpl. tauto.
  - intros _ _. by right; right; right.
  - apply Hr.
Qed.

Lemma drain_inv s s' : inv s -> drain s = Some s' -> inv s'.
Proof.
  intros (Hq & Hs & Hr). unfold drain.
  destruct (loop s) as [| | | | fin k |] eqn:El; try done.
  case_decide as Hk.
  - destruct (q_drain_spec _ (inv_ok _ _ (Hq k Hk))) as (q & -> & Hokq & Hcq).
    intros [= <-]. split; [| split].
    + intros j Hj. destruct (Hq j Hj) as [Hok Hf Hl Hw].
      assert (Hl' : _eventfd_pilot_lamps s j = true ->
        some_producer (PWon j) s \/ eventfd_edge s j = true \/ False).
      { intros H1%Hl. unfold lamp_covered in H1. by rewrite El in H1. }
      destruct (decide (j = k)) as [-> | Hne].
      * split; simpl; rewrite ?fn_lookup_insert; [done | | exact Hl' | done].
        by rewrite Hcq, app_nil_r.
      * split; simpl; rewrite ?fn_lookup_insert_ne by done; [done | done | exact Hl' |].
        intros H1%Hw. unfold work_covered in *. rewrite El in H1. simpl.
        destruct H1 as [H1 | [H1 | [H1 | H1]]]; auto. right; right; right. lia.
    + intros _ _. by right; right; right.
    + apply Hr.
  - intros H1. assert (Hpc : exists pc b, s' = set_loop pc b s /\ (pc = LTop \/ pc = LExited)).
    { destruct fin; injection H1 as <-; eauto. }
    destruct Hpc as (pc & b & -> & Hpc). clear H1. split; [| split].
    + intros j Hj. destruct (Hq j Hj) as [Hok Hf Hl Hw]. split; simpl; try done.
      * intros H1%Hl. unfold lamp_covered in *. rewrite El in H1. simpl.
        destruct H1 as [H1 | [H1 | []]]; [by left | by right; left].
      * intros H1%Hw. unfold work_covered in *. rewrite El in H1. simpl.
        destruct H1 as [H1 | [H1 | [H1 | H1]]]; auto. lia.
    + intros _ _. right; right; right. simpl. by destruct Hpc as [-> | ->].
    + apply Hr.
Qed.

Lemma step_inv l s s' : inv s -> step l s = Some s' -> inv s'.
Proof.
  destruct l; simpl; eauto using push_inv, cas_inv, write_inv, ask_inv, check_inv, epoll_inv,
    read_inv, lamp_off_inv, drain_inv.
Qed.

Lemma run_inv ls s s' : inv s -> run ls s = Some s' -> inv s'.
Proof.
  revert s. induction ls as [| l ls IH]; simpl; intros s Hi H1; [by injection H1 as <- |].
  destruct (step l s) as [s1 |] eqn:E; [| done]. eauto using step_inv.
Qed.

Lemma initial_inv q :
  (forall i, q_ok (q i) /\ contents (q i) = []) -> inv (initial q).
Proof.
  intros Hq. split; [| split]; [| done | done].
  intros i _. destruct (Hq i) as [H1 H2]. split; simpl; [done | by rewrite H2 | done |].
  by rewrite H2.
Qed.

(** C4: No wake-up is lost, under any interleaving: when the loop is blocked in
    [epoll_wait] with no eventfd event to report and no other thread is in the
    middle of handing over a functor, every functor pushed so far has run, exactly
    once and in the order of the pushes of its queue, and no stop request is
    pending.  At any time a queue holds what was pushed and not yet run. *)
Theorem no_lost_wakeup q ls s
    (Hq : forall i, q_ok (q i) /\ contents (q i) = [])
    (Hrun : run ls (initial q) = Some s) :
  (forall i, i < _number_of_functor_blocking_queues ->
     pushed s i = executed s i ++ contents (_functor_blocking_queues s i)) /\
  (loop s = LPoll -> (forall t, producers s t = PIdle) ->
   (forall i, i < _number_of_functor_blocking_queues -> eventfd_edge s i = false) ->
   0 < _number_of_functor_blocking_queues ->
   (forall i, i < _number_of_functor_blocking_queues -> executed s i = pushed s i) /\
   (_need_stop s = true -> stop_seen s = true)).
Proof.
  destruct (run_inv _ _ _ (initial_inv q Hq) Hrun) as (Hi & Hs & _).
  split; [intros i Hn; apply (inv_fifo _ _ (Hi i Hn)) |].
  intros Hl Hp He HN.
  assert (Hno : forall p, p <> PIdle -> some_producer p s -> False).
  { intros p Hne [t Ht]. rewrite Hp in Ht. congruence. }
  split.
  - intros i Hn. destruct (Hi i Hn) as [_ Hf _ Hw]. rewrite Hf.
    destruct (contents (_functor_blocking_queues s i)) as [| a l]; [by rewrite app_nil_r |].
    destruct (Hw ltac:(done)) as [H1 | [H1 | [H1 | H1]]].
    + by apply Hno in H1.
    + by apply Hno in H1.
    + by rewrite He in H1.
    + by rewrite Hl in H1.
  - intros Hneed. destruct (stop_seen s) eqn:E; [done |].
    destruct (Hs Hneed eq_refl) as [H1 | [H1 | [H1 | H1]]].
    + by apply Hno in H1.
    + by apply Hno in H1.
    + by rewrite He in H1.
    + done.
Qed.

(** The loop is never stuck: outside [epoll_wait], and until it has exited, its
    next step is enabled, whatever the other threads did before. *)
Theorem loop_progress q ls s
    (Hq : forall i, q_ok (q i) /\ contents (q i) = [])
    (Hrun : run ls (initial q) = Some s) (Hl : loop s <> LPoll) (Hx : loop s <> LExited) :
  exists l s', l ∈ [CheckStop false; ReadEventfd; LampOff; Drain] /\ step l s = Some s'.
Proof.
  destruct (run_inv _ _ _ (initial_inv q Hq) Hrun) as (Hi & _ & _).
  destruct (loop s) as [| | [| i r] | i r | fin k |] eqn:El; try done.
  - exists (CheckStop false). simpl. unfold check_stop. rewrite El. case_match; set_solver.
  - exists ReadEventfd. simpl. unfold read_eventfd. rewrite El. set_solver.
  - exists ReadEventfd. simpl. unfold read_eventfd. rewrite El. set_solver.
  - exists LampOff. simpl. unfold lamp_off. rewrite El. set_solver.
  - exists Drain. simpl. unfold drain. rewrite El. case_decide as Hk.
    + destruct (q_drain_spec _ (inv_ok _ _ (Hi k Hk))) as (q' & -> & _). set_solver.
    + destruct fin; set_solver.
Qed.
End WakeUp.

(** * Two threads and one blocking queue of capacity 1000 *)
Definition sample_queue (_ : nat) : BlockingQueue nat := new_BlockingQueue 1000.

Lemma sample_queue_ok i :
  q_ok (A := nat) (sample_queue i) /\ contents (A := nat) (sample_queue i) = [].
Proof. split; [simpl; lia | done]. Qed.

(** Thread 2 pushes while the lamp is still on: its functor is drained with the
    one of thread 1. *)
Definition sample_labels : list label :=
  [CheckStop false; Push 1 0 7; CasLamp 1; WriteEventfd 1; EpollWait [0]; ReadEventfd;
   Push 2 0 8; CasLamp 2; LampOff; ReadEventfd; Drain; Drain; CheckStop false].

Lemma no_lost_wakeup_witness :
  exists s, run 1 sample_labels (initial sample_queue) = Some s /\
    loop s = LPoll /\ pushed s 0 = [7; 8] /\ executed s 0 = pushed s 0.
Proof.
  destruct (run 1 sample_labels (initial sample_queue)) as [s |] eqn:E;
    [| vm_compute in E; discriminate E].
  exists s. split; [reflexivity |].
  pose proof (no_lost_wakeup 1 sample_queue sample_labels s sample_queue_ok E) as [_ H].
  assert (Hp : forall t, producers s t = PIdle).
  { vm_compute in E. injection E as <-. intros t. simpl. by repeat case_match. }
  assert (He : loop s = LPoll /\ (forall i, i < 1 -> eventfd_edge s i = false) /\
               pushed s 0 = [7; 8]).
  { clear H Hp. vm_compute in E. injection E as <-. split; [done |]. split; [| done].
    intros i Hi. replace i with 0 by lia. done. }
  destruct He as (Hl & He & Hps). split; [exact Hl |]. split; [exact Hps |].
  apply (proj1 (H Hl Hp He ltac:(lia))). lia.
Defined.

Lemma loop_progress_witness :
  exists s l s', run 1 (take 9 sample_labels) (initial sample_queue) = Some s /\
    l ∈ [CheckStop false; ReadEventfd; LampOff; Drain] /\ step 1 l s = Some s'.
Proof.
  destruct (run 1 (take 9 sample_labels) (initial sample_queue)) as [s |] eqn:E;
    [| vm_compute in E; discriminate E].
  assert (Hl : loop s = LRead []) by (vm_compute in E; by injection E as <-).
  destruct (loop_progress 1 sample_queue _ s sample_queue_ok E) as (l & s' & H1 & H2);
    [by rewrite Hl | by rewrite Hl |].
  exists s, l, s'. split; [reflexivity |]. split; [exact H1 | exact H2].
Defined.
