(* ===== verification/EventLoop.v ===== *)
(** An event loop as a whole: construction, [loop], [run], the functors and the
    destructor of [src/event_loop.cc] and [include/event_loop.h], over the poller
    ([Poller]), the descriptors the loop owns ([Descriptors]), its functor queues
    ([FunctorQueue]) and its timers ([EventLoopTimers]).

    Here the owner thread runs through whole iterations.  Other threads, the clock
    and the kernel's timer act at fixed points of an iteration (before the stop
    flag is read, while [epoll_wait] blocks, before the queues are popped and
    before the timers are expired); [WakeUp] has the interleavings of single
    atomic operations.

    A functor is a script of calls of the loop's operations; the callbacks of a
    client's descriptor are scripts, too, and a timer's callback is one of timer
    operations. *)
From S2P Require Import Prelude TimePoint Timer TimerContainer EventLoopTimers Poller FunctorQueue Descriptors.
Open Scope Z_scope.

(** * Functors *)
#[warnings="-register-all"]
Inductive command :=
| TimerCommand (a : action)
| DescriptorCommand (dispatcher : Z) (c : fd_command)
| AskToStop
| Run (functor : list command) (functor_blocking_queue_index : nat).

Definition FunctorType : Type := list command.

(** The callbacks of a client's descriptor, and whether the object guarded by
    its lifetime guard, if there is one, is alive. *)
Record client := mkClient {
  on_close : option FunctorType;
  on_error : option FunctorType;
  on_read : option FunctorType;
  on_write : option FunctorType;
  guard : option bool
}.

(** What the loop did, oldest first. *)
Inductive loop_event :=
| Dispatched (dispatcher : Z)
| Invoked (functor : FunctorType)
| Expired (time_point : TimePoint.t).

Section EventLoop.
Context {K Q : Type} `{Epoll K, Descriptors K, FunctorQueue Q FunctorType}.
Context (_alarm_advancing_threshold : Z).
Context (timerfd_settime : timespec -> settime_outcome).
Context (operator_new : timer_heap -> ptr).
Context (callback_script : nat -> list action).
Context (clients : Z -> client).
Context (new_FunctorQueue : Q).
(** Where [new Eventfd] puts the descriptors, and where the timer's is. *)
Context (eventfd_address : nat -> Z) (timerfd_address : Z).

(** The members of the class, with what surrounds them: [descriptors] has the
    live descriptor objects by their address; [edges] the descriptors with an
    event [epoll_wait] has not reported; [timer_unread] says that the kernel's
    timer expired and was not read since, [fired] that it expired and the loop
    has not expired its timers since; [clock] is the time. *)
Record EventLoop := mkEventLoop {
  _loop_index : Z;
  _epoll_fd : Z;
  _event_poller : EventPoller K;
  _functor_blocking_queues : list Q;
  _eventfds : list Z;
  _eventfd_pilot_lamps : list bool;
  _eventfd_triggered : bool;
  _timerfd : Z;
  _timers : loop_timers;
  _timerfd_triggered : bool;
  _owner_thread_tid : Z;
  _need_stop : bool;
  _active_events : gmap Z Z;
  descriptors : gmap Z PollableFd;
  edges : gset Z;
  timer_unread : bool;
  fired : option TimePoint.t;
  clock : TimePoint.t;
  history : list loop_event
}.

Definition with_poll (ds : gmap Z PollableFd) (p : EventPoller K) (s : EventLoop) : EventLoop :=
  mkEventLoop (_loop_index s) (_epoll_fd s) p (_functor_blocking_queues s) (_eventfds s)
    (_eventfd_pilot_lamps s) (_eventfd_triggered s) (_timerfd s) (_timers s)
    (_timerfd_triggered s) (_owner_thread_tid s) (_need_stop s) (_active_events s) ds (edges s)
    (timer_unread s) (fired s) (clock s) (history s).
Definition with_queues (qs : list Q) (s : EventLoop) : EventLoop :=
  mkEventLoop (_loop_index s) (_epoll_fd s) (_event_poller s) qs (_eventfds s)
    (_eventfd_pilot_lamps s) (_eventfd_triggered s) (_timerfd s) (_timers s)
    (_timerfd_triggered s) (_owner_thread_tid s) (_need_stop s) (_active_events s)
    (descriptors s) (edges s) (timer_unread s) (fired s) (clock s) (history s).
Definition with_eventfds (es : list Z) (lamps : list bool) (s : EventLoop) : EventLoop :=
  mkEventLoop (_loop_index s) (_epoll_fd s) (_event_poller s) (_functor_blocking_queues s) es
    lamps (_eventfd_triggered s) (_timerfd s) (_timers s)
    (_timerfd_triggered s) (_owner_thread_tid s) (_need_stop s) (_active_events s)
    (descriptors s) (edges s) (timer_unread s) (fired s) (clock s) (history s).
Definition with_edges (e : gset Z) (s : EventLoop) : EventLoop :=
  mkEventLoop (_loop_index s) (_epoll_fd s) (_event_poller s) (_functor_blocking_queues s)
    (_eventfds s) (_eventfd_pilot_lamps s) (_eventfd_triggered s) (_timerfd s) (_timers s)
    (_timerfd_triggered s) (_owner_thread_tid s) (_need_stop s) (_active_events s)
    (descriptors s) e (timer_unread s) (fired s) (clock s) (history s).
Definition with_triggered (eventfd timerfd : bool) (s : EventLoop) : EventLoop :=
  mkEventLoop (_loop_index s) (_epoll_fd s) (_event_poller s) (_functor_blocking_queues s)
    (_eventfds s) (_eventfd_pilot_lamps s) eventfd (_timerfd s) (_timers s)
    timerfd (_owner_thread_tid s) (_need_stop s) (_active_events s)
    (descriptors s) (edges s) (timer_unread s) (fired s) (clock s) (history s).
Definition with_timers (t : loop_timers) (unread : bool) (f : option TimePoint.t) (s : EventLoop)
    : EventLoop :=
  mkEventLoop (_loop_index s) (_epoll_fd s) (_event_poller s) (_functor_blocking_queues s)
    (_eventfds s) (_eventfd_pilot_lamps s) (_eventfd_triggered s) (_timerfd s) t
    (_timerfd_triggered s) (_owner_thread_tid s) (_need_stop s) (_active_events s)
    (descriptors s) (edges s) unread f (clock s) (history s).
Definition with_stop (b : bool) (s : EventLoop) : EventLoop :=
  mkEventLoop (_loop_index s) (_epoll_fd s) (_event_poller s) (_functor_blocking_queues s)
    (_eventfds s) (_eventfd_pilot_lamps s) (_eventfd_triggered s) (_timerfd s) (_timers s)
    (_timerfd_triggered s) (_owner_thread_tid s) b (_active_events s)
    (descriptors s) (edges s) (timer_unread s) (fired s) (clock s) (history s).
Definition with_active (active : gmap Z Z) (s : EventLoop) : EventLoop :=
  mkEventLoop (_loop_index s) (_epoll_fd s) (_event_poller s) (_functor_blocking_queues s)
    (_eventfds s) (_eventfd_pilot_lamps s) (_eventfd_triggered s) (_timerfd s) (_timers s)
    (_timerfd_triggered s) (_owner_thread_tid s) (_need_stop s) active
    (descriptors s) (edges s) (timer_unread s) (fired s) (clock s) (history s).
Definition with_clock (t : TimePoint.t) (s : EventLoop) : EventLoop :=
  mkEventLoop (_loop_index s) (_epoll_fd s) (_event_poller s) (_functor_blocking_queues s)
    (_eventfds s) (_eventfd_pilot_lamps s) (_eventfd_triggered s) (_timerfd s) (_timers s)
    (_timerfd_triggered s) (_owner_thread_tid s) (_need_stop s) (_active_events s)
    (descriptors s) (edges s) (timer_unread s) (fired s) t (history s).
Definition record (e : loop_event) (s : EventLoop) : EventLoop :=
  mkEventLoop (_loop_index s) (_epoll_fd s) (_event_poller s) (_functor_blocking_queues s)
    (_eventfds s) (_eventfd_pilot_lamps s) (_eventfd_triggered s) (_timerfd s) (_timers s)
    (_timerfd_triggered s) (_owner_thread_tid s) (_need_stop s) (_active_events s)
    (descriptors s) (edges s) (timer_unread s) (fired s) (clock s) (history s ++ [e]).

Definition kernel_of (s : EventLoop) : K := kernel (_event_poller s).
Definition set_kernel (k : K) (s : EventLoop) : EventLoop :=
  with_poll (descriptors s) (with_kernel k (_event_poller s)) s.

Definition get_loop_index (s : EventLoop) : Z := _loop_index s.
Definition is_in_owner_thread (tid : Z) (s : EventLoop) : bool := tid =? _owner_thread_tid s.

(** A pointer to a descriptor object. *)
Definition find_descriptor (address : Z) (s : EventLoop) : result PollableFd :=
  of_option UndefinedBehaviour (descriptors s !! address).

(** * Waking the loop *)
Definition _wake_up_this_loop (i : nat) (s : EventLoop) : result EventLoop :=
  let* lamp := of_option (A := bool) UndefinedBehaviour (_eventfd_pilot_lamps s !! i) in
  if lamp then Ok s
  else
    let s := with_eventfds (_eventfds s) (<[i := true]> (_eventfd_pilot_lamps s)) s in
    let* address := of_option UndefinedBehaviour (_eventfds s !! i) in
    let* d := find_descriptor address s in
    Ok (with_edges ({[_fd d]} ∪ edges s)
          (set_kernel (increment_by_value (_fd d) 1 (kernel_of s)) s)).

(** [None]: the thread has to wait in [push]. *)
Definition _leave_to_owner_thread (functor : FunctorType) (i : nat) (s : EventLoop)
    : option (result EventLoop) :=
  match _functor_blocking_queues s !! i with
  | None => Some (Err UndefinedBehaviour)
  | Some q =>
      match q_push functor q with
      | None => None
      | Some q =>
          Some (_wake_up_this_loop i
                  (with_queues (<[i := q]> (_functor_blocking_queues s)) s))
      end
  end.

Definition ask_to_stop (s : EventLoop) : result EventLoop :=
  _wake_up_this_loop 0 (with_stop true s).

(** * Functors in the owner thread *)
Definition run_timer_command (a : action) (s : EventLoop) : result EventLoop :=
  let* t := run_action _alarm_advancing_threshold timerfd_settime operator_new a (_timers s) in
  Ok (with_timers t (timer_unread s) (fired s) s).

Definition run_descriptor_command (address : Z) (c : fd_command) (s : EventLoop)
    : result EventLoop :=
  let* d := find_descriptor address s in
  let* (d, p) := run_command c (d, _event_poller s) in
  Ok (with_poll (<[address := d]> (descriptors s)) p s).

Fixpoint execute (c : command) (s : EventLoop) {struct c} : result EventLoop :=
  match c with
  | TimerCommand a => run_timer_command a s
  | DescriptorCommand address c => run_descriptor_command address c s
  | AskToStop => ask_to_stop s
  | Run functor _ =>
      (fix call (cs : list command) (s : EventLoop) {struct cs} : result EventLoop :=
         match cs with
         | [] => Ok s
         | c :: cs => let* s := execute c s in call cs s
         end) functor s
  end.

(** [functor()] *)
Fixpoint call (functor : FunctorType) (s : EventLoop) : result EventLoop :=
  match functor with
  | [] => Ok s
  | c :: functor => let* s := execute c s in call functor s
  end.

Definition run (tid : Z) (functor : FunctorType) (i : nat) (s : EventLoop)
    : option (result EventLoop) :=
  if is_in_owner_thread tid s then Some (call functor s)
  else _leave_to_owner_thread functor i s.

Fixpoint invoke_each (functors : list FunctorType) (s : EventLoop) : result EventLoop :=
  match functors with
  | [] => Ok s
  | f :: functors => let* s := call f (record (Invoked f) s) in invoke_each functors s
  end.

(** The queues are popped one after the other. *)
Fixpoint invoke_queues (indices : list nat) (s : EventLoop) : result EventLoop :=
  match indices with
  | [] => Ok s
  | i :: indices =>
      let* q := of_option UndefinedBehaviour (_functor_blocking_queues s !! i) in
      let* (queued_functors, q) := q_drain q in
      let* s := invoke_each queued_functors
                  (with_queues (<[i := q]> (_functor_blocking_queues s)) s) in
      invoke_queues indices s
  end.

Definition _invoke_all_functors (s : EventLoop) : result EventLoop :=
  invoke_queues (seq 0 (length (_functor_blocking_queues s))) s.

(** [_expire_timers_and_update_alarm] at the present time. *)
Definition expire_timers (s : EventLoop) : result EventLoop :=
  let* t := _expire_timers_and_update_alarm _alarm_advancing_threshold timerfd_settime
              operator_new callback_script (clock s) (_timers s) in
  Ok (record (Expired (clock s)) (with_timers t (timer_unread s) None s)).

(** * Dispatching *)
Definition _eventfd_message_callback (s : EventLoop) : EventLoop :=
  with_triggered true (_timerfd_triggered s) s.
Definition _timerfd_message_callback (s : EventLoop) : EventLoop :=
  with_triggered (_eventfd_triggered s) true s.

(** The callbacks registered by the constructor, in the descriptors' own read
    callbacks: the value read is not used. *)
Definition eventfd_read_event_callback (i : nat) (d : PollableFd) (s : EventLoop)
    : result EventLoop :=
  let '(_, k) := _retrieve_the_sum (_fd d) (kernel_of s) in
  let s := set_kernel k s in
  Ok (_eventfd_message_callback
        (with_eventfds (_eventfds s) (<[i := false]> (_eventfd_pilot_lamps s)) s)).

Definition timerfd_read_event_callback (d : PollableFd) (s : EventLoop) : result EventLoop :=
  let '(_, k) := _retrieve_the_number_of_expirations (_fd d) (kernel_of s) in
  Ok (_timerfd_message_callback (with_timers (_timers s) false (fired s) (set_kernel k s))).

Definition read_only (f : EventLoop -> result EventLoop) : handlers EventLoop :=
  register_read_event_callback f no_callbacks.

(** A callback that was registered, or not. *)
Definition registered
    (register : (EventLoop -> result EventLoop) -> handlers EventLoop -> handlers EventLoop)
    (functor : option FunctorType) (h : handlers EventLoop) : handlers EventLoop :=
  match functor with Some f => register (call f) h | None => h end.

Definition client_handlers (c : client) : handlers EventLoop :=
  registered register_close_event_callback (on_close c)
    (registered register_error_event_callback (on_error c)
       (registered register_read_event_callback (on_read c)
          (registered register_write_event_callback (on_write c) no_callbacks))).

Definition position (address : Z) (l : list Z) : option nat :=
  fst <$> list_find (fun a => a = address) l.

Definition dispatch_one (address : Z) (s : EventLoop) : result EventLoop :=
  let* d := find_descriptor address s in
  let active_events := default 0 (_active_events s !! address) in
  let s := record (Dispatched address) s in
  if address =? _timerfd s
  then dispatch_active_events (read_only (timerfd_read_event_callback d)) None active_events s
  else
    match position address (_eventfds s) with
    | Some i => dispatch_active_events (read_only (eventfd_read_event_callback i d)) None
                  active_events s
    | None => dispatch_active_events (client_handlers (clients address))
                (guard (clients address)) active_events s
    end.

Fixpoint dispatch_all (event_dispatchers : list Z) (s : EventLoop) : result EventLoop :=
  match event_dispatchers with
  | [] => Ok s
  | a :: event_dispatchers =>
      let* s := dispatch_one a s in dispatch_all event_dispatchers s
  end.

(** * The surroundings: other threads, the clock, the kernel's timer

    An event that cannot happen yet (a full queue, an alarm that is not due)
    leaves the state alone. *)
Inductive external :=
| OtherRun (functor : FunctorType) (i : nat)
| OtherAskToStop
| Elapse (nanoseconds : N)
| KernelTimerExpires.

Definition fire_kernel_timer (s : EventLoop) : result EventLoop :=
  let armed := it_value (_timers s) in
  if bool_decide (armed <> disarmed) &&
     (tv_sec armed * TimeInterval.SECOND + tv_nsec armed
      <=? TimePoint.nanoseconds_from_epoch (clock s))
  then
    let* d := find_descriptor (_timerfd s) s in
    Ok (with_edges ({[_fd d]} ∪ edges s)
          (with_timers (with_it_value disarmed (_timers s)) true (Some (clock s)) s))
  else Ok s.

Definition external_event (e : external) (s : EventLoop) : result EventLoop :=
  match e with
  | OtherRun functor i => default (Ok s) (_leave_to_owner_thread functor i s)
  | OtherAskToStop => ask_to_stop s
  | Elapse n => Ok (with_clock (TimePoint.mk (TimePoint.nanoseconds_from_epoch (clock s) + Z.of_N n)) s)
  | KernelTimerExpires => fire_kernel_timer s
  end.

Fixpoint surroundings (es : list external) (s : EventLoop) : result EventLoop :=
  match es with
  | [] => Ok s
  | e :: es => let* s := external_event e s in surroundings es s
  end.

(** * The loop *)
Record inputs := mkInputs {
  before_check : list external;
  while_blocked : list external;
  waits : list wait_result;
  before_functors : list external;
  before_timers : list external
}.

Inductive outcome :=
| Continues (s : EventLoop)
| Blocked (s : EventLoop)
| Returns (s : EventLoop).

Definition poller_is_idle (s : EventLoop) : bool :=
  size (_event_poller s) =? u64 (1 + Z.of_nat (length (_functor_blocking_queues s))).

(** The reported descriptors leave the ready list. *)
Definition reported_fds (event_dispatchers : list Z) (s : EventLoop) : gset Z :=
  list_to_set (omap (fun a => _fd <$> descriptors s !! a) event_dispatchers).

Definition poll (ws : list wait_result) (s : EventLoop) : option (result (list Z * EventLoop)) :=
  match poll_for_active_events_of_all_fds ws (_active_events s) with
  | None => None
  | Some r =>
      Some (let* (event_dispatchers, active, _) := r in
            Ok (event_dispatchers,
                with_active active (with_edges (edges s ∖ reported_fds event_dispatchers s) s)))
  end.

Definition handle_functors (s : EventLoop) : result EventLoop :=
  if _eventfd_triggered s
  then let* s := _invoke_all_functors s in Ok (with_triggered false (_timerfd_triggered s) s)
  else Ok s.

Definition handle_timers (s : EventLoop) : result EventLoop :=
  if _timerfd_triggered s
  then let* s := expire_timers s in Ok (with_triggered (_eventfd_triggered s) false s)
  else Ok s.

(** Leaving: functors and timers are cleaned up first. *)
Definition leave_loop (inp : inputs) (s : EventLoop) : result outcome :=
  let* s := surroundings (before_functors inp) s in
  let* s := _invoke_all_functors s in
  let* s := surroundings (before_timers inp) s in
  let* s := expire_timers s in
  Ok (Returns s).

Definition iteration (inp : inputs) (s : EventLoop) : result outcome :=
  let* s := surroundings (before_check inp) s in
  if _need_stop s && poller_is_idle s then leave_loop inp s
  else
    let* s := surroundings (while_blocked inp) s in
    match poll (waits inp) s with
    | None => Ok (Blocked s)
    | Some r =>
        let* (event_dispatchers, s) := r in
        let* s := dispatch_all event_dispatchers s in
        let* s := surroundings (before_functors inp) s in
        let* s := handle_functors s in
        let* s := surroundings (before_timers inp) s in
        let* s := handle_timers s in
        Ok (Continues s)
    end.

Fixpoint loop (inps : list inputs) (s : EventLoop) : result outcome :=
  match inps with
  | [] => Ok (Continues s)
  | inp :: inps =>
      let* o := iteration inp s in
      match o with Continues s => loop inps s | _ => Ok o end
  end.

(** * Construction and destruction, in the owner thread *)
Definition run_after_time_interval (time_interval interval : TimeInterval.t) (repetitions : Z)
    (callback : nat) (s : EventLoop) : result (ptr * EventLoop) :=
  let* time_point := TimePoint.add (clock s) time_interval in
  let* (p, t) := run_at_time_point _alarm_advancing_threshold timerfd_settime operator_new
                   time_point interval repetitions callback (_timers s) in
  Ok (p, with_timers t (timer_unread s) (fired s) s).

(** One turn of the constructor's loop over the queues. *)
Definition add_queue (i : nat) (s : EventLoop) : result EventLoop :=
  let '(fd, k) := create_eventfd 0 (kernel_of s) in
  let* (d, p) := message_fd_construct (eventfd_address i) fd
                   (with_kernel k (_event_poller s)) in
  let* (d, p) := message_fd_start true (d, p) in
  Ok (with_queues (_functor_blocking_queues s ++ [new_FunctorQueue])
        (with_eventfds (_eventfds s ++ [eventfd_address i])
           (_eventfd_pilot_lamps s ++ [false])
           (with_poll (<[eventfd_address i := d]> (descriptors s)) p s))).

Fixpoint add_queues (indices : list nat) (s : EventLoop) : result EventLoop :=
  match indices with
  | [] => Ok s
  | i :: indices => let* s := add_queue i s in add_queues indices s
  end.

Definition yell_interval : TimeInterval.t := TimeInterval.mk (3 * TimeInterval.SECOND).

(** [yell]: the callback that logs that the loop is alive. *)
Definition new_EventLoop (yell : nat) (loop_index : Z) (number_of_functor_blocking_queues : nat)
    (tid : Z) (now : TimePoint.t) (k : K) : result EventLoop :=
  let n := Nat.max number_of_functor_blocking_queues 1 in
  let* (epoll_fd, p) := construct_EventPoller k in
  let '(fd, k) := create_timerfd 0 (kernel p) in
  let* (d, p) := message_fd_construct timerfd_address fd (with_kernel k p) in
  let s := mkEventLoop loop_index epoll_fd p [] [] [] false timerfd_address new_loop_timers
             false tid false ∅ {[timerfd_address := d]} ∅ false None now [] in
  let* s := add_queues (seq 0 n) s in
  let* d := find_descriptor (_timerfd s) s in
  let* (d, p) := message_fd_start true (d, _event_poller s) in
  let s := with_poll (<[_timerfd s := d]> (descriptors s)) p s in
  let* (_, s) := run_after_time_interval yell_interval yell_interval (-1) yell s in
  Ok s.

(** [delete ptr] on a descriptor of the loop. *)
Definition delete_message_fd (address : Z) (s : EventLoop) : result EventLoop :=
  let* d := find_descriptor address s in
  let* (_, p) := message_fd_delete (d, _event_poller s) in
  Ok (with_poll (delete address (descriptors s)) p s).

Fixpoint delete_message_fds (addresses : list Z) (s : EventLoop) : result EventLoop :=
  match addresses with
  | [] => Ok s
  | a :: addresses => let* s := delete_message_fd a s in delete_message_fds addresses s
  end.

(** The body of the destructor, then the members: the timer's descriptor and the
    poller, which says whether descriptors were left in it. *)
Definition delete_EventLoop (s : EventLoop) : result (EventLoop * bool * K) :=
  let* t := _release_all_timers (_timers s) in
  let s := with_queues [] (with_timers t (timer_unread s) (fired s) s) in
  let* s := delete_message_fds (_eventfds s) s in
  let* s := delete_message_fd (_timerfd s) s in
  let '(descriptors_left, k) := delete_EventPoller (_epoll_fd s) (_event_poller s) in
  Ok (s, descriptors_left, k).
End EventLoop.

Arguments EventLoop : clear implicits.
Arguments outcome : clear implicits.

(** The four callbacks of a client are the scripts it has. *)
Lemma client_handlers_eq {K Q} `{Epoll K, Descriptors K, FunctorQueue Q FunctorType}
    threshold settime new c :
  client_handlers (K := K) (Q := Q) threshold settime new c
  = mkHandlers (call threshold settime new <$> on_close c)
      (call threshold settime new <$> on_error c) (call threshold settime new <$> on_read c)
      (call threshold settime new <$> on_write c).
Proof. unfold client_handlers. by destruct c as [[] [] [] [] g]. Qed.

(** Induction over the scripts inside scripts. *)
Lemma command_ind' (P : command -> Prop) :
  (forall a, P (TimerCommand a)) -> (forall a c, P (DescriptorCommand a c)) -> P AskToStop ->
  (forall f i, Forall P f -> P (Run f i)) -> forall c, P c.
Proof.
  intros Ht Hd Hs Hr. fix IH 1. intros [a | a c | | f i]; [apply Ht | apply Hd | apply Hs |].
  apply Hr. induction f as [| c f IHf]; constructor; [apply IH | apply IHf].
Qed.
