(* ===== verification/EventLoopInvariant.v ===== *)
(** What [EventLoop] keeps true: the descriptors, the wake-up of the loop and its
    timers, through every call of a functor, every event of the surroundings and
    every iteration of the loop. *)
From S2P Require Import Prelude TimePoint Timer TimerContainer EventLoopTimers Poller FunctorQueue Descriptors EventLoop.
Open Scope Z_scope.

(** * A table of descriptor objects over one poller *)
Section Table.
Set Default Proof Using "Type*".
Context {K : Type} {HE : Epoll K} {HEl : EpollLaws K} {HD : Descriptors K}
  {HDl : DescriptorLaws K}.

Record table_ok (ds : gmap Z PollableFd) (p : EventPoller K) : Prop := {
  tb_poller : poller_ok p;
  tb_length : Z.of_nat (length (_fds_that_are_listening_on p)) < 2 ^ 64;
  tb_mirror a d : ds !! a = Some d -> mirror (d, p) /\ self d = a;
  tb_inj a d a' d' : ds !! a = Some d -> ds !! a' = Some d' -> _fd d = _fd d' -> a = a';
  tb_interest fd :
    is_Some (interest (kernel p) !! fd) -> exists a d, ds !! a = Some d /\ _fd d = fd
}.

Lemma mirror_kept d p p' fd :
  mirror (d, p) -> _fd d <> fd ->
  length (_fds_that_are_listening_on p') = length (_fds_that_are_listening_on p) ->
  (_fd d ∈ opened (kernel p) -> _fd d ∈ opened (kernel p')) ->
  (forall fd', fd' <> fd -> interest (kernel p') !! fd' = interest (kernel p) !! fd') ->
  mirror (d, p').
Proof.
  intros ([Hr Hop] & Hinit & He & Hd & Hi) Hne Hl Ho Hk.
  split; [split; [by rewrite Hl | by apply Ho] |].
  split; [done |]. split; [done |]. split; [done |]. by rewrite Hk.
Qed.

Lemma table_kernel ds p k :
  opened k = opened (kernel p) -> interest k = interest (kernel p) ->
  table_ok ds p -> table_ok ds (with_kernel k p).
Proof.
  intros Ho Hi [H1 H2 H4 H5 H6]. constructor; simpl; try done.
  - by apply poller_ok_kernel.
  - intros a d Ha. destruct (H4 a d Ha) as [(Hu & Hinit & He & Hd & Hint) Hs].
    split; [| done]. split; [| split; [done | split; [done | split; [done |]]]].
    + destruct Hu as [Hr Hop]. split; [done |]. simpl. by rewrite Ho.
    + simpl. by rewrite Hi.
  - intros fd. rewrite Hi. apply H6.
Qed.

(** A call on one descriptor leaves the others as they are. *)
Lemma table_update ds p a d d' p' :
  table_ok ds p -> ds !! a = Some d ->
  mirror (d', p') -> poller_ok p' -> _fd d' = _fd d -> self d' = self d ->
  others_kept (_fd d) p p' -> table_ok (<[a := d']> ds) p'.
Proof.
  intros Hok Ha Hm Hp Hfd Hs (Hlen & Hop & Hint).
  assert (Hfds : forall b e, <[a := d']> ds !! b = Some e ->
            exists e', ds !! b = Some e' /\ _fd e = _fd e').
  { intros b e. destruct (decide (b = a)) as [-> | Hne].
    - rewrite lookup_insert_eq. intros [= <-]. by exists d.
    - rewrite lookup_insert_ne by done. by exists e. }
  constructor; [done | by rewrite Hlen; apply (tb_length _ _ Hok) | | |].
  - intros b e Hb. destruct (decide (b = a)) as [-> | Hne].
    + rewrite lookup_insert_eq in Hb. injection Hb as <-. split; [done |].
      rewrite Hs. apply (tb_mirror _ _ Hok a d Ha).
    + rewrite lookup_insert_ne in Hb by done.
      destruct (tb_mirror _ _ Hok b e Hb) as [Hme Hse]. split; [| done].
      apply (mirror_kept e p p' (_fd d)); [done | | done | by rewrite Hop | done].
      intros Heq. by apply Hne, (tb_inj _ _ Hok b e a d).
  - intros b e b' e' Hb Hb' Heq.
    destruct (Hfds b e Hb) as (x & Hx & Hxe), (Hfds b' e' Hb') as (y & Hy & Hye).
    apply (tb_inj _ _ Hok b x b' y); [done | done | congruence].
  - intros fd Hi. destruct (decide (fd = _fd d)) as [-> | Hne].
    + exists a, d'. by rewrite lookup_insert_eq.
    + rewrite Hint in Hi by done. destruct (tb_interest _ _ Hok fd Hi) as (b & e & Hb & <-).
      exists b, e. rewrite lookup_insert_ne; [done |]. intros <-. congruence.
Qed.

Lemma table_new_fd ds p fd :
  table_ok ds p -> fd ∉ opened (kernel p) -> forall b e, ds !! b = Some e -> _fd e <> fd.
Proof.
  intros Hok Hno b e Hb Heq. destruct (tb_mirror _ _ Hok b e Hb) as [[[_ Ho] _] _].
  by rewrite Heq in Ho.
Qed.

(** A new object for a descriptor the table does not have. *)
Lemma table_insert ds p a d p' :
  table_ok ds p -> ds !! a = None -> mirror (d, p') -> poller_ok p' -> self d = a ->
  (forall b e, ds !! b = Some e -> _fd e <> _fd d) ->
  length (_fds_that_are_listening_on p') = length (_fds_that_are_listening_on p) ->
  opened (kernel p) ⊆ opened (kernel p') -> interest (kernel p') = interest (kernel p) ->
  table_ok (<[a := d]> ds) p'.
Proof.
  intros Hok Ha Hm Hp Hs Hother Hlen Hop Hint.
  constructor; [done | by rewrite Hlen; apply (tb_length _ _ Hok) | | |].
  - intros b e Hb. destruct (decide (b = a)) as [-> | Hne].
    + rewrite lookup_insert_eq in Hb. by injection Hb as <-.
    + rewrite lookup_insert_ne in Hb by done.
      destruct (tb_mirror _ _ Hok b e Hb) as [Hme Hse]. split; [| done].
      apply (mirror_kept e p p' (_fd d)); [done | by eapply Hother | done | by apply Hop |].
      intros fd' _. by rewrite Hint.
  - intros b e b' e' Hb Hb' Heq. destruct (decide (b = a)) as [-> | Hne], (decide (b' = a)) as [-> | Hne'];
      simplify_map_eq; [done | | |].
    + by apply Hother in Hb'.
    + by apply Hother in Hb.
    + by apply (tb_inj _ _ Hok b e b' e').
  - intros fd Hi. rewrite Hint in Hi. destruct (tb_interest _ _ Hok fd Hi) as (b & e & Hb & <-).
    exists b, e. rewrite lookup_insert_ne; [done |]. intros <-. congruence.
Qed.

(** An object destroyed after it was detached and closed. *)
Lemma table_delete ds p a d d' p' :
  table_ok ds p -> ds !! a = Some d -> message_fd_delete (d, p) = Ok (d', p') ->
  table_ok (delete a ds) p' /\ opened (kernel p') = opened (kernel p) ∖ {[_fd d]}.
Proof.
  intros Hok Ha E. destruct (tb_mirror _ _ Hok a d Ha) as [Hm Hs].
  destruct (message_fd_delete_ok d p Hm (tb_poller _ _ Hok)) as (x & y & E' & _ & Hp & Hi & Ho & Hl).
  assert (y = p') as -> by congruence. split; [| done].
  assert (Hother : forall b e, delete a ds !! b = Some e -> ds !! b = Some e /\ _fd e <> _fd d).
  { intros b e [Hne Hb]%lookup_delete_Some. split; [done |]. intros Heq.
    by apply Hne, (tb_inj _ _ Hok a d b e). }
  constructor; [done | by rewrite Hl; apply (tb_length _ _ Hok) | | |].
  - intros b e Hb. destruct (Hother b e Hb) as [Hb' Hne].
    destruct (tb_mirror _ _ Hok b e Hb') as [Hme Hse]. split; [| done].
    apply (mirror_kept e p p' (_fd d)); [done | done | done | rewrite Ho; set_solver |].
    intros fd' Hfd. rewrite Hi. by rewrite lookup_delete_ne.
  - intros b e b' e' Hb Hb'. destruct (Hother b e Hb), (Hother b' e' Hb').
    by apply (tb_inj _ _ Hok).
  - intros fd Hf. rewrite Hi in Hf. destruct (decide (fd = _fd d)) as [-> | Hne].
    { rewrite lookup_delete_eq in Hf. by destruct Hf. }
    rewrite lookup_delete_ne in Hf by done.
    destruct (tb_interest _ _ Hok fd Hf) as (b & e & Hb & <-). exists b, e.
    rewrite lookup_delete_ne; [done |]. intros <-. congruence.
Qed.
(** ** What the size of the poller says *)
Definition attached (ds : gmap Z PollableFd) : gmap Z PollableFd :=
  filter (fun x => _is_detached x.2 = false) ds.

Lemma attached_lookup ds a d :
  attached ds !! a = Some d <-> ds !! a = Some d /\ _is_detached d = false.
Proof. unfold attached. by rewrite map_lookup_filter_Some. Qed.

Definition attached_fds (ds : gmap Z PollableFd) : list Z :=
  (fun x : Z * PollableFd => _fd x.2) <$> map_to_list (attached ds).

Lemma attached_fds_NoDup ds p : table_ok ds p -> NoDup (attached_fds ds).
Proof.
  intros Hok. apply NoDup_fmap_2_strong; [| apply NoDup_map_to_list].
  intros [a d] [b e] Ha%elem_of_map_to_list Hb%elem_of_map_to_list Heq. simpl in Heq.
  apply attached_lookup in Ha as [Ha _], Hb as [Hb _].
  assert (a = b) as <- by (by apply (tb_inj _ _ Hok a d b e)). congruence.
Qed.

(** The interest list is that of the attached descriptors. *)
Lemma interest_attached ds p :
  table_ok ds p -> dom (interest (kernel p)) = list_to_set (attached_fds ds).
Proof.
  intros Hok. apply set_eq. intros fd. rewrite elem_of_dom, elem_of_list_to_set.
  unfold attached_fds. rewrite list_elem_of_fmap. split.
  - intros Hi. destruct (tb_interest _ _ Hok fd Hi) as (a & d & Ha & <-).
    exists (a, d). split; [done |]. apply elem_of_map_to_list, attached_lookup. split; [done |].
    destruct (tb_mirror _ _ Hok a d Ha) as [(_ & _ & _ & _ & Hint) _].
    destruct (_is_detached d); [| done]. rewrite Hint in Hi. by destruct Hi.
  - intros ([a d] & -> & Hin%elem_of_map_to_list). apply attached_lookup in Hin as [Ha Hd].
    destruct (tb_mirror _ _ Hok a d Ha) as [(_ & _ & _ & _ & Hint) _].
    rewrite Hd in Hint. simpl. by rewrite Hint.
Qed.

Lemma interest_size ds p :
  table_ok ds p -> base.size (interest (kernel p)) = base.size (attached ds).
Proof.
  intros Hok. rewrite <- size_dom, (interest_attached ds) by done.
  rewrite size_list_to_set by (by eapply attached_fds_NoDup).
  unfold attached_fds. rewrite length_fmap. apply length_map_to_list.
Qed.

Lemma interest_small ds p :
  table_ok ds p ->
  Z.of_nat (base.size (interest (kernel p))) < 2 ^ 64.
Proof.
  intros Hok. eapply Z.le_lt_trans; [| apply (tb_length _ _ Hok)].
  rewrite <- size_dom. set (len := length (_fds_that_are_listening_on p)).
  assert (Hsub : dom (interest (kernel p)) ⊆ list_to_set (Z.of_nat <$> seq 0 len)).
  { intros fd Hfd%elem_of_dom. destruct (tb_interest _ _ Hok fd Hfd) as (a & d & Ha & <-).
    destruct (tb_mirror _ _ Hok a d Ha) as [[[Hr _] _] _].
    apply elem_of_list_to_set, list_elem_of_fmap. exists (Z.to_nat (_fd d)).
    split; [lia |]. apply elem_of_seq. unfold len. lia. }
  apply subseteq_size in Hsub. rewrite size_list_to_set in Hsub.
  - rewrite length_fmap, length_seq in Hsub. lia.
  - apply NoDup_fmap_2; [intros x y; lia | apply NoDup_seq].
Qed.
End Table.

Section Invariant.
Set Default Proof Using "All".
Context {K Q : Type} {HE : Epoll K} {HEl : EpollLaws K} {HD : Descriptors K}
  {HDl : DescriptorLaws K} {HQ : FunctorQueue Q FunctorType}
  {HQl : FunctorQueueLaws Q FunctorType}.
Context (threshold horizon : Z).
Context (timerfd_settime : timespec -> settime_outcome).
Context (operator_new : timer_heap -> ptr).
Context (script : nat -> list action).
Context (clients : Z -> client).
Context (eventfd_address : nat -> Z) (timerfd_address : Z).
(** The number of queues, the clients' descriptors, and whether functors and
    callbacks may cancel timers (which is undefined for a timer that is gone). *)
Context (n : nat) (registered : gset Z) (may_cancel : bool).

Abbreviation loop_state := (EventLoop K Q).

Definition own : list Z := timerfd_address :: (eventfd_address <$> seq 0 n).

(** * Well-formed functors *)
Definition action_allowed (a : action) : Prop :=
  action_ok threshold horizon a /\ (schedules a = true \/ may_cancel = true).

Fixpoint command_ok (c : command) : Prop :=
  match c with
  | TimerCommand a => action_allowed a
  | DescriptorCommand address _ => address ∈ registered
  | AskToStop => True
  | Run functor _ =>
      (fix all (cs : list command) : Prop :=
         match cs with [] => True | c :: cs => command_ok c /\ all cs end) functor
  end.

Fixpoint functor_ok (f : FunctorType) : Prop :=
  match f with [] => True | c :: f => command_ok c /\ functor_ok f end.

Lemma command_ok_run f i : command_ok (Run f i) = functor_ok f.
Proof. by induction f as [| c f IH]; simpl in *; [| rewrite <- IH]. Qed.

Definition client_ok (c : client) : Prop :=
  guard c <> Some false /\
  (forall f, f ∈ [on_close c; on_error c; on_read c; on_write c] ->
   forall g, f = Some g -> functor_ok g).

Record assumptions : Prop := {
  env_ok : environment_ok threshold timerfd_settime operator_new;
  horizon_ok : horizon < limit threshold;
  scripts_fine : scripts_ok threshold horizon script;
  scripts_total : may_cancel = false -> scripts_schedule script;
  clients_ok a : a ∈ registered -> client_ok (clients a);
  own_distinct : NoDup own;
  own_registered a : a ∈ own -> a ∉ registered;
  some_queue : (0 < n)%nat
}.

(** * The invariant *)
Record descriptors_ok (ds : gmap Z PollableFd) (p : EventPoller K) : Prop := {
  d_table : table_ok ds p;
  d_dom a : is_Some (ds !! a) <-> a ∈ own \/ a ∈ registered;
  d_own a d : a ∈ own -> ds !! a = Some d -> _is_detached d = false
}.

Lemma d_poller ds p : descriptors_ok ds p -> poller_ok p.
Proof. intros [H _ _]. apply H. Qed.
Lemma d_mirror ds p (H : descriptors_ok ds p) a d :
  ds !! a = Some d -> mirror (d, p) /\ self d = a.
Proof. apply (tb_mirror _ _ (d_table _ _ H)). Qed.
Lemma d_inj ds p (H : descriptors_ok ds p) a d a' d' :
  ds !! a = Some d -> ds !! a' = Some d' -> _fd d = _fd d' -> a = a'.
Proof. apply (tb_inj _ _ (d_table _ _ H)). Qed.
Lemma d_interest ds p (H : descriptors_ok ds p) fd :
  is_Some (interest (kernel p) !! fd) -> exists a d, ds !! a = Some d /\ _fd d = fd.
Proof. apply (tb_interest _ _ (d_table _ _ H)). Qed.

(** The state of queue [i]: a lamp that is on stands for one unread increment of
    the eventfd, which [epoll_wait] has still to report or has reported as one of
    [rem]; and a queue that is not empty has its lamp on, or the loop is about to
    pop it. *)
Record queue_ok (rem : list Z) (i : nat) (s : loop_state) : Prop := {
  w_queue : exists q, _functor_blocking_queues s !! i = Some q /\ q_ok q /\
    Forall functor_ok (contents q) /\
    (contents q <> [] ->
     _eventfd_pilot_lamps s !! i = Some true \/ _eventfd_triggered s = true);
  w_lamp : exists (lamp : bool) d, _eventfd_pilot_lamps s !! i = Some lamp /\
    descriptors s !! eventfd_address i = Some d /\
    counter (kernel_of s) (_fd d) = Some (if lamp then 1 else 0) /\
    nonblocking (_fd d) (kernel_of s) /\
    (lamp = true -> _fd d ∈ edges s \/ eventfd_address i ∈ rem)
}.

Record timers_ok (rem : list Z) (s : loop_state) : Prop := {
  t_inv : EventLoopTimers.inv threshold horizon (fired s) (_timers s);
  t_handled now : fired s = Some now -> ns now <= ns (clock s);
  t_pending : fired s <> None ->
    (timer_unread s = true /\
     ((exists d, descriptors s !! timerfd_address = Some d /\ _fd d ∈ edges s) \/
      timerfd_address ∈ rem)) \/
    _timerfd_triggered s = true
}.

(** [T] is the present time in nanoseconds. *)
Record loop_inv (rem : list Z) (T : Z) (s : loop_state) : Prop := {
  i_descriptors : descriptors_ok (descriptors s) (_event_poller s);
  i_lengths : length (_functor_blocking_queues s) = n /\
    length (_eventfd_pilot_lamps s) = n;
  i_own : _timerfd s = timerfd_address /\ _eventfds s = eventfd_address <$> seq 0 n;
  i_queues i : (i < n)%nat -> queue_ok rem i s;
  i_timers : timers_ok rem s;
  i_clock : ns (clock s) = T /\ 0 <= T
}.

(** At the top of the loop nothing is left to handle from the last iteration. *)
Definition loop_ok (T : Z) (s : loop_state) : Prop :=
  loop_inv [] T s /\ _eventfd_triggered s = false /\ _timerfd_triggered s = false.

(** What calls leave alone, [h] being what they add to the history. *)
Record frame (h : list loop_event) (s s' : loop_state) : Prop := {
  f_active : _active_events s' = _active_events s;
  f_eventfd : _eventfd_triggered s' = _eventfd_triggered s;
  f_timerfd : _timerfd_triggered s' = _timerfd_triggered s;
  f_history : history s' = history s ++ h;
  f_stop : _need_stop s = true -> _need_stop s' = true;
  f_lamps i : _eventfd_pilot_lamps s !! i = Some true -> _eventfd_pilot_lamps s' !! i = Some true
}.

(** The calls of a functor do not touch the queues, either. *)
Definition quiet (s s' : loop_state) : Prop :=
  frame [] s s' /\ _functor_blocking_queues s' = _functor_blocking_queues s.

(** An outcome: success, or an error that only a cancellation can cause. *)
Definition goes (r : result loop_state) (P : loop_state -> Prop) : Prop :=
  match r with Ok s => P s | Err _ => may_cancel = true end.

Lemma goes_mono r (P P' : loop_state -> Prop) :
  goes r P -> (forall s, P s -> P' s) -> goes r P'.
Proof. destruct r; simpl; auto. Qed.

Lemma goes_bind r (f : loop_state -> result loop_state) (P P' : loop_state -> Prop) :
  goes r P -> (forall s, P s -> goes (f s) P') -> goes (let* s := r in f s) P'.
Proof. destruct r; simpl; auto. Qed.

Lemma frame_refl s : frame [] s s.
Proof. constructor; by rewrite ?app_nil_r. Qed.

Lemma frame_trans h1 h2 s1 s2 s3 :
  frame h1 s1 s2 -> frame h2 s2 s3 -> frame (h1 ++ h2) s1 s3.
Proof.
  intros [? ? ? E1 ? ?] [? ? ? E2 ? ?]. constructor; try congruence; eauto.
  by rewrite E2, E1, app_assoc.
Qed.

Ltac still := split; [constructor; simpl; by rewrite ?app_nil_r | done].

Lemma quiet_refl s : quiet s s.
Proof. split; [apply frame_refl | done]. Qed.

Lemma quiet_trans s1 s2 s3 : quiet s1 s2 -> quiet s2 s3 -> quiet s1 s3.
Proof. intros [H1 E1] [H2 E2]. split; [by apply (frame_trans [] []  _ s2) | congruence]. Qed.

(** * Descriptors *)
Lemma descriptors_kernel ds p k :
  opened k = opened (kernel p) -> interest k = interest (kernel p) ->
  descriptors_ok ds p -> descriptors_ok ds (with_kernel k p).
Proof. intros Ho Hi [H1 H2 H3]. constructor; [by apply table_kernel | done | done]. Qed.

Lemma descriptor_update ds p a d d' p' :
  descriptors_ok ds p -> ds !! a = Some d ->
  mirror (d', p') -> poller_ok p' -> _fd d' = _fd d -> self d' = self d ->
  others_kept (_fd d) p p' -> (a ∈ own -> _is_detached d' = false) ->
  descriptors_ok (<[a := d']> ds) p'.
Proof.
  intros Hok Ha Hm Hp Hfd Hs Hoth Hown.
  constructor; [apply (table_update ds p a d); try done; by apply d_table | |].
  - intros b. rewrite lookup_insert_is_Some'. rewrite (d_dom _ _ Hok).
    split; [| by right]. intros [<- | Hb]; [| done]. apply (d_dom _ _ Hok). by exists d.
  - intros b e Hb. destruct (decide (b = a)) as [-> | Hne].
    + rewrite lookup_insert_eq. intros [= <-]. by apply Hown.
    + rewrite lookup_insert_ne by done. by apply (d_own _ _ Hok).
Qed.

Lemma own_lookup ds p a :
  descriptors_ok ds p -> a ∈ own -> exists d, ds !! a = Some d.
Proof. intros Hok Ha. apply (d_dom _ _ Hok). by left. Qed.

Lemma eventfd_own i : (i < n)%nat -> eventfd_address i ∈ own.
Proof.
  intros Hi. unfold own. apply elem_of_cons. right. apply list_elem_of_fmap_2, elem_of_seq. lia.
Qed.

Lemma timerfd_own : timerfd_address ∈ own.
Proof. apply elem_of_cons. by left. Qed.

Lemma eventfd_lookup i : (i < n)%nat -> (eventfd_address <$> seq 0 n) !! i = Some (eventfd_address i).
Proof.
  intros Hi. rewrite list_lookup_fmap, lookup_seq_lt by done. done.
Qed.

(** * Waking the loop *)
Lemma queue_lookups rem T s i :
  loop_inv rem T s -> (i < n)%nat ->
  exists q lamp d, _functor_blocking_queues s !! i = Some q /\
    _eventfd_pilot_lamps s !! i = Some lamp /\ _eventfds s !! i = Some (eventfd_address i) /\
    descriptors s !! eventfd_address i = Some d.
Proof.
  intros Hinv Hi. destruct (i_queues _ _ _ Hinv i Hi) as [(q & Hq & _) (lamp & d & Hl & Hd & _)].
  exists q, lamp, d. split; [done |]. split; [done |].
  destruct (i_own _ _ _ Hinv) as [_ ->]. by rewrite eventfd_lookup.
Qed.

(** Two eventfds are two descriptors. *)
Lemma eventfds_differ ds p i j d e :
  NoDup own -> descriptors_ok ds p -> (i < n)%nat -> (j < n)%nat -> i <> j ->
  ds !! eventfd_address i = Some d -> ds !! eventfd_address j = Some e -> _fd d <> _fd e.
Proof.
  intros Hnd Hok Hi Hj Hne Hd He Hfd. apply Hne.
  apply (d_inj _ _ Hok _ _ _ _ Hd He) in Hfd.
  apply NoDup_cons in Hnd as [_ Hnd].
  apply (NoDup_lookup _ _ _ (eventfd_address i) Hnd).
  - by apply eventfd_lookup.
  - rewrite Hfd. by apply eventfd_lookup.
Qed.

(** What a queue needs of the state is kept when the queue, its lamp and its
    eventfd are, and when the edges grow. *)
Lemma queue_ok_frame rem rem' i (s s' : loop_state) d d' :
  queue_ok rem i s ->
  descriptors s !! eventfd_address i = Some d -> descriptors s' !! eventfd_address i = Some d' ->
  _fd d' = _fd d ->
  _functor_blocking_queues s' !! i = _functor_blocking_queues s !! i ->
  _eventfd_pilot_lamps s' !! i = _eventfd_pilot_lamps s !! i ->
  counter (kernel_of s') (_fd d) = counter (kernel_of s) (_fd d) ->
  fcntl_getfl (_fd d) (kernel_of s') = fcntl_getfl (_fd d) (kernel_of s) ->
  (_fd d ∈ edges s -> _fd d ∈ edges s' \/ eventfd_address i ∈ rem') ->
  (eventfd_address i ∈ rem -> eventfd_address i ∈ rem') ->
  (_eventfd_triggered s = true -> _eventfd_triggered s' = true) ->
  queue_ok rem' i s'.
Proof.
  intros [(q & Hq & Hqok & Hf & Hw) (lamp & e & Hl & He & Hc & Hnb & He')]
    Hd Hd' Hfd Eq El Ec Em Hedge Hrem Htrig.
  assert (e = d) as -> by congruence. constructor.
  - exists q. rewrite Eq, El. split; [done |]. split; [done |]. split; [done |]. tauto.
  - exists lamp, d'. rewrite El, Hfd, Ec. split; [done |]. split; [done |]. split; [done |].
    split.
    + destruct Hnb as (fl & ? & ?). exists fl. by rewrite Em.
    + intros ->. destruct (He' eq_refl); tauto.
Qed.

Lemma with_stop_inv rem T b s : loop_inv rem T s -> loop_inv rem T (with_stop b s).
Proof.
  intros [H1 H2 H3 H4 H5 H6]. constructor; try done.
  - intros i Hi. by destruct (H4 i Hi) as [? ?].
  - by destruct H5.
Qed.

(** [s] with queue [i] replaced, whose content may now lack its wake-up. *)
Lemma wake_up_ok rem T i (s : loop_state) :
  NoDup own -> (i < n)%nat -> loop_inv rem T s ->
  exists s', _wake_up_this_loop i s = Ok s' /\ loop_inv rem T s' /\ quiet s s' /\
    _eventfd_pilot_lamps s' !! i = Some true /\ _need_stop s' = _need_stop s /\
    descriptors s' = descriptors s.
Proof.
  intros Hnd Hi Hinv. destruct (queue_lookups _ _ _ i Hinv Hi) as (q & lamp & d & Hq & Hl & Ha & Hd).
  unfold _wake_up_this_loop. rewrite Hl. simpl. destruct lamp.
  { exists s. split; [done |]. split; [done |]. split; [apply quiet_refl | done]. }
  rewrite Ha. simpl. unfold find_descriptor. simpl. rewrite Hd. simpl.
  destruct (i_queues _ _ _ Hinv i Hi) as [_ (lamp & d0 & Hl0 & Hd0 & Hc & Hnb & _)].
  assert (lamp = false) as -> by congruence. assert (d0 = d) as -> by congruence.
  unfold increment_by_value. rewrite u64_small by lia.
  change (kernel_of (with_eventfds ?es ?ls s)) with (kernel_of s).
  destruct (write_counter (_fd d) 1 0 (kernel_of s) Hc) as (k & Ek & Hck & (Ho & Hik & Hlk) & Hm);
    [lia .. |].
  destruct (write_frame (_fd d) 1 (kernel_of s)) as [_ Hother].
  rewrite Ek in *. simpl in *.
  eexists. split; [done |]. split; [| split; [| split; [| split]]]; simpl; [| | | done | done].
  - destruct Hinv as [H1 [H2a H2b] H3 H4 [H5a H5b H5c] H6]. constructor; simpl.
    + apply descriptors_kernel; [exact Ho | exact Hik | done].
    + by rewrite length_insert.
    + done.
    + intros j Hj. destruct (decide (j = i)) as [-> | Hne].
      * destruct (H4 i Hi) as [(q' & Hq' & Hqok & Hf & _) _]. constructor; simpl.
        -- exists q'. repeat (split; [done |]). intros _. left. apply list_lookup_insert_eq. lia.
        -- exists true, d. unfold kernel_of, set_kernel; simpl.
           split; [apply list_lookup_insert_eq; lia |]. split; [done |].
           split; [done |]. split; [| left; set_solver].
           destruct Hnb as (fl & ? & ?). exists fl. by rewrite Hm.
      * destruct (queue_lookups _ _ _ j (Build_loop_inv _ _ _ H1 (conj H2a H2b) H3 H4 (Build_timers_ok _ _ H5a H5b H5c) H6) Hj)
          as (qj & lj & e & _ & _ & _ & He).
        apply (queue_ok_frame rem rem j s _ e e (H4 j Hj) He); unfold kernel_of; simpl;
          try done.
        -- by apply list_lookup_insert_ne.
        -- apply Hother. by eapply (eventfds_differ _ _ j i).
        -- set_solver.
    + constructor; simpl; [done | done |]. intros Hf.
      destruct (H5c Hf) as [[Hu [(e & He & Hin) | Hr]] | Ht]; [| tauto | tauto].
      left. split; [done |]. left. exists e. split; [done | set_solver].
    + done.
  - split; [| done]. constructor; try done; simpl; [by rewrite app_nil_r |].
    intros j Hj. destruct (decide (j = i)) as [-> | Hne].
    + apply list_lookup_insert_eq. destruct Hinv as [_ [_ ->] _ _ _ _]. done.
    + by rewrite list_lookup_insert_ne.
  - apply list_lookup_insert_eq. destruct Hinv as [_ [_ ->] _ _ _ _]. done.
Qed.

(** * The calls of a functor *)
Abbreviation exec := (execute threshold timerfd_settime operator_new).
Abbreviation call_functor := (call threshold timerfd_settime operator_new).

Lemma execute_run f i (s : loop_state) : exec (Run f i) s = call_functor f s.
Proof.
  revert s. induction f as [| c f IH]; intros s; [done |]. cbn [call].
  change (exec (Run (c :: f) i) s) with (let* s1 := exec c s in exec (Run f i) s1).
  destruct (exec c s); [apply IH | done].
Qed.

Lemma run_action_goes f a t :
  assumptions -> action_allowed a -> EventLoopTimers.inv threshold horizon f t ->
  match run_action threshold timerfd_settime operator_new a t with
  | Ok t' => EventLoopTimers.inv threshold horizon f t'
  | Err _ => may_cancel = true
  end.
Proof.
  intros Has [Hok Hs] Hinv. pose proof (env_ok Has) as Henv. destruct a as [tp i m c | p]; simpl.
  - destruct (run_at_inv threshold horizon timerfd_settime operator_new Henv f any_timer [] tp i m c t
                Hinv (pending_none threshold horizon _ t) Hok) as (q & t' & -> & Hinv' & _). done.
  - destruct Hs as [Hs | Hs]; [done |].
    destruct (cancel_a_timer timerfd_settime p t) as [t' |] eqn:E; [| done].
    destruct (heap t !! p) as [x |] eqn:Ep.
    + destruct (cancel_inv threshold horizon timerfd_settime operator_new Henv f any_timer [] p x t
                  Hinv (pending_none threshold horizon _ t) Ep) as (t1 & E1 & Hinv' & _).
      congruence.
    + unfold cancel_a_timer, _cancel_a_timer_and_update_alarm, remove_one, deref in E.
      by rewrite Ep in E.
Qed.

Lemma with_timers_inv rem T t (s : loop_state) :
  loop_inv rem T s -> EventLoopTimers.inv threshold horizon (fired s) t ->
  loop_inv rem T (with_timers t (timer_unread s) (fired s) s).
Proof.
  intros [H1 H2 H3 H4 [H5a H5b H5c] H6] Ht. constructor; try done.
  intros i Hi. by destruct (H4 i Hi).
Qed.

Lemma run_timer_goes rem T a s :
  assumptions -> action_allowed a -> loop_inv rem T s ->
  goes (run_timer_command threshold timerfd_settime operator_new a s)
    (fun s' => loop_inv rem T s' /\ quiet s s').
Proof.
  intros Has Ha Hinv. unfold run_timer_command.
  pose proof (run_action_goes (fired s) a (_timers s) Has Ha (t_inv _ _ (i_timers _ _ _ Hinv))) as Hg.
  destruct (run_action _ _ _ _ _) as [t |]; [| done].
  split; [by apply with_timers_inv | still].
Qed.

Lemma run_descriptor_ok rem T a c s :
  assumptions -> a ∈ registered -> loop_inv rem T s ->
  exists s', run_descriptor_command a c s = Ok s' /\ loop_inv rem T s' /\ quiet s s'.
Proof.
  intros Has Ha Hinv. pose proof Hinv as [H1 H2 H3 H4 [H5a H5b H5c] H6].
  destruct (proj2 (d_dom _ _ H1 a) (or_intror Ha)) as [d Hd].
  assert (Hno : a ∉ own) by (intros Ho; by apply (own_registered Has a)).
  unfold run_descriptor_command, find_descriptor. rewrite Hd. simpl.
  destruct (d_mirror _ _ H1 a d Hd) as [Hm Hself].
  destruct (run_command_good c d _ Hm (d_poller _ _ H1))
    as ([d' p'] & E & Hm' & Hp' & Hfd' & Hoth). cbn [fst snd] in *.
  destruct (run_command_flags c d _ d' p' Hm E) as [_ Hctl].
  destruct (one_ctl_frame _ _ Hctl) as [Hc Hg].
  rewrite E. eexists. split; [done |]. split; [| still].
  assert (Hlook : forall b, b ∈ own -> <[a := d']> (descriptors s) !! b = descriptors s !! b).
  { intros b Hb. apply lookup_insert_ne. by intros ->. }
  constructor; simpl; [| done | done | | | done].
  - apply (descriptor_update _ (_event_poller s) a d); try done.
    destruct (run_command_self c d _ d' p' E). congruence.
  - intros i Hi. destruct (queue_lookups _ _ _ i Hinv Hi) as (_ & _ & e & _ & _ & _ & He).
    apply (queue_ok_frame rem rem i s _ e e (H4 i Hi) He); unfold kernel_of; simpl; try done.
    + by rewrite Hlook by (by apply eventfd_own).
    + by rewrite Hc.
    + tauto.
  - constructor; simpl; [done | done |]. by rewrite Hlook by apply timerfd_own.
Qed.

Lemma execute_goes rem T c s :
  assumptions -> command_ok c -> loop_inv rem T s ->
  goes (exec c s) (fun s' => loop_inv rem T s' /\ quiet s s').
Proof.
  intros Has. revert s. induction c as [a | a c | | f i IH] using command_ind'; intros s Hc Hinv.
  - by apply run_timer_goes.
  - destruct (run_descriptor_ok rem T a c s Has Hc Hinv) as (s' & E & H).
    cbn [execute]. by rewrite E.
  - cbn [execute]. unfold ask_to_stop.
    destruct (wake_up_ok rem T 0 (with_stop true s) (own_distinct Has) (some_queue Has))
      as (s' & -> & Hinv' & [[] ?] & _ & Hs & _); [by apply with_stop_inv |].
    split; [done |]. split; [| done]. by constructor.
  - rewrite execute_run. rewrite command_ok_run in Hc. revert s Hc Hinv.
    induction IH as [| c f IHc _ IHf]; intros s Hc Hinv; [split; [done | apply quiet_refl] |].
    simpl in *. destruct Hc as [Hc Hf].
    eapply goes_bind; [by apply IHc |]. intros s1 [Hinv1 Hf1].
    eapply goes_mono; [by apply IHf |]. intros s2 [Hinv2 Hf2].
    split; [done | by eapply quiet_trans].
Qed.

Lemma call_goes rem T f s :
  assumptions -> functor_ok f -> loop_inv rem T s ->
  goes (call_functor f s) (fun s' => loop_inv rem T s' /\ quiet s s').
Proof.
  intros Has Hf Hinv. rewrite <- (execute_run f 0). apply execute_goes; [done | | done].
  by rewrite command_ok_run.
Qed.

(** * Popping and invoking the queues *)
Lemma with_queue_inv rem T i q q' s :
  loop_inv rem T s -> _functor_blocking_queues s !! i = Some q ->
  q_ok q' -> Forall functor_ok (contents q') ->
  (contents q' <> [] ->
   _eventfd_pilot_lamps s !! i = Some true \/ _eventfd_triggered s = true) ->
  loop_inv rem T (with_queues (<[i := q']> (_functor_blocking_queues s)) s).
Proof.
  intros [H1 [H2a H2b] H3 H4 [H5a H5b H5c] H6] Hq Hok Hf Hw. constructor; simpl; try done.
  - by rewrite length_insert.
  - intros j Hj. destruct (H4 j Hj) as [Hjq Hjl]. constructor; [| done].
    destruct (decide (j = i)) as [-> | Hne].
    + exists q'. simpl. split; [| done]. apply list_lookup_insert_eq.
      by eapply lookup_lt_Some.
    + simpl. by rewrite list_lookup_insert_ne.
Qed.

Lemma record_inv rem T e s : loop_inv rem T s -> loop_inv rem T (EventLoop.record e s).
Proof.
  intros [H1 H2 H3 H4 [] H6]. constructor; try done.
  intros i Hi. by destruct (H4 i Hi).
Qed.

Lemma record_frame e (s : loop_state) : frame [e] s (EventLoop.record e s).
Proof. by constructor. Qed.

Lemma invoke_each_goes rem T fs s :
  assumptions -> Forall functor_ok fs -> loop_inv rem T s ->
  goes (invoke_each threshold timerfd_settime operator_new fs s)
    (fun s' => loop_inv rem T s' /\ frame (Invoked <$> fs) s s' /\
               _functor_blocking_queues s' = _functor_blocking_queues s).
Proof.
  intros Has Hf. revert s. induction Hf as [| f fs Hf _ IH]; intros s Hinv; simpl.
  { split; [done |]. split; [apply frame_refl | done]. }
  eapply goes_bind; [by apply call_goes, record_inv |]. intros s1 [Hinv1 [Hf1 Hq1]].
  eapply goes_mono; [by apply IH |]. intros s2 (Hinv2 & Hf2 & Hq2).
  split; [done |]. split; [| by rewrite Hq2, Hq1].
  apply (frame_trans [Invoked f] _ _ s1); [| done].
  apply (frame_trans [Invoked f] [] _ (EventLoop.record (Invoked f) s)); [apply record_frame | done].
Qed.

Definition content_of (s : loop_state) (i : nat) : list FunctorType :=
  match _functor_blocking_queues s !! i with Some q => contents q | None => [] end.

Lemma invoke_queues_goes rem T indices s :
  assumptions -> NoDup indices -> Forall (fun i => (i < n)%nat) indices -> loop_inv rem T s ->
  goes (invoke_queues threshold timerfd_settime operator_new indices s)
    (fun s' => loop_inv rem T s' /\
       frame (Invoked <$> concat (content_of s <$> indices)) s s' /\
       (forall i, i ∈ indices -> content_of s' i = []) /\
       (forall i, i ∉ indices -> content_of s' i = content_of s i)).
Proof.
  intros Has. revert s. induction indices as [| i indices IH]; intros s Hnd Hlt Hinv;
    cbn [invoke_queues].
  { split; [done |]. split; [apply frame_refl |]. split; [| done].
    by intros i Hi%elem_of_nil. }
  apply NoDup_cons in Hnd as [Hni Hnd]. apply Forall_cons in Hlt as [Hi Hlt].
  destruct (i_queues _ _ _ Hinv i Hi) as [(q & Hq & Hqok & Hf & _) _].
  rewrite Hq. cbn [of_option]. destruct (q_drain_spec q Hqok) as (q' & -> & Hqok' & Hempty).
  eapply goes_bind.
  { apply (invoke_each_goes rem T); [done | done |].
    apply (with_queue_inv _ _ _ q); [done | done | done | by rewrite Hempty |].
    by rewrite Hempty. }
  intros s1 (Hinv1 & Hf1 & Hq1).
  assert (Hother : forall j, j <> i -> content_of s1 j = content_of s j).
  { intros j Hj. unfold content_of. rewrite Hq1. simpl. by rewrite list_lookup_insert_ne. }
  eapply goes_mono; [by apply IH |]. intros s2 (Hinv2 & Hf2 & Hin & Hout).
  assert (Hmap : content_of s1 <$> indices = content_of s <$> indices).
  { apply list_fmap_ext. intros k j Hk. apply Hother. intros ->.
    apply Hni. by eapply list_elem_of_lookup_2. }
  split; [done |]. split.
  - rewrite fmap_cons. cbn [concat]. rewrite fmap_app, <- Hmap.
    eapply frame_trans; [| exact Hf2]. unfold content_of. rewrite Hq. by destruct Hf1.
  - split.
    + intros j [-> | Hj]%elem_of_cons; [| by apply Hin].
      rewrite Hout by done. unfold content_of. rewrite Hq1. simpl.
      rewrite list_lookup_insert_eq by (by eapply lookup_lt_Some). done.
    + intros j [Hj1 Hj2]%not_elem_of_cons. rewrite Hout by done. by apply Hother.
Qed.

(** Everything that is queued, in the order of the queues. *)
Definition queued (s : loop_state) : list FunctorType := concat (content_of s <$> seq 0 n).

Lemma invoke_all_goes rem T s :
  assumptions -> loop_inv rem T s ->
  goes (_invoke_all_functors threshold timerfd_settime operator_new s)
    (fun s' => loop_inv rem T s' /\ frame (Invoked <$> queued s) s s' /\
               forall i, content_of s' i = []).
Proof.
  intros Has Hinv. unfold _invoke_all_functors. rewrite (proj1 (i_lengths _ _ _ Hinv)).
  eapply goes_mono.
  { apply (invoke_queues_goes rem T); [done | apply NoDup_seq | | done].
    apply Forall_forall. intros i Hi%elem_of_seq. lia. }
  intros s' (Hinv' & Hf & Hin & _). split; [done |]. split; [done |].
  intros i. destruct (decide (i < n)%nat) as [Hi | Hi].
  - apply Hin, elem_of_seq. lia.
  - unfold content_of. rewrite lookup_ge_None_2; [done |].
    destruct (i_lengths _ _ _ Hinv'). lia.
Qed.

(** * Expiring the timers *)
Lemma expire_loop_timers f tp t :
  assumptions -> EventLoopTimers.inv threshold horizon f t -> handled_by f tp ->
  0 <= ns tp <= horizon ->
  match _expire_timers_and_update_alarm threshold timerfd_settime operator_new script tp t with
  | Ok t' => EventLoopTimers.inv threshold horizon None t'
  | Err _ => may_cancel = true
  end.
Proof.
  intros Has Hinv Hh Htp. pose proof (env_ok Has) as Henv. pose proof (horizon_ok Has) as Hl.
  destruct (_expire_timers_and_update_alarm _ _ _ _ _ _) as [t' |] eqn:E.
  - by apply (expire_inv threshold horizon timerfd_settime operator_new script Henv
                (scripts_fine Has) f tp t t').
  - destruct may_cancel eqn:Em; [done |].
    destruct (expire_total threshold horizon timerfd_settime operator_new script Henv
                (scripts_fine Has) f tp t) as (t' & E'); try done; [by apply (scripts_total Has) |].
    by rewrite E' in E.
Qed.

Lemma expire_goes rem T s :
  assumptions -> loop_inv rem T s -> T <= horizon ->
  goes (expire_timers threshold timerfd_settime operator_new script s)
    (fun s' => loop_inv rem T s' /\ frame [Expired (clock s)] s s' /\ fired s' = None /\
               _functor_blocking_queues s' = _functor_blocking_queues s).
Proof.
  intros Has Hinv HT. pose proof Hinv as [H1 H2 H3 H4 [H5a H5b H5c] [H6 H6']].
  unfold expire_timers.
  pose proof (expire_loop_timers (fired s) (clock s) (_timers s) Has H5a H5b) as Hg.
  destruct (_expire_timers_and_update_alarm _ _ _ _ _ _) as [t |]; [| apply Hg; lia].
  simpl. split; [| split; [by constructor | done]].
  constructor; try done.
  - intros i Hi. by destruct (H4 i Hi).
  - constructor; simpl; [apply Hg; lia | done | done].
Qed.

(** * The surroundings *)
Definition external_ok (e : external) : Prop :=
  match e with OtherRun f i => functor_ok f /\ (i < n)%nat | _ => True end.

Definition elapsed_one (e : external) : Z := match e with Elapse m => Z.of_N m | _ => 0 end.
Fixpoint elapsed (es : list external) : Z :=
  match es with [] => 0 | e :: es => elapsed_one e + elapsed es end.

Lemma elapsed_nonneg es : 0 <= elapsed es.
Proof. induction es as [| [] es IH]; simpl; lia. Qed.

(** What the surroundings leave alone: the queues only grow. *)
Record meanwhile (s s' : loop_state) : Prop := {
  m_frame : frame [] s s';
  m_queues i : content_of s i `prefix_of` content_of s' i;
  m_descriptors : descriptors s' = descriptors s
}.

Lemma meanwhile_refl s : meanwhile s s.
Proof. split; [apply frame_refl | done | done]. Qed.

Lemma meanwhile_trans s1 s2 s3 : meanwhile s1 s2 -> meanwhile s2 s3 -> meanwhile s1 s3.
Proof.
  intros [F1 Q1 D1] [F2 Q2 D2]. split; [by apply (frame_trans [] [] _ s2) | | congruence].
  intros i. transitivity (content_of s2 i); [apply Q1 | apply Q2].
Qed.

Lemma quiet_meanwhile s s' : quiet s s' -> descriptors s' = descriptors s -> meanwhile s s'.
Proof. intros [F E] D. split; [done | | done]. intros i. unfold content_of. by rewrite E. Qed.

Lemma wake_up_queues i qs (s : loop_state) :
  _wake_up_this_loop i (with_queues qs s)
  = let* s' := _wake_up_this_loop i s in Ok (with_queues qs s').
Proof.
  unfold _wake_up_this_loop. simpl. destruct (_eventfd_pilot_lamps s !! i) as [[] |]; [done | | done].
  simpl. destruct (_eventfds s !! i); [| done]. simpl. unfold find_descriptor. simpl.
  by destruct (descriptors s !! _).
Qed.

Lemma leave_ok rem T f i s :
  assumptions -> functor_ok f -> (i < n)%nat -> loop_inv rem T s ->
  match _leave_to_owner_thread f i s with
  | None => True
  | Some r => exists s', r = Ok s' /\ loop_inv rem T s' /\ meanwhile s s' /\
      content_of s' i = content_of s i ++ [f] /\ _need_stop s' = _need_stop s
  end.
Proof.
  intros Has Hf Hi Hinv. destruct (queue_lookups _ _ _ i Hinv Hi) as (q & _ & _ & Hq & _).
  unfold _leave_to_owner_thread. rewrite Hq. destruct (q_push f q) as [q' |] eqn:Ep; [| done].
  destruct (i_queues _ _ _ Hinv i Hi) as [(q0 & Hq0 & Hqok & Hfs & _) _].
  assert (q0 = q) as -> by congruence.
  destruct (q_push_spec f q q' Hqok Ep) as [Hqok' Hc].
  destruct (wake_up_ok rem T i s (own_distinct Has) Hi Hinv)
    as (s' & E & Hinv' & [Hfr Hsame] & Hlamp & Hstop & Hds).
  rewrite wake_up_queues, E. eexists. split; [done |].
  pose proof (lookup_lt_Some _ _ _ Hq) as Hlt.
  assert (Hci : content_of (with_queues (<[i := q']> (_functor_blocking_queues s)) s') i
                = content_of s i ++ [f]).
  { unfold content_of. simpl. rewrite list_lookup_insert_eq by done. by rewrite Hq. }
  split; [| split; [| done]].
  - rewrite <- Hsame. apply (with_queue_inv _ _ _ q); [done | by rewrite Hsame | done | |].
    + rewrite Hc. apply Forall_app. split; [done | by apply Forall_singleton].
    + intros _. by left.
  - split; [by destruct Hfr | | done]. intros j. destruct (decide (j = i)) as [-> | Hne].
    + rewrite Hci. by apply prefix_app_r.
    + unfold content_of. simpl. by rewrite list_lookup_insert_ne.
Qed.

Lemma fire_ok rem T s :
  assumptions -> loop_inv rem T s ->
  exists s', fire_kernel_timer s = Ok s' /\ loop_inv rem T s' /\ meanwhile s s'.
Proof.
  intros Has Hinv. unfold fire_kernel_timer. destruct (_ && _) eqn:Eb.
  2:{ exists s. split; [done |]. split; [done | apply meanwhile_refl]. }
  apply andb_true_iff in Eb as [Ha%bool_decide_eq_true Hle%Z.leb_le].
  pose proof Hinv as [H1 H2 H3 H4 [H5a H5b H5c] [H6 H6']].
  destruct (own_lookup _ _ timerfd_address H1 timerfd_own) as [d Hd].
  unfold find_descriptor. rewrite (proj1 H3), Hd. simpl. eexists. split; [done |].
  split; [| apply quiet_meanwhile; [still | done]].
  assert (Harm : it_value (_timers s) = TimePoint.to_timespec (_next_earliest_expiration_time (_timers s))).
  { destruct H5a as (_ & _ & Hal). unfold alarm_state in Hal.
    destruct (_timer_container (_timers s)); [by destruct Hal |].
    destruct Hal as [[Hal | [Hal _]] _]; [done | by rewrite Hal in Ha]. }
  constructor; simpl; try done.
  - intros i Hi. destruct (queue_lookups _ _ _ i Hinv Hi) as (_ & _ & e & _ & _ & _ & He).
    apply (queue_ok_frame rem rem i s _ e e (H4 i Hi) He); simpl; try done. set_solver.
  - constructor; simpl.
    + apply (timers_step_inv threshold horizon timerfd_settime operator_new script (env_ok Has)
               (scripts_fine Has) (fired s, _timers s) (Some (clock s), _) (horizon_ok Has));
        [| done].
      eapply (StepFire _ _ _ _ _ _ _ _ _ Harm Ha).
      unfold ns in *. rewrite (ns_timespec _), <- Harm. done.
    + by intros now [= <-].
    + intros _. left. split; [done |]. left. exists d. split; [done | set_solver].
Qed.

Lemma external_goes rem T e s :
  assumptions -> external_ok e -> loop_inv rem T s ->
  exists s', external_event e s = Ok s' /\ loop_inv rem (T + elapsed_one e) s' /\ meanwhile s s'.
Proof.
  intros Has He Hinv. destruct e as [f i | | m |]; simpl; rewrite ?Z.add_0_r.
  - destruct He as [Hf Hi]. pose proof (leave_ok rem T f i s Has Hf Hi Hinv) as Hl.
    destruct (_leave_to_owner_thread f i s) as [r |]; simpl.
    + destruct Hl as (s' & -> & Hinv' & Hm & _). eauto.
    + exists s. split; [done |]. split; [done | apply meanwhile_refl].
  - unfold ask_to_stop.
    destruct (wake_up_ok rem T 0 (with_stop true s) (own_distinct Has) (some_queue Has))
      as (s' & -> & Hinv' & [[] ?] & _ & Hs & Hds); [by apply with_stop_inv |].
    exists s'. split; [done |]. split; [done |]. apply quiet_meanwhile; [| done].
    split; [by constructor | done].
  - eexists. split; [done |]. split; [| apply quiet_meanwhile; [still | done]].
    destruct Hinv as [H1 H2 H3 H4 [H5a H5b H5c] [H6 H6']].
    constructor; try done.
    + intros i Hi. by destruct (H4 i Hi).
    + constructor; simpl; [done | | done]. intros now Hnow. specialize (H5b now Hnow).
      unfold ns in *. simpl. lia.
    + unfold ns in *. simpl. lia.
  - by apply fire_ok.
Qed.

Lemma surroundings_ok rem T es s :
  assumptions -> Forall external_ok es -> loop_inv rem T s ->
  exists s', surroundings es s = Ok s' /\ loop_inv rem (T + elapsed es) s' /\ meanwhile s s'.
Proof.
  intros Has Hes. revert T s. induction Hes as [| e es He _ IH]; intros T s Hinv; simpl.
  { exists s. rewrite Z.add_0_r. split; [done |]. split; [done | apply meanwhile_refl]. }
  destruct (external_goes rem T e s Has He Hinv) as (s1 & -> & Hinv1 & Hm1).
  destruct (IH _ _ Hinv1) as (s2 & -> & Hinv2 & Hm2).
  exists s2. split; [done |]. split; [by rewrite Z.add_assoc | by eapply meanwhile_trans].
Qed.

(** * Dispatching *)
Abbreviation dispatch := (dispatch_one threshold timerfd_settime operator_new clients).

(** The dispatchers still to be run: live objects, each once; the loop's own are
    reported for reading. *)
Definition report_ok (rem : list Z) (s : loop_state) : Prop :=
  NoDup rem /\
  forall a, a ∈ rem ->
    (a ∈ own \/ a ∈ registered) /\
    (a ∈ own -> has_event (default 0 (_active_events s !! a)) EVENT_TYPE_READ = true).

Definition is_eventfd (a : Z) : bool := bool_decide (a ∈ eventfd_address <$> seq 0 n).

Record dispatched (h : list loop_event) (rem : list Z) (s s' : loop_state) : Prop := {
  p_active : _active_events s' = _active_events s;
  p_queues : _functor_blocking_queues s' = _functor_blocking_queues s;
  p_stop : _need_stop s = true -> _need_stop s' = true;
  p_history : history s' = history s ++ h;
  p_eventfd : _eventfd_triggered s' = _eventfd_triggered s
                || existsb is_eventfd rem;
  p_timerfd : _timerfd_triggered s' = _timerfd_triggered s
                || existsb (fun a => a =? timerfd_address) rem
}.

Lemma dispatch_read_only (f : loop_state -> result loop_state) m s :
  has_event m EVENT_TYPE_READ = true ->
  dispatch_active_events (read_only f) None m s = f s.
Proof.
  intros Hm. unfold dispatch_active_events, _dispatch_active_events, run_if, read_only. simpl.
  rewrite Hm. destruct (has_event m EVENT_TYPE_CLOSE), (has_event m EVENT_TYPE_ERROR);
    destruct (f s); try done; by destruct (has_event m EVENT_TYPE_WRITE).
Qed.

Lemma run_if_goes rem T (b : bool) (f : option FunctorType) s0 s :
  assumptions -> (forall g, f = Some g -> functor_ok g) ->
  loop_inv rem T s -> quiet s0 s ->
  goes (run_if b (call_functor <$> f) s) (fun s' => loop_inv rem T s' /\ quiet s0 s').
Proof.
  intros Has Hf Hinv Hq. unfold run_if. destruct b, f as [g |]; simpl; try done.
  eapply goes_mono; [apply (call_goes rem T); [done | by apply Hf | done] |].
  intros s' [Hinv' Hq']. split; [done | by eapply quiet_trans].
Qed.

Lemma client_dispatch_goes rem T c m s :
  assumptions -> client_ok c -> loop_inv rem T s ->
  goes (dispatch_active_events (client_handlers threshold timerfd_settime operator_new c)
          (guard c) m s)
    (fun s' => loop_inv rem T s' /\ quiet s s').
Proof.
  intros Has [Hg Hf] Hinv. unfold dispatch_active_events.
  assert (Hd : goes (_dispatch_active_events
                       (client_handlers threshold timerfd_settime operator_new c) m s)
                 (fun s' => loop_inv rem T s' /\ quiet s s')).
  { rewrite client_handlers_eq. unfold _dispatch_active_events. simpl.
    eapply goes_bind; [apply (run_if_goes rem T _ _ s); try done; [by apply Hf; set_solver | apply quiet_refl] |].
    intros s1 [H1 Q1].
    eapply goes_bind; [apply (run_if_goes rem T _ _ s); try done; by apply Hf; set_solver |].
    intros s2 [H2 Q2].
    eapply goes_bind; [apply (run_if_goes rem T _ _ s); try done; by apply Hf; set_solver |].
    intros s3 [H3 Q3].
    apply (run_if_goes rem T _ _ s); try done; by apply Hf; set_solver. }
  by destruct (guard c) as [[] |].
Qed.

Lemma skip_client rem T a s : a ∉ own -> loop_inv (a :: rem) T s -> loop_inv rem T s.
Proof.
  intros Ha [H1 H2 H3 H4 [H5a H5b H5c] H6]. constructor; try done.
  - intros i Hi. destruct (H4 i Hi) as [Hq (lamp & d & Hl & Hd & Hc & Hnb & He)].
    constructor; [done |]. exists lamp, d. repeat (split; [done |]). intros Hlamp.
    destruct (He Hlamp) as [? | [Heq | ?]%elem_of_cons]; [by left | | by right].
    destruct Ha. rewrite <- Heq. by apply eventfd_own.
  - constructor; [done | done |]. intros Hf.
    destruct (H5c Hf) as [[Hu [? | [Heq | ?]%elem_of_cons]] | ?]; [tauto | | tauto | tauto].
    destruct Ha. rewrite <- Heq. apply timerfd_own.
Qed.

Lemma own_position i :
  NoDup own -> (i < n)%nat ->
  position (eventfd_address i) (eventfd_address <$> seq 0 n) = Some i /\
  eventfd_address i <> timerfd_address.
Proof.
  intros Hnd Hi. apply NoDup_cons in Hnd as [Hni Hnd]. split.
  - unfold position. rewrite (proj2 (list_find_Some _ _ i (eventfd_address i))); [done |].
    split; [by apply eventfd_lookup |]. split; [done |].
    intros j y Hj Hlt ->. pose proof (NoDup_lookup _ j i _ Hnd Hj (eventfd_lookup i Hi)). lia.
  - intros <-. apply Hni, list_elem_of_fmap_2, elem_of_seq. lia.
Qed.

Lemma other_position a :
  a ∉ own -> position a (eventfd_address <$> seq 0 n) = None /\ a <> timerfd_address.
Proof.
  intros Ha. split.
  - unfold position. rewrite (proj2 (list_find_None _ _)); [done |].
    apply Forall_forall. intros x Hx ->. apply Ha, elem_of_cons. by right.
  - intros ->. apply Ha, timerfd_own.
Qed.

(** Another descriptor of the loop is read: queue [i] does not notice. *)
Lemma queue_ok_read rem i a d (s s' : loop_state) :
  NoDup own -> descriptors_ok (descriptors s) (_event_poller s) -> (i < n)%nat ->
  a <> eventfd_address i -> descriptors s !! a = Some d ->
  descriptors s' = descriptors s -> _functor_blocking_queues s' = _functor_blocking_queues s ->
  _eventfd_pilot_lamps s' !! i = _eventfd_pilot_lamps s !! i -> edges s' = edges s ->
  kernel_of s' = (sys_read (_fd d) (kernel_of s)).2 ->
  (_eventfd_triggered s = true -> _eventfd_triggered s' = true) ->
  queue_ok (a :: rem) i s -> queue_ok rem i s'.
Proof.
  intros Hnd Hok Hi Hne Hd Eds Eqs Els Eed Ek Et Hq.
  destruct (own_lookup _ _ _ Hok (eventfd_own i Hi)) as [e He].
  assert (Hfd : _fd e <> _fd d).
  { intros Hfd. apply Hne. symmetry. by apply (d_inj _ _ Hok _ _ _ _ He Hd). }
  destruct (read_frame (_fd d) (kernel_of s)) as [[_ Hm] Hc].
  apply (queue_ok_frame (a :: rem) rem i s s' e e Hq He); try done.
  - by rewrite Eds.
  - by rewrite Eqs.
  - rewrite Ek. by apply Hc.
  - by rewrite Ek.
  - rewrite Eed. by left.
  - by intros [<- | ?]%elem_of_cons.
Qed.

Lemma dispatch_timerfd rem T s :
  assumptions -> loop_inv (timerfd_address :: rem) T s ->
  exists d s', descriptors s !! timerfd_address = Some d /\
    timerfd_read_event_callback d s = Ok s' /\ loop_inv rem T s' /\
    _active_events s' = _active_events s /\
    _functor_blocking_queues s' = _functor_blocking_queues s /\
    _need_stop s' = _need_stop s /\ history s' = history s /\
    _eventfd_triggered s' = _eventfd_triggered s /\ _timerfd_triggered s' = true.
Proof.
  intros Has Hinv. pose proof Hinv as [H1 H2 H3 H4 [H5a H5b H5c] H6].
  destruct (own_lookup _ _ timerfd_address H1 timerfd_own) as [d Hd].
  exists d. unfold timerfd_read_event_callback.
  pose proof (retrieve_the_number_of_expirations_kernel (_fd d) (kernel_of s)) as Hk.
  destruct (_retrieve_the_number_of_expirations _ _) as [v k]. simpl in Hk.
  eexists. split; [done |]. split; [done |]. split; [| by repeat split].
  destruct (read_frame (_fd d) (kernel_of s)) as [[(Ho & Hi & _) _] _].
  constructor; simpl; try done.
  - apply descriptors_kernel; [by rewrite Hk | by rewrite Hk | done].
  - intros i Hlt.
    apply (queue_ok_read rem i timerfd_address d s); try done; [apply (own_distinct Has) | | by apply H4].
    symmetry. by apply (own_position i (own_distinct Has)).
  - constructor; simpl; [done | done |]. intros _. by right.
Qed.

Lemma dispatch_eventfd rem T i s :
  assumptions -> (i < n)%nat -> loop_inv (eventfd_address i :: rem) T s ->
  exists d s', descriptors s !! eventfd_address i = Some d /\
    eventfd_read_event_callback i d s = Ok s' /\ loop_inv rem T s' /\
    _active_events s' = _active_events s /\
    _functor_blocking_queues s' = _functor_blocking_queues s /\
    _need_stop s' = _need_stop s /\ history s' = history s /\
    _eventfd_triggered s' = true /\ _timerfd_triggered s' = _timerfd_triggered s.
Proof.
  intros Has Hi Hinv. pose proof Hinv as [H1 H2 H3 H4 [H5a H5b H5c] H6].
  destruct (H4 i Hi) as [(q & Hq & Hqok & Hf & _) (lamp & d & Hl & Hd & Hc & Hnb & _)].
  exists d. unfold eventfd_read_event_callback.
  pose proof (retrieve_the_sum_kernel (_fd d) (kernel_of s)) as Hk.
  destruct (_retrieve_the_sum _ _) as [v k]. simpl in Hk.
  eexists. split; [done |]. split; [done |]. split; [| by repeat split].
  destruct (read_frame (_fd d) (kernel_of s)) as [[(Ho & Hint & _) Hm] _].
  constructor; simpl; try done.
  - apply descriptors_kernel; [by rewrite Hk | by rewrite Hk | done].
  - by rewrite length_insert.
  - intros j Hj. destruct (decide (j = i)) as [-> | Hne].
    + constructor; simpl; [exists q; split_and!; auto |].
      exists false, d. unfold kernel_of; simpl. rewrite Hk.
      split; [apply list_lookup_insert_eq; lia |]. split; [done |].
      split; [apply (read_empties _ (if lamp then 1 else 0)); [done | by destruct lamp | done] |].
      split; [| done]. destruct Hnb as (fl & ? & ?). exists fl. by rewrite Hm.
    + apply (queue_ok_read rem j (eventfd_address i) d s); try done; [apply (own_distinct Has) | | | by apply H4].
      * intros Heq. pose proof (NoDup_cons_1_2 _ _ (own_distinct Has)) as Hnd.
        pose proof (NoDup_lookup _ i j (eventfd_address i) Hnd (eventfd_lookup i Hi)) as Hl'.
        rewrite Heq in Hl' at 1. by apply Hne, eq_sym, Hl', eventfd_lookup.
      * simpl. by rewrite list_lookup_insert_ne.
  - constructor; simpl; [done | done |]. intros Hfi.
    destruct (H5c Hfi) as [[Hu [? | [Heq | ?]%elem_of_cons]] | ?]; [tauto | | tauto | tauto].
    by destruct (own_position i (own_distinct Has) Hi) as [_ []].
Qed.

Lemma own_cases a :
  a ∈ own -> a = timerfd_address \/ exists i, (i < n)%nat /\ a = eventfd_address i.
Proof.
  intros [-> | (i & -> & Hi%elem_of_seq)%list_elem_of_fmap]%elem_of_cons; [by left |].
  right. exists i. split; [lia | done].
Qed.

Lemma is_eventfd_true i : (i < n)%nat -> is_eventfd (eventfd_address i) = true.
Proof. intros Hi. apply bool_decide_eq_true, list_elem_of_fmap_2, elem_of_seq. lia. Qed.

Lemma is_eventfd_own a : is_eventfd a = true -> a ∈ own.
Proof. intros H%bool_decide_eq_true. apply elem_of_cons. by right. Qed.

Lemma is_eventfd_timerfd : NoDup own -> is_eventfd timerfd_address = false.
Proof. intros [Hni _]%NoDup_cons. by apply bool_decide_eq_false. Qed.

Lemma dispatch_one_goes rem T a s :
  assumptions -> a ∈ own \/ a ∈ registered ->
  (a ∈ own -> has_event (default 0 (_active_events s !! a)) EVENT_TYPE_READ = true) ->
  loop_inv (a :: rem) T s ->
  goes (dispatch a s) (fun s' => loop_inv rem T s' /\ dispatched [Dispatched a] [a] s s').
Proof.
  intros Has Ha Hm Hinv. pose proof (own_distinct Has) as Hnd.
  pose proof (record_inv _ _ (Dispatched a) _ Hinv) as Hinv1.
  pose proof (i_own _ _ _ Hinv) as [Et Ee].
  unfold dispatch_one, find_descriptor.
  destruct (decide (a ∈ own)) as [Ho | Hno].
  - destruct (own_cases a Ho) as [-> | (i & Hi & ->)].
    + destruct (dispatch_timerfd rem T _ Has Hinv1) as (d & s' & Hd & E & Hinv' & Ha' & Hq & Hs & Hh & He & Ht).
      simpl in * |-. rewrite Hd. cbn [of_option _timerfd _eventfds _active_events EventLoop.record].
      rewrite Et, Z.eqb_refl.
      rewrite dispatch_read_only by auto. rewrite E. split; [done |].
      constructor; simpl; try done; [by rewrite Hs | |].
      * by rewrite is_eventfd_timerfd, orb_false_r.
      * by rewrite Ht, Z.eqb_refl, orb_true_r.
    + destruct (dispatch_eventfd rem T i _ Has Hi Hinv1) as (d & s' & Hd & E & Hinv' & Ha' & Hq & Hs & Hh & He & Ht).
      destruct (own_position i Hnd Hi) as [Hpos Hne].
      simpl in * |-. rewrite Hd. cbn [of_option _timerfd _eventfds _active_events EventLoop.record].
      rewrite Et, (proj2 (Z.eqb_neq _ _) Hne), Ee, Hpos.
      rewrite dispatch_read_only by auto. rewrite E. split; [done |].
      constructor; simpl; try done; [by rewrite Hs | |].
      * by rewrite is_eventfd_true, orb_true_r.
      * by rewrite Ht, (proj2 (Z.eqb_neq _ _) Hne), orb_false_r.
  - destruct Ha as [Ha | Ha]; [done |].
    destruct (proj2 (d_dom _ _ (i_descriptors _ _ _ Hinv) a) (or_intror Ha)) as [d Hd].
    destruct (other_position a Hno) as [Hpos Hne].
    rewrite Hd. cbn [of_option _timerfd _eventfds _active_events EventLoop.record].
    rewrite Et, (proj2 (Z.eqb_neq _ _) Hne), Ee, Hpos.
    eapply goes_mono; [apply (client_dispatch_goes rem T); [done | by apply clients_ok |] |].
    { by eapply skip_client. }
    intros s' [Hinv' [[Fa Fe Ft Fh Fs Fl] Fq]]. split; [done |].
    constructor; simpl in *; try done.
    + by rewrite Fh, app_nil_r.
    + destruct (is_eventfd a) eqn:Ea; [by apply is_eventfd_own in Ea |].
      by rewrite Fe, orb_false_r.
    + by rewrite Ft, (proj2 (Z.eqb_neq _ _) Hne), orb_false_r.
Qed.

Lemma dispatched_trans h1 h2 r1 r2 s1 s2 s3 :
  dispatched h1 r1 s1 s2 -> dispatched h2 r2 s2 s3 -> dispatched (h1 ++ h2) (r1 ++ r2) s1 s3.
Proof.
  intros [? ? ? E1 F1 G1] [? ? ? E2 F2 G2]. constructor; try congruence; eauto.
  - by rewrite E2, E1, app_assoc.
  - by rewrite F2, F1, existsb_app, orb_assoc.
  - by rewrite G2, G1, existsb_app, orb_assoc.
Qed.

Lemma dispatch_all_goes rem T s :
  assumptions -> report_ok rem s -> loop_inv rem T s ->
  goes (dispatch_all threshold timerfd_settime operator_new clients rem s)
    (fun s' => loop_inv [] T s' /\ dispatched (Dispatched <$> rem) rem s s').
Proof.
  intros Has. revert s. induction rem as [| a rem IH]; intros s [Hnd Hr] Hinv; cbn [dispatch_all].
  { split; [done |]. constructor; by rewrite ?app_nil_r, ?orb_false_r. }
  apply NoDup_cons in Hnd as [_ Hnd].
  destruct (Hr a) as [Ha Hm]; [by apply elem_of_cons; left |].
  eapply goes_bind; [by apply dispatch_one_goes |]. intros s1 [Hinv1 Hd1].
  eapply goes_mono; [apply IH; [| done] |].
  - split; [done |]. intros b Hb. rewrite (p_active _ _ _ _ Hd1). apply Hr, elem_of_cons. by right.
  - intros s2 [Hinv2 Hd2]. split; [done |]. by apply (dispatched_trans [Dispatched a] _ [a] rem _ s1).
Qed.

(** * Waiting *)
Definition report_fine (evs : list epoll_event) : Prop :=
  NoDup (data_ptr <$> evs) /\
  forall ev, ev ∈ evs ->
    (data_ptr ev ∈ own \/ data_ptr ev ∈ registered) /\
    (data_ptr ev ∈ own -> has_event (events ev) EVENT_TYPE_READ = true).

Definition waits_ok (ws : list wait_result) : Prop :=
  (WaitFailed ∉ ws) /\ forall evs, WaitEvents evs ∈ ws -> report_fine evs.

Lemma epoll_wait_loop_ok ws r :
  WaitFailed ∉ ws -> epoll_wait_loop ws = Some r ->
  exists evs ws', r = Ok (evs, ws') /\ WaitEvents evs ∈ ws.
Proof.
  induction ws as [| [evs | |] ws IH]; simpl; intros Hf Hr; [done | | |].
  - injection Hr as <-. exists evs, ws. split; [done | apply elem_of_cons; by left].
  - apply not_elem_of_cons in Hf as [_ Hf].
    destruct (IH Hf Hr) as (evs & ws' & -> & Hin). exists evs, ws'.
    split; [done | apply elem_of_cons; by right].
  - destruct Hf. apply elem_of_cons. by left.
Qed.

Lemma store_active_events_spec evs active ds active' :
  store_active_events evs active = (ds, active') ->
  ds = data_ptr <$> evs /\
  (forall a, a ∉ ds -> active' !! a = active !! a) /\
  (NoDup ds -> forall ev, ev ∈ evs -> active' !! data_ptr ev = Some (events ev)).
Proof.
  revert active ds active'. induction evs as [| ev evs IH]; intros active ds active'; simpl.
  { intros [= <- <-]. split; [done |]. split; [done |]. by intros _ ev Hev%elem_of_nil. }
  destruct (store_active_events evs _) as [ds1 a1] eqn:E. intros [= <- <-].
  destruct (IH _ _ _ E) as (-> & Hout & Hin). split; [done |]. split.
  - intros a [Ha1 Ha2]%not_elem_of_cons. rewrite Hout by done. by apply lookup_insert_ne.
  - intros [Hn Hnd]%NoDup_cons e [-> | He]%elem_of_cons; [| by apply Hin].
    rewrite Hout by done. by rewrite lookup_insert_eq.
Qed.

(** The result of the call of [epoll_wait] that returns. *)
Definition waited (ws : list wait_result) (evs : list epoll_event) : Prop :=
  exists ws', epoll_wait_loop ws = Some (Ok (evs, ws')).

Lemma poll_reports T ws s :
  waits_ok ws -> loop_inv [] T s ->
  match poll ws s with
  | None => True
  | Some r => exists evs s', waited ws evs /\ r = Ok (data_ptr <$> evs, s') /\
      loop_inv (data_ptr <$> evs) T s' /\ report_ok (data_ptr <$> evs) s' /\
      _functor_blocking_queues s' = _functor_blocking_queues s /\
      _eventfd_triggered s' = _eventfd_triggered s /\
      _timerfd_triggered s' = _timerfd_triggered s /\ history s' = history s /\
      _need_stop s' = _need_stop s /\ descriptors s' = descriptors s /\
      forall ev, ev ∈ evs -> _active_events s' !! data_ptr ev = Some (events ev)
  end.
Proof.
  intros [Hf Hw] Hinv. unfold poll, poll_for_active_events_of_all_fds.
  destruct (epoll_wait_loop ws) as [r |] eqn:E; [| done].
  destruct (epoll_wait_loop_ok ws r Hf E) as (evs & ws' & -> & Hin).
  destruct (Hw evs Hin) as [Hnd Hevs].
  destruct (store_active_events evs (_active_events s)) as [ds active] eqn:Es.
  destruct (store_active_events_spec _ _ _ _ Es) as (-> & _ & Hact).
  exists evs. eexists. split; [by exists ws' |]. split; [done |].
  split; [| split; [| repeat (split; [done |]); by apply Hact]].
  - assert (Hedge : forall a d, descriptors s !! a = Some d -> a ∈ own -> _fd d ∈ edges s ->
              _fd d ∈ edges s ∖ reported_fds (data_ptr <$> evs) s \/ a ∈ data_ptr <$> evs).
    { intros a d Hd Ho Hed. destruct (decide (a ∈ data_ptr <$> evs)) as [Hr | Hr]; [by right |].
      left. apply elem_of_difference. split; [done |]. unfold reported_fds.
      rewrite elem_of_list_to_set, list_elem_of_omap. intros (b & Hb & Hfd).
      destruct (descriptors s !! b) as [e |] eqn:Ee; [| done]. simpl in Hfd. injection Hfd as Hfd.
      apply Hr. by rewrite (d_inj _ _ (i_descriptors _ _ _ Hinv) a d b e Hd Ee (eq_sym Hfd)). }
    pose proof Hinv as [H1 H2 H3 H4 [H5a H5b H5c] H6]. constructor; try done.
    + intros i Hi. destruct (H4 i Hi) as [Hq (lamp & d & Hl & Hd & Hc & Hnb & He)].
      constructor; [done |]. exists lamp, d. repeat (split; [done |]). intros Hlamp. simpl.
      destruct (He Hlamp) as [Hed | Hr]; [by apply (Hedge _ d Hd (eventfd_own i Hi)) |].
      by apply elem_of_nil in Hr.
    + constructor; simpl; [done | done |]. intros Hfi.
      destruct (H5c Hfi) as [[Hu [(d & Hd & Hed) | Hr]] | Ht]; [| by apply elem_of_nil in Hr | by right].
      left. split; [done |]. destruct (Hedge _ d Hd timerfd_own Hed); [left; by exists d | by right].
  - split; [done |]. intros a (ev & -> & Hev)%list_elem_of_fmap.
    destruct (Hevs ev Hev) as [H1 H2]. split; [done |]. intros Ho. simpl.
    rewrite (Hact Hnd ev Hev). by apply H2.
Qed.

(** * What the size of the poller says *)
(** The clients' descriptors that are registered with the poller. *)
Definition busy (s : loop_state) : gset Z := dom (attached (descriptors s)) ∖ list_to_set own.

Lemma poller_size T rem s :
  assumptions -> loop_inv rem T s ->
  size (_event_poller s) = 1 + Z.of_nat n + Z.of_nat (base.size (busy s)) /\
  size (_event_poller s) < 2 ^ 64.
Proof.
  intros Has Hinv. pose proof (i_descriptors _ _ _ Hinv) as Hok.
  pose proof (interest_small _ _ (d_table _ _ Hok)) as Hlt.
  rewrite (proj2 (d_poller _ _ Hok)), u64_small by lia. split; [| done].
  rewrite (interest_size _ _ (d_table _ _ Hok)), <- size_dom.
  assert (Hsub : list_to_set own ⊆ dom (attached (descriptors s))).
  { intros a Ha%elem_of_list_to_set. destruct (own_lookup _ _ a Hok Ha) as [d Hd].
    apply elem_of_dom. exists d. apply attached_lookup. split; [done |].
    by apply (d_own _ _ Hok a). }
  pose proof (size_union_alt (list_to_set own : gset Z) (dom (attached (descriptors s)))) as Hu.
  rewrite (subseteq_union_1_L _ _ Hsub) in Hu. rewrite Hu.
  rewrite size_list_to_set by apply (own_distinct Has).
  unfold busy, own. cbn [length]. rewrite length_fmap, length_seq. lia.
Qed.

Lemma poller_is_idle_iff T rem s :
  assumptions -> loop_inv rem T s ->
  poller_is_idle s = true <->
  forall a d, a ∈ registered -> descriptors s !! a = Some d -> _is_detached d = true.
Proof.
  intros Has Hinv. destruct (poller_size _ _ _ Has Hinv) as [Hs Hlt].
  unfold poller_is_idle. rewrite (proj1 (i_lengths _ _ _ Hinv)), Hs, Z.eqb_eq.
  rewrite u64_small by lia. split.
  - intros Hz a d Ha Hd. assert (He : base.size (busy s) = 0%nat) by lia.
    apply size_empty_inv in He. destruct (_is_detached d) eqn:Ed; [done |]. exfalso.
    apply (not_elem_of_empty (C := gset Z) a), (He a), elem_of_difference. split.
    + apply elem_of_dom. exists d. by apply attached_lookup.
    + rewrite elem_of_list_to_set. intros Ho. by apply (own_registered Has a).
  - intros Hall. replace (base.size (busy s)) with 0%nat; [lia |]. symmetry.
    apply size_empty_iff. intros a. split; [| by intros ?%elem_of_empty].
    intros [[d Hd]%elem_of_dom Hno]%elem_of_difference.
    apply attached_lookup in Hd as [Hd Hdet]. rewrite elem_of_list_to_set in Hno.
    assert (Ha : a ∈ registered).
    { destruct (proj1 (d_dom _ _ (i_descriptors _ _ _ Hinv) a)); [by exists d | done | done]. }
    by rewrite (Hall a d Ha Hd) in Hdet.
Qed.

(** * Iterations *)
Abbreviation run_iteration :=
  (iteration threshold timerfd_settime operator_new script clients).
Abbreviation run_loop := (loop threshold timerfd_settime operator_new script clients).

Record inputs_ok (inp : inputs) : Prop := {
  in_check : Forall external_ok (before_check inp);
  in_blocked : Forall external_ok (while_blocked inp);
  in_waits : waits_ok (waits inp);
  in_functors : Forall external_ok (before_functors inp);
  in_timers : Forall external_ok (before_timers inp)
}.

Definition duration (inp : inputs) : Z :=
  elapsed (before_check inp) + elapsed (while_blocked inp) +
  elapsed (before_functors inp) + elapsed (before_timers inp).

(** Whether the loop is going to leave. *)
Definition leaving (s : loop_state) : bool := _need_stop s && poller_is_idle s.

Lemma handle_functors_goes T s :
  assumptions -> loop_inv [] T s ->
  goes (handle_functors threshold timerfd_settime operator_new s)
    (fun s' => loop_inv [] T s' /\ _eventfd_triggered s' = false /\
       _timerfd_triggered s' = _timerfd_triggered s /\
       history s' = history s ++ (if _eventfd_triggered s then Invoked <$> queued s else []) /\
       (_need_stop s = true -> _need_stop s' = true)).
Proof.
  intros Has Hinv. unfold handle_functors. destruct (_eventfd_triggered s) eqn:Et.
  2:{ split; [done |]. by rewrite app_nil_r. }
  eapply goes_bind; [by apply (invoke_all_goes [] T) |].
  intros s1 (Hinv1 & [Fa Fe Ft Fh Fs Fl] & Hempty). simpl.
  split; [| by repeat split].
  destruct Hinv1 as [H1 H2 H3 H4 [H5a H5b H5c] H6]. constructor; try done.
  - intros i Hi. destruct (H4 i Hi) as [(q & Hq & Hqok & Hf & _) Hl]. constructor; [| done].
    exists q. repeat (split; [done |]). specialize (Hempty i). unfold content_of in Hempty.
    by rewrite Hq in Hempty.
Qed.

Lemma handle_timers_goes T s :
  assumptions -> loop_inv [] T s -> T <= horizon ->
  goes (handle_timers threshold timerfd_settime operator_new script s)
    (fun s' => loop_inv [] T s' /\ _eventfd_triggered s' = _eventfd_triggered s /\
       _timerfd_triggered s' = false /\
       history s' = history s ++ (if _timerfd_triggered s then [Expired (clock s)] else []) /\
       (_need_stop s = true -> _need_stop s' = true) /\
       (_timerfd_triggered s = true -> fired s' = None)).
Proof.
  intros Has Hinv HT. unfold handle_timers. destruct (_timerfd_triggered s) eqn:Et.
  2:{ split; [done |]. rewrite app_nil_r. by repeat split. }
  eapply goes_bind; [by apply (expire_goes [] T) |].
  intros s1 (Hinv1 & [Fa Fe Ft Fh Fs Fl] & Hf & _). simpl.
  split; [| by repeat split].
  destruct Hinv1 as [H1 H2 H3 H4 [H5a H5b H5c] H6]. constructor; try done.
  intros i Hi. by destruct (H4 i Hi).
Qed.

(** What one iteration does, from the top of the loop. *)
Definition iteration_result (inp : inputs) (T : Z) (s : loop_state) (o : outcome K Q) : Prop :=
  exists s1, surroundings (before_check inp) s = Ok s1 /\ meanwhile s s1 /\
    match o with
    | Returns s' => leaving s1 = true /\
        (exists s2 : loop_state,
           surroundings (before_functors inp) s1 = Ok s2 /\ meanwhile s1 s2 /\
           history s' = history s ++ (Invoked <$> queued s2) ++ [Expired (clock s')]) /\
        (before_timers inp = [] -> forall i, content_of s' i = []) /\
        (exists T', T <= T' <= T + duration inp /\ loop_inv [] T' s') /\
        fired s' = None /\ _need_stop s' = true
    | Blocked s' => leaving s1 = false /\ epoll_wait_loop (waits inp) = None /\ surroundings (while_blocked inp) s1 = Ok s' /\
        meanwhile s1 s' /\ exists T', T <= T' <= T + duration inp /\ loop_ok T' s'
    | Continues s' => leaving s1 = false /\
        exists (s2 : loop_state) evs (s3 : loop_state),
          surroundings (while_blocked inp) s1 = Ok s2 /\ meanwhile s1 s2 /\
          waited (waits inp) evs /\
          (forall i, content_of s2 i `prefix_of` content_of s3 i) /\
          (exists now,
             history s' = history s ++ (Dispatched <$> (data_ptr <$> evs)) ++
               (if existsb is_eventfd (data_ptr <$> evs) then Invoked <$> queued s3 else []) ++
               (if existsb (fun a => a =? timerfd_address) (data_ptr <$> evs)
                then [Expired now] else []) /\ ns (clock s2) <= ns now) /\
          (_need_stop s2 = true -> _need_stop s' = true) /\
          loop_ok (T + duration inp) s'
    end.

Lemma leave_loop_goes inp T T0 s s0 :
  assumptions -> inputs_ok inp -> loop_inv [] T s -> T0 <= T -> _need_stop s = true ->
  T + elapsed (before_functors inp) + elapsed (before_timers inp) <= T0 + duration inp ->
  T0 + duration inp <= horizon ->
  surroundings (before_check inp) s0 = Ok s -> meanwhile s0 s -> leaving s = true ->
  match leave_loop threshold timerfd_settime operator_new script inp s with
  | Ok o => iteration_result inp T0 s0 o
  | Err _ => may_cancel = true
  end.
Proof.
  intros Has Hin Hinv HT0 Hstop Hdur Hh Es Hm0 Hl. unfold leave_loop.
  pose proof (elapsed_nonneg (before_functors inp)). pose proof (elapsed_nonneg (before_timers inp)).
  destruct (surroundings_ok [] T _ s Has (in_functors _ Hin) Hinv) as (s2 & E2 & Hinv2 & Hm2).
  rewrite E2.
  pose proof (invoke_all_goes [] _ s2 Has Hinv2) as Hg3.
  destruct (_invoke_all_functors _ _ _ s2) as [s3 |]; [| done].
  destruct Hg3 as (Hinv3 & F3 & Hempty).
  destruct (surroundings_ok [] _ _ s3 Has (in_timers _ Hin) Hinv3) as (s4 & E4 & Hinv4 & Hm4).
  rewrite E4.
  pose proof (expire_goes [] _ s4 Has Hinv4) as Hg5.
  destruct (expire_timers _ _ _ _ s4) as [s5 |]; [| apply Hg5; lia].
  destruct Hg5 as (Hinv5 & F5 & Hfired & Hq5); [lia |].
  exists s. split; [done |]. split; [done |]. split; [done |].
  pose proof (i_clock _ _ _ Hinv4) as [Hc4 _]. pose proof (i_clock _ _ _ Hinv5) as [Hc5 _].
  assert (Hclock : clock s4 = clock s5).
  { unfold ns in *. destruct (clock s4), (clock s5). simpl in *. congruence. }
  split; [| split; [| split; [| split; [done |]]]].
  - exists s2. split; [done |]. split; [done |].
    rewrite <- Hclock, (f_history _ _ _ F5), (f_history _ _ _ (m_frame _ _ Hm4)), (f_history _ _ _ F3),
      (f_history _ _ _ (m_frame _ _ Hm2)), (f_history _ _ _ (m_frame _ _ Hm0)).
    by rewrite !app_nil_r, <- app_assoc.
  - intros Hnil i. rewrite Hnil in E4. injection E4 as <-.
    unfold content_of. rewrite Hq5. apply (Hempty i).
  - eexists. split; [| exact Hinv5]. lia.
  - apply (f_stop _ _ _ F5), (f_stop _ _ _ (m_frame _ _ Hm4)), (f_stop _ _ _ F3),
      (f_stop _ _ _ (m_frame _ _ Hm2)), Hstop.
Qed.

(** The part of an iteration after [epoll_wait] has returned: [evs] were reported. *)
Lemma after_wait_goes inp T s rem :
  assumptions -> inputs_ok inp -> loop_inv rem T s -> report_ok rem s ->
  _eventfd_triggered s = false -> _timerfd_triggered s = false ->
  T + elapsed (before_functors inp) + elapsed (before_timers inp) <= horizon ->
  match
    let* s := dispatch_all threshold timerfd_settime operator_new clients rem s in
    let* s := surroundings (before_functors inp) s in
    let* s := handle_functors threshold timerfd_settime operator_new s in
    let* s := surroundings (before_timers inp) s in
    let* s := handle_timers threshold timerfd_settime operator_new script s in
    Ok (Continues s)
  with
  | Err _ => may_cancel = true
  | Ok o => exists s' s3 : loop_state, o = Continues s' /\
      (forall i, content_of s i `prefix_of` content_of s3 i) /\
      (exists now,
         history s' = history s ++ (Dispatched <$> rem) ++
           (if existsb is_eventfd rem then Invoked <$> queued s3 else []) ++
           (if existsb (fun a => a =? timerfd_address) rem then [Expired now] else []) /\
         ns (clock s) <= ns now) /\
      (_need_stop s = true -> _need_stop s' = true) /\
      loop_ok (T + elapsed (before_functors inp) + elapsed (before_timers inp)) s'
  end.
Proof.
  intros Has Hin Hinv Hrep He0 Ht0 Hh.
  pose proof (elapsed_nonneg (before_functors inp)). pose proof (elapsed_nonneg (before_timers inp)).
  pose proof (dispatch_all_goes rem T s Has Hrep Hinv) as Hg1.
  destruct (dispatch_all _ _ _ _ rem s) as [s1 |]; [| done].
  destruct Hg1 as [Hinv1 [Pa Pq Ps Ph Pe Pt]]. rewrite He0, Ht0 in *. simpl in Pe, Pt.
  destruct (surroundings_ok [] _ _ s1 Has (in_functors _ Hin) Hinv1) as (s2 & -> & Hinv2 & [F2 Q2 _]).
  pose proof (handle_functors_goes _ s2 Has Hinv2) as Hg3.
  destruct (handle_functors _ _ _ s2) as [s3 |]; [| done].
  destruct Hg3 as (Hinv3 & He3 & Ht3 & Hh3 & Hs3).
  destruct (surroundings_ok [] _ _ s3 Has (in_timers _ Hin) Hinv3) as (s4 & -> & Hinv4 & [F4 Q4 _]).
  pose proof (handle_timers_goes _ s4 Has Hinv4) as Hg5.
  destruct (handle_timers _ _ _ _ s4) as [s5 |]; [| apply Hg5; lia].
  destruct Hg5 as (Hinv5 & He5 & Ht5 & Hh5 & Hs5 & _); [lia |].
  assert (Het2 : _eventfd_triggered s2 = existsb is_eventfd rem).
  { by rewrite (f_eventfd _ _ _ F2), Pe. }
  assert (Ht4 : _timerfd_triggered s4 = existsb (fun a => a =? timerfd_address) rem).
  { by rewrite (f_timerfd _ _ _ F4), Ht3, (f_timerfd _ _ _ F2), Pt. }
  exists s5, s2. split; [done |]. split; [| split; [| split]].
  - intros i. specialize (Q2 i). unfold content_of in *. by rewrite Pq in Q2.
  - exists (clock s4). split.
    + rewrite Hh5, (f_history _ _ _ F4), Hh3, (f_history _ _ _ F2), Ph, !app_nil_r, Het2, Ht4.
      by rewrite <- !app_assoc.
    + destruct (i_clock _ _ _ Hinv), (i_clock _ _ _ Hinv4). lia.
  - intros Hst. apply Hs5, (f_stop _ _ _ F4), Hs3, (f_stop _ _ _ F2), Ps, Hst.
  - split; [done |]. split; [| done]. by rewrite He5, (f_eventfd _ _ _ F4).
Qed.

Lemma iteration_goes inp T s :
  assumptions -> inputs_ok inp -> loop_ok T s -> T + duration inp <= horizon ->
  match run_iteration inp s with
  | Ok o => iteration_result inp T s o
  | Err _ => may_cancel = true
  end.
Proof.
  intros Has Hin (Hinv & He & Ht) Hh. unfold iteration.
  pose proof (elapsed_nonneg (before_check inp)). pose proof (elapsed_nonneg (while_blocked inp)).
  pose proof (elapsed_nonneg (before_functors inp)). pose proof (elapsed_nonneg (before_timers inp)).
  destruct (surroundings_ok [] _ _ s Has (in_check _ Hin) Hinv) as (s1 & E1 & Hinv1 & Hm1).
  rewrite E1. change (_need_stop s1 && poller_is_idle s1) with (leaving s1).
  destruct (leaving s1) eqn:El.
  { apply (leave_loop_goes inp (T + elapsed (before_check inp))); try done;
      [lia | | unfold duration; lia].
    unfold leaving in El. by apply andb_true_iff in El as [-> _]. }
  destruct (surroundings_ok [] _ _ s1 Has (in_blocked _ Hin) Hinv1) as (s2 & E2 & Hinv2 & Hm2).
  rewrite E2. pose proof Hm1 as [[_ He1 Ht1 Hh1 Hs1 _] _ _]. pose proof Hm2 as [[_ He2 Ht2 Hh2 Hs2 _] _ _].
  pose proof (poll_reports _ (waits inp) s2 (in_waits _ Hin) Hinv2) as Hp.
  destruct (poll (waits inp) s2) as [r |] eqn:Ep.
  2:{ exists s1. repeat (split; [done |]).
      split; [by unfold poll, poll_for_active_events_of_all_fds in Ep; destruct (epoll_wait_loop _) |].
      repeat (split; [done |]). exists (T + elapsed (before_check inp) + elapsed (while_blocked inp)).
      split; [unfold duration; lia |]. split; [done |]. split; congruence. }
  destruct Hp as (evs & s3 & Hev & -> & Hinv3 & Hrep & Hq3 & He3 & Ht3 & Hh3 & Hs3 & _).
  pose proof (after_wait_goes inp _ s3 _ Has Hin Hinv3 Hrep) as Hg.
  destruct (let* s4 := dispatch_all _ _ _ _ _ s3 in _) as [o |];
    [| apply Hg; [congruence | congruence | unfold duration in *; lia]].
  destruct Hg as (s' & s4 & -> & Hq4 & (now & Hh4 & Hnow) & Hs4 & Hok);
    [congruence | congruence | unfold duration in *; lia |].
  exists s1. repeat (split; [done |]). exists s2, evs, s4. repeat (split; [done |]).
  split; [| split; [| split]].
  - intros i. specialize (Hq4 i). unfold content_of in *. by rewrite Hq3 in Hq4.
  - exists now. split; [by rewrite Hh4, Hh3, Hh2, Hh1, !app_nil_r |].
    destruct (i_clock _ _ _ Hinv2), (i_clock _ _ _ Hinv3). lia.
  - intros Hst. apply Hs4. by rewrite Hs3.
  - unfold duration. by rewrite !Z.add_assoc in *.
Qed.

(** * The loop *)
Definition total (inps : list inputs) : Z := foldr (fun inp d => duration inp + d) 0 inps.

Lemma duration_nonneg inp : 0 <= duration inp.
Proof.
  unfold duration.
  pose proof (elapsed_nonneg (before_check inp)). pose proof (elapsed_nonneg (while_blocked inp)).
  pose proof (elapsed_nonneg (before_functors inp)). pose proof (elapsed_nonneg (before_timers inp)).
  lia.
Qed.

Lemma total_nonneg inps : 0 <= total inps.
Proof.
  induction inps as [| inp inps IH]; simpl; [done |]. pose proof (duration_nonneg inp). lia.
Qed.

(** A thread blocked in [epoll_wait] in state [s] has nothing to do that it does
    not know of, and the size of its poller counts the clients' descriptors. *)
Definition nothing_forgotten (s : loop_state) : Prop :=
  (forall i, content_of s i <> [] ->
     _eventfd_pilot_lamps s !! i = Some true /\
     exists d, descriptors s !! eventfd_address i = Some d /\
       counter (kernel_of s) (_fd d) = Some 1 /\ _fd d ∈ edges s) /\
  (_timer_container (_timers s) <> [] ->
     (exists a, it_value (_timers s) = TimePoint.to_timespec a /\
        forall e, e ∈ _timer_container (_timers s) -> ns a <= ns e.1 + threshold) \/
     (timer_unread s = true /\
      exists d, descriptors s !! timerfd_address = Some d /\ _fd d ∈ edges s)) /\
  size (_event_poller s) = 1 + Z.of_nat n + Z.of_nat (base.size (busy s)).

Lemma lamp_on_ready T s i :
  loop_inv [] T s -> (i < n)%nat -> _eventfd_pilot_lamps s !! i = Some true ->
  exists d, descriptors s !! eventfd_address i = Some d /\
    counter (kernel_of s) (_fd d) = Some 1 /\ _fd d ∈ edges s.
Proof.
  intros Hinv Hi Hl. destruct (i_queues _ _ _ Hinv i Hi) as [_ (lamp & d & Hl' & Hd & Hc & _ & He)].
  assert (lamp = true) as -> by congruence. exists d. split; [done |]. split; [done |].
  destruct (He eq_refl) as [? | Hr]; [done | by apply elem_of_nil in Hr].
Qed.

Lemma content_index T rem s i : loop_inv rem T s -> content_of s i <> [] -> (i < n)%nat.
Proof.
  intros Hinv Hc. unfold content_of in Hc.
  destruct (_functor_blocking_queues s !! i) eqn:E; [| done].
  apply lookup_lt_Some in E. destruct (i_lengths _ _ _ Hinv). lia.
Qed.

Lemma queued_lamp T s i :
  loop_ok T s -> content_of s i <> [] -> _eventfd_pilot_lamps s !! i = Some true.
Proof.
  intros (Hinv & He & _) Hc. pose proof (content_index _ _ _ _ Hinv Hc) as Hi.
  destruct (i_queues _ _ _ Hinv i Hi) as [(q & Hq & _ & _ & Hw) _].
  unfold content_of in Hc. rewrite Hq in Hc. destruct (Hw Hc); [done | congruence].
Qed.

Lemma loop_ok_nothing_forgotten T s : assumptions -> loop_ok T s -> nothing_forgotten s.
Proof.
  intros Has Hok. pose proof Hok as (Hinv & He & Ht). split; [| split].
  - intros i Hc. pose proof (queued_lamp _ _ _ Hok Hc) as Hl. split; [done |].
    eapply lamp_on_ready; [done | by eapply content_index | done].
  - pose proof (i_timers _ _ _ Hinv) as [(Hs & _ & Ha) _ Hp]. unfold alarm_state in Ha.
    destruct (_timer_container (_timers s)) as [| e c] eqn:Ec; [done |]. intros _.
    destruct Ha as [[Ha | [_ (now & Hf & _)]] Hnext].
    + left. eexists. split; [done |]. intros x Hx.
      pose proof (sorted_head_le _ _ _ Hs Hx). lia.
    + right. destruct Hp as [[Hu [Hd | Hr]] | Hp]; [by rewrite Hf | done | | congruence].
      by apply elem_of_nil in Hr.
  - by eapply poller_size.
Qed.

(** C2: However long the loop runs, with whatever its clients, other threads and the
    kernel do: it does not fail (unless a functor or callback cancels a timer that
    is gone), whenever it is about to block or blocked nothing is forgotten, and it
    only returns when it was asked to stop. *)
Theorem loop_never_sleeps_on_work inps T s
    (Has : assumptions) (Hin : Forall inputs_ok inps) (Hok : loop_ok T s)
    (Hh : T + total inps <= horizon) :
  match run_loop inps s with
  | Ok (Continues s') | Ok (Blocked s') => nothing_forgotten s' /\ exists T', loop_ok T' s'
  | Ok (Returns s') => _need_stop s' = true /\ fired s' = None /\ exists T', loop_inv [] T' s'
  | Err _ => may_cancel = true
  end.
Proof.
  revert T s Hok Hh. induction Hin as [| inp inps Hinp Hin IH]; intros T s Hok Hh; simpl in *.
  { split; [by eapply loop_ok_nothing_forgotten | by exists T]. }
  pose proof (duration_nonneg inp).
  pose proof (total_nonneg inps).
  pose proof (iteration_goes inp T s Has Hinp Hok) as Hg. simpl in Hg.
  destruct (run_iteration inp s) as [[s' | s' | s'] |]; [| | | apply Hg; lia].
  - destruct Hg as (s1 & _ & _ & _ & s2 & evs & s3 & _ & _ & _ & _ & _ & _ & Hok'); [lia |].
    apply (IH (T + duration inp) s' Hok'). lia.
  - destruct Hg as (s1 & _ & _ & _ & _ & _ & _ & T' & _ & Hok'); [lia |].
    split; [by eapply loop_ok_nothing_forgotten | by exists T'].
  - destruct Hg as (s1 & _ & _ & _ & _ & _ & (T' & _ & Hinv') & Hf & Hs); [lia |].
    split; [done |]. split; [done | by exists T'].
Qed.

(** C25: One iteration, in order.  If the flag is set and no client's descriptor is in
    the poller, it runs what is queued, queue by queue, expires the timers and
    returns.  Otherwise it waits, dispatches what was reported in the order of the
    report, runs what is queued if an eventfd was among it, and expires the timers
    if the timer's descriptor was. *)
Theorem iteration_in_order inp T s
    (Has : assumptions) (Hin : inputs_ok inp) (Hok : loop_ok T s)
    (Hh : T + duration inp <= horizon) :
  match run_iteration inp s with
  | Ok o => iteration_result inp T s o
  | Err _ => may_cancel = true
  end.
Proof. by apply iteration_goes. Qed.

(** * Liveness, given what [epoll_wait] promises *)
Definition ready_eventfd (i : nat) (s : loop_state) : Prop :=
  (i < n)%nat /\ exists d c, descriptors s !! eventfd_address i = Some d /\ _fd d ∈ edges s /\
    counter (kernel_of s) (_fd d) = Some c /\ 0 < c.

(** The timer expired and was neither read nor set since: its timers wait. *)
Definition ready_timer (s : loop_state) : Prop :=
  timer_unread s = true /\ it_value (_timers s) = disarmed /\
  _timer_container (_timers s) <> [] /\
  exists d, descriptors s !! timerfd_address = Some d /\ _fd d ∈ edges s.

(** [epoll_wait] does not block when one of the loop's descriptors is ready, and
    reports all of them (the array has room for every descriptor). *)
Definition kernel_promise (ws : list wait_result) (s : loop_state) : Prop :=
  (forall i, ready_eventfd i s ->
     exists evs, waited ws evs /\ eventfd_address i ∈ data_ptr <$> evs) /\
  (ready_timer s -> exists evs, waited ws evs /\ timerfd_address ∈ data_ptr <$> evs).

Lemma lamp_ready T s i :
  loop_inv [] T s -> (i < n)%nat -> _eventfd_pilot_lamps s !! i = Some true -> ready_eventfd i s.
Proof.
  intros Hinv Hi Hl. destruct (lamp_on_ready T s i Hinv Hi Hl) as (d & Hd & Hc & He).
  split; [done |]. exists d, 1. done.
Qed.

Lemma waited_unique ws evs evs' : waited ws evs -> waited ws evs' -> evs = evs'.
Proof. intros [w1 E1] [w2 E2]. congruence. Qed.

Lemma queued_elem i f (s : loop_state) : (i < n)%nat -> f ∈ content_of s i -> f ∈ queued s.
Proof.
  intros Hi Hf. apply list_elem_of_In, in_concat. exists (content_of s i).
  split; apply list_elem_of_In; [| done]. apply list_elem_of_fmap_2, elem_of_seq. lia.
Qed.

Lemma existsb_elem {A} (p : A -> bool) (l : list A) x : x ∈ l -> p x = true -> existsb p l = true.
Proof. intros Hx Hp. apply existsb_exists. exists x. split; [by apply list_elem_of_In | done]. Qed.

(** The states an iteration goes through before [epoll_wait] returns. *)
Lemma before_wait T inp s s1 s2 :
  assumptions -> inputs_ok inp -> loop_ok T s ->
  surroundings (before_check inp) s = Ok s1 -> surroundings (while_blocked inp) s1 = Ok s2 ->
  (exists T', loop_ok T' s2) /\ meanwhile s s1 /\ meanwhile s1 s2.
Proof.
  intros Has Hin (Hinv & He & Ht) E1 E2.
  destruct (surroundings_ok [] _ _ s Has (in_check _ Hin) Hinv) as (x & Ex & Hinv1 & Hm1).
  assert (x = s1) as -> by congruence.
  destruct (surroundings_ok [] _ _ s1 Has (in_blocked _ Hin) Hinv1) as (y & Ey & Hinv2 & Hm2).
  assert (y = s2) as -> by congruence.
  split; [| done]. eexists. split; [done |]. destruct Hm1 as [[] _ _], Hm2 as [[] _ _].
  split; congruence.
Qed.

Lemma existsb_reports ws evs a (p : Z -> bool) :
  waited ws evs -> (exists evs', waited ws evs' /\ a ∈ data_ptr <$> evs') -> p a = true ->
  existsb p (data_ptr <$> evs) = true.
Proof.
  intros Hw (evs' & Hw' & Ha) Hp. rewrite (waited_unique _ _ _ Hw Hw').
  by eapply existsb_elem.
Qed.

(** C3: Whatever is queued when [epoll_wait] is left has run when the iteration ends,
    and timers that were waiting for their alarm have been expired. *)
Theorem work_is_done inp T s s1 s2 o
    (Has : assumptions) (Hin : inputs_ok inp) (Hok : loop_ok T s)
    (Hh : T + duration inp <= horizon) (Hrun : run_iteration inp s = Ok o)
    (E1 : surroundings (before_check inp) s = Ok s1) (Hl : leaving s1 = false)
    (E2 : surroundings (while_blocked inp) s1 = Ok s2)
    (Hp : kernel_promise (waits inp) s2)
    (Hwork : (exists i, content_of s2 i <> []) \/ ready_timer s2) :
  exists s' h, o = Continues s' /\ history s' = history s ++ h /\
    (forall i f, f ∈ content_of s2 i -> Invoked f ∈ h) /\
    (ready_timer s2 -> exists now, Expired now ∈ h /\ ns (clock s2) <= ns now).
Proof.
  destruct (before_wait T inp s s1 s2 Has Hin Hok E1 E2) as ((T2 & Hok2) & _ & _).
  pose proof Hok2 as (Hinv2 & _ & _). destruct Hp as [Hpe Hpt].
  assert (Hev : forall i, content_of s2 i <> [] -> ready_eventfd i s2).
  { intros i Hc. eapply lamp_ready; [done | by eapply content_index | by eapply queued_lamp]. }
  pose proof (iteration_goes inp T s Has Hin Hok Hh) as Hg. rewrite Hrun in Hg.
  destruct Hg as (x & Ex & _ & Hg). assert (x = s1) as -> by congruence.
  assert (Hwaits : exists evs, waited (waits inp) evs).
  { destruct Hwork as [[i Hc] | Ht].
    - destruct (Hpe i (Hev i Hc)) as (evs & Hw & _). by exists evs.
    - destruct (Hpt Ht) as (evs & Hw & _). by exists evs. }
  destruct o as [s' | s' | s']; [| | by destruct Hg; congruence].
  2:{ destruct Hg as (_ & Hnone & _). destruct Hwaits as (evs & ws' & Hw). congruence. }
  destruct Hg as (_ & y & evs & s3 & Ey & _ & Hw & Hq & (now & Hh3 & Hnow) & _ & Hok3).
  assert (y = s2) as -> by congruence.
  exists s'. eexists. split; [done |]. split; [exact Hh3 |]. split.
  - intros i f Hf. apply elem_of_app. right. apply elem_of_app. left.
    assert (Hc : content_of s2 i <> []) by (intros E; rewrite E in Hf; by apply elem_of_nil in Hf).
    rewrite (existsb_reports _ _ _ _ Hw (Hpe i (Hev i Hc))) by (apply is_eventfd_true, (Hev i Hc)).
    apply list_elem_of_fmap_2, (queued_elem i); [apply (Hev i Hc) |].
    destruct (Hq i) as [k ->]. apply elem_of_app. by left.
  - intros Ht. exists now. split; [| done]. apply elem_of_app. right. apply elem_of_app. right.
    rewrite (existsb_reports _ _ timerfd_address _ Hw (Hpt Ht)) by apply Z.eqb_refl.
    apply elem_of_cons. by left.
Qed.

Lemma asked_to_stop T es s s' :
  assumptions -> Forall external_ok es -> OtherAskToStop ∈ es -> loop_inv [] T s ->
  surroundings es s = Ok s' ->
  _need_stop s' = true /\ _eventfd_pilot_lamps s' !! 0%nat = Some true.
Proof.
  intros Has Hes. revert T s. induction Hes as [| e es He Hes IH]; intros T s Hin Hinv E.
  { by apply elem_of_nil in Hin. }
  simpl in E. destruct (external_goes [] T e s Has He Hinv) as (s1 & E1 & Hinv1 & _).
  rewrite E1 in E. apply elem_of_cons in Hin as [<- | Hl]; [| by eapply IH].
  destruct (surroundings_ok [] _ _ s1 Has Hes Hinv1) as (x & Ex & _ & [[_ _ _ _ Hs Hlamp] _ _]).
  assert (x = s') as -> by congruence.
  destruct (wake_up_ok [] T 0 (with_stop true s) (own_distinct Has) (some_queue Has))
    as (y & Ey & _ & _ & Hl0 & Hs0 & _); [by apply with_stop_inv |].
  simpl in E1. unfold ask_to_stop in E1. assert (y = s1) as -> by congruence. auto.
Qed.

Lemma leaving_same T rem s s' :
  assumptions -> loop_inv rem T s -> meanwhile s s' -> (exists T', loop_inv rem T' s') ->
  _need_stop s = true -> poller_is_idle s = true -> leaving s' = true.
Proof.
  intros Has Hinv [[_ _ _ _ Hs _] _ Hd] [T' Hinv'] Hst Hidle. unfold leaving.
  rewrite (Hs Hst). simpl. rewrite (poller_is_idle_iff _ _ _ Has Hinv').
  rewrite Hd. by apply (poller_is_idle_iff _ _ _ Has Hinv).
Qed.

(** C16: Another thread asks the loop to stop while it is blocked: the loop wakes up,
    and returns at its next turn if its clients have left the poller by then. *)
Theorem stop_is_heeded inp1 inp2 T s s1 s2 o
    (Has : assumptions) (Hin1 : inputs_ok inp1) (Hin2 : inputs_ok inp2) (Hok : loop_ok T s)
    (Hh : T + duration inp1 + duration inp2 <= horizon)
    (E1 : surroundings (before_check inp1) s = Ok s1) (Hl : leaving s1 = false)
    (E2 : surroundings (while_blocked inp1) s1 = Ok s2)
    (Hask : OtherAskToStop ∈ while_blocked inp1) (Hp : kernel_promise (waits inp1) s2)
    (Hidle : forall s', run_iteration inp1 s = Ok (Continues s') -> poller_is_idle s' = true)
    (Hrun : run_loop [inp1; inp2] s = Ok o) :
  exists s', o = Returns s'.
Proof.
  destruct (before_wait T inp1 s s1 s2 Has Hin1 Hok E1 E2) as ((T2 & Hok2) & _ & _).
  pose proof Hok as (Hinv & _ & _). pose proof Hok2 as (Hinv2 & _ & _).
  destruct (surroundings_ok [] _ _ s Has (in_check _ Hin1) Hinv) as (x & Ex & Hinv1 & _).
  assert (x = s1) as -> by congruence.
  destruct (asked_to_stop _ _ _ s2 Has (in_blocked _ Hin1) Hask Hinv1 E2) as [Hs2 Hlamp].
  destruct (proj1 Hp 0%nat (lamp_ready _ _ 0 Hinv2 (some_queue Has) Hlamp)) as (evs & [ws Hw] & _).
  cbn [loop] in Hrun. pose proof (duration_nonneg inp1). pose proof (duration_nonneg inp2).
  pose proof (iteration_goes inp1 T s Has Hin1 Hok) as Hg1.
  destruct (run_iteration inp1 s) as [o1 |]; [| done].
  destruct Hg1 as (y & Ey & _ & Hg1); [lia |]. assert (y = s1) as -> by congruence.
  destruct o1 as [s' | s' | s']; [| | by destruct Hg1; congruence].
  2:{ destruct Hg1 as (_ & Hnone & _). congruence. }
  destruct Hg1 as (_ & z & evs' & s3 & Ez & _ & _ & _ & _ & Hs' & Hok').
  assert (z = s2) as -> by congruence. pose proof Hok' as (Hinv' & _ & _).
  pose proof (iteration_goes inp2 _ s' Has Hin2 Hok') as Hg2.
  destruct (run_iteration inp2 s') as [o2 |]; [| done].
  destruct Hg2 as (s4 & E4 & Hm4 & Hg2); [lia |].
  destruct (surroundings_ok [] _ _ s' Has (in_check _ Hin2) Hinv') as (w & Ew & Hinv4 & _).
  assert (w = s4) as -> by congruence.
  assert (Hl4 : leaving s4 = true).
  { apply (leaving_same (T + duration inp1) [] s'); [done | done | done | by eexists; exact Hinv4
      | by apply Hs' | by apply Hidle]. }
  destruct o2 as [s5 | s5 | s5]; [by destruct Hg2; congruence .. |].
  exists s5. congruence.
Qed.

(** While a client's descriptor is in the poller, the loop does not return. *)
Theorem busy_loop_continues inp T s s1 a d
    (Has : assumptions) (Hin : inputs_ok inp) (Hok : loop_ok T s)
    (Hh : T + duration inp <= horizon)
    (E1 : surroundings (before_check inp) s = Ok s1)
    (Ha : a ∈ registered) (Hd : descriptors s1 !! a = Some d) (Hb : _is_detached d = false) :
  forall s', run_iteration inp s <> Ok (Returns s').
Proof.
  intros s' Hrun. pose proof Hok as (Hinv & _ & _).
  pose proof (iteration_goes inp T s Has Hin Hok Hh) as Hg. rewrite Hrun in Hg.
  destruct Hg as (x & Ex & _ & Hl & _). assert (x = s1) as -> by congruence.
  destruct (surroundings_ok [] _ _ s Has (in_check _ Hin) Hinv) as (y & Ey & Hinv1 & _).
  assert (y = s1) as -> by congruence.
  apply andb_true_iff in Hl as [_ Hi].
  rewrite (proj1 (poller_is_idle_iff _ _ _ Has Hinv1) Hi a d Ha Hd) in Hb. done.
Qed.
End Invariant.
