(* ===== verification/EventLoopLife.v ===== *)
(** The life of an event loop: what its constructor sets up, what its destructor
    takes down, and a concrete loop for the theorems of [EventLoopInvariant]. *)
From S2P Require Import Prelude TimePoint Timer TimerContainer EventLoopTimers Poller FunctorQueue Descriptors EventLoop EventLoopInvariant BlockingQueue.
Open Scope Z_scope.

Section Life.
Set Default Proof Using "All".
Context {K Q : Type} {HE : Epoll K} {HEl : EpollLaws K} {HD : Descriptors K}
  {HDl : DescriptorLaws K} {HQ : FunctorQueue Q FunctorType}
  {HQl : FunctorQueueLaws Q FunctorType}.
Context (threshold horizon : Z).
Context (timerfd_settime : timespec -> settime_outcome).
Context (operator_new : timer_heap -> ptr).
Context (new_queue : Q).
Context (eventfd_address : nat -> Z) (timerfd_address : Z).
Context (may_cancel : bool).

Abbreviation loop_state := (EventLoop K Q).
Abbreviation own := (own eventfd_address timerfd_address).

Record surroundings_fine (n : nat) (now : Z) : Prop := {
  l_env : environment_ok threshold timerfd_settime operator_new;
  l_horizon : 0 <= now <= horizon /\ horizon + 6 * TimeInterval.SECOND < limit threshold;
  l_queue : q_ok new_queue /\ contents new_queue = [];
  l_distinct : NoDup (own n)
}.

(** * A descriptor of the loop joins the table *)
Lemma construct_own ds p a fd k :
  table_ok ds p -> table_covers p -> ds !! a = None -> opens (kernel p) fd k ->
  match message_fd_construct a fd (with_kernel k p) with
  | Err e => e = Fatal
  | Ok (d, p') => d = fresh_message_fd a fd /\ table_ok (<[a := d]> ds) p' /\ table_covers p' /\
      nonblocking fd (kernel p') /\ counter (kernel p') = counter k /\
      (fd ∉ opened (kernel p)) /\ opened (kernel p') = {[fd]} ∪ opened (kernel p) /\
      interest (kernel p') = interest (kernel p) /\
      (forall fd', fd' <> fd -> fcntl_getfl fd' (kernel p') = fcntl_getfl fd' (kernel p))
  end.
Proof.
  intros Hok Hcov Ha Hop. destruct (decide (fd = -1)) as [-> | Hne]; [done |].
  destruct (message_fd_construct_ok a fd k p (tb_poller _ _ Hok) Hcov Hop Hne)
    as (p' & -> & Hm & Hp' & Hcov' & Hnb & Hc & Ho & Hi & _ & Hmd & Hl).
  destruct Hop as [[-> _] | (Hno & _)]; [done |].
  split; [done |]. split; [| by repeat split].
  apply (table_insert ds p); try done; [by apply (table_new_fd ds p) | rewrite Ho; set_solver].
Qed.

Lemma start_own ds p a d :
  table_ok ds p -> table_covers p -> ds !! a = Some d -> d = fresh_message_fd a (_fd d) ->
  exists d' p', message_fd_start true (d, p) = Ok (d', p') /\ _fd d' = _fd d /\
    _is_detached d' = false /\ table_ok (<[a := d']> ds) p' /\ table_covers p' /\
    opened (kernel p') = opened (kernel p) /\ counter (kernel p') = counter (kernel p) /\
    forall fd, fcntl_getfl fd (kernel p') = fcntl_getfl fd (kernel p).
Proof.
  intros Hok Hcov Ha Hd. destruct (tb_mirror _ _ Hok a d Ha) as [Hm _].
  destruct (message_fd_start_ok d p Hm (tb_poller _ _ Hok)) as (p' & E & Hm' & Hp' & Hk & Hctl & _);
    [by rewrite Hd .. |].
  do 2 eexists. split; [exact E |]. split; [done |]. split; [done |].
  split; [by apply (table_update ds p a d) |].
  destruct (one_ctl_frame _ _ Hctl) as [Hc Hmd]. destruct Hk as (Hl & Ho & _).
  split; [| done]. intros limits Hlim. rewrite Hl. apply Hcov.
  destruct Hctl as [<- | (op & fd & ev & Ectl)]; [done |].
  destruct (ctl_frame _ _ _ _ _ Ectl) as (_ & <- & _). done.
Qed.

(** * The constructor, after [k] queues *)
Record building (old : gset Z) (now : TimePoint.t) (k : nat) (s : loop_state) : Prop := {
  b_table : table_ok (descriptors s) (_event_poller s);
  b_covers : table_covers (_event_poller s);
  b_dom a : is_Some (descriptors s !! a) <-> a ∈ own k;
  b_timerfd : exists fd, descriptors s !! timerfd_address = Some (fresh_message_fd timerfd_address fd);
  b_eventfd i : (i < k)%nat -> exists d, descriptors s !! eventfd_address i = Some d /\
    _is_detached d = false /\ counter (kernel_of s) (_fd d) = Some 0 /\
    nonblocking (_fd d) (kernel_of s);
  b_opened fd : fd ∈ opened (kernel_of s) <->
    fd ∈ old \/ fd = _epoll_fd s \/ exists a d, descriptors s !! a = Some d /\ _fd d = fd;
  b_old a d : descriptors s !! a = Some d -> (_fd d ∉ old) /\ _fd d <> _epoll_fd s;
  b_lists : _functor_blocking_queues s = replicate k new_queue /\
    _eventfd_pilot_lamps s = replicate k false /\ _eventfds s = eventfd_address <$> seq 0 k;
  b_rest : _timerfd s = timerfd_address /\ _timers s = new_loop_timers /\
    _eventfd_triggered s = false /\ _timerfd_triggered s = false /\ clock s = now /\
    fired s = None /\ _need_stop s = false /\ history s = [];
  b_epoll : _epoll_fd s ∉ old
}.

Lemma own_seq_S k :
  eventfd_address <$> seq 0 (S k) = (eventfd_address <$> seq 0 k) ++ [eventfd_address k].
Proof. by rewrite seq_S, fmap_app. Qed.

Lemma own_S k : own (S k) = own k ++ [eventfd_address k].
Proof. unfold EventLoopInvariant.own. by rewrite own_seq_S. Qed.

Lemma own_prefix k n :
  (k <= n)%nat -> own n = own k ++ (eventfd_address <$> seq k (n - k)).
Proof.
  intros Hk. unfold EventLoopInvariant.own. replace n with (k + (n - k))%nat at 1 by lia.
  by rewrite seq_app, fmap_app.
Qed.

(** The next queue's descriptor is a new one. *)
Lemma next_eventfd_new n old now k s :
  surroundings_fine n (ns now) -> (k < n)%nat -> building old now k s ->
  descriptors s !! eventfd_address k = None.
Proof.
  intros Hf Hk Hb. apply eq_None_not_Some. rewrite (b_dom _ _ _ _ Hb). intros Hin.
  pose proof (l_distinct _ _ Hf) as Hnd. rewrite (own_prefix (S k) n) in Hnd by lia.
  apply NoDup_app in Hnd as (Hnd & _ & _).
  rewrite own_S in Hnd. apply NoDup_app in Hnd as (_ & Hnd & _).
  apply (Hnd _ Hin). by apply list_elem_of_singleton.
Qed.

(** A started descriptor of the loop among those that are open. *)
Lemma opened_insert (ds : gmap Z PollableFd) (old : gset Z) (epfd fd x a : Z) d :
  ds !! a = None -> _fd d = fd ->
  x = fd \/ (x ∈ old \/ x = epfd \/ exists b e, ds !! b = Some e /\ _fd e = x) <->
  x ∈ old \/ x = epfd \/ exists b e, <[a := d]> ds !! b = Some e /\ _fd e = x.
Proof.
  intros Hnew Hd. split.
  - intros [-> | [Hx | [Hx | (b & e & Hb & <-)]]]; [right; right | by left | by right; left | right; right].
    + exists a, d. by rewrite lookup_insert_eq.
    + exists b, e. rewrite lookup_insert_ne; [done |]. intros Heq. by rewrite Heq, Hb in Hnew.
  - intros [Hx | [Hx | (b & e & Hb & <-)]]; [tauto | tauto |].
    apply lookup_insert_Some in Hb as [[<- <-] | [_ Hb]]; [by left |].
    right. right. right. by exists b, e.
Qed.

Lemma add_queue_ok n old now k s :
  surroundings_fine n (ns now) -> (k < n)%nat -> building old now k s ->
  match add_queue new_queue eventfd_address k s with
  | Ok s' => building old now (S k) s'
  | Err e => e = Fatal
  end.
Proof.
  intros Hf Hk Hbld. pose proof (next_eventfd_new _ _ _ _ _ Hf Hk Hbld) as Hnew.
  destruct Hbld as [Htab Hcov Hdom (tfd & Htfd) Hev Hop Hold (Eq & El & Ee) Hrest Hep].
  unfold add_queue, create_eventfd. simpl.
  destruct (sys_eventfd _DEFAULT_EVENTFD_FLAGS (kernel_of s)) as [fd kk] eqn:Efd.
  destruct (eventfd_opens _ _ _ _ Efd) as [Hopens Hcnt].
  pose proof (construct_own _ _ _ fd kk Htab Hcov Hnew Hopens) as Hc.
  destruct (message_fd_construct _ _ _) as [[d p] |]; [| done].
  destruct Hc as (Hd & Htab1 & Hcov1 & Hnb1 & Hcnt1 & Hno & Ho1 & Hi1 & Hmd1).
  assert (Hfdd : _fd d = fd) by (by rewrite Hd).
  destruct (start_own _ p (eventfd_address k) d Htab1 Hcov1) as
    (d' & p' & E & Hfd' & Hdet & Htab2 & Hcov2 & Ho2 & Hcnt2 & Hmd2);
    [by rewrite lookup_insert_eq | by rewrite Hfdd |].
  rewrite E, insert_insert_eq in *.
  assert (Hne : forall a e, descriptors s !! a = Some e -> _fd e <> fd).
  { by apply (table_new_fd _ (_event_poller s)). }
  assert (Hfd1 : fd <> -1).
  { destruct (tb_mirror _ _ Htab2 (eventfd_address k) d') as [[[[Hr _] _] _] _];
      [by rewrite lookup_insert_eq |]. lia. }
  destruct (Hcnt Hfd1) as [Hc0 Hcother].
  constructor; simpl; [done | done | | | | | | | done | done].
  - intros a. rewrite lookup_insert_is_Some', Hdom, own_S, elem_of_app, list_elem_of_singleton.
    naive_solver.
  - exists tfd. rewrite lookup_insert_ne; [done |]. intros Heq. by rewrite Heq in Hnew; rewrite Hnew in Htfd.
  - intros i Hi. unfold kernel_of. simpl. rewrite Hcnt2, Hcnt1.
    destruct (decide (i = k)) as [-> | Hik].
    + exists d'. rewrite lookup_insert_eq. split; [done |]. split; [done |].
      rewrite Hfd', Hfdd. split; [done |]. destruct Hnb1 as (fl & ? & ?). exists fl.
      by rewrite Hmd2.
    + destruct (Hev i ltac:(lia)) as (e & He & Hde & Hce & (fl & Hfl & Hb)).
      exists e. rewrite lookup_insert_ne by (intros Heq; by rewrite Heq, He in Hnew).
      split; [done |]. split; [done |]. rewrite Hcother by (by eapply Hne).
      split; [done |]. exists fl. by rewrite Hmd2, Hmd1 by (by eapply Hne).
  - intros x. unfold kernel_of. simpl. rewrite Ho2, Ho1, elem_of_union, elem_of_singleton.
    change (x ∈ opened (kernel (_event_poller s))) with (x ∈ opened (kernel_of s)). rewrite Hop.
    apply opened_insert; [done | congruence].
  - intros a e Ha. apply lookup_insert_Some in Ha as [[<- <-] | [_ Ha]]; [| by eapply Hold].
    rewrite Hfd', Hfdd. split; intros Hb; apply Hno; change (fd ∈ opened (kernel_of s));
      apply Hop; [by left | by right; left].
  - rewrite Eq, El, Ee. split; [| split]; [symmetry; apply (replicate_S_end k) .. |].
    symmetry. exact (own_seq_S k).
Qed.

Lemma add_queues_ok n old now m k s :
  surroundings_fine n (ns now) -> (k + m <= n)%nat -> building old now k s ->
  match add_queues new_queue eventfd_address (seq k m) s with
  | Ok s' => building old now (k + m) s'
  | Err e => e = Fatal
  end.
Proof.
  intros Hf. revert k s. induction m as [| m IH]; intros k s Hk Hb; simpl.
  { by rewrite Nat.add_0_r. }
  pose proof (add_queue_ok n old now k s Hf ltac:(lia) Hb) as Hq.
  destruct (add_queue _ _ k s) as [s1 |]; [| done].
  replace (k + S m)%nat with (S k + m)%nat by lia. apply IH; [lia | done].
Qed.

(** The poller and the timer's descriptor, before the first queue. *)
Lemma construct_poller_ok k :
  interest k = ∅ ->
  match construct_EventPoller k with
  | Err e => e = Fatal \/ e = Uncaught
  | Ok (epfd, p) => table_ok ∅ p /\ table_covers p /\ (epfd ∉ opened k) /\
      opened (kernel p) = {[epfd]} ∪ opened k /\ interest (kernel p) = ∅
  end.
Proof.
  intros Hi. unfold construct_EventPoller.
  destruct (sys_epoll_create1 k) as [epfd k1] eqn:E.
  destruct (epoll_create1_opens _ _ _ E) as [Hop _].
  destruct (epfd =? -1) eqn:Ee; [by left |]. apply Z.eqb_neq in Ee.
  destruct Hop as [[-> _] | (Hno & H0 & _ & _ & Ho & Hi1 & Hl & _)]; [done |].
  unfold get_limit_of_max_number_of_opened_file_descriptors_per_process.
  destruct (getrlimit_ok k1) as (soft & hard & Hg & Hr & Hh). rewrite Hg. simpl.
  destruct (_ <? _); [by right |].
  assert (Hint : interest k1 = ∅) by congruence.
  assert (Hlen : Z.of_nat (length (replicate (Z.to_nat soft) false)) = soft).
  { rewrite length_replicate. lia. }
  split; [| split; [| by repeat split]].
  - constructor; simpl; [by apply new_poller_ok | lia | done | done |].
    intros fd. rewrite Hint, lookup_empty. by intros [].
  - intros limits. simpl. rewrite Hg. intros [= <-]. simpl. lia.
Qed.

(** A loop as its constructor leaves it. *)
Record fresh_loop (n : nat) (k : K) (now : TimePoint.t) (s : loop_state) : Prop := {
  fr_ok : loop_ok threshold horizon eventfd_address timerfd_address n ∅ may_cancel (ns now) s;
  fr_covers : table_covers (_event_poller s);
  fr_stop : _need_stop s = false;
  fr_timers : exists p, _timer_container (_timers s)
    = [(TimePoint.mk (ns now + 3 * TimeInterval.SECOND), p)];
  fr_opened fd : fd ∈ opened (kernel_of s) <->
    fd ∈ opened k \/ fd = _epoll_fd s \/ exists a d, descriptors s !! a = Some d /\ _fd d = fd;
  fr_new a d : descriptors s !! a = Some d -> (_fd d ∉ opened k) /\ _fd d <> _epoll_fd s;
  fr_epoll : _epoll_fd s ∉ opened k
}.

Lemma yell_admissible n now yell :
  surroundings_fine n now ->
  admissible threshold horizon
    (new_Timer (TimePoint.mk (now + 3 * TimeInterval.SECOND)) yell_interval (-1) yell).
Proof.
  intros [_ [H0 H1] _ _]. unfold admissible. split; [apply new_Timer_wf |].
  unfold yell_interval, new_Timer, ns in *. simpl in *.
  assert (TimeInterval.SECOND = 1000000000) as E by done. rewrite E in *. lia.
Qed.

Lemma yell_added n yell now :
  surroundings_fine n (ns now) ->
  exists p t, run_at_time_point threshold timerfd_settime operator_new
      (TimePoint.mk (ns now + 3 * TimeInterval.SECOND)) yell_interval (-1) yell new_loop_timers
    = Ok (p, t) /\
    TimePoint.add now yell_interval = Ok (TimePoint.mk (ns now + 3 * TimeInterval.SECOND)) /\
    EventLoopTimers.inv threshold horizon None t /\
    _timer_container t = [(TimePoint.mk (ns now + 3 * TimeInterval.SECOND), p)].
Proof.
  intros Hf. pose proof (yell_admissible _ _ yell Hf) as Hadm.
  assert (H0 : EventLoopTimers.inv threshold horizon None new_loop_timers).
  { split; [apply sorted_nil | split; [apply Forall_nil_2 | done]]. }
  destruct (run_at_inv threshold horizon timerfd_settime operator_new (l_env _ _ Hf)
              None any_timer [] _ _ _ _ new_loop_timers H0 (pending_none _ _ _ _) Hadm)
    as (p & t & E & Hinv & _ & _ & _ & _ & _ & Hc).
  exists p, t. split; [exact E |]. split; [| split; [done | exact Hc]].
  destruct (l_horizon _ _ Hf) as [H1 H2]. pose proof (threshold_range _ _ _ (l_env _ _ Hf)).
  unfold TimePoint.add, limit, ns in *. simpl in *. rewrite i64_ok; [done |].
  assert (TimeInterval.SECOND = 1000000000) as Es by done. rewrite Es in *.
  assert (TimePoint.nanoseconds_from_epoch TimePoint.FOREVER = int64_max - 1) as Ef by done.
  unfold int64_max, int64_min in *. lia.
Qed.

Definition no_client : client := mkClient None None None None None.

Lemma fresh_assumptions n now :
  surroundings_fine n now -> (0 < n)%nat ->
  assumptions threshold horizon timerfd_settime operator_new (fun _ => []) (fun _ => no_client)
    eventfd_address timerfd_address n ∅ may_cancel.
Proof.
  intros Hf Hn. constructor; [apply (l_env _ _ Hf) | | | | | apply (l_distinct _ _ Hf) | | done].
  - destruct (l_horizon _ _ Hf). assert (0 < TimeInterval.SECOND) by done. lia.
  - intros c. apply Forall_nil_2.
  - done.
  - by intros a Ha%elem_of_empty.
  - intros a _. apply not_elem_of_empty.
Qed.

Lemma fresh_poller_idle n k now s :
  surroundings_fine n (ns now) -> (0 < n)%nat -> fresh_loop n k now s ->
  poller_is_idle s = true.
Proof.
  intros Hf Hn Hs. pose proof (fr_ok _ _ _ _ Hs) as (Hinv & _ & _).
  eapply (poller_is_idle_iff threshold horizon timerfd_settime operator_new (fun _ => [])
           (fun _ => no_client) eventfd_address timerfd_address n ∅ may_cancel (ns now) [] s);
    [by eapply fresh_assumptions | done |].
  intros a d Ha. by apply elem_of_empty in Ha.
Qed.

(** From what the constructor has built, with the timer's descriptor started and
    the first timer added, to a loop at its top. *)
Lemma built_loop_ok n old now s d' p' t :
  surroundings_fine n (ns now) -> building old now n s ->
  table_ok (<[timerfd_address := d']> (descriptors s)) p' -> _is_detached d' = false ->
  (forall d, descriptors s !! timerfd_address = Some d -> _fd d' = _fd d) ->
  counter (kernel p') = counter (kernel_of s) ->
  (forall fd, fcntl_getfl fd (kernel p') = fcntl_getfl fd (kernel_of s)) ->
  EventLoopTimers.inv threshold horizon None t ->
  loop_ok threshold horizon eventfd_address timerfd_address n ∅ may_cancel (ns now)
    (with_timers t (timer_unread s) (fired s)
       (with_poll (<[timerfd_address := d']> (descriptors s)) p' s)).
Proof.
  intros Hf [Htab Hcov Hdom (tfd & Htfd) Hev Hop Hold (Eq & El & Ee)
    (Et & Etm & Ete & Ett & Ec & Efi & Est & Eh) Hep] Htab' Hdet Hfd Hcnt Hmd Hinv.
  split; [| split; [exact Ete | exact Ett]]. constructor; simpl.
  - constructor; [done | |].
    + intros a. rewrite lookup_insert_is_Some', Hdom.
      split; [intros [<- | ?]; left; [apply elem_of_cons; by left | done] |].
      intros [? | ?%elem_of_empty]; [by right | done].
    + intros a d Ha. destruct (decide (a = timerfd_address)) as [-> | Hne].
      * rewrite lookup_insert_eq. by intros [= <-].
      * rewrite lookup_insert_ne by done. intros Hd.
        apply elem_of_cons in Ha as [? | (i & -> & Hi%elem_of_seq)%list_elem_of_fmap]; [done |].
        destruct (Hev i ltac:(lia)) as (e & He & Hde & _). congruence.
  - by rewrite Eq, El, !length_replicate.
  - done.
  - intros i Hi. constructor; simpl.
    + exists new_queue. destruct (l_queue _ _ Hf) as [Hqok Hqnil]. rewrite Eq, Hqnil.
      split; [by apply lookup_replicate_2 |]. split; [done |]. split; [by apply Forall_nil_2 | done].
    + destruct (Hev i Hi) as (e & He & _ & Hce & (fl & Hfl & Hb)). exists false, e.
      unfold kernel_of. simpl. rewrite El. split; [by apply lookup_replicate_2 |].
      split.
      { rewrite lookup_insert_ne; [done |]. intros Heq.
        pose proof (l_distinct _ _ Hf) as [Hni _]%NoDup_cons. apply Hni.
        apply list_elem_of_fmap. exists i. split; [done | apply elem_of_seq; lia]. }
      rewrite Hcnt. split; [done |]. split; [| done]. exists fl. by rewrite Hmd.
  - rewrite Efi. by constructor.
  - rewrite Ec. split; [done |]. apply (l_horizon _ _ Hf).
Qed.

(** What the constructor has after the timer's descriptor [d]: no queue yet. *)
Lemma building_first idx epfd fd d p tid now k :
  table_ok {[timerfd_address := d]} p -> table_covers p -> d = fresh_message_fd timerfd_address fd ->
  (epfd ∉ opened k) -> (fd ∉ {[epfd]} ∪ opened k) -> opened (kernel p) = {[fd]} ∪ ({[epfd]} ∪ opened k) ->
  building (opened k) now 0
    (mkEventLoop idx epfd p [] [] [] false timerfd_address new_loop_timers false tid false ∅
       {[timerfd_address := d]} ∅ false None now []).
Proof.
  intros Htab Hcov Hd Hep Hno Ho. constructor; try done; simpl.
  - intros a. unfold EventLoopInvariant.own. simpl. rewrite list_elem_of_singleton.
    split; [by intros [e [<- _]%lookup_singleton_Some] |].
    intros ->. exists d. apply lookup_singleton_eq.
  - exists fd. by rewrite lookup_singleton_eq, Hd.
  - intros i. lia.
  - intros x. unfold kernel_of. simpl. rewrite Ho. split.
    + intros [->%elem_of_singleton | [->%elem_of_singleton | Hx]%elem_of_union]%elem_of_union;
        [right; right | by right; left | by left].
      exists timerfd_address, d. rewrite lookup_singleton_eq. split; [done | by rewrite Hd].
    + intros [Hx | [-> | (a & e & [<- <-]%lookup_singleton_Some & <-)]]; [set_solver | set_solver |].
      rewrite Hd. simpl. set_solver.
  - intros a e [<- <-]%lookup_singleton_Some. rewrite Hd. simpl. set_solver.
Qed.

Lemma new_EventLoop_fresh yell idx number tid now k :
  surroundings_fine (Nat.max number 1) (ns now) -> interest k = ∅ ->
  match new_EventLoop threshold timerfd_settime operator_new new_queue eventfd_address
          timerfd_address yell idx number tid now k with
  | Err e => e = Fatal \/ e = Uncaught
  | Ok s => fresh_loop (Nat.max number 1) k now s
  end.
Proof.
  intros Hf Hi. unfold new_EventLoop. set (n := Nat.max number 1) in *.
  pose proof (construct_poller_ok k Hi) as Hp.
  destruct (construct_EventPoller k) as [[epfd p] |]; [| done].
  destruct Hp as (Htab0 & Hcov0 & Hep & Hop0 & Hint0).
  unfold create_timerfd. destruct (sys_timerfd_create _ (kernel p)) as [fd kt] eqn:Et.
  destruct (timerfd_opens _ _ _ _ Et) as [Hopens _].
  pose proof (construct_own ∅ p timerfd_address fd kt Htab0 Hcov0 (lookup_empty _) Hopens) as Hc.
  destruct (message_fd_construct _ _ _) as [[d p1] |]; [| by left].
  destruct Hc as (Hd & Htab1 & Hcov1 & _ & _ & Hno & Ho1 & _ & _). rewrite Hop0 in Hno, Ho1.
  set (s0 := mkEventLoop _ _ _ _ _ _ _ _ _ _ _ _ _ _ _ _ _ _ _).
  pose proof (building_first idx epfd fd d p1 tid now k Htab1 Hcov1 Hd Hep Hno Ho1 : building (opened k) now 0 s0) as Hb0.
  pose proof (add_queues_ok n _ now n 0 s0 Hf ltac:(lia) Hb0) as Hq.
  destruct (add_queues _ _ _ s0) as [s |]; [| by left]. simpl in Hq.
  destruct (b_timerfd _ _ _ _ Hq) as [tfd Htfd]. pose proof (b_rest _ _ _ _ Hq) as (Etf & Etm & _ & _ & Ec & _ & Est & _).
  unfold find_descriptor. rewrite Etf, Htfd. simpl.
  destruct (start_own _ _ timerfd_address _ (b_table _ _ _ _ Hq) (b_covers _ _ _ _ Hq) Htfd eq_refl)
    as (d' & p' & -> & Hfd' & Hdet & Htab' & Hcov' & Ho' & Hcnt' & Hmd').
  cbn [fst snd]. unfold run_after_time_interval. simpl. rewrite Ec, Etm.
  destruct (yell_added n yell now Hf) as (q & t & E1 & E2 & Hinv & Hcont).
  rewrite E2. simpl. rewrite E1.
  assert (Hfd : forall d, descriptors s !! timerfd_address = Some d -> _fd d' = _fd d).
  { intros e He. rewrite Hfd'. congruence. }
  constructor; simpl.
  - by apply (built_loop_ok n (opened k)).
  - exact Hcov'.
  - done.
  - exists q. exact Hcont.
  - intros x. unfold kernel_of. simpl. rewrite Ho'.
    rewrite (b_opened _ _ _ _ Hq x). split; (intros [Hx | [Hx | (a & e & Ha & <-)]];
      [by left | by right; left | right; right]).
    + destruct (decide (a = timerfd_address)) as [-> | Hne].
      * exists timerfd_address, d'. rewrite lookup_insert_eq. split; [done | by apply Hfd].
      * exists a, e. by rewrite lookup_insert_ne.
    + apply lookup_insert_Some in Ha as [[<- <-] | [_ Ha]]; [| by exists a, e].
      eexists _, _. split; [exact Htfd | by rewrite Hfd'].
  - intros a e Ha. apply lookup_insert_Some in Ha as [[<- <-] | [_ Ha]].
    + rewrite Hfd'. by apply (b_old _ _ _ _ Hq timerfd_address).
    + by apply (b_old _ _ _ _ Hq a).
  - apply (b_epoll _ _ _ _ Hq).
Qed.

(** The constructor either ends the process (the kernel refuses a descriptor, or
    the arrays of the poller are too large) or leaves a loop at the top of its
    first iteration: its own descriptors registered and no other, its lamps off,
    its queues empty and the alarm set for its first timer. *)
Theorem new_EventLoop_ready yell idx number tid now k
    (Hf : surroundings_fine (Nat.max number 1) (ns now)) (Hi : interest k = ∅) :
  match new_EventLoop threshold timerfd_settime operator_new new_queue eventfd_address
          timerfd_address yell idx number tid now k with
  | Err e => e = Fatal \/ e = Uncaught
  | Ok s =>
      loop_ok threshold horizon eventfd_address timerfd_address (Nat.max number 1) ∅ may_cancel
        (ns now) s /\
      poller_is_idle s = true /\ _need_stop s = false /\
      exists p, _timer_container (_timers s)
                = [(TimePoint.mk (ns now + 3 * TimeInterval.SECOND), p)]
  end.
Proof.
  pose proof (new_EventLoop_fresh yell idx number tid now k Hf Hi) as Hn.
  destruct (new_EventLoop _ _ _ _ _ _ _ _ _ _ _ _) as [s |]; [| done].
  split; [apply Hn |]. split; [| split; apply Hn].
  apply (fresh_poller_idle (Nat.max number 1) k now s Hf); [lia | done].
Qed.

(** * A client's descriptor joins *)
Definition add_client (a fd : Z) (prefer_et : bool) (s : loop_state) : result loop_state :=
  let* (d, k) := construct_PollableFd a fd prefer_et true (kernel_of s) in
  Ok (with_poll (<[a := d]> (descriptors s)) (with_kernel k (_event_poller s)) s).

Lemma command_ok_mono (r r' : gset Z) c :
  r ⊆ r' -> command_ok threshold horizon r may_cancel c ->
  command_ok threshold horizon r' may_cancel c.
Proof.
  intros Hr. induction c as [a | a c | | f i IH] using command_ind'; simpl; [done | set_solver | done |].
  induction IH as [| c f Hc _ IHf]; [done |]. intros [H1 H2]. split; [by apply Hc | by apply IHf].
Qed.

Lemma functor_ok_mono (r r' : gset Z) f :
  r ⊆ r' -> functor_ok threshold horizon r may_cancel f ->
  functor_ok threshold horizon r' may_cancel f.
Proof.
  intros Hr. induction f as [| c f IH]; [done |].
  intros [H1 H2]. split; [by eapply command_ok_mono | by apply IH].
Qed.

(** A connection (or any client of the loop) constructs its descriptor on a number
    that is open and not in use in this loop: the loop goes on as before, with one
    more object to dispatch to, which is not in the poller yet. *)
Theorem add_client_joins n registered T a fd prefer_et s
    (Hok : loop_ok threshold horizon eventfd_address timerfd_address n registered may_cancel T s)
    (Ha : a ∉ own n) (Har : a ∉ registered)
    (Hfd : fd ∈ opened (kernel_of s))
    (Hr : 0 <= fd < Z.of_nat (length (_fds_that_are_listening_on (_event_poller s))))
    (Hno : forall b e, descriptors s !! b = Some e -> _fd e <> fd) :
  exists s', add_client a fd prefer_et s = Ok s' /\
    loop_ok threshold horizon eventfd_address timerfd_address n ({[a]} ∪ registered) may_cancel T s' /\
    nonblocking fd (kernel_of s') /\
    exists d, descriptors s' !! a = Some d /\ _fd d = fd /\ _is_detached d = true.
Proof.
  destruct Hok as ([Hds Hlen Hown Hq Ht Hc] & He & Htr).
  pose proof (d_table _ _ _ _ _ _ Hds) as Htab.
  unfold add_client, construct_PollableFd, new_PollableFd.
  rewrite (proj2 (Z.ltb_ge _ _) (proj1 Hr)). simpl.
  destruct (set_nonblocking_ok fd _ Hfd) as (k & -> & Hnb & (Ho & Hi & _) & Hcnt & Hmd).
  eexists. split; [done |]. simpl.
  set (d := mkPfd a fd false false true (if prefer_et then EPOLLET else 0) _).
  assert (Hnone : descriptors s !! a = None).
  { apply eq_None_not_Some. rewrite (d_dom _ _ _ _ _ _ Hds). tauto. }
  assert (Hint : interest (kernel_of s) !! fd = None).
  { apply eq_None_not_Some. intros Hs. destruct (tb_interest _ _ Htab fd Hs) as (b & e & Hb & Hbe).
    by apply (Hno b e). }
  split; [| split; [done | exists d; by rewrite lookup_insert_eq]].
  split; [| done]. constructor; simpl; try done.
  - constructor.
    + apply (table_insert _ (_event_poller s)); try done.
      * split; [split; [done | by simpl; rewrite Ho] |]. simpl.
        split; [destruct prefer_et; auto |]. split; [| split; [done | by rewrite Hi]].
        unfold mask_of, d. simpl. by rewrite Z.lor_0_r.
      * apply poller_ok_kernel; [done | by apply (tb_poller _ _ Htab)].
      * simpl. by rewrite Ho.
    + intros b. rewrite lookup_insert_is_Some', (d_dom _ _ _ _ _ _ Hds), elem_of_union, elem_of_singleton.
      naive_solver.
    + intros b e Hb. rewrite lookup_insert_ne by (by intros <-). by apply (d_own _ _ _ _ _ _ Hds).
  - intros i Hlt. destruct (Hq i Hlt) as [(q & Hqi & Hqok & Hf & Hw) (lamp & e & Hl & Hd & Hce & (fl & Hfl & Hb) & Hed)].
    constructor; simpl.
    + exists q. split; [done |]. split; [done |]. split; [| done].
      eapply Forall_impl; [exact Hf |]. intros f. apply functor_ok_mono. set_solver.
    + exists lamp, e. unfold kernel_of. simpl. rewrite Hcnt.
      split; [done |]. split; [rewrite lookup_insert_ne; [done |] |].
      { intros Heq. by rewrite <- Heq, Hnone in Hd. }
      split; [done |]. split; [| done]. exists fl.
      rewrite Hmd by (by apply (Hno (eventfd_address i))). done.
  - destruct Ht as [Ht1 Ht2 Ht3]. constructor; [done | done |]. simpl. intros Hfi.
    rewrite lookup_insert_ne; [by apply Ht3 |]. intros <-. apply Ha, elem_of_cons. by left.
Qed.

(** * The destructor *)
Lemma delete_message_fds_ok addresses (s : loop_state) :
  NoDup addresses -> (forall a, a ∈ addresses -> is_Some (descriptors s !! a)) ->
  table_ok (descriptors s) (_event_poller s) ->
  exists ds p, delete_message_fds addresses s = Ok (with_poll ds p s) /\ table_ok ds p /\
    (forall a, ds !! a = if decide (a ∈ addresses) then None else descriptors s !! a) /\
    (forall fd, fd ∈ opened (kernel p) <-> fd ∈ opened (kernel_of s) /\
       ~ exists a d, a ∈ addresses /\ descriptors s !! a = Some d /\ _fd d = fd).
Proof.
  revert s. induction addresses as [| a addresses IH]; intros s Hnd Hin Htab; simpl.
  { exists (descriptors s), (_event_poller s). split; [by destruct s |]. split; [done |].
    split; [done |]. intros fd. split; [| by intros []]. intros Hfd. split; [done |].
    by intros (a & d & Ha%elem_of_nil & _). }
  apply NoDup_cons in Hnd as [Hni Hnd].
  destruct (Hin a) as [d Hd]; [apply elem_of_cons; by left |].
  unfold delete_message_fd at 1, find_descriptor. rewrite Hd. simpl.
  destruct (tb_mirror _ _ Htab a d Hd) as [Hm _].
  destruct (message_fd_delete_ok d _ Hm (tb_poller _ _ Htab)) as (d' & p' & E & _).
  destruct (table_delete _ _ a d d' p' Htab Hd E) as [Htab' Ho']. rewrite E.
  destruct (IH (with_poll (delete a (descriptors s)) p' s) Hnd) as (ds & p & E2 & Htab2 & Hds & Hop2);
    [| done |].
  { intros b Hb. simpl. rewrite lookup_delete_ne by (by intros ->). apply Hin, elem_of_cons. by right. }
  exists ds, p. split; [exact E2 |]. split; [done |]. simpl in *. split.
  - intros b. rewrite Hds. destruct (decide (b = a)) as [-> | Hne].
    + rewrite decide_False by done. rewrite lookup_delete_eq.
      by rewrite decide_True by (apply elem_of_cons; by left).
    + rewrite lookup_delete_ne by done.
      destruct (decide (b ∈ addresses)) as [Hb | Hb].
      * by rewrite decide_True by (apply elem_of_cons; by right).
      * by rewrite decide_False by (by apply not_elem_of_cons).
  - intros fd. rewrite Hop2. unfold kernel_of. simpl. rewrite Ho', elem_of_difference, elem_of_singleton.
    split.
    + intros [[Hfd Hne] Hno]. split; [done |]. intros (b & e & [-> | Hb]%elem_of_cons & He & <-).
      { congruence. }
      apply Hno. exists b, e. rewrite lookup_delete_ne by (by intros ->). done.
    + intros [Hfd Hno]. split; [split; [done |] |].
      * intros ->. apply Hno. exists a, d. split; [apply elem_of_cons; by left | done].
      * intros (b & e & Hb & [_ He]%lookup_delete_Some & <-). apply Hno. exists b, e.
        split; [apply elem_of_cons; by right | done].
Qed.

Lemma delete_message_fds_one a (s : loop_state) :
  delete_message_fds [a] s = delete_message_fd a s.
Proof. simpl. by destruct (delete_message_fd a s). Qed.

Lemma delete_message_fds_snoc l a (s : loop_state) :
  delete_message_fds (l ++ [a]) s
  = let* s := delete_message_fds l s in delete_message_fd a s.
Proof.
  revert s. induction l as [| b l IH]; intros s; [apply delete_message_fds_one |].
  simpl. destruct (delete_message_fd b s); [apply IH | done].
Qed.

Lemma delete_message_fds_frame l (s s' : loop_state) :
  delete_message_fds l s = Ok s' -> exists ds p, s' = with_poll ds p s.
Proof.
  revert s. induction l as [| a l IH]; simpl; intros s E.
  { injection E as <-. exists (descriptors s), (_event_poller s). by destruct s. }
  unfold delete_message_fd in E. destruct (find_descriptor a s) as [d |]; [| done].
  destruct (message_fd_delete _) as [[d' p] |]; [| done].
  destruct (IH _ E) as (ds & q & ->). by exists ds, q.
Qed.

(** The loop over the eventfds and the timer's descriptor, as one. *)
Lemma delete_descriptors (s : loop_state) s' :
  delete_message_fds (_eventfds s ++ [_timerfd s]) s = Ok s' ->
  (let* s := delete_message_fds (_eventfds s) s in delete_message_fd (_timerfd s) s) = Ok s'.
Proof.
  rewrite delete_message_fds_snoc. destruct (delete_message_fds (_eventfds s) s) as [s1 |] eqn:E;
    [| done].
  by destruct (delete_message_fds_frame _ _ _ E) as (ds & p & ->).
Qed.

Lemma own_permutation n a :
  a ∈ (eventfd_address <$> seq 0 n) ++ [timerfd_address] <-> a ∈ own n.
Proof.
  unfold EventLoopInvariant.own. rewrite elem_of_app, list_elem_of_singleton, elem_of_cons. tauto.
Qed.

Lemma table_left ds p :
  table_ok ds p ->
  (delete_EventPoller 0 p).1 = true <-> exists a d, ds !! a = Some d /\ _is_detached d = false.
Proof.
  intros Htab. unfold delete_EventPoller. simpl. pose proof (interest_small _ _ Htab) as Hlt.
  rewrite negb_true_iff, Z.eqb_neq. change (_number_of_fds_that_are_listening_on p) with (size p).
  rewrite (proj2 (tb_poller _ _ Htab)), u64_small by lia.
  rewrite (interest_size _ _ Htab). split.
  - intros Hne. destruct (map_choose (attached ds)) as (a & d & Ha).
    { intros E. rewrite E, map_size_empty in Hne. done. }
    exists a, d. by apply attached_lookup.
  - intros (a & d & Had%attached_lookup) E. assert (base.size (attached ds) = 0%nat) as Es by lia.
    apply map_size_empty_inv in Es. by rewrite Es in Had.
Qed.

Lemma delete_spec script clients n registered rem T s
    (Has : assumptions threshold horizon timerfd_settime operator_new script clients
             eventfd_address timerfd_address n registered may_cancel)
    (Hinv : loop_inv threshold horizon eventfd_address timerfd_address n registered may_cancel
              rem T s)
    (Hep : _epoll_fd s ∈ opened (kernel_of s))
    (Hnew : forall a d, descriptors s !! a = Some d -> _fd d <> _epoll_fd s) :
  exists s' left k', delete_EventLoop s = Ok (s', left, k') /\
    trace (_timers s') = trace (_timers s) ++ (EvDelete <$> (_timer_container (_timers s)).*2) /\
    _timer_container (_timers s') = [] /\ _functor_blocking_queues s' = [] /\
    (forall a, a ∈ own n -> descriptors s' !! a = None) /\
    (left = true <-> exists a d, a ∈ registered /\ descriptors s !! a = Some d /\
                                 _is_detached d = false) /\
    (forall fd, fd ∈ opened k' <-> fd ∈ opened (kernel_of s) /\ fd <> _epoll_fd s /\
       ~ exists a d, a ∈ own n /\ descriptors s !! a = Some d /\ _fd d = fd).
Proof.
  pose proof (i_descriptors _ _ _ _ _ _ _ _ _ _ Hinv) as Hds.
  pose proof (i_own _ _ _ _ _ _ _ _ _ _ Hinv) as [Et Ee].
  destruct (release_all_timers_spec threshold horizon timerfd_settime operator_new
              (env_ok _ _ _ _ _ _ _ _ _ _ _ Has) (fired s) (_timers s)
              (t_inv _ _ _ _ _ (i_timers _ _ _ _ _ _ _ _ _ _ Hinv)))
    as (t & Er & Hc & Htr & _ & _).
  set (s1 := with_queues [] (with_timers t (timer_unread s) (fired s) s)).
  assert (Hall : forall a, a ∈ _eventfds s1 ++ [_timerfd s1] <-> a ∈ own n).
  { intros a. simpl. rewrite Ee, Et. apply own_permutation. }
  destruct (delete_message_fds_ok (_eventfds s1 ++ [_timerfd s1]) s1)
    as (ds & p & Ed & Htab & Hlook & Hop).
  { simpl. rewrite Ee, Et, (comm (++)). apply (own_distinct _ _ _ _ _ _ _ _ _ _ _ Has). }
  { intros a Ha%Hall. apply (d_dom _ _ _ _ _ _ Hds). by left. }
  { apply (d_table _ _ _ _ _ _ Hds). }
  apply delete_descriptors in Ed. set (s2 := with_poll ds p s1) in *.
  assert (E : delete_EventLoop s
              = Ok (s2, (delete_EventPoller 0 p).1, (delete_EventPoller (_epoll_fd s) p).2)).
  { unfold delete_EventLoop. rewrite Er. fold s1.
    destruct (delete_message_fds (_eventfds s1) s1) as [s3 |]; [| done].
    by rewrite Ed. }
  exists s2. eexists _, _. split; [exact E |]. simpl.
  split; [done |]. split; [done |]. split; [done |]. split; [| split].
  - intros a Ha. rewrite Hlook. by rewrite decide_True by (by apply Hall).
  - rewrite (table_left ds p Htab). split.
    + intros (a & d & Ha & Hd). rewrite Hlook in Ha. destruct (decide _) as [| Hno]; [done |].
      exists a, d. split; [| done].
      destruct (proj1 (d_dom _ _ _ _ _ _ Hds a)) as [Ho | ?]; [by exists d | | done].
      by apply Hall in Ho.
    + intros (a & d & Ha & Hd & Hdet). exists a, d. split; [| done]. rewrite Hlook.
      rewrite decide_False; [done |]. rewrite Hall.
      intros Ho. by apply (own_registered _ _ _ _ _ _ _ _ _ _ _ Has a).
  - assert (Hepp : _epoll_fd s ∈ opened (kernel p)).
    { apply Hop. split; [done |]. intros (a & d & _ & Hd & Hfd). by apply (Hnew a d). }
    destruct (close_opened (kernel p) _ Hepp) as (k' & -> & _ & Hok'). simpl.
    intros fd. rewrite Hok', elem_of_difference, elem_of_singleton, Hop.
    setoid_rewrite Hall. tauto.
Qed.

(** Destroying a loop, whoever still uses it: its timers are deleted in the order
    of their expirations, its queues and its own descriptors are gone and closed,
    with the poller's, and the warning is printed just if descriptors of clients
    are left in the poller. *)
Theorem delete_EventLoop_spec script clients n registered rem T s
    (Has : assumptions threshold horizon timerfd_settime operator_new script clients
             eventfd_address timerfd_address n registered may_cancel)
    (Hinv : loop_inv threshold horizon eventfd_address timerfd_address n registered may_cancel
              rem T s)
    (Hep : _epoll_fd s ∈ opened (kernel_of s))
    (Hnew : forall a d, descriptors s !! a = Some d -> _fd d <> _epoll_fd s) :
  exists s' left k', delete_EventLoop s = Ok (s', left, k') /\
    trace (_timers s') = trace (_timers s) ++ (EvDelete <$> (_timer_container (_timers s)).*2) /\
    _timer_container (_timers s') = [] /\ _functor_blocking_queues s' = [] /\
    (forall a, a ∈ own n -> descriptors s' !! a = None) /\
    (left = true <-> exists a d, a ∈ registered /\ descriptors s !! a = Some d /\
                                 _is_detached d = false) /\
    (forall fd, fd ∈ opened k' <-> fd ∈ opened (kernel_of s) /\ fd <> _epoll_fd s /\
       ~ exists a d, a ∈ own n /\ descriptors s !! a = Some d /\ _fd d = fd).
Proof. by apply (delete_spec script clients n registered rem T). Qed.

(** C15: A loop that is constructed and destroyed leaves the process the descriptors it
    had, no descriptor in the poller, and has deleted its only timer. *)
Theorem loop_life_cycle yell idx number tid now k
    (Hf : surroundings_fine (Nat.max number 1) (ns now)) (Hi : interest k = ∅) :
  match new_EventLoop threshold timerfd_settime operator_new new_queue eventfd_address
          timerfd_address yell idx number tid now k with
  | Err e => e = Fatal \/ e = Uncaught
  | Ok s => exists s' k' p, delete_EventLoop s = Ok (s', false, k') /\
      (forall fd, fd ∈ opened k' <-> fd ∈ opened k) /\
      trace (_timers s') = trace (_timers s) ++ [EvDelete p]
  end.
Proof.
  pose proof (new_EventLoop_fresh yell idx number tid now k Hf Hi) as Hn.
  destruct (new_EventLoop _ _ _ _ _ _ _ _ _ _ _ _) as [s |]; [| done].
  set (n := Nat.max number 1) in *.
  pose proof (fr_ok _ _ _ _ Hn) as (Hinv & _ & _).
  pose proof (fr_opened _ _ _ _ Hn) as Hop. pose proof (fr_new _ _ _ _ Hn) as Hnew.
  destruct (fr_timers _ _ _ _ Hn) as [p Hc].
  pose proof (fresh_assumptions n (ns now) Hf ltac:(lia)) as Has.
  destruct (delete_spec _ _ n ∅ [] (ns now) s Has Hinv) as (s' & left & k' & E & Htr & _ & _ & _ & Hl & Ho).
  { apply Hop. right. by left. }
  { intros a d Ha. by apply (Hnew a d). }
  assert (left = false) as ->.
  { destruct left; [| done]. destruct (proj1 Hl eq_refl) as (a & d & Ha & _).
    by apply elem_of_empty in Ha. }
  exists s', k', p. split; [done |]. split; [| by rewrite Htr, Hc].
  intros fd. rewrite Ho, Hop. pose proof (i_descriptors _ _ _ _ _ _ _ _ _ _ Hinv) as Hds. split.
  - intros ([? | [? | (a & d & Ha & Hd)]] & Hne & Hno); [done | done |]. destruct Hno.
    exists a, d. split; [| done]. destruct (proj1 (d_dom _ _ _ _ _ _ Hds a)) as [? | Hx];
      [by exists d | done | by apply elem_of_empty in Hx].
  - intros Hfd. split; [by left |]. split.
    + intros ->. by apply (fr_epoll _ _ _ _ Hn).
    + intros (a & d & _ & Ha & <-). by destruct (Hnew a d Ha).
Qed.
End Life.

(** * A concrete loop: two queues, no clients, over the kernel of [Descriptors] *)
Definition loop_horizon : Z := 100 * TimeInterval.SECOND.
Definition loop_eventfd (i : nat) : Z := 4096 + 64 * Z.of_nat i.
Definition loop_timerfd : Z := 2048.
Definition loop_queue : BlockingQueue FunctorType := new_BlockingQueue 1000.
Definition loop_clients (_ : Z) : client := no_client.
Definition loop_script (_ : nat) : list EventLoopTimers.action := [].

Lemma loop_surroundings_fine : surroundings_fine 3 loop_horizon sample_settime sample_new loop_queue loop_eventfd loop_timerfd 2 5.
Proof.
  constructor; [apply sample_environment | | | ].
  - split; [split; vm_compute; discriminate | vm_compute; reflexivity].
  - split; [vm_compute; repeat constructor | reflexivity].
  - apply (bool_decide_unpack _). vm_compute. exact I.
Qed.

Definition new_loop : result (EventLoop loop_kernel (BlockingQueue FunctorType)) :=
  new_EventLoop 3 sample_settime sample_new loop_queue loop_eventfd loop_timerfd 0 0 2 77
    (TimePoint.mk 5) sample_loop_kernel.

Lemma new_EventLoop_ready_witness :
  exists s, new_loop = Ok s /\
    loop_ok 3 loop_horizon loop_eventfd loop_timerfd 2 ∅ false 5 s /\ poller_is_idle s = true.
Proof.
  pose proof (new_EventLoop_ready 3 loop_horizon sample_settime sample_new loop_queue loop_eventfd
                loop_timerfd false 0 0 2 77 (TimePoint.mk 5) sample_loop_kernel
                loop_surroundings_fine eq_refl) as Hn.
  fold new_loop in Hn. destruct new_loop as [s | e] eqn:E.
  - exists s. split; [reflexivity |]. destruct Hn as (H1 & H2 & _). split; [exact H1 | exact H2].
  - vm_compute in E. discriminate E.
Defined.

Lemma loop_life_cycle_witness :
  exists s s' k' p, new_loop = Ok s /\ delete_EventLoop s = Ok (s', false, k') /\
    trace (_timers s') = trace (_timers s) ++ [EvDelete p].
Proof.
  pose proof (loop_life_cycle 3 loop_horizon sample_settime sample_new loop_queue loop_eventfd
                loop_timerfd false 0 0 2 77 (TimePoint.mk 5) sample_loop_kernel
                loop_surroundings_fine eq_refl) as Hn.
  fold new_loop in Hn. destruct new_loop as [s | e] eqn:E.
  - destruct Hn as (s' & k' & p & E1 & _ & E2). exists s, s', k', p.
    split; [reflexivity |]. split; [exact E1 | exact E2].
  - vm_compute in E. discriminate E.
Defined.

(** ** Its iterations *)
Lemma loop_assumptions :
  assumptions 3 loop_horizon sample_settime sample_new loop_script loop_clients loop_eventfd
    loop_timerfd 2 ∅ false.
Proof.
  apply (fresh_assumptions 3 loop_horizon sample_settime sample_new loop_queue loop_eventfd
           loop_timerfd false 2 5 loop_surroundings_fine). lia.
Qed.

Definition report_of (addresses : list Z) : list wait_result :=
  [WaitInterrupted; WaitEvents ((fun a => mkEvent a EPOLLIN) <$> addresses)].

(** Another thread leaves a functor in queue 1, which asks the loop to stop. *)
Definition functor_arrives : inputs :=
  mkInputs [] [Elapse 10; OtherRun [AskToStop] 1] (report_of [loop_eventfd 1]) [] [].
(** Another thread asks the loop to stop. *)
Definition stop_arrives : inputs :=
  mkInputs [] [OtherAskToStop] (report_of [loop_eventfd 0]) [] [].
Definition nothing_arrives : inputs := mkInputs [] [] [] [] [].

Lemma eventfd_report_fine i :
  (i < 2)%nat ->
  waits_ok loop_eventfd loop_timerfd 2 ∅ (report_of [loop_eventfd i]).
Proof.
  intros Hi. unfold report_of. split.
  { rewrite !not_elem_of_cons. split; [done |]. split; [done | apply not_elem_of_nil]. }
  intros evs [? | [[= ->] | Hn]%elem_of_cons]%elem_of_cons; [done | | by apply elem_of_nil in Hn].
  split; [apply NoDup_singleton |].
  intros ev [-> | Hn]%elem_of_cons; [| by apply elem_of_nil in Hn]. simpl.
  split; [left | done]. apply elem_of_cons. right. apply list_elem_of_fmap_2, elem_of_seq. lia.
Qed.

Lemma loop_inputs_ok inp :
  Forall (external_ok 3 loop_horizon 2 ∅ false) (while_blocked inp) ->
  before_check inp = [] -> before_functors inp = [] -> before_timers inp = [] ->
  waits_ok loop_eventfd loop_timerfd 2 ∅ (waits inp) ->
  inputs_ok 3 loop_horizon loop_eventfd loop_timerfd 2 ∅ false inp.
Proof. intros Hb H1 H2 H3 Hw. constructor; rewrite ?H1, ?H2, ?H3; try apply Forall_nil_2; done. Qed.

Lemma functor_arrives_ok : inputs_ok 3 loop_horizon loop_eventfd loop_timerfd 2 ∅ false functor_arrives.
Proof.
  apply loop_inputs_ok; [| done | done | done | apply eventfd_report_fine; lia].
  repeat constructor.
Qed.

Lemma stop_arrives_ok : inputs_ok 3 loop_horizon loop_eventfd loop_timerfd 2 ∅ false stop_arrives.
Proof.
  apply loop_inputs_ok; [| done | done | done | apply eventfd_report_fine; lia].
  repeat constructor.
Qed.

Lemma nothing_arrives_ok : inputs_ok 3 loop_horizon loop_eventfd loop_timerfd 2 ∅ false nothing_arrives.
Proof.
  apply loop_inputs_ok; [apply Forall_nil_2 | done | done | done |].
  split; [apply not_elem_of_nil |]. by intros evs Hn%elem_of_nil.
Qed.

Abbreviation run_sample :=
  (loop 3 sample_settime sample_new loop_script loop_clients).

Lemma new_loop_ok :
  exists s, new_loop = Ok s /\ loop_ok 3 loop_horizon loop_eventfd loop_timerfd 2 ∅ false 5 s.
Proof.
  pose proof (new_EventLoop_fresh 3 loop_horizon sample_settime sample_new loop_queue loop_eventfd
                loop_timerfd false 0 0 2 77 (TimePoint.mk 5) sample_loop_kernel
                loop_surroundings_fine eq_refl) as Hn.
  fold new_loop in Hn. destruct new_loop as [s | e] eqn:E.
  - exists s. split; [done | apply Hn].
  - vm_compute in E. discriminate E.
Qed.

(** The functor runs, the loop is asked to stop, and returns at its next turn. *)
Lemma loop_never_sleeps_on_work_witness :
  exists s s', new_loop = Ok s /\ run_sample [functor_arrives; nothing_arrives] s = Ok (Returns s') /\
    _need_stop s' = true /\ Invoked [AskToStop] ∈ history s'.
Proof.
  destruct new_loop_ok as (s & E & Hok).
  pose proof (loop_never_sleeps_on_work 3 loop_horizon sample_settime sample_new loop_script
                loop_clients loop_eventfd loop_timerfd 2 ∅ false
                [functor_arrives; nothing_arrives] 5 s loop_assumptions) as Hl.
  assert (Hr : match run_sample [functor_arrives; nothing_arrives] s with
               | Ok (Returns s') => history s' = [Dispatched (loop_eventfd 1); Invoked [AskToStop];
                                                  Expired (TimePoint.mk 15)]
               | _ => False end).
  { vm_compute in E. injection E as <-. vm_compute. reflexivity. }
  destruct (run_sample _ s) as [[s' | s' | s'] | e] eqn:Er; try (exfalso; exact Hr).
  exists s, s'. split; [exact E |]. split; [exact Er |]. split.
  - apply Hl; [| exact Hok | vm_compute; discriminate].
    apply Forall_cons_2; [exact functor_arrives_ok |].
    apply Forall_cons_2; [exact nothing_arrives_ok | apply Forall_nil_2].
  - rewrite Hr. apply elem_of_cons. right. apply elem_of_cons. by left.
Defined.

Lemma iteration_in_order_witness :
  exists s s', new_loop = Ok s /\
    iteration 3 sample_settime sample_new loop_script loop_clients functor_arrives s
    = Ok (Continues s') /\
    loop_ok 3 loop_horizon loop_eventfd loop_timerfd 2 ∅ false 15 s'.
Proof.
  destruct new_loop_ok as (s & E & Hok).
  pose proof (iteration_in_order 3 loop_horizon sample_settime sample_new loop_script
                loop_clients loop_eventfd loop_timerfd 2 ∅ false functor_arrives 5 s
                loop_assumptions functor_arrives_ok Hok ltac:(vm_compute; discriminate)) as Hi.
  assert (Hr : match iteration 3 sample_settime sample_new loop_script loop_clients
                       functor_arrives s with Ok (Continues _) => True | _ => False end).
  { vm_compute in E. injection E as <-. vm_compute. exact I. }
  destruct (iteration _ _ _ _ _ _ s) as [[s' | s' | s'] | e] eqn:Er; try (exfalso; exact Hr).
  destruct Hi as (s1 & _ & _ & _ & s2 & evs & s3 & _ & _ & _ & _ & _ & _ & Hok').
  exists s, s'. split; [exact E |]. split; [exact Er | exact Hok'].
Defined.

(** The kernel reports the one eventfd that is ready. *)
Ltac promised E :=
  vm_compute in E; injection E as <-; split;
  [ intros [| [| i]] (Hi & d & c & Hd & _ & Hc & H0);
    [ vm_compute in Hd; injection Hd as <-; vm_compute in Hc; injection Hc as <-
    | vm_compute in Hd; injection Hd as <-; vm_compute in Hc; injection Hc as <-
    | lia ];
    first [ discriminate H0
          | eexists; split; [eexists; reflexivity | apply elem_of_cons; by left] ]
  | intros (Hu & _); discriminate Hu ].

(** What is known of the two inputs before the theorems are applied. *)
Lemma functor_arrives_facts s :
  new_loop = Ok s ->
  exists s2 o, surroundings (while_blocked functor_arrives) s = Ok s2 /\
    kernel_promise loop_eventfd loop_timerfd 2 (waits functor_arrives) s2 /\
    content_of s2 1 = [[AskToStop]] /\ leaving s = false /\
    iteration 3 sample_settime sample_new loop_script loop_clients functor_arrives s = Ok o.
Proof.
  intros E. vm_compute in E. injection E as <-.
  destruct (surroundings _ _) as [s2 |] eqn:E2; [| vm_compute in E2; discriminate E2].
  destruct (iteration _ _ _ _ _ _ _) as [o |] eqn:Er; [| vm_compute in Er; discriminate Er].
  exists s2, o. split; [reflexivity |]. clear Er. split; [promised E2 |].
  vm_compute in E2. injection E2 as <-. repeat split; vm_compute; reflexivity.
Qed.

Lemma stop_arrives_facts s :
  new_loop = Ok s ->
  exists s2 o, surroundings (while_blocked stop_arrives) s = Ok s2 /\
    kernel_promise loop_eventfd loop_timerfd 2 (waits stop_arrives) s2 /\ leaving s = false /\
    (forall s', iteration 3 sample_settime sample_new loop_script loop_clients stop_arrives s
                = Ok (Continues s') -> poller_is_idle s' = true) /\
    run_sample [stop_arrives; nothing_arrives] s = Ok o.
Proof.
  intros E. vm_compute in E. injection E as <-.
  destruct (surroundings _ _) as [s2 |] eqn:E2; [| vm_compute in E2; discriminate E2].
  destruct (run_sample _ _) as [o |] eqn:Er; [| vm_compute in Er; discriminate Er].
  exists s2, o. split; [reflexivity |]. clear Er. split; [promised E2 |]. clear E2.
  split; [vm_compute; reflexivity |]. split; [| reflexivity].
  intros s' Hs. vm_compute in Hs. injection Hs as <-. vm_compute. reflexivity.
Qed.

Lemma work_is_done_witness :
  exists s s' h, new_loop = Ok s /\
    iteration 3 sample_settime sample_new loop_script loop_clients functor_arrives s
    = Ok (Continues s') /\ history s' = history s ++ h /\ Invoked [AskToStop] ∈ h.
Proof.
  destruct new_loop_ok as (s & E & Hok).
  destruct (functor_arrives_facts s E) as (s2 & o & E2 & Hp & Hc & Hl & Er).
  destruct (work_is_done 3 loop_horizon sample_settime sample_new loop_script loop_clients
              loop_eventfd loop_timerfd 2 ∅ false functor_arrives 5 s s s2 o
              loop_assumptions functor_arrives_ok Hok ltac:(vm_compute; discriminate) Er eq_refl
              Hl E2 Hp) as (s' & h & -> & Hh & Hinv & _).
  { left. exists 1%nat. rewrite Hc. discriminate. }
  exists s, s', h. split; [exact E |]. split; [exact Er |]. split; [exact Hh |].
  apply (Hinv 1%nat). rewrite Hc. apply elem_of_cons. by left.
Defined.

Lemma stop_is_heeded_witness :
  exists s s', new_loop = Ok s /\ run_sample [stop_arrives; nothing_arrives] s = Ok (Returns s').
Proof.
  destruct new_loop_ok as (s & E & Hok).
  destruct (stop_arrives_facts s E) as (s2 & o & E2 & Hp & Hl & Hidle & Er).
  destruct (stop_is_heeded 3 loop_horizon sample_settime sample_new loop_script loop_clients
              loop_eventfd loop_timerfd 2 ∅ false stop_arrives nothing_arrives 5 s s s2 o
              loop_assumptions stop_arrives_ok nothing_arrives_ok Hok
              ltac:(vm_compute; discriminate) eq_refl Hl E2) as (s' & ->).
  - apply elem_of_cons. by left.
  - exact Hp.
  - exact Hidle.
  - exact Er.
  - exists s, s'. split; [exact E | exact Er].
Defined.

(** Destroyed at once. *)
Lemma fresh_facts s :
  new_loop = Ok s ->
  _epoll_fd s ∈ opened (kernel_of s) /\
  forall a d, descriptors s !! a = Some d -> _fd d <> _epoll_fd s.
Proof.
  intros E. vm_compute in E. injection E as <-. split.
  - apply (bool_decide_unpack _). vm_compute. exact I.
  - apply (bool_decide_unpack (map_Forall (fun (_ : Z) d => _fd d <> 3) _)). vm_compute. exact I.
Qed.

Lemma delete_EventLoop_spec_witness :
  exists s s' k', new_loop = Ok s /\ delete_EventLoop s = Ok (s', false, k').
Proof.
  destruct new_loop_ok as (s & E & Hok).
  destruct (fresh_facts s E) as [Hep Hnew].
  destruct (delete_EventLoop_spec 3 loop_horizon sample_settime sample_new loop_queue loop_eventfd
              loop_timerfd false loop_script loop_clients 2 ∅ [] 5 s loop_assumptions
              (proj1 Hok) Hep Hnew) as (s' & left & k' & Ed & _ & _ & _ & _ & Hl & _).
  destruct left.
  - destruct (proj1 Hl eq_refl) as (a & d & Ha & _). exfalso. exact (not_elem_of_empty a Ha).
  - exists s, s', k'. split; [exact E | exact Ed].
Defined.

(** A client joins on descriptor 1 and registers for reading. *)
Definition busy_state : result (EventLoop loop_kernel (BlockingQueue FunctorType)) :=
  let* s := new_loop in
  let* s := add_client 9000 1 true s in
  call 3 sample_settime sample_new [DescriptorCommand 9000 EnableRead] s.

Lemma add_client_facts s :
  new_loop = Ok s ->
  1 ∈ opened (kernel_of s) /\
  0 <= 1 < Z.of_nat (length (_fds_that_are_listening_on (_event_poller s))) /\
  forall b e, descriptors s !! b = Some e -> _fd e <> 1.
Proof.
  intros E. vm_compute in E. injection E as <-. split; [| split].
  - apply (bool_decide_unpack _). vm_compute. exact I.
  - vm_compute. split; [discriminate | reflexivity].
  - apply (bool_decide_unpack (map_Forall (fun (_ : Z) e => _fd e <> 1) _)). vm_compute. exact I.
Qed.

Lemma client_not_own : 9000 ∉ own loop_eventfd loop_timerfd 2.
Proof. apply (bool_decide_unpack _). vm_compute. exact I. Qed.

Lemma client_joined s :
  new_loop = Ok s ->
  exists s', add_client 9000 1 true s = Ok s' /\
    loop_ok 3 loop_horizon loop_eventfd loop_timerfd 2 {[9000]} false 5 s'.
Proof.
  intros E. destruct new_loop_ok as (x & Ex & Hok). rewrite E in Ex. injection Ex as <-.
  destruct (add_client_facts s E) as (H1 & H2 & H3).
  destruct (add_client_joins 3 loop_horizon sample_settime sample_new loop_queue loop_eventfd
              loop_timerfd false 2 ∅ 5 9000 1 true s Hok client_not_own (not_elem_of_empty _)
              H1 H2 H3) as (s' & Es & Hok' & _).
  exists s'. split; [exact Es |]. rewrite (right_id_L ∅ (∪)) in Hok'. exact Hok'.
Qed.

Lemma busy_assumptions :
  assumptions 3 loop_horizon sample_settime sample_new loop_script loop_clients loop_eventfd
    loop_timerfd 2 {[9000]} false.
Proof.
  destruct loop_assumptions as [H1 H2 H3 H4 H5 H6 H7 H8]. constructor; try assumption.
  - intros a _. split; [discriminate |]. intros f Hf g ->.
    repeat (apply elem_of_cons in Hf as [Hf | Hf]; [discriminate Hf |]).
    by apply elem_of_nil in Hf.
  - intros a Ha ->%elem_of_singleton. by apply client_not_own.
Qed.

(** The client registers for reading. *)
Definition register : FunctorType := [DescriptorCommand 9000 EnableRead].

Lemma reading_ok :
  functor_ok 3 loop_horizon {[9000]} false register.
Proof. repeat constructor; set_solver. Qed.

Lemma reading_goes s1 :
  loop_ok 3 loop_horizon loop_eventfd loop_timerfd 2 {[9000]} false 5 s1 ->
  exists s, call 3 sample_settime sample_new register s1 = Ok s /\
    loop_ok 3 loop_horizon loop_eventfd loop_timerfd 2 {[9000]} false 5 s.
Proof.
  intros (Hinv1 & He & Ht).
  pose proof (call_goes 3 loop_horizon sample_settime sample_new loop_script loop_clients
                loop_eventfd loop_timerfd 2 {[9000]} false [] 5 register s1 busy_assumptions
                reading_ok Hinv1) as Hg.
  destruct (call _ _ _ _ s1) as [s | e]; simpl in Hg; [| discriminate Hg].
  destruct Hg as (Hinv & [[_ F1 F2 _ _ _] _]).
  exists s. split; [reflexivity |]. split; [exact Hinv |]. rewrite F1, F2. split; assumption.
Qed.

(** The client has registered: the loop is busy. *)
Lemma busy_loop :
  exists s, busy_state = Ok s /\
    loop_ok 3 loop_horizon loop_eventfd loop_timerfd 2 {[9000]} false 5 s.
Proof.
  destruct new_loop_ok as (s0 & E & _). destruct (client_joined s0 E) as (s1 & E1 & Hok1).
  destruct (reading_goes s1 Hok1) as (s & E2 & Hok). exists s. split; [| exact Hok].
  unfold busy_state. rewrite E. cbn match. rewrite E1. exact E2.
Qed.

Lemma busy_facts s :
  busy_state = Ok s -> exists d, descriptors s !! 9000 = Some d /\ _is_detached d = false.
Proof.
  intros E. vm_compute in E. injection E as <-. vm_compute. eexists. split; reflexivity.
Qed.

Lemma nothing_arrives_busy_ok :
  inputs_ok 3 loop_horizon loop_eventfd loop_timerfd 2 {[9000]} false nothing_arrives.
Proof.
  destruct nothing_arrives_ok as [H1 H2 H3 H4 H5].
  constructor; try apply Forall_nil_2. split; [apply not_elem_of_nil |].
  intros evs Hn. apply elem_of_nil in Hn. destruct Hn.
Qed.

Lemma busy_loop_continues_witness :
  exists s, busy_state = Ok s /\
    forall s', iteration 3 sample_settime sample_new loop_script loop_clients nothing_arrives s
               <> Ok (Returns s').
Proof.
  destruct busy_loop as (s & E & Hok). destruct (busy_facts s E) as (d & Hd & Hdet).
  exists s. split; [exact E |]. clear E.
  apply (busy_loop_continues 3 loop_horizon sample_settime sample_new loop_script loop_clients
           loop_eventfd loop_timerfd 2 {[9000]} false nothing_arrives 5 s s 9000 d
           busy_assumptions nothing_arrives_busy_ok Hok);
    [vm_compute; discriminate | reflexivity | apply elem_of_singleton_2; reflexivity
    | exact Hd | exact Hdet].
Defined.

Lemma add_client_joins_witness :
  exists s s', new_loop = Ok s /\ add_client 9000 1 true s = Ok s' /\ nonblocking 1 (kernel_of s').
Proof.
  destruct new_loop_ok as (s & E & Hok). destruct (add_client_facts s E) as (H1 & H2 & H3).
  destruct (add_client_joins 3 loop_horizon sample_settime sample_new loop_queue loop_eventfd
              loop_timerfd false 2 ∅ 5 9000 1 true s Hok client_not_own (not_elem_of_empty _)
              H1 H2 H3) as (s' & Es & _ & Hnb & _).
  exists s, s'. split; [exact E |]. split; [exact Es | exact Hnb].
Defined.
