(* ===== verification/Shutdown.v ===== *)
(** How the example programs end: the signal dispatchers of
    [src/example/http/server/server.cc], [src/example/echo/server/server.cc] and
    [src/example/echo/client/client.cc], and what becomes of the loop that reads the
    signals.

    What a dispatcher does is a functor of the loop: it stops the signal descriptor
    and the server or the client, whose descriptors leave the poller, and asks the
    loop to stop. *)
From S2P Require Import Prelude TimePoint Timer TimerContainer EventLoopTimers Poller FunctorQueue BlockingQueue Descriptors EventLoop EventLoopInvariant EventLoopLife Signals.
Open Scope Z_scope.

(** * The dispatchers *)
Definition reload_server_config : FunctorType := [].

(** [stop_descriptors] are those of the server. *)
Definition signal_dispatcher (signalfd : Z) (stop_descriptors : list Z) (signal : Z)
    : result FunctorType :=
  if signal =? SIGTSTP then Ok []
  else if signal =? SIGHUP then Ok reload_server_config
  else if (signal =? SIGINT) || (signal =? SIGQUIT) || (signal =? SIGTERM)
  then Ok (DescriptorCommand signalfd Detach ::
           ((fun a => DescriptorCommand a Detach) <$> stop_descriptors) ++ [AskToStop])
  else Err Fatal.

(** The client's: [SIGHUP] ends it, too, and standard input goes first. *)
Definition client_signal_dispatcher (stdinfd signalfd : Z) (stop_descriptors : list Z) (signal : Z)
    : result FunctorType :=
  if signal =? SIGTSTP then Ok []
  else if (signal =? SIGHUP) || (signal =? SIGINT) || (signal =? SIGQUIT) || (signal =? SIGTERM)
  then Ok (DescriptorCommand stdinfd Detach :: DescriptorCommand signalfd Detach ::
           ((fun a => DescriptorCommand a Detach) <$> stop_descriptors) ++ [AskToStop])
  else Err Fatal.

(** What [main] does first: the signals it wants are blocked, and only they. *)
Definition watched_signals : list Z := [SIGHUP; SIGINT; SIGQUIT; SIGTERM; SIGTSTP].

Definition signal_config {K} `{SignalCalls K} (k : K) : result (SignalSet * K) :=
  let* signal_set := add_signals watched_signals new_SignalSet in
  let* k := block_signals signal_set k in
  Ok (signal_set, k).

(** The functors of the signals read, one after the other. *)
Fixpoint dispatched_functor (dispatcher : Z -> result FunctorType) (signals : list Z)
    : result FunctorType :=
  match signals with
  | [] => Ok []
  | signal :: signals =>
      let* f := dispatcher signal in
      let* g := dispatched_functor dispatcher signals in
      Ok (f ++ g)
  end.

Lemma watched_set : add_signals watched_signals new_SignalSet = Ok (list_to_set watched_signals).
Proof. vm_compute. reflexivity. Qed.

Section Dispatching.
Context {K Q : Type} `{Epoll K, Descriptors K, FunctorQueue Q FunctorType}.
Context (threshold : Z) (timerfd_settime : timespec -> settime_outcome).
Context (operator_new : timer_heap -> ptr).

(** The loop with the signals that are pending for it. *)
Definition signals_and_loop : Type := list Z * EventLoop K Q.

Definition read_signal (w : signals_and_loop) : signal_read * signals_and_loop :=
  match w.1 with
  | [] => (NoSignalInfo EAGAIN, w)
  | signal :: rest => (SignalInfo signal, (rest, w.2))
  end.

Definition run_dispatcher (dispatcher : Z -> result FunctorType) (signal : Z)
    (w : signals_and_loop) : result signals_and_loop :=
  let* f := dispatcher signal in
  let* s := call threshold timerfd_settime operator_new f w.2 in
  Ok (w.1, s).

Lemma call_app f g (s : EventLoop K Q) :
  call threshold timerfd_settime operator_new (f ++ g) s
  = let* s := call threshold timerfd_settime operator_new f s in
    call threshold timerfd_settime operator_new g s.
Proof.
  revert s. induction f as [| c f IH]; intros s; [done |]. simpl.
  destruct (execute _ _ _ c s) as [s1 |]; [apply IH | done].
Qed.

(** The read event of the signal descriptor runs one functor: those of the pending
    signals, in order. *)
Theorem signal_callback_is_functor dispatcher signals f s fuel
    (Hf : dispatched_functor dispatcher signals = Ok f)
    (Hfuel : (length signals < fuel)%nat) :
  signalfd_read_event_callback read_signal (run_dispatcher dispatcher) fuel (signals, s)
  = let* s := call threshold timerfd_settime operator_new f s in Ok ([], s).
Proof.
  rewrite (signals_read_in_order read_signal (run_dispatcher dispatcher) fst).
  - simpl. clear Hfuel. revert f s Hf. induction signals as [| signal signals IH]; intros f s Hf.
    { by injection Hf as <-. }
    simpl in Hf |- *. destruct (dispatcher signal) as [f1 |] eqn:E1; [| done].
    destruct (dispatched_functor dispatcher signals) as [f2 |]; [| done].
    injection Hf as <-. unfold run_dispatcher at 1. rewrite E1, call_app. simpl.
    destruct (call _ _ _ f1 s) as [s1 |]; [by apply IH | done].
  - constructor; intros; destruct w as [p l]; simpl in *; subst p; [| done]. by eexists.
  - intros signal [p l] w'. unfold run_dispatcher. destruct (dispatcher signal); [| done]. simpl.
    destruct (call _ _ _ _ l); [| done]. by intros [= <-].
  - done.
Qed.
End Dispatching.

(** * Functors that only detach and stop *)
Section Quitting.
Set Default Proof Using "All".
Context {K Q : Type} {HE : Epoll K} {HEl : EpollLaws K} {HD : Descriptors K}
  {HDl : DescriptorLaws K} {HQ : FunctorQueue Q FunctorType}
  {HQl : FunctorQueueLaws Q FunctorType}.
Context (threshold horizon : Z).
Context (timerfd_settime : timespec -> settime_outcome).
Context (operator_new : timer_heap -> ptr).
Context (script : nat -> list EventLoopTimers.action).
Context (clients : Z -> client).
Context (eventfd_address : nat -> Z) (timerfd_address : Z).
Context (n : nat) (registered : gset Z) (may_cancel : bool).

Abbreviation loop_state := (EventLoop K Q).
Abbreviation inv := (loop_inv threshold horizon eventfd_address timerfd_address n registered may_cancel).
Abbreviation fine := (assumptions threshold horizon timerfd_settime operator_new script clients
                        eventfd_address timerfd_address n registered may_cancel).
Abbreviation run_functor := (call threshold timerfd_settime operator_new).

Definition gone (a : Z) (s : loop_state) : Prop :=
  forall d, descriptors s !! a = Some d -> _is_detached d = true.

Lemma quiet_self (s : loop_state) : quiet s s.
Proof using Type. split; [constructor; by rewrite ?app_nil_r | done]. Qed.

Lemma quiet_then (s1 s2 s3 : loop_state) : quiet s1 s2 -> quiet s2 s3 -> quiet s1 s3.
Proof using Type.
  intros [[] E1] [[] E2]. split; [| congruence]. constructor; try congruence; eauto.
  rewrite app_nil_r in *. congruence.
Qed.

Lemma detach_goes rem T a (s : loop_state) :
  fine -> a ∈ registered -> inv rem T s ->
  exists s', run_descriptor_command a Detach s = Ok s' /\ inv rem T s' /\ quiet s s' /\
    _need_stop s' = _need_stop s /\ gone a s' /\
    forall b, b <> a -> descriptors s' !! b = descriptors s !! b.
Proof.
  intros Has Ha Hinv.
  destruct (run_descriptor_ok threshold horizon timerfd_settime operator_new script clients
              eventfd_address timerfd_address n registered may_cancel rem T a Detach s Has Ha Hinv)
    as (s' & E & Hinv' & Hq).
  exists s'. split; [done |]. split; [done |]. split; [done |].
  destruct (proj2 (d_dom _ _ _ _ _ _ (i_descriptors _ _ _ _ _ _ _ _ _ _ Hinv) a) (or_intror Ha))
    as [d Hd].
  unfold run_descriptor_command, find_descriptor in E. rewrite Hd in E. cbn [of_option] in E.
  destruct (run_command Detach (d, _event_poller s)) as [[d' p'] |] eqn:Ed; [| done].
  assert (Hm : mirror (d, _event_poller s)).
  { eapply tb_mirror; [eapply d_table, i_descriptors, Hinv | exact Hd]. }
  destruct (run_command_flags Detach d _ d' p' Hm Ed) as [[= _ _ Hdet] _].
  injection E as <-. simpl. split; [done |]. split.
  - intros e. simpl. rewrite lookup_insert_eq. by intros [= <-].
  - intros b Hne. by rewrite lookup_insert_ne.
Qed.

Definition quitting (c : command) : Prop :=
  (exists a, c = DescriptorCommand a Detach /\ a ∈ registered) \/ c = AskToStop.

Lemma quitting_goes rem T f (s : loop_state) :
  fine -> Forall quitting f -> inv rem T s ->
  exists s', run_functor f s = Ok s' /\ inv rem T s' /\ quiet s s' /\
    (AskToStop ∈ f -> _need_stop s' = true) /\
    (forall a, gone a s \/ DescriptorCommand a Detach ∈ f -> gone a s').
Proof.
  intros Has Hf. revert s. induction Hf as [| c f Hc Hf IH]; intros s Hinv; simpl.
  { exists s. split; [done |]. split; [done |]. split; [apply quiet_self |].
    split; [by intros Hin; apply elem_of_nil in Hin |].
    intros a [Hg | Hin]; [done | by apply elem_of_nil in Hin]. }
  assert (Hstep : exists s1, execute threshold timerfd_settime operator_new c s = Ok s1 /\
            inv rem T s1 /\ quiet s s1 /\ (c = AskToStop -> _need_stop s1 = true) /\
            (forall a, gone a s \/ c = DescriptorCommand a Detach -> gone a s1)).
  { destruct Hc as [(a & -> & Ha) | ->]; cbn [execute].
    - destruct (detach_goes rem T a s Has Ha Hinv) as (s1 & E & Hi & Hq & _ & Hg & Hother).
      exists s1. repeat (split; [done |]). intros b Hb.
      destruct (decide (b = a)) as [-> | Hne]; [done |].
      destruct Hb as [Hb | [= ->]]; [| done]. intros d. rewrite Hother by done. apply Hb.
    - unfold ask_to_stop.
      destruct (wake_up_ok threshold horizon timerfd_settime operator_new script clients
                  eventfd_address timerfd_address n registered may_cancel rem T 0 (with_stop true s)
                  (own_distinct _ _ _ _ _ _ _ _ _ _ _ Has) (some_queue _ _ _ _ _ _ _ _ _ _ _ Has)
                  (with_stop_inv threshold horizon timerfd_settime operator_new script clients
                     eventfd_address timerfd_address n registered may_cancel rem T true s Hinv))
        as (s1 & E & Hi & [[] ?] & _ & Hs & Hds).
      exists s1. split; [done |]. split; [done |]. split; [split; [by constructor | done] |].
      split; [done |]. intros b [Hb | ?]; [| done]. intros d. rewrite Hds. apply Hb. }
  destruct Hstep as (s1 & -> & Hi1 & Hq1 & Hs1 & Hg1). simpl.
  destruct (IH s1 Hi1) as (s2 & E2 & Hi2 & Hq2 & Hs2 & Hg2).
  exists s2. split; [done |]. split; [done |]. split; [by eapply quiet_then |]. split.
  - intros [Hc' | Hin]%elem_of_cons; [| by apply Hs2].
    destruct Hq2 as [[_ _ _ _ Hst _] _]. by apply Hst, Hs1.
  - intros a Ha. apply Hg2. destruct Ha as [Ha | [Ha | Ha]%elem_of_cons]; [| | by right].
    + left. apply Hg1. by left.
    + left. apply Hg1. by right.
Qed.

Lemma dispatcher_quits signalfd stop signal f :
  signalfd ∈ registered -> Forall (fun a => a ∈ registered) stop ->
  signal_dispatcher signalfd stop signal = Ok f ->
  Forall quitting f /\
  (signal ∈ [SIGINT; SIGQUIT; SIGTERM] ->
   AskToStop ∈ f /\ forall a, a ∈ signalfd :: stop -> DescriptorCommand a Detach ∈ f).
Proof.
  intros Hs Hst. unfold signal_dispatcher.
  destruct (Z.eqb_spec signal SIGTSTP) as [-> | _].
  { intros [= <-]. split; [apply Forall_nil_2 |]. intros Hin. exfalso. revert Hin. set_solver. }
  destruct (Z.eqb_spec signal SIGHUP) as [-> | _].
  { intros [= <-]. split; [apply Forall_nil_2 |]. intros Hin. exfalso. revert Hin. set_solver. }
  destruct (_ || _); [| done]. intros [= <-]. split.
  - constructor; [left; by eexists |]. apply Forall_app. split.
    + apply Forall_fmap. eapply Forall_impl; [exact Hst |]. intros a Ha. left. by eexists.
    + apply Forall_singleton. by right.
  - intros _. split; [set_solver |]. intros a [-> | Ha]%elem_of_cons; [set_solver |].
    apply elem_of_cons. right. apply elem_of_app. left. by apply (list_elem_of_fmap_2 (fun a => DescriptorCommand a Detach)).
Qed.

Lemma dispatched_quits signalfd stop signals f :
  signalfd ∈ registered -> Forall (fun a => a ∈ registered) stop ->
  dispatched_functor (signal_dispatcher signalfd stop) signals = Ok f ->
  Forall quitting f /\
  ((exists signal, signal ∈ signals /\ signal ∈ [SIGINT; SIGQUIT; SIGTERM]) ->
   AskToStop ∈ f /\ forall a, a ∈ signalfd :: stop -> DescriptorCommand a Detach ∈ f).
Proof.
  intros Hs Hst. revert f. induction signals as [| signal signals IH]; intros f; simpl.
  { intros [= <-]. split; [apply Forall_nil_2 |]. intros (x & Hx & _). by apply elem_of_nil in Hx. }
  destruct (signal_dispatcher _ _ signal) as [f1 |] eqn:E1; [| done].
  destruct (dispatched_functor _ signals) as [f2 |]; [| done]. intros [= <-].
  destruct (dispatcher_quits _ _ _ _ Hs Hst E1) as [H1 H1'], (IH _ eq_refl) as [H2 H2'].
  split; [by apply Forall_app |].
  intros (x & [-> | Hx]%elem_of_cons & Ht).
  - destruct (H1' Ht) as [Ha Hd]. split; [apply elem_of_app; by left |].
    intros a Hin. apply elem_of_app. left. by apply Hd.
  - destruct H2' as [Ha Hd]; [by exists x |]. split; [apply elem_of_app; by right |].
    intros a Hin. apply elem_of_app. right. by apply Hd.
Qed.

(** Nothing but what [epoll_wait] returns happens in the iteration. *)
Definition undisturbed (ws : list wait_result) : inputs := mkInputs [] [] ws [] [].

Abbreviation run_iteration := (iteration threshold timerfd_settime operator_new script clients).
Abbreviation run_loop := (loop threshold timerfd_settime operator_new script clients).

(** What [dispatch_active_events] does for a client with a read callback only. *)
Lemma dispatch_reader rem T a f mask (s : loop_state) :
  fine -> inv rem T s -> a ∈ registered -> clients a = mkClient None None (Some f) None None ->
  _active_events s !! a = Some mask -> has_event mask EVENT_TYPE_READ = true ->
  dispatch_one threshold timerfd_settime operator_new clients a s
  = run_functor f (EventLoop.record (Dispatched a) s).
Proof.
  intros Has Hinv Ha Hc Hact Hm.
  destruct (proj2 (d_dom _ _ _ _ _ _ (i_descriptors _ _ _ _ _ _ _ _ _ _ Hinv) a) (or_intror Ha))
    as [d Hd].
  assert (Hno : a ∉ own eventfd_address timerfd_address n).
  { intros Ho. by apply (own_registered _ _ _ _ _ _ _ _ _ _ _ Has a). }
  destruct (i_own _ _ _ _ _ _ _ _ _ _ Hinv) as [Et Ee].
  unfold dispatch_one, find_descriptor. rewrite Hd.
  cbn [of_option _timerfd _eventfds _active_events EventLoop.record]. rewrite Hact, Et, Ee.
  assert (Hne : (a =? timerfd_address) = false).
  { apply Z.eqb_neq. intros ->. apply Hno, elem_of_cons. by left. }
  rewrite Hne. unfold position. rewrite (proj2 (list_find_None _ _)).
  2:{ apply Forall_forall. intros x Hx ->. apply Hno, elem_of_cons. by right. }
  cbn [fmap option_fmap option_map default]. rewrite Hc, client_handlers_eq.
  unfold dispatch_active_events, _dispatch_active_events, run_if. simpl. rewrite Hm.
  destruct (has_event mask EVENT_TYPE_CLOSE), (has_event mask EVENT_TYPE_ERROR);
    simpl; by destruct (run_functor f _), (has_event mask EVENT_TYPE_WRITE).
Qed.

(** An iteration in which the only event is for such a client, whose functor quits. *)
Lemma quitting_iteration T (s : loop_state) a f ws mask :
  fine -> loop_ok threshold horizon eventfd_address timerfd_address n registered may_cancel T s ->
  a ∈ registered -> clients a = mkClient None None (Some f) None None -> Forall quitting f ->
  leaving s = false -> waits_ok eventfd_address timerfd_address n registered ws ->
  waited ws [mkEvent a mask] -> has_event mask EVENT_TYPE_READ = true ->
  exists s', run_iteration (undisturbed ws) s = Ok (Continues s') /\
    loop_ok threshold horizon eventfd_address timerfd_address n registered may_cancel T s' /\
    (AskToStop ∈ f -> _need_stop s' = true) /\
    forall b, gone b s \/ DescriptorCommand b Detach ∈ f -> gone b s'.
Proof.
  intros Has (Hinv & He & Ht) Ha Hc Hf Hl Hws Hw Hm. unfold iteration, undisturbed. simpl.
  change (_need_stop s && poller_is_idle s) with (leaving s). rewrite Hl.
  pose proof (poll_reports threshold horizon timerfd_settime operator_new script clients
                eventfd_address timerfd_address n registered may_cancel T ws s Hws Hinv) as Hp.
  destruct (poll ws s) as [r |] eqn:Ep.
  2:{ exfalso. destruct Hw as [ws' Hw]. unfold poll, poll_for_active_events_of_all_fds in Ep.
      by rewrite Hw in Ep. }
  destruct Hp as (evs & s1 & Hev & -> & Hinv1 & _ & _ & He1 & Ht1 & _ & _ & Hds & Hact).
  assert (evs = [mkEvent a mask]) as ->.
  { destruct Hev as [? E1], Hw as [? E2]. congruence. }
  specialize (Hact _ (proj2 (list_elem_of_singleton _ _) eq_refl)). simpl in *.
  rewrite (dispatch_reader [a] T a f mask) by done.
  destruct (quitting_goes [a] T f (EventLoop.record (Dispatched a) s1) Has Hf)
    as (s2 & -> & Hinv2 & [[_ He2 Ht2 _ _ _] _] & Hs2 & Hg2).
  { by apply (record_inv threshold horizon timerfd_settime operator_new script clients). }
  simpl in *. unfold handle_functors. rewrite He2, He1, He.
  unfold handle_timers. rewrite Ht2, Ht1, Ht.
  exists s2. split; [done |]. split; [split; [| split; congruence] |].
  - apply (skip_client threshold horizon timerfd_settime operator_new script clients
             eventfd_address timerfd_address n registered may_cancel [] T a); [| done].
    intros Ho. by apply (own_registered _ _ _ _ _ _ _ _ _ _ _ Has a).
  - split; [done |]. intros b Hb. apply Hg2. destruct Hb as [Hb | Hb]; [left | by right].
    intros d. simpl. rewrite Hds. apply Hb.
Qed.

(** C17: A signal that ends the program, while only the signal descriptor and the
    server's are registered (nobody is connected): the iteration that reads it
    detaches them and sets the flag, and the next turn of the loop returns. *)
Theorem terminating_signal_ends_loop T (s : loop_state) signalfd stop signals f ws mask
    (Has : fine)
    (Hok : loop_ok threshold horizon eventfd_address timerfd_address n registered may_cancel T s)
    (Hh : T <= horizon)
    (Hs : signalfd ∈ registered) (Hst : Forall (fun a => a ∈ registered) stop)
    (Hc : clients signalfd = mkClient None None (Some f) None None)
    (Hf : dispatched_functor (signal_dispatcher signalfd stop) signals = Ok f)
    (Hterm : exists signal, signal ∈ signals /\ signal ∈ [SIGINT; SIGQUIT; SIGTERM])
    (Hatt : exists d, descriptors s !! signalfd = Some d /\ _is_detached d = false)
    (Hothers : forall a, a ∈ registered -> a ∈ signalfd :: stop \/ gone a s)
    (Hws : waits_ok eventfd_address timerfd_address n registered ws)
    (Hw : waited ws [mkEvent signalfd mask]) (Hm : has_event mask EVENT_TYPE_READ = true) :
  match run_loop [undisturbed ws; undisturbed []] s with
  | Ok (Returns s') => _need_stop s' = true
  | Ok _ => False
  | Err _ => may_cancel = true
  end.
Proof.
  destruct (dispatched_quits _ _ _ _ Hs Hst Hf) as [Hq Hd]. destruct (Hd Hterm) as [Hask Hdet].
  pose proof (poller_is_idle_iff threshold horizon timerfd_settime operator_new script clients
                eventfd_address timerfd_address n registered may_cancel T []) as Hidle.
  assert (Hl : leaving s = false).
  { apply andb_false_iff. right. apply not_true_iff_false. intros Hi.
    destruct Hatt as (d & Hd1 & Hd2). pose proof (proj1 (Hidle s Has (proj1 Hok)) Hi signalfd d Hs Hd1).
    congruence. }
  destruct (quitting_iteration T s signalfd f ws mask Has Hok Hs Hc Hq Hl Hws Hw Hm)
    as (s1 & E1 & Hok1 & Hs1 & Hg1).
  assert (Hl1 : leaving s1 = true).
  { apply andb_true_iff. split; [by apply Hs1 |]. apply (Hidle s1 Has (proj1 Hok1)).
    intros a d Ha Hda. destruct (Hothers a Ha) as [Hin | Hg].
    - apply (Hg1 a); [right; by apply Hdet | done].
    - apply (Hg1 a); [by left | done]. }
  cbn [loop]. rewrite E1.
  pose proof (iteration_goes threshold horizon timerfd_settime operator_new script clients
                eventfd_address timerfd_address n registered may_cancel (undisturbed []) T s1 Has)
    as Hg.
  destruct (run_iteration (undisturbed []) s1) as [o |].
  - destruct Hg as (s2 & E2 & _ & Ho); [| done | unfold duration; simpl; lia |].
    + constructor; try apply Forall_nil_2. split; [apply not_elem_of_nil |].
      intros evs Hn. by apply elem_of_nil in Hn.
    + injection E2 as <-. destruct o as [s3 | s3 | s3]; [destruct Ho; congruence .. |].
      destruct Ho as (_ & _ & _ & _ & _ & Hstop). done.
  - apply Hg; [| done | unfold duration; simpl; lia].
    constructor; try apply Forall_nil_2. split; [apply not_elem_of_nil |].
    intros evs Hn. by apply elem_of_nil in Hn.
Qed.
End Quitting.

(** * A loop that reads [SIGTERM] from descriptor 9000 *)
Definition shutdown_functor : FunctorType := [DescriptorCommand 9000 Detach; AskToStop].

Definition shutdown_clients (a : Z) : client :=
  mkClient None None (Some shutdown_functor) None None.

Definition signal_arrives : list wait_result := [WaitEvents [mkEvent 9000 EVENT_TYPE_READ]].

Lemma shutdown_assumptions :
  assumptions 3 loop_horizon sample_settime sample_new loop_script shutdown_clients loop_eventfd
    loop_timerfd 2 {[9000]} false.
Proof.
  destruct busy_assumptions as [H1 H2 H3 H4 H5 H6 H7 H8]. constructor; try assumption.
  intros a _. split; [discriminate |]. intros f Hf g ->.
  apply list_elem_of_In in Hf. destruct Hf as [E | [E | [E | [E | []]]]]; try discriminate E.
  injection E as <-. repeat constructor.
Qed.

Lemma signal_arrives_ok : waits_ok loop_eventfd loop_timerfd 2 {[9000]} signal_arrives.
Proof.
  split.
  - intros Hn. apply elem_of_cons in Hn as [Hn | Hn]; [discriminate Hn |].
    by apply elem_of_nil in Hn.
  - intros evs Hn. apply elem_of_cons in Hn as [[= ->] | Hn]; [| by apply elem_of_nil in Hn].
    split; [apply NoDup_singleton |]. intros ev Hev. apply list_elem_of_singleton in Hev as ->.
    simpl. split; [right; set_solver |]. intros Ho. exfalso. by apply client_not_own.
Qed.

Lemma terminating_signal_ends_loop_witness :
  exists s s', busy_state = Ok s /\
    loop 3 sample_settime sample_new loop_script shutdown_clients
      [undisturbed signal_arrives; undisturbed []] s = Ok (Returns s').
Proof.
  destruct busy_loop as (s & E & Hok). pose proof (busy_facts s E) as Hatt.
  pose proof (terminating_signal_ends_loop 3 loop_horizon sample_settime sample_new loop_script
                shutdown_clients loop_eventfd loop_timerfd 2 {[9000]} false 5 s 9000 [] [SIGTERM]
                shutdown_functor signal_arrives EVENT_TYPE_READ shutdown_assumptions Hok) as Ht.
  destruct (loop _ _ _ _ _ _ s) as [[s' | s' | s'] | e] eqn:El.
  3:{ exists s, s'. split; [exact E | exact El]. }
  all: exfalso; cut (false = true); [discriminate |].
  1-2: exfalso.
  all: apply Ht; clear Ht E El;
    [ vm_compute; discriminate | apply elem_of_singleton_2; reflexivity | apply Forall_nil_2
    | reflexivity | reflexivity
    | exists SIGTERM; split; [apply elem_of_cons; left; reflexivity |
                              do 2 (apply elem_of_cons; right); apply elem_of_cons; left; reflexivity]
    | exact Hatt
    | intros a Ha; left; apply elem_of_singleton in Ha; subst a; apply elem_of_cons; left; reflexivity
    | exact signal_arrives_ok | exists []; reflexivity | reflexivity ].
Defined.

Lemma signal_callback_is_functor_witness :
  exists s, new_loop = Ok s /\
    signalfd_read_event_callback read_signal
      (run_dispatcher 3 sample_settime sample_new (signal_dispatcher 9000 [])) 3
      ([SIGTSTP; SIGHUP], s) = Ok ([], s).
Proof.
  destruct new_loop_ok as (s & E & _). exists s. split; [exact E |]. clear E.
  rewrite (signal_callback_is_functor 3 sample_settime sample_new (signal_dispatcher 9000 [])
             [SIGTSTP; SIGHUP] [] s 3 eq_refl (le_n 3)).
  reflexivity.
Defined.
