(* ===== verification/LockFreeQueue.v ===== *)
(** The single-producer, single-consumer lock-free queue:
    [include/util/lock_free_queue.h].

    Nodes live in a heap of addresses ([0] is the null pointer); a deleted node
    is absent, and touching it is undefined.  The producer and the consumer
    interleave between their accesses to nodes; a release store and the acquire
    load that reads it are one write and one read of the heap. *)
From S2P Require Import Prelude FunctorQueue.
Open Scope Z_scope.

Record Node (A : Type) := mkNode { _next : Z; _value : option A }.
Arguments mkNode {A}.
Arguments _next {A}.
Arguments _value {A}.

(** [_push]: before the link, [_tail] has moved already. *)
Inductive producer_pc := ProducerReady | Linking (old_tail new_node : Z).
(** [pop]: [next] loaded; its value taken; [_head] moved, the old one to delete. *)
Inductive consumer_pc (A : Type) :=
| ConsumerReady
| Loaded (next : Z)
| Taken (next : Z) (element : option A)
| Retiring (old_head : Z) (element : option A).
Arguments ConsumerReady {A}.
Arguments Loaded {A}.
Arguments Taken {A}.
Arguments Retiring {A}.

Section Spsc.
Context {A : Type} (operator_new : gmap Z (Node A) -> Z).

Record SpscLockFreeQueue := mkSpsc {
  nodes : gmap Z (Node A);
  _head : Z;
  _tail : Z;
  producer : producer_pc;
  consumer : consumer_pc A;
  published : list A;
  popped : list (option A)
}.

Definition deref (h : gmap Z (Node A)) (p : Z) : result (Node A) :=
  of_option UndefinedBehaviour (h !! p).

(** The constructor: one dummy node. *)
Definition new_SpscLockFreeQueue : SpscLockFreeQueue :=
  let n := operator_new ∅ in
  mkSpsc {[n := mkNode 0 None]} n n ProducerReady ConsumerReady [] [].

(** [push]: the new node, and [_tail] moved to it ... *)
Definition push_begin (a : A) (q : SpscLockFreeQueue) : result SpscLockFreeQueue :=
  match producer q with
  | ProducerReady =>
      let n := operator_new (nodes q) in
      Ok (mkSpsc (<[n := mkNode 0 (Some a)]> (nodes q)) (_head q) n (Linking (_tail q) n)
            (consumer q) (published q) (popped q))
  | _ => Ok q
  end.

(** ... then published: [old_tail->_next.store(new_node)]. *)
Definition push_link (q : SpscLockFreeQueue) : result SpscLockFreeQueue :=
  match producer q with
  | Linking old_tail n =>
      let* t := deref (nodes q) old_tail in
      let* new_node := deref (nodes q) n in
      Ok (mkSpsc (<[old_tail := mkNode n (_value t)]> (nodes q)) (_head q) (_tail q)
            ProducerReady (consumer q)
            (published q ++ match _value new_node with Some a => [a] | None => [] end) (popped q))
  | ProducerReady => Ok q
  end.

(** [pop], one access to a node per step. *)
Definition pop_step (q : SpscLockFreeQueue) : result SpscLockFreeQueue :=
  match consumer q with
  | ConsumerReady =>
      let* hd := deref (nodes q) (_head q) in
      if _next hd =? 0 then Ok q
      else Ok (mkSpsc (nodes q) (_head q) (_tail q) (producer q) (Loaded (_next hd))
                 (published q) (popped q))
  | Loaded n =>
      let* node := deref (nodes q) n in
      Ok (mkSpsc (<[n := mkNode (_next node) None]> (nodes q)) (_head q) (_tail q) (producer q)
            (Taken n (_value node)) (published q) (popped q))
  | Taken n a =>
      Ok (mkSpsc (nodes q) n (_tail q) (producer q) (Retiring (_head q) a)
            (published q) (popped q))
  | Retiring old a =>
      let* _ := deref (nodes q) old in
      Ok (mkSpsc (delete old (nodes q)) (_head q) (_tail q) (producer q) ConsumerReady
            (published q) (popped q ++ [a]))
  end.

Inductive spsc_action := PushBegin (a : A) | PushLink | PopStep.

Definition spsc_step (act : spsc_action) (q : SpscLockFreeQueue) : result SpscLockFreeQueue :=
  match act with
  | PushBegin a => push_begin a q
  | PushLink => push_link q
  | PopStep => pop_step q
  end.

Fixpoint spsc_run (acts : list spsc_action) (q : SpscLockFreeQueue) : result SpscLockFreeQueue :=
  match acts with
  | [] => Ok q
  | a :: acts => let* q := spsc_step a q in spsc_run acts q
  end.

(** [push] and [pop] without interleaving, and the loop of [_invoke_all_functors]. *)
Definition push (a : A) (q : SpscLockFreeQueue) : result SpscLockFreeQueue :=
  let* q := push_begin a q in push_link q.

Definition pop (q : SpscLockFreeQueue) : result (option A * SpscLockFreeQueue) :=
  let* q := pop_step q in
  match consumer q with
  | Loaded _ =>
      let* q := pop_step q in
      let* q := pop_step q in
      let element := match consumer q with Retiring _ a => a | _ => None end in
      let* q := pop_step q in Ok (element, q)
  | _ => Ok (None, q)
  end.

Fixpoint pop_until_null (fuel : nat) (q : SpscLockFreeQueue)
    : result (list A * SpscLockFreeQueue) :=
  match fuel with
  | O => Err OutOfFuel
  | S fuel =>
      let* (element, q) := pop q in
      match element with
      | None => Ok ([], q)
      | Some a => let* (l, q) := pop_until_null fuel q in Ok (a :: l, q)
      end
  end.

(** The destructor: it walks the list from [_head], deleting every node. *)
Fixpoint destroy (fuel : nat) (h : gmap Z (Node A)) (current : Z) : result (gmap Z (Node A)) :=
  match fuel with
  | O => Err OutOfFuel
  | S fuel =>
      let* node := deref h current in
      if _next node =? 0 then Ok (delete current h)
      else
        let* _ := deref h (_next node) in
        destroy fuel (delete current h) (_next node)
  end.

Definition destructor (q : SpscLockFreeQueue) : result (gmap Z (Node A)) :=
  destroy (base.size (nodes q)) (nodes q) (_head q).

(** * The list between [_head] and the last published node *)
Hypothesis new_fresh : forall h, 0 < operator_new h /\ h !! operator_new h = None.
Set Default Proof Using "Type*".

(** [p] and the nodes [l] after it, with their values, up to [last]. *)
Fixpoint path (h : gmap Z (Node A)) (p : Z) (v : option A) (l : list (Z * option A))
    (last : Z) : Prop :=
  match l with
  | [] => h !! p = Some (mkNode 0 v) /\ p = last
  | (n, w) :: l' => h !! p = Some (mkNode n v) /\ n <> 0 /\ path h n w l' last
  end.

#[local] Abbreviation addresses p l := (p :: l.*1).

Lemma path_frame h h' p v l last :
  (forall x, x ∈ addresses p l -> h' !! x = h !! x) -> path h p v l last -> path h' p v l last.
Proof.
  revert p v. induction l as [| [n w] l IH]; simpl; intros p v Hh.
  - intros [H1 H2]. rewrite Hh; [done | set_solver].
  - intros (H1 & H2 & H3). rewrite Hh by set_solver. split; [done |]. split; [done |].
    apply IH; [set_solver | done].
Qed.

Lemma path_lookup h p v l last x :
  path h p v l last -> x ∈ addresses p l -> is_Some (h !! x).
Proof.
  revert p v. induction l as [| [n w] l IH]; simpl; intros p v.
  - intros [H1 _] Hx. apply list_elem_of_singleton in Hx as ->. by rewrite H1.
  - intros (H1 & _ & H3) Hx. apply elem_of_cons in Hx as [-> | Hx]; [by rewrite H1 |].
    by apply (IH n w).
Qed.

(** The first node of a list, and another value in it. *)
Lemma path_first h p v l last :
  path h p v l last -> NoDup (addresses p l) ->
  exists k, h !! p = Some (mkNode k v) /\
    forall v', path (<[p := mkNode k v']> h) p v' l last.
Proof.
  destruct l as [| [n w] l]; simpl.
  - intros [H1 H2] _. exists 0. split; [done |]. intros v'. by rewrite lookup_insert_eq.
  - intros (H1 & H2 & H3) Hnd. exists n. split; [done |]. intros v'.
    rewrite lookup_insert_eq. split; [done |]. split; [done |].
    eapply path_frame; [| exact H3]. intros x Hx. apply lookup_insert_ne.
    apply NoDup_cons in Hnd as [Hp _]. intros ->. done.
Qed.

(** Publishing a node at the end of the list. *)
Lemma path_link h p v l last n w :
  path h p v l last -> NoDup (addresses p l) -> n ∉ addresses p l -> n <> 0 ->
  h !! n = Some (mkNode 0 w) ->
  exists u, h !! last = Some (mkNode 0 u) /\ last ∈ addresses p l /\
    path (<[last := mkNode n u]> h) p v (l ++ [(n, w)]) n.
Proof.
  revert p v. induction l as [| [m x] l IH]; simpl; intros p v Hp Hnd Hn H0 Hnew.
  - destruct Hp as [H1 ->]. exists v. split; [done |]. split; [set_solver |].
    rewrite lookup_insert_eq. rewrite lookup_insert_ne by set_solver. done.
  - destruct Hp as (H1 & Hm & Hp). apply NoDup_cons in Hnd as [Hpn Hnd].
    destruct (IH m x Hp Hnd ltac:(set_solver) H0 Hnew) as (u & Hu & Hin & Hpath).
    exists u. split; [done |]. split; [set_solver |].
    rewrite lookup_insert_ne by (intros ->; set_solver). done.
Qed.

(** Nodes outside the list: the one being published, the one being deleted. *)
Definition extra_p (pc : producer_pc) : list Z :=
  match pc with Linking _ n => [n] | ProducerReady => [] end.
Definition extra_c (pc : consumer_pc A) : list Z :=
  match pc with Retiring old _ => [old] | _ => [] end.

Definition in_flight (pc : consumer_pc A) : list (option A) :=
  match pc with Taken _ a | Retiring _ a => [a] | _ => [] end.
Definition remaining (pc : consumer_pc A) (l : list (Z * option A)) : list (option A) :=
  match pc with Taken _ _ => tail l.*2 | _ => l.*2 end.

Definition live (q : SpscLockFreeQueue) (l : list (Z * option A)) : list Z :=
  addresses (_head q) l ++ extra_p (producer q) ++ extra_c (consumer q).

Definition producer_ok (q : SpscLockFreeQueue) (last : Z) : Prop :=
  match producer q with
  | ProducerReady => _tail q = last
  | Linking old n =>
      old = last /\ _tail q = n /\ 0 < n /\ exists a, nodes q !! n = Some (mkNode 0 (Some a))
  end.

Definition consumer_ok (q : SpscLockFreeQueue) (l : list (Z * option A)) : Prop :=
  match consumer q with
  | Loaded n => exists w l', l = (n, w) :: l'
  | Taken n _ => exists l', l = (n, None) :: l'
  | _ => True
  end.

Record spsc_inv (q : SpscLockFreeQueue) (l : list (Z * option A)) (last : Z) : Prop := {
  i_path : path (nodes q) (_head q) None l last;
  i_producer : producer_ok q last;
  i_consumer : consumer_ok q l;
  i_nodup : NoDup (live q l);
  i_live : forall x, is_Some (nodes q !! x) <-> x ∈ live q l;
  i_fifo : Some <$> published q = popped q ++ in_flight (consumer q) ++ remaining (consumer q) l
}.

Lemma new_inv : spsc_inv new_SpscLockFreeQueue [] (operator_new ∅).
Proof.
  split; simpl; try done.
  - split; [apply lookup_singleton_eq | done].
  - unfold live; simpl. apply NoDup_singleton.
  - intros x. unfold live; simpl. rewrite lookup_singleton_is_Some. set_solver.
Qed.

Lemma push_begin_inv a q l last :
  spsc_inv q l last -> exists q', push_begin a q = Ok q' /\ spsc_inv q' l last.
Proof.
  intros Hinv. unfold push_begin. destruct (producer q) eqn:Ep; [| by exists q].
  destruct Hinv as [Hpath Hp Hc Hnd Hl Hf]. eexists. split; [done |].
  destruct (new_fresh (nodes q)) as [H0 Hn]. set (n := operator_new (nodes q)) in *.
  assert (Hnl : n ∉ live q l) by (rewrite <- Hl, Hn; by intros []).
  unfold live in Hnl, Hnd, Hl. rewrite Ep in Hnl, Hnd, Hl. simpl in Hnl, Hnd, Hl.
  unfold producer_ok in Hp. rewrite Ep in Hp.
  split; simpl; try done.
  - eapply path_frame; [| exact Hpath]. intros x Hx. apply lookup_insert_ne. set_solver.
  - unfold producer_ok; simpl. repeat split; [done | done |]. exists a. apply lookup_insert_eq.
  - unfold live; simpl. revert Hnd. rewrite !NoDup_cons, !NoDup_app, NoDup_cons. set_solver.
  - intros x. unfold live; simpl. rewrite lookup_insert_is_Some. rewrite Hl.
    destruct (decide (n = x)); set_solver.
Qed.

Lemma push_link_inv q l last :
  spsc_inv q l last -> exists q' l' last', push_link q = Ok q' /\ spsc_inv q' l' last'.
Proof.
  intros Hinv. unfold push_link. destruct (producer q) as [| old n] eqn:Ep; [by exists q, l, last |].
  destruct Hinv as [Hpath Hp Hc Hnd Hl Hf]. unfold producer_ok in Hp. rewrite Ep in Hp.
  destruct Hp as (-> & Ht & H0 & a & Ha).
  unfold live in Hnd, Hl. rewrite Ep in Hnd, Hl. cbn [extra_p] in Hnd, Hl.
  pose proof Hnd as Hnd'. apply NoDup_app in Hnd' as (Hnd1 & Hdisj & Hnd2).
  assert (Hn : n ∉ addresses (_head q) l) by (intros Hx; apply (Hdisj n Hx); set_solver).
  destruct (path_link _ _ _ _ _ n (Some a) Hpath Hnd1 Hn ltac:(lia) Ha) as (u & Hu & Hin & Hpath').
  unfold deref. rewrite Hu, Ha. simpl.
  exists (mkSpsc (<[last := mkNode n u]> (nodes q)) (_head q) (_tail q) ProducerReady (consumer q)
            (published q ++ [a]) (popped q)), (l ++ [(n, Some a)]), n.
  split; [done |]. split; simpl.
  - done.
  - done.
  - unfold consumer_ok in *. simpl. destruct (consumer q); try done.
    + destruct Hc as (w & l' & ->). by exists w, (l' ++ [(n, Some a)]).
    + destruct Hc as (l' & ->). by exists (l' ++ [(n, Some a)]).
  - unfold live; simpl. rewrite fmap_app. simpl. by rewrite <- app_assoc.
  - intros x. unfold live; simpl. rewrite lookup_insert_is_Some, fmap_app. simpl.
    rewrite <- app_assoc. simpl. rewrite Hl.
    destruct (decide (last = x)) as [<- |]; [set_solver | tauto].
  - rewrite fmap_app, Hf, <- !app_assoc. do 2 f_equal. unfold remaining, consumer_ok in *.
    destruct (consumer q); simpl; rewrite ?fmap_app; try done.
    by destruct Hc as (l' & ->).
Qed.

Lemma pop_load_inv q l last :
  consumer q = ConsumerReady -> spsc_inv q l last -> exists q' l', pop_step q = Ok q' /\ spsc_inv q' l' last.
Proof.
  intros Ec Hinv. pose proof Hinv as [Hpath Hp Hc Hnd Hl Hf]. unfold pop_step. unfold consumer_ok in Hc. rewrite Ec in Hc |- *.
  destruct l as [| [n w] l]; simpl in Hpath.
  + destruct Hpath as [H1 H2]. unfold deref. rewrite H1. simpl. eauto.
  + destruct Hpath as (H1 & H2 & H3). unfold deref. rewrite H1. simpl.
    rewrite (proj2 (Z.eqb_neq _ _) H2).
    exists (mkSpsc (nodes q) (_head q) (_tail q) (producer q) (Loaded n)
              (published q) (popped q)), ((n, w) :: l). split; [done |].
    unfold live in *. rewrite Ec in *. split; simpl; try done. by exists w, l.
Qed.

Lemma pop_take_inv n q l last :
  consumer q = Loaded n -> spsc_inv q l last -> exists q' l', pop_step q = Ok q' /\ spsc_inv q' l' last.
Proof.
  intros Ec Hinv. pose proof Hinv as [Hpath Hp Hc Hnd Hl Hf]. unfold pop_step. unfold consumer_ok in Hc. rewrite Ec in Hc |- *.
  destruct Hc as (w & l' & ->). destruct Hpath as (H1 & H2 & H3).
  unfold live in *. rewrite Ec in *. cbn [extra_c] in *. rewrite app_nil_r in *.
  assert (Hnd1 : NoDup (n :: l'.*1)) by (apply NoDup_app in Hnd as [[_ ?]%NoDup_cons _]; done).
  destruct (path_first _ _ _ _ _ H3 Hnd1) as (k & Hn & Hpath'). unfold deref. rewrite Hn. simpl.
  set (h := <[n := mkNode k None]> (nodes q)).
  exists (mkSpsc h (_head q) (_tail q) (producer q) (Taken n w) (published q) (popped q)).
  exists ((n, None) :: l'). split; [done |].
  assert (Hne : forall x, x ∈ addresses (_head q) ((n, w) :: l') -> x <> n -> h !! x = nodes q !! x)
    by (intros; by apply lookup_insert_ne).
  split; simpl; try done.
  + split; [| split; [done | apply Hpath']].
    rewrite Hne; [done | set_solver |]. simpl in Hnd.
    apply NoDup_cons in Hnd as [Hh _]. set_solver.
  + unfold producer_ok in *. simpl. destruct (producer q) as [| old m]; [done |].
    destruct Hp as (? & ? & ? & a & Ha). repeat (split; [done |]). exists a.
    unfold h. rewrite lookup_insert_ne; [done |]. simpl in Hnd. intros <-.
    apply NoDup_cons in Hnd as [_ Hnd]. apply NoDup_cons in Hnd as [Hd _].
    apply Hd. set_solver.
  + by exists l'.
  + unfold live; simpl. by rewrite app_nil_r.
  + intros x. unfold live, h; simpl. rewrite app_nil_r, lookup_insert_is_Some, Hl. simpl.
    destruct (decide (n = x)); set_solver.
Qed.

Lemma pop_move_inv n a q l last :
  consumer q = Taken n a -> spsc_inv q l last -> exists q' l', pop_step q = Ok q' /\ spsc_inv q' l' last.
Proof.
  intros Ec Hinv. pose proof Hinv as [Hpath Hp Hc Hnd Hl Hf]. unfold pop_step. unfold consumer_ok in Hc. rewrite Ec in Hc |- *.
  destruct Hc as (l' & ->). destruct Hpath as (H1 & H2 & H3).
  exists (mkSpsc (nodes q) n (_tail q) (producer q) (Retiring (_head q) a)
            (published q) (popped q)), l'. split; [done |].
  unfold live in *. rewrite Ec in *. cbn [extra_c] in *. rewrite app_nil_r in *.
  simpl in *. apply NoDup_cons in Hnd as [Hh Hnd].
  split; simpl; try done.
  + unfold live; simpl. rewrite app_assoc. rewrite app_comm_cons.
    apply NoDup_app. split; [done |]. split; [set_solver | apply NoDup_singleton].
  + intros x. rewrite Hl. unfold live; simpl. set_solver.
Qed.

Lemma pop_retire_inv old a q l last :
  consumer q = Retiring old a -> spsc_inv q l last -> exists q' l', pop_step q = Ok q' /\ spsc_inv q' l' last.
Proof.
  intros Ec Hinv. pose proof Hinv as [Hpath Hp Hc Hnd Hl Hf]. unfold pop_step. unfold consumer_ok in Hc. rewrite Ec in Hc |- *.
  unfold live in *. rewrite Ec in *. cbn [extra_c] in *. rewrite app_assoc in Hnd.
  apply NoDup_app in Hnd as (Hnd & Hold & _).
  destruct (proj2 (Hl old)) as [node Hnode]; [set_solver |].
  unfold deref. rewrite Hnode. simpl.
  exists (mkSpsc (delete old (nodes q)) (_head q) (_tail q) (producer q) ConsumerReady
            (published q) (popped q ++ [a])), l. split; [done |].
  assert (Hne : forall x, x ∈ addresses (_head q) l ++ extra_p (producer q) -> old <> x)
    by (intros x Hx <-; apply (Hold old Hx); set_solver).
  split; simpl; try done.
  + eapply path_frame; [| exact Hpath]. intros x Hx. apply lookup_delete_ne, Hne. set_solver.
  + unfold producer_ok in *. simpl. destruct (producer q) as [| old' m]; [done |].
    destruct Hp as (? & ? & ? & b & Hb). repeat (split; [done |]). exists b.
    rewrite lookup_delete_ne; [done |]. apply Hne. set_solver.
  + unfold live; simpl. by rewrite app_nil_r.
  + intros x. unfold live; simpl. rewrite app_nil_r, lookup_delete_is_Some, Hl.
    split; [set_solver |]. intros Hx. split; [by apply Hne | set_solver].
  + by rewrite Hf, <- app_assoc.
Qed.

Lemma pop_step_inv q l last :
  spsc_inv q l last -> exists q' l', pop_step q = Ok q' /\ spsc_inv q' l' last.
Proof.
  intros Hinv. destruct (consumer q) as [| n | n a | old a] eqn:Ec.
  - by eapply pop_load_inv.
  - by eapply pop_take_inv.
  - by eapply pop_move_inv.
  - by eapply pop_retire_inv.
Qed.

Lemma spsc_run_inv acts q l last :
  spsc_inv q l last -> exists q' l' last', spsc_run acts q = Ok q' /\ spsc_inv q' l' last'.
Proof.
  revert q l last. induction acts as [| act acts IH]; simpl; intros q l last Hi.
  { by exists q, l, last. }
  destruct act; simpl.
  - destruct (push_begin_inv a q l last Hi) as (q1 & -> & H1). eauto.
  - destruct (push_link_inv q l last Hi) as (q1 & l1 & last1 & -> & H1). eauto.
  - destruct (pop_step_inv q l last Hi) as (q1 & l1 & -> & H1). eauto.
Qed.

Lemma live_size q l last : spsc_inv q l last -> length (live q l) = base.size (nodes q).
Proof.
  intros Hi. rewrite <- size_dom, <- (size_list_to_set (C := gset Z) (live q l)) by apply Hi.
  f_equal. apply set_eq. intros x.
  rewrite elem_of_list_to_set, elem_of_dom. symmetry. apply (i_live _ _ _ Hi).
Qed.

Lemma destroy_ok fuel h p v l last :
  path h p v l last -> NoDup (addresses p l) ->
  (forall x, is_Some (h !! x) <-> x ∈ addresses p l) ->
  (length (addresses p l) <= fuel)%nat -> destroy fuel h p = Ok ∅.
Proof.
  revert h p v l. induction fuel as [| fuel IH]; simpl; intros h p v l Hp Hnd Hl Hf; [lia |].
  unfold deref. destruct l as [| [n w] l]; simpl in *.
  - destruct Hp as [H1 _]. rewrite H1. simpl. f_equal. apply map_eq. intros x.
    rewrite lookup_empty. apply eq_None_not_Some. intros Hx.
    apply lookup_delete_is_Some in Hx as [Hne Hx]. apply Hl in Hx. set_solver.
  - destruct Hp as (H1 & H0 & H2). rewrite H1. simpl. rewrite (proj2 (Z.eqb_neq _ _) H0).
    apply NoDup_cons in Hnd as [Hpn Hnd].
    destruct (path_lookup _ _ _ _ _ n H2 ltac:(set_solver)) as [node ->]. simpl.
    apply (IH _ n w l); [| done | | exact (le_S_n _ _ Hf)].
    + eapply path_frame; [| exact H2]. intros x Hx. apply lookup_delete_ne. intros ->. done.
    + intros x. rewrite lookup_delete_is_Some, Hl. set_solver.
Qed.

(** C12: Every interleaving of the producer and the consumer is free of undefined
    behaviour (no node is touched after its deletion); elements come out in the
    order of their publication, each once; [pop] reports an empty queue exactly
    when everything published has been taken; and no node is leaked: when both
    threads are done the destructor frees the whole heap. *)
Theorem spsc_interleavings_safe acts :
  exists q, spsc_run acts new_SpscLockFreeQueue = Ok q /\
    (exists rest, Some <$> published q = popped q ++ rest) /\
    (consumer q = ConsumerReady ->
       (pop_step q = Ok q <-> popped q = Some <$> published q)) /\
    (producer q = ProducerReady -> consumer q = ConsumerReady -> destructor q = Ok ∅).
Proof.
  destruct (spsc_run_inv acts _ _ _ new_inv) as (q & l & last & Hrun & Hi).
  exists q. split; [done |]. pose proof Hi as [Hpath Hp Hc Hnd Hl Hf]. split; [eauto |]. split.
  - intros Ec. rewrite Ec in Hf. simpl in Hf. unfold pop_step. rewrite Ec.
    destruct l as [| [n w] l]; simpl in *.
    + destruct Hpath as [H1 _]. unfold deref. rewrite H1. simpl.
      rewrite Hf, app_nil_r. done.
    + destruct Hpath as (H1 & H0 & _). unfold deref. rewrite H1. simpl.
      rewrite (proj2 (Z.eqb_neq _ _) H0). split.
      * intros [= E]. apply (f_equal consumer) in E. rewrite Ec in E. done.
      * intros E. rewrite <- E in Hf. apply (f_equal length) in Hf.
        rewrite length_app in Hf. simpl in Hf. lia.
  - intros Ep Ec. unfold destructor.
    assert (Hlive : live q l = addresses (_head q) l).
    { unfold live. rewrite Ep, Ec. simpl. by rewrite app_nil_r. }
    rewrite <- (live_size q l last Hi), Hlive. rewrite Hlive in Hnd.
    eapply destroy_ok; [exact Hpath | done | | done]. intros x. by rewrite Hl, Hlive.
Qed.

(** * The queue as the event loop's functor queue *)
Definition at_rest (q : SpscLockFreeQueue) : Prop :=
  producer q = ProducerReady /\ consumer q = ConsumerReady /\
  exists l last, spsc_inv q l last.

Definition unpopped (q : SpscLockFreeQueue) : list A := drop (length (popped q)) (published q).

Lemma unpopped_values q l last :
  spsc_inv q l last -> consumer q = ConsumerReady -> Some <$> unpopped q = l.*2.
Proof.
  intros Hi Ec. pose proof (i_fifo _ _ _ Hi) as Hf. rewrite Ec in Hf. simpl in Hf.
  unfold unpopped. rewrite fmap_drop, Hf. apply drop_app_length.
Qed.

Lemma push_at_rest a q :
  at_rest q -> exists q', push a q = Ok q' /\ at_rest q' /\ unpopped q' = unpopped q ++ [a].
Proof.
  intros (Ep & Ec & l & last & Hi). unfold push.
  destruct (push_begin_inv a q l last Hi) as (q1 & E1 & Hi1). rewrite E1.
  unfold push_begin in E1. rewrite Ep in E1. injection E1 as <-.
  destruct (push_link_inv _ _ _ Hi1) as (q2 & l2 & last2 & E2 & Hi2). rewrite E2.
  unfold push_link in E2. simpl in E2. unfold deref in E2.
  destruct (_ !! _tail q) as [t |]; [| done]. simpl in E2.
  rewrite lookup_insert_eq in E2. simpl in E2. injection E2 as <-.
  eexists. split; [done |]. split; [split; [done | split; [done | by exists l2, last2]] |].
  unfold unpopped. simpl. rewrite drop_app_le; [done |].
  pose proof (i_fifo _ _ _ Hi) as Hf. apply (f_equal length) in Hf.
  rewrite length_fmap, length_app in Hf. lia.
Qed.

Lemma pop_at_rest q :
  at_rest q ->
  exists q', pop q = Ok (head (unpopped q), q') /\ at_rest q' /\ unpopped q' = tail (unpopped q).
Proof.
  intros (Ep & Ec & l & last & Hi). pose proof (unpopped_values q l last Hi Ec) as Hu.
  pose proof Hi as [Hpath _ _ _ _ _]. unfold pop.
  destruct (pop_step_inv q l last Hi) as (q1 & l1 & E1 & Hi1). rewrite E1.
  unfold pop_step in E1. rewrite Ec in E1. destruct l as [| [n w] l]; simpl in Hpath.
  { destruct Hpath as [H1 _]. unfold deref in E1. rewrite H1 in E1. simpl in E1.
    injection E1 as <-. rewrite Ec. exists q. destruct (unpopped q); [| done].
    split; [done |]. split; [| done]. split; [done | split; [done | by exists l1, last]]. }
  destruct Hpath as (H1 & H0 & H2). unfold deref in E1. rewrite H1 in E1. simpl in E1.
  assert (Hn : exists k, nodes q !! n = Some (mkNode k w)).
  { destruct l as [| [m x] l]; simpl in H2; [exists 0 | exists m]; apply H2. }
  destruct Hn as [k Hn].
  rewrite (proj2 (Z.eqb_neq _ _) H0) in E1. injection E1 as <-. cbn [consumer].
  destruct (pop_step_inv _ _ _ Hi1) as (q2 & l2 & E2 & Hi2). rewrite E2.
  unfold pop_step in E2. cbn [consumer nodes] in E2. unfold deref in E2. rewrite Hn in E2.
  injection E2 as <-.
  destruct (pop_step_inv _ _ _ Hi2) as (q3 & l3 & E3 & Hi3). rewrite E3.
  injection E3 as <-. cbn [consumer].
  destruct (pop_step_inv _ _ _ Hi3) as (q4 & l4 & E4 & Hi4). rewrite E4.
  unfold pop_step in E4. cbn [consumer nodes] in E4. destruct (deref _ (_head q)); [| done].
  injection E4 as <-. destruct (unpopped q) as [| b rest] eqn:Eu; [done |].
  injection Hu as <- _. eexists. split; [done |].
  split; [split; [done | split; [done | by exists l4, last]] |].
  unfold unpopped in *. simpl. rewrite length_app, <- drop_drop, Eu. done.
Qed.

Lemma pop_until_null_at_rest fuel q :
  at_rest q -> (length (unpopped q) < fuel)%nat ->
  exists q', pop_until_null fuel q = Ok (unpopped q, q') /\ at_rest q' /\ unpopped q' = [].
Proof.
  revert q. induction fuel as [| fuel IH]; simpl; intros q Hr Hf; [lia |].
  destruct (pop_at_rest q Hr) as (q1 & -> & Hr1 & Hu1). simpl.
  destruct (unpopped q) as [| a l]; simpl in *; [by exists q1 |].
  destruct (IH q1 Hr1) as (q2 & -> & Hr2 & Hu2); [rewrite Hu1; lia |].
  exists q2. by rewrite Hu1.
Qed.

#[local] Instance lock_free_functor_queue : FunctorQueue SpscLockFreeQueue A := {
  q_ok := at_rest;
  contents := unpopped;
  q_push a q := match push a q with Ok q' => Some q' | Err _ => None end;
  q_drain q := pop_until_null (S (length (published q))) q
}.

(** The lock-free queue keeps the contract of a functor queue: pushes append and
    never block, and the loop that pops until null terminates with everything
    that was pushed, in order, leaving the queue empty. *)
Theorem lock_free_functor_queue_laws : FunctorQueueLaws SpscLockFreeQueue A.
Proof.
  split; simpl.
  - intros a q q' Hr. destruct (push_at_rest a q Hr) as (q1 & -> & H1 & H2).
    by intros [= <-].
  - intros a q Hr _. destruct (push_at_rest a q Hr) as (q1 & -> & _). eauto.
  - intros q Hr. apply (pop_until_null_at_rest (S (length (published q))) q); [done |].
    unfold unpopped. rewrite length_drop. lia.
Qed.
End Spsc.

(** * A concrete allocator *)
Definition sample_node_new (h : gmap Z (Node nat)) : Z :=
  map_fold (fun k _ m => Z.max k m) 0 h + 64.

Lemma sample_node_new_fresh h : 0 < sample_node_new h /\ h !! sample_node_new h = None.
Proof.
  unfold sample_node_new.
  assert (H : 0 <= map_fold (fun k _ m => Z.max k m) 0 h /\
              forall k, h !! k <> None -> k <= map_fold (fun k _ m => Z.max k m) 0 h).
  { apply (map_fold_weak_ind (fun m (h : gmap Z (Node nat)) =>
             0 <= m /\ forall k, h !! k <> None -> k <= m)).
    - split; [done |]. intros k. by rewrite lookup_empty.
    - intros k x h' m _ [H0 IH]. split; [lia |]. intros k' Hk.
      destruct (decide (k' = k)) as [-> | Hne]; [lia |].
      rewrite lookup_insert_ne in Hk by done. specialize (IH _ Hk). lia. }
  destruct H as [H0 H]. split; [lia |].
  destruct (h !! _) eqn:E; [| done]. specialize (H _ ltac:(by rewrite E)). lia.
Qed.

Lemma spsc_interleavings_safe_witness :
  exists q, spsc_run sample_node_new
      [PushBegin 1%nat; PushLink; PopStep; PushBegin 2%nat; PopStep; PopStep; PushLink; PopStep]
      (new_SpscLockFreeQueue sample_node_new) = Ok q /\
    popped q = [Some 1%nat] /\ destructor q = Ok ∅.
Proof.
  destruct (spsc_interleavings_safe sample_node_new sample_node_new_fresh
      [PushBegin 1%nat; PushLink; PopStep; PushBegin 2%nat; PopStep; PopStep; PushLink; PopStep])
    as (q & E & _ & _ & H).
  exists q. split; [exact E |].
  assert (Hs : producer q = ProducerReady /\ consumer q = ConsumerReady /\ popped q = [Some 1%nat]).
  { clear H. vm_compute in E. by injection E as <-. }
  destruct Hs as (H1 & H2 & H3). split; [exact H3 | exact (H H1 H2)].
Defined.

Lemma lock_free_functor_queue_laws_witness :
  exists q', q_drain (FunctorQueue := lock_free_functor_queue sample_node_new)
               (new_SpscLockFreeQueue sample_node_new) = Ok ([], q').
Proof.
  pose proof (lock_free_functor_queue_laws sample_node_new sample_node_new_fresh) as Hl.
  destruct (@q_drain_spec _ _ _ Hl (new_SpscLockFreeQueue sample_node_new)) as (q' & E & _).
  - split; [reflexivity |]. split; [reflexivity |].
    exists [], (sample_node_new ∅). apply new_inv, sample_node_new_fresh.
  - exists q'. exact E.
Defined.
