(* ===== verification/TcpBuffer.v ===== *)
(** The TCP buffer: [include/tcp_buffer.h], [src/tcp_buffer.cc].

    The bytes live in a [util::StringType], a [basic_string] of libstdc++;
    [_volatile_buffer_begin_ptr] points into the allocation it had when the pointer
    was last calibrated.  An allocation is a number; using the pointer when it is
    null, or when the string has moved to another allocation, is undefined, and so
    is a [memcpy] between overlapping regions.  The string grows as in libstdc++
    (15 bytes inside the object, then at least doubling), and asks its allocator
    for the new memory: the class [StringAllocator] says for which sizes that is
    defined, and everything below holds for any such allocator. *)
From S2P Require Import Prelude.

(** The allocator of the strings: whether allocating [n] characters is defined. *)
Class StringAllocator := { allocates : nat -> bool }.

(** The two choices of [util::StringType] ([include/util/slab_allocator.h]):
    [std::string], commented out there, and the string on the slab allocator of
    strings, which is the one in use.  The latter's [allocate] reads out of its
    array for every size up to 2048 ([StringSlabAllocator.slab_strings_allocate]). *)
Definition std_strings : StringAllocator := {| allocates _ := true |}.
Definition slab_strings : StringAllocator := {| allocates n := 2048 <? n |}.

(** What the parser relies on in its input: a view of the bytes that are left to
    read, and of the memory after the read position (a NUL follows it). *)
Class ReadBuffer (B : Type) := {
  b_ok : B -> Prop;
  readable : B -> bytes;
  get_next_crlf_position : B -> result (option nat);  (* from the read position *)
  get_readable_size : B -> nat;
  forward_read_position : Z -> B -> B
}.

(** The least offset of a CRLF. *)
Fixpoint crlf_index (l : bytes) : option nat :=
  match l with
  | c :: (d :: _) as l' =>
      if decide (c = CR /\ d = LF) then Some 0 else S <$> crlf_index l'
  | _ => None
  end.

(** The least offset of a newline. *)
Fixpoint newline_index (l : bytes) : option nat :=
  match l with
  | c :: l => if decide (c = LF) then Some 0 else S <$> newline_index l
  | [] => None
  end.

Class ReadBufferLaws (B : Type) `{ReadBuffer B} : Prop := {
  rb_crlf b : b_ok b -> get_next_crlf_position b = Ok (crlf_index (readable b));
  rb_size b : b_ok b -> get_readable_size b = length (readable b);
  rb_forward n b :
    b_ok b -> (n <= length (readable b)) ->
    b_ok (forward_read_position (Z.of_nat n) b) /\
    readable (forward_read_position (Z.of_nat n) b) = drop n (readable b)
}.

Module TcpBuffer.

Record t := mk {
  _buffer : bytes;
  capacity : nat;
  allocation : nat;
  _volatile_buffer_begin_ptr : option nat;
  _read_offset : nat;
  _write_offset : nat
}.

(** The capacity of an empty [std::string]. *)
Definition SSO : nat := 15.

(** [MutableSizeTcpBuffer::MutableSizeTcpBuffer] *)
Definition new (alloc : nat) : t := mk [] SSO alloc (Some alloc) 0 0.

(** A string destroyed and constructed again in place. *)
Definition flush (b : t) : t :=
  mk [] SSO (S (allocation b)) (_volatile_buffer_begin_ptr b) (_read_offset b) (_write_offset b).

Definition reset (b : t) : t :=
  let b := match _volatile_buffer_begin_ptr b with Some _ => flush b | None => b end in
  mk (_buffer b) (capacity b) (allocation b) (Some (allocation b)) 0 0.

Definition release (b : t) : t :=
  match _volatile_buffer_begin_ptr b with
  | None => b
  | Some _ =>
      let b := flush b in
      mk (_buffer b) (capacity b) (allocation b) None (_read_offset b) (_write_offset b)
  end.

(** The pointer is usable when it points to the string's current allocation. *)
Definition ptr_valid (b : t) : bool :=
  match _volatile_buffer_begin_ptr b with
  | Some a => a =? allocation b
  | None => false
  end.

Definition access (b : t) (i : nat) : result ascii :=
  if ptr_valid b
  then of_option UndefinedBehaviour ((_buffer b ++ [NUL]) !! i) else Err UndefinedBehaviour.

(** [basic_string::resize]: growing allocates the new capacity and a NUL. *)
Definition grown_capacity (n : nat) (b : t) : nat := Nat.max n (2 * capacity b).

Definition resize {strings : StringAllocator} (n : nat) (b : t) : result t :=
  let content := take n (_buffer b ++ replicate (n - length (_buffer b)) NUL) in
  if n <=? capacity b
  then Ok (mk content (capacity b) (allocation b) (_volatile_buffer_begin_ptr b)
             (_read_offset b) (_write_offset b))
  else if allocates (S (grown_capacity n b))
  then Ok (mk content (grown_capacity n b) (S (allocation b))
             (_volatile_buffer_begin_ptr b) (_read_offset b) (_write_offset b))
  else Err UndefinedBehaviour.

(** Unsigned arithmetic on [size_t]. *)
Definition size_sub (a b : nat) : Z := u64 (Z.of_nat a - Z.of_nat b).
Definition size_add (a : nat) (n : Z) : nat := Z.to_nat (u64 (Z.of_nat a + n)).

Definition get_readable_size (b : t) : nat :=
  Z.to_nat (size_sub (_write_offset b) (_read_offset b)).

Definition forward_read_position (n : Z) (b : t) : t :=
  mk (_buffer b) (capacity b) (allocation b) (_volatile_buffer_begin_ptr b)
    (Nat.min (size_add (_read_offset b) n) (_write_offset b)) (_write_offset b).

(** The loops that look for a newline, or a CRLF, at [i .. i + n - 1]; the
    result is an offset into the buffer. *)
Fixpoint find_newline (n i : nat) (b : t) : result (option nat) :=
  match n with
  | O => Ok None
  | S n =>
      let* c := access b i in
      if decide (c = LF) then Ok (Some i) else find_newline n (S i) b
  end.

Fixpoint find_crlf (n i : nat) (b : t) : result (option nat) :=
  match n with
  | O => Ok None
  | S n =>
      let* c := access b i in
      if decide (c = CR) then
        let* d := access b (S i) in
        if decide (d = LF) then Ok (Some i) else find_crlf n (S i) b
      else find_crlf n (S i) b
  end.

Definition get_next_newline_position (b : t) : result (option nat) :=
  if _write_offset b <=? _read_offset b then Ok None
  else find_newline (_write_offset b - _read_offset b) (_read_offset b) b.

Definition get_next_crlf_position (b : t) : result (option nat) :=
  if _write_offset b <=? _read_offset b then Ok None
  else find_crlf (_write_offset b - 1 - _read_offset b) (_read_offset b) b.

(** [memcpy] inside the buffer: [len] bytes from [src] to its beginning. *)
Definition memcpy_to_begin (src len : nat) (b : t) : result t :=
  if negb (ptr_valid b) then Err UndefinedBehaviour
  else if (0 <? len) && (src <? len) then Err UndefinedBehaviour
  else Ok (mk (take len (drop src (_buffer b)) ++ drop len (_buffer b)) (capacity b)
             (allocation b) (_volatile_buffer_begin_ptr b) (_read_offset b) (_write_offset b)).

(** [_make_space]: the offset of the new space ([None] is the null pointer). *)
Definition _make_space {strings : StringAllocator} (size : nat) (b : t) : result (option nat * t) :=
  if size =? 0 then Ok (None, b)
  else
    let directly_extendable_size := size_sub (capacity b) (_write_offset b) in
    let* b :=
      if (Z.of_nat size <=? directly_extendable_size)%Z
      then resize (_write_offset b + size) b
      else if (Z.of_nat size <=? u64 (directly_extendable_size + Z.of_nat (_read_offset b)))%Z
      then
        let* b := memcpy_to_begin (_read_offset b) (_write_offset b - _read_offset b) b in
        let b := mk (_buffer b) (capacity b) (allocation b) (_volatile_buffer_begin_ptr b)
                   0 (_write_offset b - _read_offset b) in
        resize (_write_offset b + size) b
      else
        let* b := resize (_write_offset b + size) b in
        Ok (mk (_buffer b) (capacity b) (allocation b) (Some (allocation b))
              (_read_offset b) (_write_offset b))
    in
    Ok (Some (_write_offset b),
        mk (_buffer b) (capacity b) (allocation b) (_volatile_buffer_begin_ptr b)
          (_read_offset b) (_write_offset b + size)).

(** [memcpy] of external data to the space just made. *)
Definition write_at (pos : nat) (data : bytes) (b : t) : result t :=
  if ptr_valid b && (pos + length data <=? length (_buffer b))
  then Ok (mk (take pos (_buffer b) ++ data ++ drop (pos + length data) (_buffer b))
             (capacity b) (allocation b) (_volatile_buffer_begin_ptr b)
             (_read_offset b) (_write_offset b))
  else Err UndefinedBehaviour.

Definition append {strings : StringAllocator} (external_buffer : bytes) (b : t) : result t :=
  let* (internal_buffer, b) := _make_space (length external_buffer) b in
  match internal_buffer with
  | None => Ok b
  | Some pos => write_at pos external_buffer b
  end.

Definition append_space {strings : StringAllocator} (b : t) : result t := append [SP] b.
Definition append_newline {strings : StringAllocator} (b : t) : result t := append [LF] b.
Definition append_crlf {strings : StringAllocator} (b : t) : result t := append crlf b.
Definition append_colon {strings : StringAllocator} (b : t) : result t := append (str ":") b.

(** The bytes between the two offsets. *)
Definition contents (b : t) : bytes := slice (_buffer b) (_read_offset b) (_write_offset b).

(** The invariant of a buffer in use (constructed or reset, not released). *)
Record wf (b : t) : Prop := {
  wf_ptr : _volatile_buffer_begin_ptr b = Some (allocation b);
  wf_read : _read_offset b <= _write_offset b;
  wf_write : _write_offset b = length (_buffer b);
  wf_capacity : length (_buffer b) <= capacity b;
  wf_size : (Z.of_nat (capacity b) < 2 ^ 62)%Z
}.

(** The two ways an append can go wrong on a buffer in use: the data fits after
    compaction only, and the bytes to move overlap their destination; or it does
    not fit, and the allocator is undefined for the capacity the string grows to. *)
Definition compaction_overlaps (size : nat) (b : t) : bool :=
  (capacity b - _write_offset b <? size)
  && (size <=? capacity b - _write_offset b + _read_offset b)
  && (_read_offset b <? _write_offset b - _read_offset b).

Definition growth_undefined {strings : StringAllocator} (size : nat) (b : t) : bool :=
  (capacity b - _write_offset b + _read_offset b <? size)
  && negb (allocates (S (grown_capacity (_write_offset b + size) b))).

Definition append_undefined {strings : StringAllocator} (size : nat) (b : t) : bool :=
  compaction_overlaps size b || growth_undefined size b.

Lemma ptr_valid_wf b : wf b -> ptr_valid b = true.
Proof. intros H. unfold ptr_valid. rewrite (wf_ptr _ H). apply Nat.eqb_refl. Qed.

Lemma size_sub_le a b : b <= a -> (Z.of_nat a < 2 ^ 62)%Z -> size_sub a b = Z.of_nat (a - b).
Proof. intros H Ha. unfold size_sub. rewrite u64_small by lia. lia. Qed.

Lemma new_wf a : wf (new a).
Proof. split; simpl; try done; lia. Qed.


(** A released buffer: null pointer, empty string. *)
Definition released (b : t) : Prop :=
  _volatile_buffer_begin_ptr b = None /\ _buffer b = [] /\ capacity b = SSO.

Lemma release_released b : wf b -> released (release b).
Proof. intros H. unfold release. by rewrite (wf_ptr _ H). Qed.

Lemma reset_wf b : wf b \/ released b -> wf (reset b) /\ contents (reset b) = [].
Proof.
  intros H. unfold reset. destruct (_volatile_buffer_begin_ptr b) eqn:E.
  - by split; [split; simpl; try done; lia |].
  - destruct H as [H | (_ & H1 & H2)]; [by rewrite (wf_ptr _ H) in E |].
    rewrite H1, H2. by split; [split; simpl; try done; lia |].
Qed.

Lemma contents_drop b : wf b -> contents b = drop (_read_offset b) (_buffer b).
Proof.
  intros H. unfold contents, slice. rewrite (wf_write _ H). apply take_ge.
  rewrite length_drop. lia.
Qed.

Lemma length_contents b : wf b -> length (contents b) = _write_offset b - _read_offset b.
Proof. intros H. rewrite contents_drop, length_drop, (wf_write _ H) by done. done. Qed.

(** ** Appending *)
Section Appending.
Set Default Proof Using "Type".
Context {strings : StringAllocator}.

Lemma resize_fits n b :
  n <= capacity b -> resize n b =
  Ok (mk (take n (_buffer b ++ replicate (n - length (_buffer b)) NUL)) (capacity b) (allocation b)
        (_volatile_buffer_begin_ptr b) (_read_offset b) (_write_offset b)).
Proof. intros Hn. unfold resize. by rewrite (proj2 (Nat.leb_le _ _) Hn). Qed.

Lemma resize_grows n b :
  capacity b < n -> resize n b =
  if allocates (S (grown_capacity n b))
  then Ok (mk (take n (_buffer b ++ replicate (n - length (_buffer b)) NUL)) (grown_capacity n b)
             (S (allocation b)) (_volatile_buffer_begin_ptr b) (_read_offset b) (_write_offset b))
  else Err UndefinedBehaviour.
Proof. intros Hn. unfold resize. by rewrite (proj2 (Nat.leb_gt _ _) Hn). Qed.

Lemma resize_capacity n b b' : resize n b = Ok b' -> capacity b <= capacity b'.
Proof.
  unfold resize. destruct (n <=? capacity b); [by intros [= <-] |].
  destruct (allocates _); [| done]. intros [= <-]. simpl. unfold grown_capacity. lia.
Qed.

(** The space made after [pos] bytes of [l] takes exactly the new data. *)
Lemma write_at_resized l c a r w pos data :
  pos <= length l ->
  write_at pos data
    (mk (take (pos + length data) (l ++ replicate (pos + length data - length l) NUL))
       c a (Some a) r w)
  = Ok (mk (take pos l ++ data) c a (Some a) r w).
Proof.
  intros Hpos. unfold write_at, ptr_valid. simpl. rewrite Nat.eqb_refl.
  assert (Hl : length (take (pos + length data)
                         (l ++ replicate (pos + length data - length l) NUL))
               = pos + length data).
  { rewrite length_take, length_app, length_replicate. lia. }
  rewrite Hl, Nat.leb_refl. simpl. rewrite drop_ge by lia. rewrite app_nil_r.
  rewrite take_take, Nat.min_l by lia. by rewrite take_app_le by lia.
Qed.

Lemma finish_wf l d c a r w :
  w = length l -> r <= w -> w + length d <= c -> (Z.of_nat c < 2 ^ 62)%Z ->
  wf (mk (l ++ d) c a (Some a) r (w + length d)) /\
  contents (mk (l ++ d) c a (Some a) r (w + length d)) = slice l r w ++ d.
Proof.
  intros -> Hr Hc Hs. split.
  - split; simpl; rewrite ?length_app; try done; lia.
  - unfold contents, slice; simpl. rewrite drop_app_le by done.
    rewrite take_ge by (rewrite length_app, length_drop; lia).
    by rewrite take_ge by (rewrite length_drop; lia).
Qed.

Lemma append_ok d b
    (Hwf : wf b) (Hsize : (Z.of_nat (capacity b + length d) < 2 ^ 60)%Z) :
  if append_undefined (length d) b
  then append d b = Err UndefinedBehaviour
  else exists b', append d b = Ok b' /\ wf b' /\ contents b' = contents b ++ d.
Proof.
  destruct Hwf as [Hp Hr Hw Hc Hs]. destruct b as [l c a p r w]; simpl in *. subst p.
  unfold append, _make_space, append_undefined, compaction_overlaps, growth_undefined; simpl.
  destruct (Nat.eqb_spec (length d) 0) as [E0 | E0].
  { apply length_zero_iff_nil in E0 as ->. simpl.
    eexists. split; [done |]. rewrite app_nil_r. done. }
  rewrite size_sub_le by lia. destruct (Z.leb_spec (Z.of_nat (length d)) (Z.of_nat (c - w))) as [E1 | E1].
  - rewrite !(proj2 (Nat.ltb_ge _ (length d))) by lia. simpl.
    rewrite resize_fits by (simpl; lia). simpl. rewrite write_at_resized by lia.
    rewrite take_ge by lia. eexists. split; [done |]. apply finish_wf; lia.
  - replace (c - w <? length d) with true by (symmetry; apply Nat.ltb_lt; lia).
    rewrite u64_small by lia. cbn [andb].
    destruct (Z.leb_spec (Z.of_nat (length d)) (Z.of_nat (c - w) + Z.of_nat r)) as [E2 | E2].
    + replace (length d <=? c - w + r) with true by (symmetry; apply Nat.leb_le; lia).
      replace (c - w + r <? length d) with false by (symmetry; apply Nat.ltb_ge; lia).
      cbn [andb]. rewrite orb_false_r.
      unfold memcpy_to_begin, ptr_valid. simpl. rewrite Nat.eqb_refl. cbn [negb].
      destruct (Nat.ltb_spec r (w - r)) as [E3 | E3].
      { by replace (0 <? w - r) with true by (symmetry; apply Nat.ltb_lt; lia). }
      rewrite andb_false_r. cbn [_buffer capacity allocation _volatile_buffer_begin_ptr
                                 _read_offset _write_offset].
      set (l' := take (w - r) (drop r l) ++ drop (w - r) l).
      assert (Hl' : length l' = w).
      { unfold l'. rewrite length_app, length_take, !length_drop. lia. }
      rewrite resize_fits by (simpl; lia). cbn [_buffer capacity allocation _read_offset
                                 _write_offset _volatile_buffer_begin_ptr].
      rewrite write_at_resized by lia.
      assert (Ht : take (w - r) l' = slice l r w).
      { unfold l', slice. rewrite take_app_le by (rewrite length_take, length_drop; lia).
        by rewrite take_take, Nat.min_id. }
      rewrite Ht. eexists. split; [done |].
      assert (Hls : length (slice l r w) = w - r) by (apply length_slice; lia).
      destruct (finish_wf (slice l r w) d c a 0 (w - r)) as [F1 F2]; [lia .. |].
      split; [done |]. rewrite F2. by rewrite <- Hls, slice_all.
    + replace (length d <=? c - w + r) with false by (symmetry; apply Nat.leb_gt; lia).
      replace (c - w + r <? length d) with true by (symmetry; apply Nat.ltb_lt; lia).
      cbn [andb orb]. rewrite resize_grows by (simpl; lia). destruct (allocates _); [| done].
      unfold grown_capacity. simpl. rewrite write_at_resized by lia.
      rewrite take_ge by lia. eexists. split; [done |]. apply finish_wf; lia.
Qed.

(** With nothing to read there is nothing to move. *)
Lemma append_undefined_empty n b :
  wf b -> contents b = [] -> append_undefined n b = growth_undefined n b.
Proof.
  intros Hw Hc. apply (f_equal length) in Hc. rewrite length_contents in Hc by done.
  unfold append_undefined, compaction_overlaps. simpl in Hc.
  replace (_read_offset b <? _) with false; [by rewrite andb_false_r |].
  symmetry. apply Nat.ltb_ge. lia.
Qed.

(** An append never gives memory back. *)
Lemma append_capacity d b b' : append d b = Ok b' -> capacity b <= capacity b'.
Proof.
  unfold append. destruct (_make_space (length d) b) as [[pos e] |] eqn:E; [| done].
  assert (He : capacity b <= capacity e).
  { revert E. unfold _make_space, memcpy_to_begin. cbv zeta.
    destruct (length d =? 0); [by intros [= _ <-] |].
    repeat match goal with
           | |- context [resize ?n ?x] =>
               let Er := fresh in destruct (resize n x) eqn:Er; [apply resize_capacity in Er |]
           | |- context [if ?c then _ else _] => destruct c
           end; simpl in *; intros [= _ <-]; simpl in *; lia. }
  destruct pos as [pos |]; [| by intros [= <-]].
  unfold write_at. destruct (_ && _); [| done]. by intros [= <-].
Qed.

(** Nor does it take more than twice what it has to hold. *)
Lemma append_capacity_le d b b' :
  wf b -> append d b = Ok b' ->
  capacity b' <= Nat.max (capacity b) (2 * (length (contents b) + length d)).
Proof.
  intros Hwf. rewrite length_contents by done. destruct Hwf as [Hp Hr Hw Hc Hs].
  unfold append, _make_space, memcpy_to_begin.
  destruct (Nat.eqb_spec (length d) 0); [by intros [= <-]; lia |]. simpl.
  assert (Hwr : forall pos e, write_at pos d e = Ok b' -> capacity b' = capacity e).
  { unfold write_at. intros pos e. destruct (_ && _); [| done]. by intros [= <-]. }
  rewrite size_sub_le, u64_small by lia.
  destruct (Z.leb_spec (Z.of_nat (length d)) (Z.of_nat (capacity b - _write_offset b))) as [E1 | E1].
  - simpl. rewrite resize_fits by lia. intros E%Hwr. simpl in E. lia.
  - destruct (Z.leb_spec (Z.of_nat (length d))
                (Z.of_nat (capacity b - _write_offset b) + Z.of_nat (_read_offset b))) as [E2 | E2].
    + destruct (negb _); [done |]. destruct (_ && _); [done |]. simpl.
      rewrite resize_fits by (simpl; lia). intros E%Hwr. simpl in E. lia.
    + rewrite resize_grows by lia. destruct (allocates _); [| done].
      intros E%Hwr. unfold grown_capacity in E. simpl in E. lia.
Qed.

(** C38: Appending to a buffer in use adds the bytes at the end of the readable ones
    and keeps the buffer in use, reallocating or compacting as needed, and the
    capacity never shrinks - unless one of two things happens, and then it is
    undefined behaviour: it compacts with overlapping regions, or the string has to
    grow to a size its allocator is not defined for.  For [std::string] there is no
    such size.  For the string the program uses the first growth of a buffer is one,
    unless it goes beyond 2047 bytes at once. *)
Theorem append_spec d b
    (Hwf : wf b) (Hsize : (Z.of_nat (capacity b + length d) < 2 ^ 60)%Z) :
  if compaction_overlaps (length d) b || growth_undefined (length d) b
  then append d b = Err UndefinedBehaviour
  else exists b', append d b = Ok b' /\ wf b' /\ contents b' = contents b ++ d /\
    capacity b <= capacity b'.
Proof.
  pose proof (append_ok d b Hwf Hsize) as Happ. unfold append_undefined in Happ.
  destruct (_ || _); [done |]. destruct Happ as (b' & E & ? & ?). exists b'.
  eauto using append_capacity.
Qed.
End Appending.

(** [std::string] grows to any size. *)
Lemma std_growth n b : growth_undefined (strings := std_strings) n b = false.
Proof. apply andb_false_r. Qed.

(** The string in use does not leave its 15 bytes, except by a jump. *)
Lemma slab_growth n a :
  growth_undefined (strings := slab_strings) n (new a) = (SSO <? n) && (n <=? 2047).
Proof.
  unfold growth_undefined, grown_capacity.
  cbn [capacity _write_offset _read_offset new allocates slab_strings].
  change (SSO - 0 + 0) with SSO. destruct (Nat.ltb_spec SSO n) as [Hn | Hn]; [| done].
  cbn [andb Nat.add]. change (2 * SSO) with 30. destruct (Nat.leb_spec n 2047).
  - by rewrite (proj2 (Nat.ltb_ge _ _)) by lia.
  - by rewrite (proj2 (Nat.ltb_lt _ _)) by lia.
Qed.

(** ** Reading *)
Lemma access_wf b i c :
  wf b -> _buffer b !! i = Some c -> access b i = Ok c.
Proof.
  intros H Hi. unfold access. rewrite ptr_valid_wf by done.
  rewrite lookup_app_l by (by eapply lookup_lt_Some). by rewrite Hi.
Qed.

Lemma crlf_index_cons x y l :
  crlf_index (x :: y :: l)
  = if decide (x = CR /\ y = LF) then Some 0 else S <$> crlf_index (y :: l).
Proof. done. Qed.

Lemma find_crlf_spec n i b :
  wf b -> i + n = length (_buffer b) - 1 ->
  find_crlf n i b = Ok ((fun k => i + k) <$> crlf_index (drop i (_buffer b))).
Proof.
  intros Hwf. revert i. induction n as [| n IH]; intros i Hi; simpl.
  - destruct (drop i (_buffer b)) as [| x [| y m]] eqn:E; [done | done |].
    apply (f_equal length) in E. rewrite length_drop in E. simpl in E. lia.
  - destruct (lookup_lt_is_Some_2 (_buffer b) i ltac:(lia)) as [x Hx].
    destruct (lookup_lt_is_Some_2 (_buffer b) (S i) ltac:(lia)) as [y Hy].
    rewrite (access_wf b i x Hwf Hx), (access_wf b (S i) y Hwf Hy). simpl.
    rewrite (IH (S i)) by lia.
    rewrite (drop_S _ _ _ Hx), (drop_S _ _ _ Hy), crlf_index_cons.
    destruct (crlf_index (y :: _)) as [k |]; destruct (decide (x = CR)) as [-> | Hne];
      try (destruct (decide (y = LF)) as [-> | Hne]); repeat case_decide; simpl;
      first [naive_solver | do 2 f_equal; lia].
Qed.

(** The position of the next CRLF is that of the first one among the readable
    bytes, and looking for it never leaves the buffer. *)
Theorem get_next_crlf_spec b (Hwf : wf b) :
  get_next_crlf_position b
  = Ok ((fun k => _read_offset b + k) <$> crlf_index (contents b)).
Proof.
  unfold get_next_crlf_position. rewrite contents_drop by done.
  pose proof (wf_write _ Hwf) as Hw. destruct (_write_offset b <=? _read_offset b) eqn:E.
  - apply Nat.leb_le in E. by rewrite drop_ge by lia.
  - apply Nat.leb_gt in E. apply find_crlf_spec; [done | lia].
Qed.

Lemma find_newline_spec n i b :
  wf b -> i + n = length (_buffer b) ->
  find_newline n i b = Ok ((fun k => i + k) <$> newline_index (drop i (_buffer b))).
Proof.
  intros Hwf. revert i. induction n as [| n IH]; intros i Hi; simpl.
  { by rewrite drop_ge by lia. }
  destruct (lookup_lt_is_Some_2 (_buffer b) i ltac:(lia)) as [x Hx].
  rewrite (access_wf b i x Hwf Hx), (drop_S _ _ _ Hx), (IH (S i)) by lia. simpl.
  case_decide; simpl; [do 2 f_equal; lia |].
  destruct (newline_index _); simpl; do 2 f_equal; lia.
Qed.

(** The same for a newline. *)
Lemma get_next_newline_ok b :
  wf b ->
  get_next_newline_position b
  = Ok ((fun k => _read_offset b + k) <$> newline_index (contents b)).
Proof.
  intros Hwf. unfold get_next_newline_position. rewrite contents_drop by done.
  pose proof (wf_write _ Hwf) as Hw. destruct (_write_offset b <=? _read_offset b) eqn:E.
  - apply Nat.leb_le in E. by rewrite drop_ge by lia.
  - apply Nat.leb_gt in E. apply find_newline_spec; [done | lia].
Qed.

(** Searching a released buffer that had unread bytes goes through the null pointer. *)
Lemma get_next_newline_released b :
  released b ->
  get_next_newline_position b
  = if _write_offset b <=? _read_offset b then Ok None else Err UndefinedBehaviour.
Proof.
  intros (Hp & _ & _). unfold get_next_newline_position.
  destruct (Nat.leb_spec (_write_offset b) (_read_offset b)); [done |].
  destruct (_write_offset b - _read_offset b) eqn:E; [lia |].
  simpl. unfold access, ptr_valid. by rewrite Hp.
Qed.

Lemma forward_wf n b :
  wf b -> n <= length (contents b) ->
  wf (forward_read_position (Z.of_nat n) b) /\
  contents (forward_read_position (Z.of_nat n) b) = drop n (contents b).
Proof.
  intros Hwf. rewrite length_contents by done. intros Hn.
  pose proof Hwf as [Hp Hr Hw Hc Hs].
  assert (Hadd : size_add (_read_offset b) (Z.of_nat n) = _read_offset b + n).
  { unfold size_add. rewrite u64_small by lia. lia. }
  assert (Hwf' : wf (forward_read_position (Z.of_nat n) b)).
  { unfold forward_read_position. rewrite Hadd. split; simpl; try done; lia. }
  split; [done |]. rewrite !contents_drop by done. simpl. rewrite Hadd, Nat.min_l by lia.
  by rewrite drop_drop.
Qed.

End TcpBuffer.

#[export] Instance tcp_read_buffer : ReadBuffer TcpBuffer.t := {
  b_ok := TcpBuffer.wf;
  readable := TcpBuffer.contents;
  get_next_crlf_position b :=
    let* p := TcpBuffer.get_next_crlf_position b in
    Ok ((fun i => i - TcpBuffer._read_offset b) <$> p);
  get_readable_size := TcpBuffer.get_readable_size;
  forward_read_position := TcpBuffer.forward_read_position
}.

#[export] Instance tcp_read_buffer_laws : ReadBufferLaws TcpBuffer.t.
Proof.
  split; simpl.
  - intros b Hwf. unfold TcpBuffer.get_next_crlf_position.
    rewrite TcpBuffer.contents_drop by done. pose proof (TcpBuffer.wf_write _ Hwf) as Hw.
    destruct (_ <=? _) eqn:E; simpl.
    + apply Nat.leb_le in E. by rewrite drop_ge by lia.
    + apply Nat.leb_gt in E. rewrite TcpBuffer.find_crlf_spec by (done || lia). simpl.
      destruct (crlf_index _); simpl; [do 2 f_equal; lia | done].
  - intros b Hwf. unfold TcpBuffer.get_readable_size.
    rewrite TcpBuffer.length_contents by done. destruct Hwf as [Hp Hr Hw Hc Hs].
    rewrite TcpBuffer.size_sub_le by lia. lia.
  - intros n b. apply TcpBuffer.forward_wf.
Qed.

(** * Facts about the first CRLF, shared by the parsers *)
Lemma crlf_index_none l : crlf_index l = None <-> forall a b, l <> a ++ crlf ++ b.
Proof.
  split.
  - intros H a b ->. revert H. induction a as [| x a IH]; [done |].
    change ((x :: a) ++ crlf ++ b) with (x :: (a ++ crlf ++ b)).
    destruct (a ++ crlf ++ b) as [| y m] eqn:E; [by destruct a |].
    rewrite TcpBuffer.crlf_index_cons. case_decide; [done |].
    destruct (crlf_index (y :: m)); [done | auto].
  - induction l as [| x [| y l] IH]; [done | done |]. intros H.
    rewrite TcpBuffer.crlf_index_cons. case_decide as Hd.
    + destruct Hd as [-> ->]. by destruct (H [] l).
    + rewrite IH; [done |]. intros a b E. apply (H (x :: a) b). by rewrite E.
Qed.

Lemma crlf_index_some l k :
  crlf_index l = Some k ->
  l = take k l ++ crlf ++ drop (k + 2) l /\ k + 2 <= length l /\ crlf_index (take k l ++ [CR]) = None.
Proof.
  revert k. induction l as [| x [| y l] IH]; [done | done |]. intros k.
  rewrite TcpBuffer.crlf_index_cons. case_decide as Hd.
  - destruct Hd as [-> ->]. intros [= <-]. simpl. split; [done |]. split; [lia | done].
  - destruct (crlf_index (y :: l)) as [j |] eqn:E; [| done]. intros [= <-].
    destruct (IH j eq_refl) as (H1 & H2 & H3). split; [simpl in *; by f_equal |].
    split; [simpl in *; lia |]. destruct j as [| j]; simpl.
    + destruct l; simpl in *; [lia |]. rewrite decide_False; [done |]. naive_solver.
    + simpl in H3. rewrite decide_False by done. by rewrite H3.
Qed.

(** More bytes after the first CRLF do not move it. *)
Lemma crlf_index_app l m k : crlf_index l = Some k -> crlf_index (l ++ m) = Some k.
Proof.
  revert k. induction l as [| x [| y l] IH]; [done | done |]. intros k.
  change ((x :: y :: l) ++ m) with (x :: y :: (l ++ m)).
  rewrite !TcpBuffer.crlf_index_cons. case_decide; [done |].
  destruct (crlf_index (y :: l)) as [j |] eqn:E; [| done]. intros [= <-].
  change (y :: l ++ m) with ((y :: l) ++ m). by rewrite (IH j eq_refl).
Qed.

(** A line without CR is found whole. *)
Lemma crlf_index_line l m : CR ∉ l -> crlf_index (l ++ crlf ++ m) = Some (length l).
Proof.
  induction l as [| x l IH]; [done |]. intros H.
  apply not_elem_of_cons in H as [Hx Hl]. specialize (IH Hl).
  change ((x :: l) ++ crlf ++ m) with (x :: (l ++ crlf ++ m)).
  destruct (l ++ crlf ++ m) as [| y k]; [by destruct l |].
  rewrite TcpBuffer.crlf_index_cons, decide_False by naive_solver. by rewrite IH.
Qed.

(** * A buffer with [3] bytes read out of [13], and appends of [2] and [5] *)
Definition sample_buffer : TcpBuffer.t :=
  TcpBuffer.mk (str "GET / HTTP/1.") 15 0 (Some 0) 3 13.

Lemma sample_buffer_wf : TcpBuffer.wf sample_buffer.
Proof. split; simpl; try done; lia. Qed.

(** The first fits; the second is undefined: ten bytes would move by three; the
    third grows, where the allocator is defined for 31 characters. *)
Lemma append_spec_witness :
  (exists b, TcpBuffer.append (strings := slab_strings) (str "1 ") sample_buffer = Ok b /\
     TcpBuffer.contents b = str " / HTTP/1.1 ") /\
  TcpBuffer.append (strings := std_strings) (str "1 abc") sample_buffer = Err UndefinedBehaviour /\
  TcpBuffer.append (strings := slab_strings) (str "1 abcdef") sample_buffer = Err UndefinedBehaviour /\
  (exists b, TcpBuffer.append (strings := std_strings) (str "1 abcdef") sample_buffer = Ok b /\
     TcpBuffer.contents b = str " / HTTP/1.1 abcdef").
Proof.
  split; [| split; [| split]].
  - pose proof (TcpBuffer.append_spec (strings := slab_strings) (str "1 ") sample_buffer sample_buffer_wf
                  ltac:(done)) as H.
    destruct H as (b & E & _ & Hc & _). exists b. split; [exact E | exact Hc].
  - exact (TcpBuffer.append_spec (strings := std_strings) (str "1 abc") sample_buffer sample_buffer_wf ltac:(done)).
  - exact (TcpBuffer.append_spec (strings := slab_strings) (str "1 abcdef") sample_buffer sample_buffer_wf ltac:(done)).
  - pose proof (TcpBuffer.append_spec (strings := std_strings) (str "1 abcdef") sample_buffer sample_buffer_wf
                  ltac:(done)) as H.
    destruct H as (b & E & _ & Hc & _). exists b. split; [exact E | exact Hc].
Defined.

Lemma get_next_crlf_spec_witness :
  TcpBuffer.get_next_crlf_position (TcpBuffer.mk (str "ab" ++ crlf) 15 0 (Some 0) 1 4)
  = Ok (Some 2).
Proof.
  apply (TcpBuffer.get_next_crlf_spec (TcpBuffer.mk (str "ab" ++ crlf) 15 0 (Some 0) 1 4)).
  split; simpl; try done; lia.
Defined.
