(* ===== verification/HttpRequest.v ===== *)
(** HTTP requests: [example/http/server/src/http_request.cc] and its header.

    Pointers are offsets into [m], the bytes of the input buffer from the read
    position on; the string's terminating NUL follows them and anything beyond it
    is out of bounds (undefined).  [start] is offset [0] and [end] is [e].
    A [std::string] made of a range whose end precedes its beginning throws
    [std::length_error], which nothing catches.  [isspace] is the C locale's. *)
From S2P Require Import Prelude TimePoint TcpBuffer.
Open Scope nat_scope.

Inductive HttpMethodType := UNSUPPORTED_HTTP_METHOD | GET | POST.
Inductive HttpVersionType := UNSUPPORTED_HTTP_VERSION | HTTP_1_0 | HTTP_1_1.

#[export] Instance HttpMethodType_eq_dec : EqDecision HttpMethodType.
Proof. solve_decision. Defined.
#[export] Instance HttpVersionType_eq_dec : EqDecision HttpVersionType.
Proof. solve_decision. Defined.

Record HttpRequest := mkRequest {
  _method : HttpMethodType;
  _path : bytes;
  _version : HttpVersionType;
  _receive_time_point : TimePoint.t;
  _headers : gmap bytes bytes;
  _need_close : bool;
  _body : bytes
}.

Definition new_HttpRequest : HttpRequest :=
  mkRequest UNSUPPORTED_HTTP_METHOD [] UNSUPPORTED_HTTP_VERSION (TimePoint.mk 0) ∅ false [].

(** [reset] leaves [_need_close] as it is. *)
Definition reset_request (r : HttpRequest) : HttpRequest :=
  mkRequest UNSUPPORTED_HTTP_METHOD [] UNSUPPORTED_HTTP_VERSION (TimePoint.mk 0) ∅
    (_need_close r) [].

Definition set_method (x : HttpMethodType) (r : HttpRequest) : HttpRequest :=
  mkRequest x (_path r) (_version r) (_receive_time_point r) (_headers r) (_need_close r) (_body r).
Definition set_path (x : bytes) (r : HttpRequest) : HttpRequest :=
  mkRequest (_method r) x (_version r) (_receive_time_point r) (_headers r) (_need_close r) (_body r).
Definition set_version (x : HttpVersionType) (r : HttpRequest) : HttpRequest :=
  mkRequest (_method r) (_path r) x (_receive_time_point r) (_headers r) (_need_close r) (_body r).
Definition set_receive_time_point (x : TimePoint.t) (r : HttpRequest) : HttpRequest :=
  mkRequest (_method r) (_path r) (_version r) x (_headers r) (_need_close r) (_body r).
Definition set_headers (x : gmap bytes bytes) (r : HttpRequest) : HttpRequest :=
  mkRequest (_method r) (_path r) (_version r) (_receive_time_point r) x (_need_close r) (_body r).
Definition set_need_close (x : bool) (r : HttpRequest) : HttpRequest :=
  mkRequest (_method r) (_path r) (_version r) (_receive_time_point r) (_headers r) x (_body r).
Definition set_body (x : bytes) (r : HttpRequest) : HttpRequest :=
  mkRequest (_method r) (_path r) (_version r) (_receive_time_point r) (_headers r) (_need_close r) x.

(** [get_header]: the empty string when the header is missing. *)
Definition get_header (key : bytes) (r : HttpRequest) : bytes := default [] (_headers r !! key).

Definition get_method_type_as_string (r : HttpRequest) : option bytes :=
  match _method r with
  | GET => Some (str "GET")
  | POST => Some (str "POST")
  | UNSUPPORTED_HTTP_METHOD => None
  end.

Definition get_version_type_as_string (r : HttpRequest) : option bytes :=
  match _version r with
  | HTTP_1_0 => Some (str "HTTP/1.0")
  | HTTP_1_1 => Some (str "HTTP/1.1")
  | UNSUPPORTED_HTTP_VERSION => None
  end.

(** The copies are dummies; the moves, which nothing uses, leave the source's strings
    and headers empty and do not take [_need_close] along. *)
Definition copy_request (other : HttpRequest) : result HttpRequest := Err Fatal.
Definition copy_assign_request (this other : HttpRequest) : result HttpRequest := Err Fatal.

Definition moved_from (other : HttpRequest) : HttpRequest :=
  mkRequest (_method other) [] (_version other) (_receive_time_point other) ∅ (_need_close other) [].

Definition move_request (other : HttpRequest) : HttpRequest * HttpRequest :=
  (mkRequest (_method other) (_path other) (_version other) (_receive_time_point other)
     (_headers other) false (_body other), moved_from other).

(** [same]: whether both are one object. *)
Definition move_assign_request (same : bool) (this other : HttpRequest) : HttpRequest * HttpRequest :=
  if same then (this, other)
  else (mkRequest (_method other) (_path other) (_version other) (_receive_time_point other)
          (_headers other) (_need_close this) (_body other), moved_from other).

(** [to_lowercase], which nothing calls either: its pointer does not advance. *)
Definition tolower (c : ascii) : ascii :=
  if (65 <=? nat_of_ascii c) && (nat_of_ascii c <=? 90) then ascii_of_nat (nat_of_ascii c + 32) else c.

Fixpoint to_lowercase (fuel it last : nat) (m : bytes) : result bytes :=
  if it =? last then Ok m
  else
    match fuel with
    | O => Err OutOfFuel
    | S fuel =>
        let* c := of_option UndefinedBehaviour (m !! it) in
        to_lowercase fuel it last (<[it := tolower c]> m)
    end.

(** It comes to an end for the empty range only. *)
Lemma to_lowercase_never_returns fuel it last m :
  it < last <= length m -> to_lowercase fuel it last m = Err OutOfFuel.
Proof.
  revert m. induction fuel as [| fuel IH]; intros m H; simpl;
    (rewrite (proj2 (Nat.eqb_neq it last)) by lia); [done |].
  destruct (lookup_lt_is_Some_2 m it ltac:(lia)) as [c ->]. simpl.
  apply IH. by rewrite length_insert.
Qed.

(** A request that asks for the connection to be closed no longer does when moved. *)
Lemma moved_request_stays_open other :
  _need_close (move_request other).1 = false /\
  forall this, _need_close (move_assign_request false this other).1 = _need_close this.
Proof. done. Qed.

(** * Memory *)
Definition peek (m : bytes) (i : nat) : result ascii :=
  of_option UndefinedBehaviour ((m ++ [NUL]) !! i).

(** [memchr(p, c, n)]: it stops at the first match. *)
Fixpoint memchr (m : bytes) (p : nat) (c : ascii) (n : nat) : result (option nat) :=
  match n with
  | O => Ok None
  | S n =>
      let* x := peek m p in
      if decide (x = c) then Ok (Some p) else memchr m (S p) c n
  end.

(** [while (p < e && test(m[p])) p++], with [n = e - p]. *)
Fixpoint skip (test : ascii -> bool) (m : bytes) (p n : nat) : result nat :=
  match n with
  | O => Ok p
  | S n =>
      let* x := peek m p in
      if test x then skip test m (S p) n else Ok p
  end.

(** [while (test(m[q - 1])) q--] *)
Fixpoint trim_back (test : ascii -> bool) (m : bytes) (q : nat) : result nat :=
  match q with
  | O => Err UndefinedBehaviour
  | S q' =>
      let* x := peek m q' in
      if test x then trim_back test m q' else Ok q
  end.

(** [std::string(m + s, m + e)] *)
Definition make_string (m : bytes) (s e : nat) : result bytes :=
  if e <? s then Err Uncaught
  else if e <=? length m then Ok (slice m s e) else Err UndefinedBehaviour.

Definition is_sp (c : ascii) : bool := bool_decide (c = SP).
Definition COLON : ascii := ":"%char.

(** * The request line *)
Definition _set_method_type (m : bytes) (s e : nat) (r : HttpRequest)
    : result (bool * HttpRequest) :=
  let* method := make_string m s e in
  let x := if decide (method = str "GET") then GET
           else if decide (method = str "POST") then POST
           else UNSUPPORTED_HTTP_METHOD in
  Ok (bool_decide (x <> UNSUPPORTED_HTTP_METHOD), set_method x r).

Definition _set_path (m : bytes) (s e : nat) (r : HttpRequest) : result HttpRequest :=
  let* path := make_string m s e in Ok (set_path path r).

Definition _set_version_type (m : bytes) (s e : nat) (r : HttpRequest)
    : result (bool * HttpRequest) :=
  let* version := make_string m s e in
  let x := if decide (version = str "HTTP/1.0") then HTTP_1_0
           else if decide (version = str "HTTP/1.1") then HTTP_1_1
           else UNSUPPORTED_HTTP_VERSION in
  Ok (bool_decide (x <> UNSUPPORTED_HTTP_VERSION), set_version x r).

(** Both searches for a space look at [e] bytes from where they start, not up to
    the end of the line. *)
Definition parse_request_line (m : bytes) (e : nat) (r : HttpRequest)
    : result (bool * HttpRequest) :=
  let* method_start := skip is_sp m 0 e in
  if method_start =? e then Ok (false, r) else
  let* method_end := memchr m method_start SP e in
  match method_end with
  | None => Ok (false, r)
  | Some method_end =>
  let* (ok, r) := _set_method_type m method_start method_end r in
  if negb ok then Ok (false, r) else
  let* path_start := skip is_sp m method_end (e - method_end) in
  if path_start =? e then Ok (false, r) else
  let* path_end := memchr m path_start SP e in
  match path_end with
  | None => Ok (false, r)
  | Some path_end =>
  let* r := _set_path m path_start path_end r in
  let* version_start := skip is_sp m path_end (e - path_end) in
  if version_start =? e then Ok (false, r) else
  let* version_end := trim_back is_sp m e in
  _set_version_type m version_start version_end r
  end
  end.

(** * Header lines *)
Definition parse_header_line (m : bytes) (e : nat) (r : HttpRequest)
    : result (bool * HttpRequest) :=
  let* colon := memchr m 0 COLON e in
  match colon with
  | None => Ok (false, r)
  | Some colon =>
  let* key_start := skip isspace m 0 colon in
  if key_start =? colon then Ok (false, r) else
  let* key_end := trim_back isspace m colon in
  let* value_start := skip isspace m (colon + 1) (e - (colon + 1)) in
  let* value_end := if value_start =? e then Ok e else trim_back isspace m e in
  let* key := make_string m key_start key_end in
  let* value := make_string m value_start value_end in
  Ok (true, set_headers (<[key := value]> (_headers r)) r)
  end.

(** * Lemmas on the scans *)
Lemma peek_lookup m i c : m !! i = Some c -> peek m i = Ok c.
Proof.
  intros H. unfold peek. rewrite lookup_app_l by (by eapply lookup_lt_Some). by rewrite H.
Qed.

Lemma peek_app l m i : i < length l -> peek (l ++ m) i = of_option UndefinedBehaviour (l !! i).
Proof. intros H. unfold peek. by rewrite <- app_assoc, lookup_app_l. Qed.

(** A scan that finds its byte in [l] does not look further. *)
Lemma memchr_found (a l b : bytes) c n :
  c ∉ l -> length l < n ->
  memchr (a ++ l ++ c :: b) (length a) c n = Ok (Some (length a + length l)).
Proof.
  revert a n. induction l as [| x l IH]; intros a n Hc Hn; destruct n as [| n]; simpl in *; try lia.
  - rewrite (peek_lookup _ _ c) by (by rewrite list_lookup_middle). simpl.
    rewrite decide_True by done. by rewrite Nat.add_0_r.
  - apply not_elem_of_cons in Hc as [Hx Hc].
    rewrite (peek_lookup _ _ x) by (by rewrite list_lookup_middle). simpl.
    rewrite decide_False by done.
    replace (a ++ x :: l ++ c :: b) with ((a ++ [x]) ++ l ++ c :: b) by (by rewrite <- app_assoc).
    replace (S (length a)) with (length (a ++ [x])) by (rewrite length_app; simpl; lia).
    rewrite IH by (done || lia). do 2 f_equal. rewrite length_app. simpl. lia.
Qed.

Lemma memchr_none (a l b : bytes) c :
  c ∉ l -> memchr (a ++ l ++ b) (length a) c (length l) = Ok None.
Proof.
  revert a. induction l as [| x l IH]; intros a Hc; simpl in *; [done |].
  apply not_elem_of_cons in Hc as [Hx Hc].
  rewrite (peek_lookup _ _ x) by (by rewrite list_lookup_middle). simpl.
  rewrite decide_False by done.
  replace (a ++ x :: l ++ b) with ((a ++ [x]) ++ l ++ b) by (by rewrite <- app_assoc).
  replace (S (length a)) with (length (a ++ [x])) by (rewrite length_app; simpl; lia).
  by apply IH.
Qed.

Lemma memchr_sound m p c n q :
  memchr m p c n = Ok (Some q) ->
  p <= q < p + n /\ peek m q = Ok c /\ forall i, p <= i < q -> peek m i <> Ok c.
Proof.
  revert p. induction n as [| n IH]; simpl; intros p; [done |].
  destruct (peek m p) as [x |] eqn:E; [| done]. case_decide as Hd.
  - intros [= <-]. subst x. split; [lia |]. split; [done |]. lia.
  - intros H. destruct (IH _ H) as (H1 & H2 & H3). split; [lia |]. split; [done |].
    intros i Hi. destruct (decide (i = p)) as [-> |]; [rewrite E; congruence |].
    apply H3. lia.
Qed.

Lemma skip_stop test (a l b : bytes) c n :
  Forall (fun x => test x = true) l -> test c = false -> length l < n ->
  skip test (a ++ l ++ c :: b) (length a) n = Ok (length a + length l).
Proof.
  revert a n. induction l as [| x l IH]; intros a n Hl Hc Hn; destruct n as [| n]; simpl in *; try lia.
  - rewrite (peek_lookup _ _ c) by (by rewrite list_lookup_middle). simpl.
    by rewrite Hc, Nat.add_0_r.
  - apply Forall_cons_1 in Hl as [Hx Hl].
    rewrite (peek_lookup _ _ x) by (by rewrite list_lookup_middle). simpl. rewrite Hx.
    replace (a ++ x :: l ++ c :: b) with ((a ++ [x]) ++ l ++ c :: b) by (by rewrite <- app_assoc).
    replace (S (length a)) with (length (a ++ [x])) by (rewrite length_app; simpl; lia).
    rewrite IH by (done || lia). f_equal. rewrite length_app. simpl. lia.
Qed.

Lemma skip_all test (a l b : bytes) :
  Forall (fun x => test x = true) l ->
  skip test (a ++ l ++ b) (length a) (length l) = Ok (length a + length l).
Proof.
  revert a. induction l as [| x l IH]; intros a Hl; simpl in *; [by rewrite Nat.add_0_r |].
  apply Forall_cons_1 in Hl as [Hx Hl].
  rewrite (peek_lookup _ _ x) by (by rewrite list_lookup_middle). simpl. rewrite Hx.
  replace (a ++ x :: l ++ b) with ((a ++ [x]) ++ l ++ b) by (by rewrite <- app_assoc).
  replace (S (length a)) with (length (a ++ [x])) by (rewrite length_app; simpl; lia).
  rewrite IH by done. f_equal. rewrite length_app. simpl. lia.
Qed.

Lemma skip_sound test m p n q :
  skip test m p n = Ok q ->
  p <= q <= p + n /\ (forall i, p <= i < q -> exists x, peek m i = Ok x /\ test x = true) /\
  (q < p + n -> exists x, peek m q = Ok x /\ test x = false).
Proof.
  revert p. induction n as [| n IH]; simpl; intros p.
  - intros [= <-]. repeat split; lia.
  - destruct (peek m p) as [x |] eqn:E; [| done]. destruct (test x) eqn:Ht.
    + intros H. destruct (IH _ H) as (H1 & H2 & H3). split; [lia |]. split.
      * intros i Hi. destruct (decide (i = p)) as [-> |]; [eauto |]. apply H2. lia.
      * intros Hq. apply H3. lia.
    + intros [= <-]. split; [lia |]. split; [lia |]. eauto.
Qed.

Lemma trim_stop test (a l b : bytes) c :
  Forall (fun x => test x = true) l -> test c = false ->
  trim_back test ((a ++ [c]) ++ l ++ b) (length (a ++ [c]) + length l) = Ok (length (a ++ [c])).
Proof.
  intros Hl Hc. revert b. induction l as [| x l IH] using rev_ind; intros b.
  - rewrite Nat.add_0_r, length_app, Nat.add_1_r. simpl.
    rewrite (peek_lookup _ _ c); [simpl; by rewrite Hc |].
    rewrite <- app_assoc. by apply list_lookup_middle.
  - apply Forall_app in Hl as [Hl Hx]. apply Forall_cons_1 in Hx as [Hx _].
    replace (length (a ++ [c]) + length (l ++ [x])) with (S (length (a ++ [c]) + length l))
      by (rewrite !length_app; simpl; lia).
    replace ((l ++ [x]) ++ b) with (l ++ x :: b) by (by rewrite <- app_assoc).
    simpl. rewrite (peek_lookup _ _ x).
    + simpl. rewrite Hx. by apply (IH Hl (x :: b)).
    + rewrite app_assoc. apply list_lookup_middle. by rewrite !length_app.
Qed.

Lemma trim_sound test m q k :
  trim_back test m q = Ok k ->
  0 < k <= q /\ (forall i, k <= i < q -> exists x, peek m i = Ok x /\ test x = true) /\
  exists x, peek m (k - 1) = Ok x /\ test x = false.
Proof.
  induction q as [| q IH]; simpl; [done |].
  destruct (peek m q) as [x |] eqn:E; [| done]. destruct (test x) eqn:Ht.
  - intros H. destruct (IH H) as (H1 & H2 & H3). split; [lia |]. split; [| done].
    intros i Hi. destruct (decide (i = q)) as [-> |]; [eauto |]. apply H2. lia.
  - intros [= <-]. split; [lia |]. split; [lia |]. replace (S q - 1) with q by lia. eauto.
Qed.

Lemma make_string_app (a l b : bytes) s e :
  s = length a -> e = length a + length l -> make_string (a ++ l ++ b) s e = Ok l.
Proof.
  intros -> ->. unfold make_string.
  rewrite (proj2 (Nat.ltb_ge _ _)) by lia. rewrite (proj2 (Nat.leb_le _ _)).
  - by rewrite slice_mid.
  - rewrite !length_app. lia.
Qed.

(** The scans, with the split of the memory given as an equation. *)
Lemma memchr_found' m p c n (a l b : bytes) :
  m = a ++ l ++ c :: b -> p = length a -> c ∉ l -> length l < n ->
  memchr m p c n = Ok (Some (p + length l)).
Proof. intros -> ->. apply memchr_found. Qed.

Lemma skip_stop' test m p n (a l b : bytes) c :
  m = a ++ l ++ c :: b -> p = length a -> Forall (fun x => test x = true) l ->
  test c = false -> length l < n -> skip test m p n = Ok (p + length l).
Proof. intros -> ->. apply skip_stop. Qed.

Lemma trim_stop' test m q k (a l b : bytes) c :
  m = (a ++ [c]) ++ l ++ b -> k = length (a ++ [c]) -> q = k + length l ->
  Forall (fun x => test x = true) l -> test c = false ->
  trim_back test m q = Ok k.
Proof. intros -> -> ->. apply trim_stop. Qed.

Lemma make_string' m s e (a l b : bytes) :
  m = a ++ l ++ b -> s = length a -> e = s + length l -> make_string m s e = Ok l.
Proof. intros -> -> ->. by apply make_string_app. Qed.

Lemma spaces n : Forall (fun x => is_sp x = true) (replicate n SP).
Proof. by apply Forall_replicate. Qed.

Lemma is_sp_false c : is_sp c = false <-> c <> SP.
Proof. unfold is_sp. by rewrite bool_decide_eq_false. Qed.

Lemma is_sp_true c : is_sp c = true <-> c = SP.
Proof. unfold is_sp. by rewrite bool_decide_eq_true. Qed.

(** ** What a request line is *)
Definition method_name (x : HttpMethodType) : option bytes :=
  get_method_type_as_string (set_method x new_HttpRequest).
Definition version_name (x : HttpVersionType) : option bytes :=
  get_version_type_as_string (set_version x new_HttpRequest).

(** [spaces* method spaces+ path spaces+ version spaces*] *)
Definition render_request_line (n1 : nat) (method : bytes) (n2 : nat) (path : bytes) (n3 : nat)
    (version : bytes) (n4 : nat) : bytes :=
  replicate n1 SP ++ method ++ replicate (S n2) SP ++ path ++ replicate (S n3) SP ++
  version ++ replicate n4 SP.

Lemma method_name_cases x name :
  method_name x = Some name -> exists c l, name = c :: l /\ c <> SP /\ SP ∉ name.
Proof. destruct x; intros [= <-]; do 2 eexists; (split; [done |]); split; vm_compute; set_solver. Qed.

Lemma version_name_cases x name :
  version_name x = Some name ->
  exists c l d, name = l ++ [d] /\ head name = Some c /\ c <> SP /\ d <> SP.
Proof.
  destruct x; intros [= <-].
  - by exists "H"%char, (str "HTTP/1."), "0"%char.
  - by exists "H"%char, (str "HTTP/1."), "1"%char.
Qed.

Lemma set_method_accepts m s e r x name :
  method_name x = Some name -> make_string m s e = Ok name ->
  _set_method_type m s e r = Ok (true, set_method x r).
Proof. intros Hx Hm. unfold _set_method_type. rewrite Hm. by destruct x; inversion Hx. Qed.

Lemma set_version_accepts m s e r x name :
  version_name x = Some name -> make_string m s e = Ok name ->
  _set_version_type m s e r = Ok (true, set_version x r).
Proof. intros Hx Hm. unfold _set_version_type. rewrite Hm. by destruct x; inversion Hx. Qed.

(** Solves the equations that cut a concrete line into pieces. *)
Ltac cut_line :=
  unfold render_request_line; repeat (rewrite <- app_assoc || rewrite <- app_comm_cons || simpl);
  reflexivity.
Ltac cut_length :=
  unfold render_request_line;
  repeat (rewrite length_app || rewrite length_replicate || simpl); lia.

Lemma request_line_accepted n1 x method n2 path n3 y version n4 rest r :
  method_name x = Some method -> version_name y = Some version -> path <> [] -> SP ∉ path ->
  let line := render_request_line n1 method n2 path n3 version n4 in
  parse_request_line (line ++ rest) (length line) r
  = Ok (true, set_version y (set_path path (set_method x r))).
Proof.
  intros Hx Hy Hp0 Hp line.
  destruct (method_name_cases _ _ Hx) as (c & ml & Hm & Hc & Hms).
  destruct (version_name_cases _ _ Hy) as (d & vl & v & Hv & Hhd & Hd & Hvs).
  destruct path as [| p0 pl]; [done |]. clear Hp0.
  assert (Hp0 : p0 <> SP) by (intros ->; set_solver).
  destruct version as [| d' vl']; [done |]. injection Hhd as ->.
  unfold parse_request_line, line.
  rewrite (skip_stop' _ _ 0 _ [] (replicate n1 SP)
    (ml ++ replicate (S n2) SP ++ (p0 :: pl) ++ replicate (S n3) SP ++ (d :: vl') ++
     replicate n4 SP ++ rest) c);
    [| subst method; cut_line | done | apply spaces | by apply is_sp_false
     | subst method; cut_length].
  rewrite length_replicate. simpl (0 + n1).
  rewrite (proj2 (Nat.eqb_neq _ _)) by (subst method; cut_length).
  rewrite (memchr_found' _ n1 _ _ (replicate n1 SP) method
    (replicate n2 SP ++ (p0 :: pl) ++ replicate (S n3) SP ++ (d :: vl') ++ replicate n4 SP ++ rest));
    [| cut_line | cut_length | done | cut_length].
  rewrite (set_method_accepts _ _ _ _ x method Hx);
    [| apply (make_string' _ _ _ (replicate n1 SP) method
        (replicate (S n2) SP ++ (p0 :: pl) ++ replicate (S n3) SP ++ (d :: vl') ++
         replicate n4 SP ++ rest)); [cut_line | cut_length | done]].
  cbn [negb].
  rewrite (skip_stop' _ _ (n1 + length method) _ (replicate n1 SP ++ method)
    (replicate (S n2) SP) (pl ++ replicate (S n3) SP ++ (d :: vl') ++ replicate n4 SP ++ rest) p0);
    [| cut_line | cut_length | apply spaces | by apply is_sp_false | cut_length].
  rewrite (proj2 (Nat.eqb_neq _ _)) by cut_length.
  rewrite (memchr_found' _ (n1 + length method + length (replicate (S n2) SP)) _ _
    (replicate n1 SP ++ method ++ replicate (S n2) SP) (p0 :: pl)
    (replicate n3 SP ++ (d :: vl') ++ replicate n4 SP ++ rest));
    [| cut_line | cut_length | done | cut_length].
  unfold _set_path. rewrite (make_string' _ _ _
    (replicate n1 SP ++ method ++ replicate (S n2) SP) (p0 :: pl)
    (replicate (S n3) SP ++ (d :: vl') ++ replicate n4 SP ++ rest));
    [| cut_line | cut_length | done].
  rewrite (skip_stop' _ _ _ _ (replicate n1 SP ++ method ++ replicate (S n2) SP ++ p0 :: pl)
    (replicate (S n3) SP) (vl' ++ replicate n4 SP ++ rest) d);
    [| cut_line | cut_length | apply spaces | by apply is_sp_false | cut_length].
  rewrite (proj2 (Nat.eqb_neq _ _)) by cut_length.
  rewrite Hv. set (front := replicate n1 SP ++ method ++ replicate (S n2) SP ++ p0 :: pl
                            ++ replicate (S n3) SP).
  rewrite (trim_stop' _ _ _ (length ((front ++ vl) ++ [v])) (front ++ vl) (replicate n4 SP) rest v);
    [| unfold front; cut_line | done | unfold front; cut_length | apply spaces
     | by apply is_sp_false].
  apply set_version_accepts with (name := d :: vl'); [done |].
  rewrite Hv. apply (make_string' _ _ _ front (vl ++ [v]) (replicate n4 SP ++ rest)).
  - unfold front. cut_line.
  - unfold front. cut_length.
  - unfold front. cut_length.
Qed.

(** ** Only request lines are accepted *)
Lemma peek_inv m i c : peek m i = Ok c -> c <> NUL -> m !! i = Some c.
Proof.
  unfold peek. intros H%of_option_ok Hc. destruct (decide (i < length m)) as [Hi | Hi].
  - by rewrite lookup_app_l in H.
  - rewrite lookup_app_r in H by lia. by apply list_lookup_singleton_Some in H as [_ <-].
Qed.

Lemma peek_line_end line rest : peek (line ++ CR :: rest) (length line) = Ok CR.
Proof. apply peek_lookup. by apply list_lookup_middle. Qed.

Lemma make_string_inv m s e l :
  make_string m s e = Ok l -> s <= e <= length m /\ l = slice m s e.
Proof.
  unfold make_string. destruct (e <? s) eqn:E1; [done |].
  destruct (e <=? length m) eqn:E2; [| done]. intros [= <-].
  apply Nat.ltb_ge in E1. apply Nat.leb_le in E2. done.
Qed.

(** A string made of a range that passes the end of the line contains its CR. *)
Lemma make_string_past_end line rest s e l :
  make_string (line ++ CR :: rest) s e = Ok l -> s <= length line < e -> CR ∈ l.
Proof.
  intros [H1 ->]%make_string_inv H2. apply list_elem_of_lookup.
  exists (length line - s). rewrite lookup_slice by lia.
  apply list_lookup_middle. lia.
Qed.

Lemma skip_spaces m s q n :
  q <= length m -> skip is_sp m s n = Ok q ->
  s <= q <= s + n /\ slice m s q = replicate (q - s) SP /\
  (q < s + n -> exists x, peek m q = Ok x /\ x <> SP).
Proof.
  intros Hq H. apply skip_sound in H as (H1 & H2 & H3). split; [done |]. split.
  - apply slice_replicate; [done |]. intros k Hk.
    destruct (H2 k Hk) as (x & Hx & ->%is_sp_true). by apply peek_inv.
  - intros Hlt. destruct (H3 Hlt) as (x & Hx & Hs%is_sp_false). eauto.
Qed.

Lemma trim_spaces m q k :
  q <= length m -> trim_back is_sp m q = Ok k ->
  0 < k <= q /\ slice m k q = replicate (q - k) SP /\
  exists x, peek m (k - 1) = Ok x /\ x <> SP.
Proof.
  intros Hq H. apply trim_sound in H as (H1 & H2 & x & H3 & H4%is_sp_false).
  split; [done |]. split; [| eauto]. apply slice_replicate; [done |]. intros i Hi.
  destruct (H2 i Hi) as (y & Hy & ->%is_sp_true). by apply peek_inv.
Qed.

Lemma find_space m p n q :
  memchr m p SP n = Ok (Some q) ->
  p <= q < p + n /\ m !! q = Some SP /\ SP ∉ slice m p q.
Proof.
  intros (H1 & H2 & H3)%memchr_sound. split; [done |].
  split; [by apply peek_inv |]. apply not_elem_of_slice. intros k Hk E.
  by apply (H3 k Hk), peek_lookup.
Qed.

Lemma set_method_true m s e r r' :
  _set_method_type m s e r = Ok (true, r') ->
  exists x name, method_name x = Some name /\ make_string m s e = Ok name /\ r' = set_method x r.
Proof.
  unfold _set_method_type. destruct (make_string m s e) as [l |]; [| done].
  case_decide as H1; [intros [= <-]; subst l; by eexists GET, _ |].
  case_decide as H2; [intros [= <-]; subst l; by eexists POST, _ | done].
Qed.

Lemma set_version_true m s e r r' :
  _set_version_type m s e r = Ok (true, r') ->
  exists x name, version_name x = Some name /\ make_string m s e = Ok name /\
    r' = set_version x r.
Proof.
  unfold _set_version_type. destruct (make_string m s e) as [l |]; [| done].
  case_decide as H1; [intros [= <-]; subst l; by eexists HTTP_1_0, _ |].
  case_decide as H2; [intros [= <-]; subst l; by eexists HTTP_1_1, _ | done].
Qed.

Lemma method_name_no_CR x name : method_name x = Some name -> CR ∉ name.
Proof. destruct x; intros [= <-]; vm_compute; set_solver. Qed.

(** The first half of the parse, once it got to the path: method and spaces. *)
Lemma method_found line rest ms me ps r r' :
  let m := line ++ CR :: rest in
  skip is_sp m 0 (length line) = Ok ms -> ms <> length line ->
  memchr m ms SP (length line) = Ok (Some me) ->
  _set_method_type m ms me r = Ok (true, r') ->
  skip is_sp m me (length line - me) = Ok ps -> ps <> length line ->
  exists n1 x name n2, method_name x = Some name /\ r' = set_method x r /\
    me <= ps < length line /\
    slice m 0 ps = replicate n1 SP ++ name ++ replicate (S n2) SP /\
    exists y, peek m ps = Ok y /\ y <> SP.
Proof.
  intros m Hms Hms' Hme Hset Hps Hps'.
  assert (Hlen : length line < length m) by (unfold m; rewrite length_app; simpl; lia).
  pose proof (proj1 (skip_sound _ _ _ _ _ Hms)) as Hb1.
  destruct (skip_spaces m 0 ms _ ltac:(lia) Hms) as (_ & Hs1 & _).
  destruct (find_space _ _ _ _ Hme) as (Hb2 & Hsp & _).
  destruct (set_method_true _ _ _ _ _ Hset) as (x & name & Hx & Hstr & ->).
  assert (Hme_lt : me < length line).
  { destruct (decide (me < length line)) as [|Hge]; [done |]. exfalso.
    destruct (decide (me = length line)) as [-> |].
    - unfold m in Hsp. by rewrite list_lookup_middle in Hsp.
    - apply (method_name_no_CR _ _ Hx). eapply make_string_past_end; [exact Hstr | lia]. }
  pose proof (proj1 (skip_sound _ _ _ _ _ Hps)) as Hb3.
  destruct (skip_spaces m me ps _ ltac:(lia) Hps) as (_ & Hs2 & Hy).
  destruct (Hy ltac:(lia)) as (y & Hy1 & Hy2).
  assert (Hne : me <> ps).
  { intros <-. apply peek_lookup in Hsp. congruence. }
  apply make_string_inv in Hstr as [_ Hname].
  exists ms, x, name, (ps - me - 1). split; [done |]. split; [done |]. split; [lia |].
  split; [| eauto]. rewrite (slice_split m 0 ms ps), (slice_split m ms me ps) by lia.
  rewrite Hs1, Hs2, Hname, Nat.sub_0_r. by replace (S (ps - me - 1)) with (ps - me) by lia.
Qed.

(** The second half: path, spaces, version, spaces. *)
Lemma path_found line rest ps pe vs ve r r' y :
  let m := line ++ CR :: rest in
  ps < length line -> peek m ps = Ok y -> y <> SP ->
  memchr m ps SP (length line) = Ok (Some pe) ->
  skip is_sp m pe (length line - pe) = Ok vs -> vs <> length line ->
  trim_back is_sp m (length line) = Ok ve ->
  _set_version_type m vs ve r = Ok (true, r') ->
  exists path n3 x version n4, version_name x = Some version /\ path <> [] /\ (SP ∉ path) /\
    make_string m ps pe = Ok path /\ r' = set_version x r /\
    slice m ps (length line)
    = path ++ replicate (S n3) SP ++ version ++ replicate n4 SP.
Proof.
  intros m Hps Hy Hy' Hpe Hvs Hvs' Hve Hset.
  assert (Hlen : length line < length m) by (unfold m; rewrite length_app; simpl; lia).
  destruct (find_space _ _ _ _ Hpe) as (Hb2 & Hsp & Hnosp).
  destruct (trim_spaces m (length line) ve ltac:(lia) Hve) as (Hb4 & Hs4 & _).
  destruct (set_version_true _ _ _ _ _ Hset) as (x & version & Hx & Hstr & ->).
  pose proof (proj1 (skip_sound _ _ _ _ _ Hvs)) as Hb3.
  apply make_string_inv in Hstr as [Hle Hversion].
  destruct (skip_spaces m pe vs _ ltac:(lia) Hvs) as (_ & Hs3 & Hz).
  assert (Hpe_ne : ps <> pe).
  { intros <-. apply peek_lookup in Hsp. congruence. }
  assert (Hvs_lt : vs < length line) by lia.
  destruct (Hz ltac:(lia)) as (z & Hz1 & Hz2).
  assert (Hne : pe <> vs).
  { intros <-. apply peek_lookup in Hsp. congruence. }
  exists (slice m ps pe), (vs - pe - 1), x, version, (length line - ve).
  split; [done |]. split; [| split; [done |]].
  { intros E. apply (f_equal length) in E. rewrite length_slice in E by lia. simpl in E. lia. }
  split.
  { unfold make_string. rewrite (proj2 (Nat.ltb_ge _ _)) by lia.
    by rewrite (proj2 (Nat.leb_le _ _)) by lia. }
  split; [done |].
  rewrite (slice_split m ps pe), (slice_split m pe vs), (slice_split m vs ve) by lia.
  rewrite Hs3, Hs4, Hversion. by replace (S (vs - pe - 1)) with (vs - pe) by lia.
Qed.

Lemma request_line_sound line rest r r' :
  parse_request_line (line ++ CR :: rest) (length line) r = Ok (true, r') ->
  exists n1 x method n2 path n3 y version n4,
    line = render_request_line n1 method n2 path n3 version n4 /\
    method_name x = Some method /\ version_name y = Some version /\
    path <> [] /\ (SP ∉ path) /\
    r' = set_version y (set_path path (set_method x r)).
Proof.
  set (m := line ++ CR :: rest). unfold parse_request_line. intros H. fold m in H.
  destruct (skip is_sp m 0 _) as [ms |] eqn:Ems; [| done].
  destruct (ms =? length line) eqn:E1; [done |]. apply Nat.eqb_neq in E1.
  destruct (memchr m ms SP _) as [[me |] |] eqn:Eme; [| done | done].
  destruct (_set_method_type m ms me r) as [[[] r1] |] eqn:Eset; [| done | done]. cbn [negb] in H.
  destruct (skip is_sp m me _) as [ps |] eqn:Eps; [| done].
  destruct (ps =? length line) eqn:E2; [done |]. apply Nat.eqb_neq in E2.
  destruct (memchr m ps SP _) as [[pe |] |] eqn:Epe; [| done | done].
  unfold _set_path in H. destruct (make_string m ps pe) as [path |] eqn:Epath; [| done].
  destruct (skip is_sp m pe _) as [vs |] eqn:Evs; [| done].
  destruct (vs =? length line) eqn:E3; [done |]. apply Nat.eqb_neq in E3.
  destruct (trim_back is_sp m _) as [ve |] eqn:Eve; [| done].
  destruct (method_found line rest ms me ps r r1 Ems E1 Eme Eset Eps E2)
    as (n1 & x & name & n2 & Hx & -> & Hps & Hline1 & z & Hz & Hz').
  destruct (path_found line rest ps pe vs ve _ r' z (proj2 Hps) Hz Hz' Epe Evs E3 Eve H)
    as (path' & n3 & y & version & n4 & Hy & Hp0 & Hp & Epath' & -> & Hline2).
  fold m in Epath', Hline1, Hline2.
  replace path' with path in * by congruence.
  exists n1, x, name, n2, path, n3, y, version, n4. split; [| done].
  transitivity (slice m 0 (length line)).
  { unfold m. by rewrite slice_app_l, slice_all by lia. }
  rewrite (slice_split m 0 ps) by lia. rewrite Hline1, Hline2.
  unfold render_request_line. by rewrite <- !app_assoc.
Qed.

(** A line (followed by its CR) is accepted exactly when it is
    [spaces* method spaces+ path spaces+ version spaces*] for a supported method
    and version and a non-empty path without spaces; the request then holds these
    three, whatever follows the line in memory. *)
Theorem parse_request_line_iff line rest r r' :
  parse_request_line (line ++ CR :: rest) (length line) r = Ok (true, r') <->
  exists n1 x method n2 path n3 y version n4,
    line = render_request_line n1 method n2 path n3 version n4 /\
    method_name x = Some method /\ version_name y = Some version /\
    path <> [] /\ (SP ∉ path) /\
    r' = set_version y (set_path path (set_method x r)).
Proof.
  split; [apply request_line_sound |].
  intros (n1 & x & method & n2 & path & n3 & y & version & n4 & -> & Hx & Hy & H0 & Hp & ->).
  by apply request_line_accepted.
Qed.

(** * Header lines *)
Fixpoint drop_while (test : ascii -> bool) (l : bytes) : bytes :=
  match l with
  | [] => []
  | c :: l' => if test c then drop_while test l' else l
  end.

Definition trim (l : bytes) : bytes :=
  reverse (drop_while isspace (reverse (drop_while isspace l))).

(** The reference: split at the first colon, trim both sides; a blank name or a
    missing colon is an error. *)
Definition header_of_line (line : bytes) : option (bytes * bytes) :=
  match list_find (fun c => c = COLON) line with
  | None => None
  | Some (i, _) =>
      if forallb isspace (take i line) then None
      else Some (trim (take i line), trim (drop (S i) line))
  end.

Lemma drop_while_split test l :
  exists w, l = w ++ drop_while test l /\ Forall (fun x => test x = true) w /\
    (drop_while test l = [] \/ exists c k, drop_while test l = c :: k /\ test c = false).
Proof.
  induction l as [| c l (w & H1 & H2 & H3)]; simpl.
  { exists []. split; [done |]. split; [constructor | by left]. }
  destruct (test c) eqn:E.
  2:{ exists []. split; [done |]. split; [constructor | right; eauto]. }
  exists (c :: w). split; [by rewrite H1 at 1 |]. split; [by constructor | done].
Qed.

Lemma trim_split l :
  (Forall (fun x => isspace x = true) l /\ trim l = []) \/
  exists w1 w2 c k d k', l = w1 ++ trim l ++ w2 /\
    Forall (fun x => isspace x = true) w1 /\ Forall (fun x => isspace x = true) w2 /\
    trim l = c :: k /\ isspace c = false /\ trim l = k' ++ [d] /\ isspace d = false.
Proof.
  unfold trim. destruct (drop_while_split isspace l) as (w1 & H1 & H2 & [H3 | (c & k & H3 & H4)]).
  { left. rewrite H3 in H1 |- *. rewrite app_nil_r in H1. by subst. }
  right. rewrite H3 in H1 |- *.
  destruct (drop_while_split isspace (reverse (c :: k))) as (w2 & H5 & H6 & H7).
  apply (f_equal reverse) in H5. rewrite reverse_involutive, reverse_app in H5.
  set (t := drop_while isspace (reverse (c :: k))) in *.
  destruct H7 as [H7 | (d & k' & H7 & H8)].
  { exfalso. rewrite H7 in H5. simpl in H5.
    assert (Hw : Forall (fun x => isspace x = true) (c :: k)).
    { rewrite H5. by apply Forall_reverse. }
    apply Forall_cons_1 in Hw as [Hw _]. congruence. }
  assert (Hr : reverse t = reverse k' ++ [d]) by (rewrite H7; by rewrite reverse_cons).
  assert (Hc : exists j, reverse t = c :: j).
  { rewrite Hr in H5 |- *. destruct (reverse k'); simpl in *; injection H5 as <- _; eauto. }
  destruct Hc as [j Hc].
  exists w1, (reverse w2), c, j, d, (reverse k'). rewrite <- H5.
  split; [done |]. split; [done |]. split; [by apply Forall_reverse |]. done.
Qed.

(** Scanning a field [l] between [a] and [b]: where it begins and ends. *)
Lemma scan_field (a l b : bytes) m s e :
  m = a ++ l ++ b -> s = length a -> e = s + length l ->
  (Forall (fun x => isspace x = true) l /\ trim l = [] /\ skip isspace m s (length l) = Ok e) \/
  exists s' e', skip isspace m s (length l) = Ok s' /\ s <= s' < e' /\ e' <= e /\
    trim_back isspace m e = Ok e' /\ make_string m s' e' = Ok (trim l) /\
    forallb isspace l = false.
Proof.
  intros -> -> ->. destruct (trim_split l) as [[H1 H2] | (w1 & w2 & c & k & d & k' & Hl & H1 & H2 & Hc & Hc' & Hd & Hd')].
  { left. split; [done |]. split; [done |]. by apply skip_all. }
  right. exists (length a + length w1), (length a + length w1 + length (trim l)).
  assert (Hlen : length l = length w1 + length (trim l) + length w2).
  { rewrite Hl at 1. rewrite !length_app. lia. }
  assert (Hpos : 0 < length (trim l)) by (rewrite Hc; simpl; lia).
  split.
  { apply (skip_stop' _ _ _ _ a w1 (k ++ w2 ++ b) c); try done; [| lia].
    rewrite Hl at 1. rewrite Hc, <- !app_assoc. done. }
  split; [lia |]. split; [lia |]. split.
  { apply (trim_stop' _ _ _ _ (a ++ w1 ++ k') w2 b d); try done.
    - rewrite Hl at 1. rewrite Hd, <- !app_assoc. done.
    - rewrite Hd, !length_app. lia.
    - lia. }
  split.
  { apply (make_string' _ _ _ (a ++ w1) (trim l) (w2 ++ b)).
    - rewrite Hl at 1. by rewrite <- !app_assoc.
    - by rewrite length_app.
    - done. }
  apply not_true_is_false. intros Hf. apply forallb_forall with (x := c) in Hf; [congruence |].
  apply list_elem_of_In. rewrite Hl, Hc. set_solver.
Qed.

Lemma parse_header_line_reference line rest r :
  parse_header_line (line ++ rest) (length line) r
  = Ok (match header_of_line line with
        | None => (false, r)
        | Some (key, value) => (true, set_headers (<[key := value]> (_headers r)) r)
        end).
Proof.
  unfold parse_header_line, header_of_line.
  destruct (list_find _ line) as [[i c] |] eqn:Hf.
  2:{ apply list_find_None in Hf. rewrite (memchr_none [] line rest); [done |].
      rewrite Forall_forall in Hf. intros Hin. by apply (Hf COLON). }
  apply list_find_Some in Hf as (Hi & -> & Hbefore).
  set (k := take i line). set (v := drop (S i) line).
  assert (Hline : line = k ++ COLON :: v) by (unfold k, v; by rewrite take_drop_middle).
  assert (Hk : length k = i) by (apply length_take_le; apply lookup_lt_Some in Hi; lia).
  assert (Hlen : length line = i + 1 + length v).
  { rewrite Hline, length_app, Hk. simpl. lia. }
  rewrite (memchr_found' _ 0 _ _ [] k (v ++ rest)); [| rewrite Hline; by rewrite <- app_assoc
    | done | | lia].
  2:{ intros [j Hj]%list_elem_of_lookup.
      assert (Hji : j < i) by (rewrite <- Hk; by eapply lookup_lt_Some).
      apply (Hbefore j COLON); [| done | done]. unfold k in Hj.
      rewrite lookup_take_lt in Hj by done. done. }
  simpl (0 + length k). rewrite Hk.
  assert (Hm : line ++ rest = [] ++ k ++ COLON :: v ++ rest)
    by (rewrite Hline at 1; by rewrite <- app_assoc).
  assert (Hm2 : line ++ rest = (k ++ [COLON]) ++ v ++ rest)
    by (rewrite Hline at 1; by rewrite <- !app_assoc).
  destruct (scan_field [] k (COLON :: v ++ rest) _ 0 i Hm eq_refl (eq_sym Hk))
    as [(Hall & _ & Hskip) | (s' & e' & Hskip & Hs & He & Htrim & Hstr & Hb)]; rewrite Hk in Hskip;
    rewrite Hskip.
  { rewrite Nat.eqb_refl.
    replace (forallb isspace k) with true; [done |]. symmetry. apply forallb_forall.
    intros x Hx%list_elem_of_In. rewrite Forall_forall in Hall. auto. }
  rewrite (proj2 (Nat.eqb_neq _ _)) by lia. rewrite Htrim, Hb.
  replace (length line - (i + 1)) with (length v) by lia.
  destruct (scan_field (k ++ [COLON]) v rest _ (i + 1) (length line) Hm2) as
    [(_ & Hv & ->) | (s2 & e2 & -> & Hs2 & He2 & Htrim2 & Hstr2 & _)];
    [by rewrite length_app, Hk | lia | |].
  - rewrite Nat.eqb_refl, Hstr. unfold make_string.
    rewrite Nat.ltb_irrefl, (proj2 (Nat.leb_le _ _)) by (rewrite length_app; lia).
    unfold slice. rewrite Nat.sub_diag. simpl. by rewrite Hv.
  - rewrite (proj2 (Nat.eqb_neq _ _)) by lia. by rewrite Htrim2, Hstr, Hstr2.
Qed.

(** Parsing a header line is safe on every input (it never reads outside the
    line) and computes the reference: it splits at the first colon, trims the
    white space around the name and the value, rejects a missing colon or a blank
    name, and otherwise stores the value under the name, replacing an older one. *)
Theorem parse_header_line_spec line rest r :
  parse_header_line (line ++ rest) (length line) r
  = Ok (match header_of_line line with
        | None => (false, r)
        | Some (key, value) => (true, set_headers (<[key := value]> (_headers r)) r)
        end).
Proof. apply parse_header_line_reference. Qed.

(** A blank-free name and value are read back exactly. *)
Lemma trim_id l c k d k' :
  l = c :: k -> isspace c = false -> l = k' ++ [d] -> isspace d = false -> trim l = l.
Proof.
  intros H1 H2 H3 H4. unfold trim. rewrite H1 at 1. simpl. rewrite H2, <- H1, H3, reverse_app.
  simpl. rewrite H4. change (d :: reverse k') with (reverse [d] ++ reverse k').
  by rewrite <- reverse_app, reverse_involutive.
Qed.

(** * A request line without a version

    The search for the end of the path passes the end of the line: a space found
    there makes the version a range whose end precedes its beginning, and the
    exception of its [std::string] ends the process. *)
Theorem request_line_without_version_throws n path a b r
    (H0 : path <> []) (Hp : SP ∉ path) (Ha : SP ∉ a) (Hn : length a < 3 + n) :
  let line := str "GET" ++ replicate (S n) SP ++ path in
  parse_request_line (line ++ CR :: a ++ SP :: b) (length line) r = Err Uncaught.
Proof.
  intros line.
  assert (Hhd : exists p0 pl, path = p0 :: pl) by (destruct path; eauto; done).
  destruct Hhd as (p0 & pl & Epath).
  assert (Hp0 : p0 <> SP) by (intros ->; apply Hp; rewrite Epath; set_solver).
  destruct (exists_last H0) as (front & z & Hz).
  assert (Hz' : z <> SP) by (intros ->; apply Hp; rewrite Hz; set_solver).
  set (m := line ++ CR :: a ++ SP :: b).
  assert (Hle : length line = 4 + n + length path) by (unfold line; cut_length).
  assert (Hpos : 0 < length path) by (rewrite Epath; simpl; lia).
  assert (Hm : m = str "GET" ++ replicate (S n) SP ++ path ++ CR :: a ++ SP :: b)
    by (unfold m, line; by rewrite <- !app_assoc).
  assert (Hline : line = str "GET" ++ replicate (S n) SP ++ path) by done.
  assert (Hm' : m = line ++ CR :: a ++ SP :: b) by done. clearbody line m.
  unfold parse_request_line.
  rewrite (skip_stop' _ m 0 _ [] [] (str "ET" ++ replicate (S n) SP ++ path ++ CR :: a ++ SP :: b) "G"%char);
    [| done | done | by constructor | done | simpl; lia].
  simpl (0 + length []). rewrite (proj2 (Nat.eqb_neq _ _)) by lia.
  rewrite (memchr_found' m 0 _ _ [] (str "GET") (replicate n SP ++ path ++ CR :: a ++ SP :: b));
    [| done | done | vm_compute; set_solver | simpl; lia].
  rewrite (set_method_accepts m 0 _ r GET (str "GET")); [| done |].
  2:{ by apply (make_string' _ _ _ [] (str "GET") (replicate (S n) SP ++ path ++ CR :: a ++ SP :: b)). }
  cbn [negb].
  rewrite (skip_stop' _ m _ _ (str "GET") (replicate (S n) SP) (pl ++ CR :: a ++ SP :: b) p0);
    [| rewrite Hm, Epath; done | done | apply spaces | by apply is_sp_false
     | rewrite length_replicate; simpl; lia].
  rewrite length_replicate. rewrite (proj2 (Nat.eqb_neq _ _)) by (simpl; lia).
  assert (Hfind : memchr m (0 + length (str "GET") + S n) SP (length line)
                  = Ok (Some (0 + length (str "GET") + S n + length (path ++ CR :: a)))).
  { apply (memchr_found' _ _ _ _ (str "GET" ++ replicate (S n) SP) (path ++ CR :: a) b).
    - rewrite Hm. by rewrite <- !app_assoc.
    - rewrite length_app, length_replicate. simpl. lia.
    - rewrite elem_of_app, elem_of_cons. intros [? | [? | ?]]; done.
    - rewrite length_app. simpl. lia. }
  rewrite Hfind. unfold _set_path.
  rewrite (make_string' m _ _ (str "GET" ++ replicate (S n) SP) (path ++ CR :: a) (SP :: b));
    [| rewrite Hm; by rewrite <- !app_assoc | rewrite length_app, length_replicate; simpl; lia | done].
  rewrite length_app. simpl length.
  replace (length line - _) with 0 by lia. simpl skip.
  cbv beta match. rewrite (proj2 (Nat.eqb_neq _ _)) by lia.
  rewrite (trim_stop' _ m _ (length line) (str "GET" ++ replicate (S n) SP ++ front) []
             (CR :: a ++ SP :: b) z);
    [| rewrite Hm, Hz; by rewrite <- !app_assoc
     | rewrite Hline, Hz; by rewrite <- !app_assoc | simpl; lia | by constructor
     | by apply is_sp_false].
  unfold _set_version_type, make_string. by rewrite (proj2 (Nat.ltb_lt _ _)) by lia.
Qed.

(** [GET   /] followed by the header [A: b]. *)
Lemma request_line_without_version_throws_witness :
  parse_request_line (str "GET   /" ++ crlf ++ str "A: b" ++ crlf ++ crlf) 7 new_HttpRequest
  = Err Uncaught.
Proof.
  apply (request_line_without_version_throws 2 (str "/") (LF :: str "A:") (str "b" ++ crlf ++ crlf)
           new_HttpRequest).
  - done.
  - vm_compute. set_solver.
  - vm_compute. set_solver.
  - vm_compute. lia.
Defined.

(** And read out of bounds when nothing follows it. *)
Example request_line_reads_out_of_bounds :
  parse_request_line (str "GET   /" ++ crlf) 7 new_HttpRequest = Err UndefinedBehaviour.
Proof. reflexivity. Qed.
