(* ===== verification/HttpParser.v ===== *)
(** The incremental HTTP parser: [example/http/server/src/http_parser.cc] and its
    header, over any input buffer with the interface of [TcpBuffer]. *)
From S2P Require Import Prelude TimePoint TcpBuffer HttpRequest.
Open Scope nat_scope.

Inductive ParsingState := EXPECT_REQUEST_LINE | EXPECT_HEADERS | EXPECT_BODY | SUCCESS | FAIL.

#[export] Instance ParsingState_eq_dec : EqDecision ParsingState.
Proof. solve_decision. Defined.

Record HttpParser := mkParser {
  _parsing_state : ParsingState;
  _body_length : Z;
  _request : HttpRequest
}.

Definition new_HttpParser : HttpParser := mkParser EXPECT_REQUEST_LINE 0 new_HttpRequest.
Definition reset (p : HttpParser) : HttpParser :=
  mkParser EXPECT_REQUEST_LINE 0 (reset_request (_request p)).
Definition with_state (s : ParsingState) (p : HttpParser) : HttpParser :=
  mkParser s (_body_length p) (_request p).
Definition with_request (r : HttpRequest) (p : HttpParser) : HttpParser :=
  mkParser (_parsing_state p) (_body_length p) r.
Definition is_success (p : HttpParser) : bool := bool_decide (_parsing_state p = SUCCESS).

(** [get_request] throws [std::logic_error] on an incomplete request. *)
Definition get_request (p : HttpParser) : result HttpRequest :=
  if is_success p then Ok (_request p) else Err Uncaught.

(** [strtol(s, &end, 10)]: the value, clamped to [long], and whether there was a
    digit at all. *)
Fixpoint digits (l : bytes) (acc : Z) : Z :=
  match l with
  | c :: l' =>
      if isdigit c then digits l' (10 * acc + (Z.of_nat (nat_of_ascii c) - 48)) else acc
  | [] => acc
  end.

Definition strtol (s : bytes) : Z * bool :=
  let l := drop_while isspace s in
  let '(sign, l) :=
    match l with
    | c :: l' => if decide (c = "-"%char) then ((-1)%Z, l')
                 else if decide (c = "+"%char) then (1%Z, l') else (1%Z, l)
    | [] => (1%Z, l)
    end in
  match l with
  | c :: _ =>
      if isdigit c then (Z.max int64_min (Z.min int64_max (sign * digits l 0)), true)
      else (0%Z, false)
  | [] => (0%Z, false)
  end.

Definition CONNECTION : bytes := str "Connection".
Definition CONTENT_LENGTH : bytes := str "Content-Length".

Section Parse.
Context {B : Type} `{ReadBuffer B}.

Definition succeed (time_stamp : TimePoint.t) (p : HttpParser) : HttpParser :=
  with_state SUCCESS (with_request (set_receive_time_point time_stamp (_request p)) p).

(** The empty line: what follows the headers.  [None]: a body does. *)
Definition headers_finished (p : HttpParser) (time_stamp : TimePoint.t)
    : option bool * HttpParser :=
  let headers := _headers (_request p) in
  let need_close := bool_decide (headers !! CONNECTION = Some (str "close")) in
  let p := with_request (set_need_close need_close (_request p)) p in
  match headers !! CONTENT_LENGTH with
  | Some value =>
      if decide (_method (_request p) = POST) then
        let '(n, any_digit) := strtol value in
        let p := mkParser (_parsing_state p) (u64 n) (_request p) in
        if negb any_digit then (Some false, with_state FAIL p)
        else if (_body_length p =? 0)%Z then (Some true, succeed time_stamp p)
        else (None, with_state EXPECT_BODY p)
      else (Some true, succeed time_stamp p)
  | None => (Some true, succeed time_stamp p)
  end.

(** The loop over the header lines: [Some b] returns [b], [None] goes on to the
    body. *)
Fixpoint parse_headers (fuel : nat) (p : HttpParser) (buffer : B) (time_stamp : TimePoint.t)
    : result (option bool * HttpParser * B) :=
  match fuel with
  | O => Err OutOfFuel
  | S fuel =>
      let* header_line_end := get_next_crlf_position buffer in
      match header_line_end with
      | None => Ok (Some true, p, buffer)
      | Some O =>
          let buffer := forward_read_position 2 buffer in
          Ok (headers_finished p time_stamp, buffer)
      | Some e =>
          let* (ok, r) := parse_header_line (readable buffer) e (_request p) in
          let p := with_request r p in
          if negb ok then Ok (Some false, with_state FAIL p, buffer)
          else parse_headers fuel p (forward_read_position (Z.of_nat (e + 2)) buffer) time_stamp
      end
  end.

Definition parse_body (p : HttpParser) (buffer : B) (time_stamp : TimePoint.t)
    : result (bool * HttpParser * B) :=
  if (Z.of_nat (get_readable_size buffer) <? _body_length p)%Z then Ok (true, p, buffer)
  else
    let* body := make_string (readable buffer) 0 (Z.to_nat (_body_length p)) in
    let p := with_request (set_body body (_request p)) p in
    let buffer := forward_read_position (_body_length p) buffer in
    Ok (true, succeed time_stamp p, buffer).

(** From [EXPECT_HEADERS] on. *)
Definition parse_rest (p : HttpParser) (buffer : B) (time_stamp : TimePoint.t)
    : result (bool * HttpParser * B) :=
  let* (ret, p, buffer) :=
    match _parsing_state p with
    | EXPECT_HEADERS => parse_headers (S (get_readable_size buffer)) p buffer time_stamp
    | _ => Ok (None, p, buffer)
    end in
  match ret with
  | Some b => Ok (b, p, buffer)
  | None =>
      match _parsing_state p with
      | EXPECT_BODY => parse_body p buffer time_stamp
      | _ => Err Fatal
      end
  end.

Definition parse (p : HttpParser) (buffer : B) (time_stamp : TimePoint.t)
    : result (bool * HttpParser * B) :=
  match _parsing_state p with
  | FAIL => Ok (false, p, buffer)
  | EXPECT_REQUEST_LINE =>
      let* request_line_end := get_next_crlf_position buffer in
      match request_line_end with
      | None => Ok (true, p, buffer)
      | Some e =>
          let* (ok, r) := parse_request_line (readable buffer) e (_request p) in
          let p := with_request r p in
          if negb ok then Ok (false, with_state FAIL p, buffer)
          else
            parse_rest (with_state EXPECT_HEADERS p)
              (forward_read_position (Z.of_nat (e + 2)) buffer) time_stamp
      end
  | _ => parse_rest p buffer time_stamp
  end.
End Parse.

(** * The specification buffer: the bytes left to read *)
#[export] Instance bytes_read_buffer : ReadBuffer bytes := {
  b_ok _ := True;
  readable l := l;
  get_next_crlf_position l := Ok (crlf_index l);
  get_readable_size l := length l;
  forward_read_position n l := drop (Z.to_nat n) l
}.

#[export] Instance bytes_read_buffer_laws : ReadBufferLaws bytes.
Proof. split; simpl; try done. intros n b _ _. by rewrite Nat2Z.id. Qed.

Section Refinement.
Context {B : Type} `{ReadBuffer B} `{!ReadBufferLaws B}.
Set Default Proof Using "Type*".

(** Same outcome, and the buffer stands for the specification's bytes. *)
Definition same_outcome {R} (x : result (R * HttpParser * B)) (y : result (R * HttpParser * bytes)) : Prop :=
  match x, y with
  | Ok (r, p, b), Ok (r', p', l) => r = r' /\ p = p' /\ b_ok b /\ readable b = l
  | Err e, Err e' => e = e'
  | _, _ => False
  end.

Lemma forward_ok b n :
  b_ok b -> n <= length (readable b) ->
  b_ok (forward_read_position (Z.of_nat n) b) /\
  readable (forward_read_position (Z.of_nat n) b) = drop n (readable b).
Proof. apply rb_forward. Qed.

Lemma crlf_bound l k : crlf_index l = Some k -> k + 2 <= length l.
Proof. intros H1. by apply crlf_index_some in H1 as (_ & ? & _). Qed.

Lemma parse_headers_refines fuel p b ts :
  b_ok b -> same_outcome (parse_headers fuel p b ts) (parse_headers fuel p (readable b) ts).
Proof.
  revert p b. induction fuel as [| fuel IH]; intros p b Hb; [done |]. simpl.
  rewrite (rb_crlf b Hb). destruct (crlf_index (readable b)) as [[| e] |] eqn:E; [| | done].
  - pose proof (crlf_bound _ _ E) as Hl.
    destruct (forward_ok b 2 Hb ltac:(lia)) as [H1 H2]. simpl. unfold same_outcome.
    destruct (headers_finished p ts) as [r p']. by split.
  - pose proof (crlf_bound _ _ E) as Hl.
    destruct (parse_header_line (readable b) (S e) (_request p)) as [[[] r] |]; simpl; [| done | done].
    destruct (forward_ok b (S e + 2) Hb ltac:(lia)) as [H1 H2].
    specialize (IH (with_request r p) _ H1). rewrite H2 in IH.
    rewrite Nat2Z.id. exact IH.
Qed.

Lemma parse_body_refines p b ts :
  b_ok b -> (0 <= _body_length p)%Z ->
  same_outcome (parse_body p b ts) (parse_body p (readable b) ts).
Proof.
  intros Hb Hl. unfold parse_body. rewrite (rb_size b Hb). simpl.
  destruct (_ <? _)%Z eqn:E; [done |]. apply Z.ltb_ge in E.
  destruct (make_string _ _ _); [| done]. simpl. split; [done |]. split; [done |].
  rewrite <- (Z2Nat.id (_body_length p)) at 1 2 by done. apply forward_ok; [done | lia].
Qed.

End Refinement.

(** What every operation keeps: the announced length is a [size_t]. *)
Definition parser_ok (p : HttpParser) : Prop := (0 <= _body_length p)%Z.

Lemma headers_finished_ok p ts : parser_ok p -> parser_ok (headers_finished p ts).2.
Proof.
  unfold parser_ok, headers_finished. intros Hp. destruct (_ !! CONTENT_LENGTH) as [v |]; [| done].
  simpl. case_decide; [| done]. destruct (strtol v) as [n []]; simpl; [| apply u64_range].
  destruct (u64 n =? 0)%Z; simpl; apply u64_range.
Qed.

Lemma parse_headers_parser_ok fuel p (l : bytes) ts r p' l' :
  parser_ok p -> parse_headers fuel p l ts = Ok (r, p', l') -> parser_ok p'.
Proof.
  revert p l. induction fuel as [| fuel IH]; intros p l Hp; [done |]. simpl.
  destruct (crlf_index l) as [[| e] |]; simpl.
  - intros [= E _]. pose proof (headers_finished_ok p ts Hp) as H. by rewrite E in H.
  - destruct (parse_header_line l (S e) (_request p)) as [[[] h] |]; simpl; [| | done].
    + by apply IH.
    + by intros [= <- <- <-].
  - by intros [= <- <- <-].
Qed.

(** ** One step of the header loop, on bytes *)
Definition header_step (p : HttpParser) (l : bytes) : option (bool * HttpParser * bytes) :=
  match crlf_index l with
  | Some (S e) =>
      Some match header_of_line (take (S e) l) with
           | None => (false, with_state FAIL p, l)
           | Some (key, value) =>
               (true, with_request (set_headers (<[key := value]> (_headers (_request p)))
                                      (_request p)) p, drop (S e + 2) l)
           end
  | _ => None
  end.

Lemma with_request_id p : with_request (_request p) p = p.
Proof. by destruct p. Qed.

(** The loop, unfolded once. *)
Lemma parse_headers_unfold fuel p (l : bytes) ts :
  parse_headers (S fuel) p l ts
  = match crlf_index l with
    | None => Ok (Some true, p, l)
    | Some O => Ok (headers_finished p ts, drop 2 l)
    | Some (S e) =>
        match header_of_line (take (S e) l) with
        | None => Ok (Some false, with_state FAIL p, l)
        | Some (key, value) =>
            parse_headers fuel
              (with_request (set_headers (<[key := value]> (_headers (_request p))) (_request p)) p)
              (drop (S e + 2) l) ts
        end
    end.
Proof.
  cbn [parse_headers]. unfold get_next_crlf_position at 1. cbn [bytes_read_buffer].
  destruct (crlf_index l) as [[| e] |] eqn:E; [done | | done].
  destruct (crlf_index_some _ _ E) as (Hl & Hlen & _).
  assert (Hline : parse_header_line l (S e) (_request p)
    = Ok (match header_of_line (take (S e) l) with
          | None => (false, _request p)
          | Some (key, value) =>
              (true, set_headers (<[key := value]> (_headers (_request p))) (_request p))
          end)).
  { pose proof (parse_header_line_reference (take (S e) l) (crlf ++ drop (S e + 2) l)
                  (_request p)) as Hr.
    rewrite <- Hl, length_take_le in Hr by lia. exact Hr. }
  unfold readable at 1. cbn [bytes_read_buffer]. rewrite Hline.
  destruct (header_of_line _) as [[k v] |]; cbn [negb].
  - unfold forward_read_position at 1. cbn [bytes_read_buffer]. by rewrite Nat2Z.id.
  - by rewrite with_request_id.
Qed.

(** Enough fuel is enough, and what is left over is no longer than the input. *)
Lemma parse_headers_fuel fuel fuel' p (l : bytes) ts :
  length l < fuel -> length l < fuel' -> parse_headers fuel p l ts = parse_headers fuel' p l ts.
Proof.
  revert fuel' p l. induction fuel as [| fuel IH]; intros fuel' p l H1 H2; [lia |].
  destruct fuel' as [| fuel']; [lia |]. rewrite !parse_headers_unfold.
  destruct (crlf_index l) as [[| e] |] eqn:E; [done | | done].
  pose proof (crlf_bound _ _ E). destruct (header_of_line _) as [[k v] |]; [| done].
  apply IH; rewrite length_drop; lia.
Qed.

Lemma parse_headers_total fuel p (l : bytes) ts :
  length l < fuel -> exists x, parse_headers fuel p l ts = Ok x.
Proof.
  revert p l. induction fuel as [| fuel IH]; intros p l H1; [lia |].
  rewrite parse_headers_unfold.
  destruct (crlf_index l) as [[| e] |] eqn:E; [eauto | | eauto].
  pose proof (crlf_bound _ _ E). destruct (header_of_line _) as [[k v] |]; [| eauto].
  apply IH. rewrite length_drop. lia.
Qed.

(** * Refinement: the parser on a real buffer is the parser on its bytes *)
Section ParseRefines.
Context {B : Type} `{ReadBuffer B} `{!ReadBufferLaws B}.
Set Default Proof Using "Type*".

Lemma parse_rest_refines p (b : B) ts :
  b_ok b -> parser_ok p -> same_outcome (parse_rest p b ts) (parse_rest p (readable b) ts).
Proof.
  intros Hb Hp. unfold parse_rest. rewrite (rb_size b Hb). cbn [get_readable_size bytes_read_buffer].
  assert (Hcont : forall ret p' (b' : B), b_ok b' -> parser_ok p' ->
    same_outcome
      (match ret with
       | Some r => Ok (r, p', b')
       | None => match _parsing_state p' with EXPECT_BODY => parse_body p' b' ts | _ => Err Fatal end
       end)
      (match ret with
       | Some r => Ok (r, p', readable b')
       | None => match _parsing_state p' with
                 | EXPECT_BODY => parse_body p' (readable b') ts | _ => Err Fatal end
       end)).
  { intros [r |] p' b' Hb' Hp'; [done |].
    destruct (_parsing_state p'); try done. by apply parse_body_refines. }
  destruct (decide (_parsing_state p = EXPECT_HEADERS)) as [Es | Es].
  2:{ pose proof (Hcont None p b Hb Hp) as Hn. cbv beta match in Hn.
      destruct (_parsing_state p) eqn:Ep; [| done | ..]; cbv beta match; rewrite Ep; exact Hn. }
  rewrite Es. pose proof (parse_headers_refines (S (length (readable b))) p b ts Hb) as Hr.
  destruct (parse_headers _ p (readable b) ts) as [[[ret p'] l'] | e'] eqn:E;
    destruct (parse_headers _ p b ts) as [[[ret2 p2] b2] | e]; simpl in Hr; try done.
  destruct Hr as (-> & -> & Hb2 & <-). apply Hcont; [done |].
  by eapply parse_headers_parser_ok.
Qed.

(** On any lawful buffer (a TCP buffer in use, in particular) the parser does exactly
    what it does on the sequence of the bytes left to read. *)
Lemma parse_on_bytes p (b : B) ts (Hb : b_ok b) (Hp : parser_ok p) :
  same_outcome (parse p b ts) (parse p (readable b) ts).
Proof.
  unfold parse. destruct (_parsing_state p) eqn:Es;
    [| by apply parse_rest_refines .. | by repeat split].
  rewrite (rb_crlf b Hb). cbn [get_next_crlf_position bytes_read_buffer].
  destruct (crlf_index (readable b)) as [e |] eqn:E; [| done].
  pose proof (crlf_bound _ _ E) as Hl.
  change (@readable bytes bytes_read_buffer (readable b)) with (readable b).
  destruct (parse_request_line (readable b) e (_request p)) as [[[] r] |];
    cbn [negb]; [| done | done].
  destruct (forward_ok b (e + 2) Hb ltac:(lia)) as [H1 H2].
  unfold forward_read_position at 2. cbn [bytes_read_buffer]. rewrite Nat2Z.id, <- H2.
  by apply parse_rest_refines.
Qed.
End ParseRefines.

(** * Incremental parsing *)
Definition finished (p : HttpParser) : bool :=
  match _parsing_state p with SUCCESS | FAIL => true | _ => false end.

Lemma crlf_index_take l d e : crlf_index l = Some e -> take e (l ++ d) = take e l.
Proof. intros H%crlf_bound. apply take_app_le. lia. Qed.

(** The header loop on more bytes: it continues where it stopped. *)
Lemma parse_headers_more fuel fuel' p (l d : bytes) ts ts' r p' l' :
  length l < fuel -> length (l ++ d) < fuel' ->
  parse_headers fuel p l ts = Ok (r, p', l') -> finished p' = false ->
  (r = Some true -> parse_headers fuel' p (l ++ d) ts' = parse_headers fuel' p' (l' ++ d) ts' /\
     _parsing_state p' = _parsing_state p) /\
  (r = None -> parse_headers fuel' p (l ++ d) ts' = Ok (None, p', l' ++ d) /\
     _parsing_state p' = EXPECT_BODY) /\
  r <> Some false /\ length l' <= length l.
Proof.
  revert fuel' p l. induction fuel as [| fuel IH]; intros fuel' p l H1 H2; [lia |].
  destruct fuel' as [| fuel']; [lia |]. rewrite parse_headers_unfold.
  destruct (crlf_index l) as [[| e] |] eqn:E.
  - pose proof (crlf_bound _ _ E) as Hl. intros [= Hr <-] Hfin.
    rewrite !(parse_headers_unfold _ p), (crlf_index_app _ d _ E).
    rewrite drop_app_le by lia. rewrite length_drop.
    unfold headers_finished in *. destruct (_headers _ !! CONTENT_LENGTH) as [v |].
    + case_decide; [| by injection Hr as <- <-].
      destruct (strtol v) as [n []]; cbn [negb] in *; [| by injection Hr as <- <-].
      simpl in *. destruct (u64 n =? 0)%Z; injection Hr as <- <-; [done |].
      split; [done |]. split; [done |]. split; [done | lia].
    + by injection Hr as <- <-.
  - pose proof (crlf_bound _ _ E) as Hl.
    destruct (header_of_line (take (S e) l)) as [[k v] |] eqn:Eh.
    2:{ intros [= <- <- <-]. done. }
    intros Hrun Hfin. rewrite !(parse_headers_unfold _ p), (crlf_index_app _ d _ E).
    rewrite (crlf_index_take _ _ _ E), Eh. rewrite drop_app_le by lia.
    rewrite length_app in H2.
    destruct (IH fuel' _ (drop (S e + 2) l) ltac:(rewrite length_drop; lia)
      ltac:(rewrite length_app, length_drop; lia) Hrun Hfin) as (Ha & Hb & Hc & Hd).
    rewrite length_drop in Hd. split; [| split; [| split; [done | lia]]].
    + intros Hr. destruct (Ha Hr) as [-> Hs]. split; [| done].
      apply parse_headers_fuel; rewrite length_app; lia.
    + intros Hr. by apply Hb.
  - intros [= <- <- <-] Hfin. split; [done |]. split; [done |]. split; [done | lia].
Qed.

Definition mid_request (p : HttpParser) : Prop :=
  _parsing_state p = EXPECT_HEADERS \/ _parsing_state p = EXPECT_BODY.

Lemma parse_body_unfinished p (l : bytes) ts r p' l' :
  parse_body p l ts = Ok (r, p', l') -> finished p' = false -> r = true /\ p' = p /\ l' = l.
Proof.
  unfold parse_body. destruct (_ <? _)%Z; [by intros [= <- <- <-] |].
  destruct (make_string _ _ _); [| done]. by intros [= <- <- <-].
Qed.

Lemma parse_rest_body p (l : bytes) ts :
  _parsing_state p = EXPECT_BODY -> parse_rest p l ts = parse_body p l ts.
Proof. intros E. unfold parse_rest. rewrite E. by rewrite E. Qed.

Lemma parse_rest_headers p (l : bytes) ts :
  _parsing_state p = EXPECT_HEADERS ->
  parse_rest p l ts
  = let* (ret, p, l) := parse_headers (S (length l)) p l ts in
    match ret with
    | Some b => Ok (b, p, l)
    | None => match _parsing_state p with EXPECT_BODY => parse_body p l ts | _ => Err Fatal end
    end.
Proof. intros E. unfold parse_rest. by rewrite E. Qed.

Lemma parse_rest_more p (l d : bytes) ts ts' r p' l' :
  mid_request p -> parse_rest p l ts = Ok (r, p', l') -> finished p' = false ->
  parse_rest p (l ++ d) ts' = parse_rest p' (l' ++ d) ts' /\ mid_request p'.
Proof.
  intros [E | E].
  - rewrite !(parse_rest_headers p) by done. intros Hrun Hfin.
    destruct (parse_headers _ p l ts) as [[[ret p1] l1] |] eqn:Eh; [| done].
    assert (Hfin1 : finished p1 = false).
    { destruct ret; [by injection Hrun as <- <- <- |]. unfold finished.
      by destruct (_parsing_state p1). }
    destruct (parse_headers_more (S (length l)) (S (length (l ++ d))) p l d ts ts' ret p1 l1
      ltac:(lia) ltac:(lia) Eh Hfin1) as (Ht & Hn & Hf & Hlen).
    destruct ret as [[] |]; [| done |].
    + injection Hrun as <- <- <-. destruct (Ht eq_refl) as [-> Hs].
      rewrite E in Hs. split; [| by left]. rewrite (parse_rest_headers p1) by done.
      rewrite (parse_headers_fuel _ (S (length (l1 ++ d)))); [done | | lia].
      rewrite !length_app. lia.
    + destruct (Hn eq_refl) as [-> Hs]. rewrite Hs in *.
      destruct (parse_body_unfinished _ _ _ _ _ _ Hrun Hfin) as (-> & -> & ->).
      rewrite (parse_rest_body p1) by done. split; [done | by right].
  - rewrite !(parse_rest_body p) by done. intros Hrun Hfin.
    destruct (parse_body_unfinished _ _ _ _ _ _ Hrun Hfin) as (-> & -> & ->).
    rewrite (parse_rest_body p) by done. split; [done | by right].
Qed.

Lemma parse_headers_none fuel p (l : bytes) ts p1 l1 :
  parse_headers fuel p l ts = Ok (None, p1, l1) -> _parsing_state p1 = EXPECT_BODY.
Proof.
  revert p l. induction fuel as [| fuel IH]; intros p l; [done |].
  rewrite parse_headers_unfold. destruct (crlf_index l) as [[| e] |]; [| | done].
  - unfold headers_finished. destruct (_ !! CONTENT_LENGTH) as [v |]; [| by intros [= H]].
    case_decide; [| done]. destruct (strtol v) as [n []]; [| done]. simpl.
    destruct (u64 n =? 0)%Z; [done |]. by intros [= <- _].
  - destruct (header_of_line _) as [[k v] |]; [| done]. apply IH.
Qed.

(** What is finished stays finished, with the same verdict, when more bytes come. *)
Lemma headers_finished_more fuel fuel' p (l d : bytes) ts r p' l' :
  length l < fuel -> length (l ++ d) < fuel' -> finished p = false ->
  parse_headers fuel p l ts = Ok (r, p', l') -> finished p' = true ->
  parse_headers fuel' p (l ++ d) ts = Ok (r, p', l' ++ d).
Proof.
  revert fuel' p l. induction fuel as [| fuel IH]; intros fuel' p l H1 H2 Hp; [lia |].
  destruct fuel' as [| fuel']; [lia |]. rewrite !parse_headers_unfold.
  destruct (crlf_index l) as [[| e] |] eqn:E.
  - pose proof (crlf_bound _ _ E) as Hl. intros [= Hr <-] _.
    by rewrite (crlf_index_app _ d _ E), drop_app_le, Hr by lia.
  - pose proof (crlf_bound _ _ E) as Hl. rewrite (crlf_index_app _ d _ E), (crlf_index_take _ _ _ E).
    destruct (header_of_line (take (S e) l)) as [[k v] |]; [| by intros [= <- <- <-]].
    rewrite drop_app_le by lia. rewrite length_app in H2. intros Hrun Hfin.
    apply (IH fuel' _ (drop (S e + 2) l)); try done; rewrite ?length_app, length_drop; lia.
  - intros [= <- <- <-] Hfin. congruence.
Qed.

Lemma body_finished_more p (l d : bytes) ts r p' l' :
  parse_body p l ts = Ok (r, p', l') -> finished p = false -> finished p' = true ->
  parse_body p (l ++ d) ts = Ok (r, p', l' ++ d).
Proof.
  unfold parse_body. cbn [get_readable_size readable forward_read_position bytes_read_buffer].
  rewrite length_app. destruct (Z.ltb_spec (Z.of_nat (length l)) (_body_length p)) as [E | E].
  { intros [= <- <- <-]. congruence. }
  rewrite (proj2 (Z.ltb_ge _ _)) by lia.
  assert (Hn : Z.to_nat (_body_length p) <= length l) by lia.
  unfold make_string. rewrite !(proj2 (Nat.ltb_ge _ 0)), !(proj2 (Nat.leb_le _ _)) by (rewrite ?length_app; lia).
  simpl. intros [= <- <- <-] _ _. unfold slice. rewrite !drop_0, take_app_le, drop_app_le by lia. done.
Qed.

Lemma rest_finished_more p (l d : bytes) ts r p' l' :
  mid_request p -> parse_rest p l ts = Ok (r, p', l') -> finished p' = true ->
  parse_rest p (l ++ d) ts = Ok (r, p', l' ++ d).
Proof.
  assert (Hmid : forall p, mid_request p -> finished p = false)
    by (intros q [E | E]; unfold finished; by rewrite E).
  intros Hp. pose proof Hp as [E | E].
  - rewrite !(parse_rest_headers p) by done. intros Hrun Hfin.
    destruct (parse_headers _ p l ts) as [[[ret p1] l1] |] eqn:Eh; [| done].
    assert (Hlen : length l < S (length l) /\ length (l ++ d) < S (length (l ++ d))) by lia.
    destruct ret as [b |].
    + injection Hrun as <- <- <-.
      by rewrite (headers_finished_more _ _ _ _ d _ _ _ _ (proj1 Hlen) (proj2 Hlen) (Hmid p Hp) Eh Hfin).
    + pose proof (parse_headers_none _ _ _ _ _ _ Eh) as Es. rewrite Es in Hrun.
      assert (Hf1 : finished p1 = false) by (apply Hmid; by right).
      destruct (parse_headers_more _ _ _ _ d ts ts _ _ _ (proj1 Hlen) (proj2 Hlen) Eh Hf1)
        as (_ & Hn & _). destruct (Hn eq_refl) as [-> _]. rewrite Es. by apply body_finished_more.
  - rewrite !(parse_rest_body p) by done. intros Hrun Hfin. apply body_finished_more; try done. by apply Hmid.
Qed.

(** An unfinished call says so with [true]. *)
Lemma rest_unfinished_true p (l : bytes) ts r p' l' :
  mid_request p -> parse_rest p l ts = Ok (r, p', l') -> finished p' = false -> r = true.
Proof.
  intros [E | E].
  - rewrite (parse_rest_headers p) by done. intros Hrun Hfin.
    destruct (parse_headers _ p l ts) as [[[ret p1] l1] |] eqn:Eh; [| done]. destruct ret as [b |].
    + injection Hrun as <- <- <-.
      destruct (parse_headers_more _ (S (length (l ++ []))) _ _ [] ts ts _ _ _ (Nat.lt_succ_diag_r _)
                  (Nat.lt_succ_diag_r _) Eh Hfin) as (_ & _ & Hb & _). by destruct b.
    + rewrite (parse_headers_none _ _ _ _ _ _ Eh) in Hrun. by eapply parse_body_unfinished.
  - rewrite (parse_rest_body p) by done. intros Hrun Hfin. by eapply parse_body_unfinished.
Qed.

Lemma request_line_more l d e r r' :
  crlf_index l = Some e -> parse_request_line l e r = Ok (true, r') ->
  parse_request_line (l ++ d) e r = Ok (true, r').
Proof.
  intros E Hp. destruct (crlf_index_some _ _ E) as (Hl & Hlen & _).
  set (line := take e l) in *.
  assert (He : length line = e) by (apply length_take_le; lia).
  rewrite Hl in Hp |- *. rewrite <- He in Hp |- *.
  change (line ++ crlf ++ drop (length line + 2) l)
    with (line ++ CR :: (LF :: drop (length line + 2) l)) in Hp.
  destruct (request_line_sound _ _ _ _ Hp)
    as (n1 & x & method & n2 & path & n3 & y & version & n4 & -> & Hx & Hy & H0 & Hpath & ->).
  rewrite <- app_assoc. by apply request_line_accepted.
Qed.

(** A call that goes on where the last one stopped. *)
Lemma parse_continues p (l d : bytes) ts ts' r p' l'
    (Hrun : parse p l ts = Ok (r, p', l')) (Hfin : finished p' = false) :
  parse p (l ++ d) ts' = parse p' (l' ++ d) ts'.
Proof.
  unfold parse in Hrun at 1. destruct (_parsing_state p) eqn:Es.
  - cbn [get_next_crlf_position bytes_read_buffer] in Hrun.
    destruct (crlf_index l) as [e |] eqn:E; [| by injection Hrun as <- <- <-].
    change (@readable bytes bytes_read_buffer l) with l in Hrun.
    destruct (parse_request_line l e (_request p)) as [[[] rq] |] eqn:Er; [| | done].
    2:{ injection Hrun as <- <- <-. done. }
    cbn [negb] in Hrun. unfold forward_read_position in Hrun. cbn [bytes_read_buffer] in Hrun.
    rewrite Nat2Z.id in Hrun. pose proof (crlf_bound _ _ E) as Hl.
    destruct (parse_rest_more (with_state EXPECT_HEADERS (with_request rq p)) (drop (e + 2) l) d
                ts ts' r p' l' (or_introl eq_refl) Hrun Hfin) as [Hmore Hmid].
    transitivity (parse_rest p' (l' ++ d) ts').
    + unfold parse at 1. rewrite Es. cbn [get_next_crlf_position bytes_read_buffer].
      rewrite (crlf_index_app _ d _ E).
      change (@readable bytes bytes_read_buffer (l ++ d)) with (l ++ d).
      rewrite (request_line_more _ d _ _ _ E Er). cbn [negb].
      unfold forward_read_position. cbn [bytes_read_buffer]. rewrite Nat2Z.id.
      rewrite drop_app_le by lia. exact Hmore.
    + unfold parse. by destruct Hmid as [-> | ->].
  - destruct (parse_rest_more p l d ts ts' r p' l' (or_introl Es) Hrun Hfin) as [Hmore Hmid].
    unfold parse. rewrite Es. by destruct Hmid as [-> | ->].
  - destruct (parse_rest_more p l d ts ts' r p' l' (or_intror Es) Hrun Hfin) as [Hmore Hmid].
    unfold parse. rewrite Es. by destruct Hmid as [-> | ->].
  - unfold parse_rest in Hrun. rewrite Es in Hrun. by rewrite Es in Hrun.
  - injection Hrun as <- <- <-. unfold finished in Hfin. by rewrite Es in Hfin.
Qed.

Lemma parse_rest_parser_ok p (l : bytes) ts r p' l' :
  parser_ok p -> parse_rest p l ts = Ok (r, p', l') -> parser_ok p'.
Proof.
  intros Hp. unfold parse_rest. intros Hrun.
  assert (Hbody : forall q (m : bytes), parser_ok q ->
    match _parsing_state q with EXPECT_BODY => parse_body q m ts | _ => Err Fatal end
    = Ok (r, p', l') -> parser_ok p').
  { intros q m Hq. destruct (_parsing_state q); try done. unfold parse_body. destruct (_ <? _)%Z.
    - by intros [= _ <- _].
    - destruct (make_string _ _ _); [| done]. by intros [= _ <- _]. }
  destruct (decide (_parsing_state p = EXPECT_HEADERS)) as [Es | Es].
  2:{ apply (Hbody p l Hp). revert Hrun. by destruct (_parsing_state p) eqn:E; rewrite ?E. }
  rewrite Es in Hrun.
  destruct (parse_headers _ p l ts) as [[[ret q] m] |] eqn:E; [| done].
  pose proof (parse_headers_parser_ok _ _ _ _ _ _ _ Hp E) as Hq.
  destruct ret; [by injection Hrun as _ <- _ | by eapply Hbody].
Qed.

Lemma parse_parser_ok p (l : bytes) ts r p' l' :
  parser_ok p -> parse p l ts = Ok (r, p', l') -> parser_ok p'.
Proof.
  intros Hp. unfold parse. cbn [get_next_crlf_position bytes_read_buffer].
  destruct (_parsing_state p); try (by apply parse_rest_parser_ok); [| by intros [= _ <- _]].
  destruct (crlf_index l); [| by intros [= _ <- _]].
  destruct (parse_request_line _ _ _) as [[[] q] |]; cbn [negb]; [| by intros [= _ <- _] | done].
  by apply parse_rest_parser_ok.
Qed.

(** C19: Parsing is incremental: when a call leaves the request unfinished, calling
    again once more bytes have arrived gives exactly what a single call on all the
    bytes would have given, wherever the input was cut (inside a line, between CR
    and LF, inside the body). *)
Theorem parse_incremental p (l d : bytes) ts ts' r p' l'
    (Hrun : parse p l ts = Ok (r, p', l')) (Hfin : finished p' = false) :
  parse p (l ++ d) ts' = parse p' (l' ++ d) ts'.
Proof. by eapply parse_continues. Qed.

Lemma parse_rest_total p (l : bytes) ts : mid_request p -> exists x, parse_rest p l ts = Ok x.
Proof.
  assert (Hbody : forall p (l : bytes), exists x, parse_body p l ts = Ok x).
  { intros p0 l0. unfold parse_body. cbn [get_readable_size readable bytes_read_buffer].
    destruct (_ <? _)%Z eqn:E; [eauto |]. apply Z.ltb_ge in E.
    unfold make_string. rewrite (proj2 (Nat.ltb_ge _ _)), (proj2 (Nat.leb_le _ _)) by lia. eauto. }
  intros [E | E]; [| rewrite parse_rest_body by done; apply Hbody].
  rewrite parse_rest_headers by done.
  destruct (parse_headers_total (S (length l)) p l ts ltac:(lia)) as [[[ret p1] l1] Eh].
  rewrite Eh. destruct ret as [b |]; [eauto |].
  rewrite (parse_headers_none _ _ _ _ _ _ Eh). apply Hbody.
Qed.

(** * Complete requests *)
Record header_line := mkHeaderLine { h_line : bytes; h_name : bytes; h_value : bytes }.

Definition header_line_ok (h : header_line) : Prop :=
  h_line h <> [] /\ (CR ∉ h_line h) /\ header_of_line (h_line h) = Some (h_name h, h_value h).

Definition fields (hs : list header_line) (init : gmap bytes bytes) : gmap bytes bytes :=
  foldl (fun m h => <[h_name h := h_value h]> m) init hs.

Definition render_headers (hs : list header_line) : bytes :=
  concat ((fun h => h_line h ++ crlf) <$> hs).

Lemma parse_headers_lines hs fuel p rest ts :
  Forall header_line_ok hs -> length (render_headers hs ++ crlf ++ rest) < fuel ->
  parse_headers fuel p (render_headers hs ++ crlf ++ rest) ts
  = Ok (headers_finished
          (with_request (set_headers (fields hs (_headers (_request p))) (_request p)) p) ts, rest).
Proof.
  intros Hok. revert fuel p. induction Hok as [| h hs (H0 & Hcr & Hh) _ IH]; intros fuel p Hf.
  - destruct fuel as [| fuel]; [simpl in Hf; lia |]. rewrite parse_headers_unfold. simpl.
    destruct p as [s n []]. by destruct s.
  - destruct fuel as [| fuel]; [lia |]. rewrite parse_headers_unfold.
    assert (Hsplit : render_headers (h :: hs) ++ crlf ++ rest
              = h_line h ++ crlf ++ (render_headers hs ++ crlf ++ rest)).
    { unfold render_headers. simpl. by rewrite <- !app_assoc. }
    rewrite Hsplit in Hf |- *. rewrite crlf_index_line by done.
    destruct (length (h_line h)) as [| e] eqn:El; [by apply length_zero_iff_nil in El |].
    rewrite <- El. rewrite take_app_length, Hh.
    rewrite (app_assoc (h_line h) crlf), drop_app_length' by (rewrite length_app; simpl; lia).
    rewrite IH; [done |]. rewrite !length_app in Hf |- *. simpl in Hf |- *.
    rewrite length_app in Hf. simpl in Hf. lia.
Qed.

(** What announces a body of length [n]: a POST with a numeric, non-zero
    [Content-Length]; no body otherwise. *)
Definition body_announced (x : HttpMethodType) (m : gmap bytes bytes) (n : nat) : Prop :=
  match m !! CONTENT_LENGTH with
  | Some v => if decide (x = POST) then (strtol v).2 = true /\ u64 (strtol v).1 = Z.of_nat n
              else n = 0
  | None => n = 0
  end.

Definition complete_request (x : HttpMethodType) (path : bytes) (y : HttpVersionType)
    (hs : list header_line) (body : bytes) (ts : TimePoint.t) : HttpRequest :=
  let m := fields hs ∅ in
  mkRequest x path y ts m (bool_decide (m !! CONNECTION = Some (str "close"))) body.

Lemma headers_then_body p rest body ts :
  _parsing_state p = EXPECT_HEADERS -> _body (_request p) = [] ->
  body_announced (_method (_request p)) (_headers (_request p)) (length body) ->
  let r := set_need_close (bool_decide (_headers (_request p) !! CONNECTION = Some (str "close")))
             (_request p) in
  exists n,
  (let '(ret, p) := headers_finished p ts in
   match ret with
   | Some b => Ok (b, p, body ++ rest)
   | None => match _parsing_state p with EXPECT_BODY => parse_body p (body ++ rest) ts
             | _ => Err Fatal end
   end)
  = Ok (true, mkParser SUCCESS n (set_receive_time_point ts (set_body body r)), rest).
Proof.
  intros Es Hb0 Hb. unfold body_announced in Hb. unfold headers_finished.
  assert (Hnil : length body = 0 -> body = []) by apply length_zero_iff_nil.
  assert (Hr : forall r : HttpRequest, _body r = [] -> set_body [] r = r) by (by intros [] [= ->]).
  destruct (_headers (_request p) !! CONTENT_LENGTH) as [v |].
  - simpl. case_decide as Hm.
    + destruct (strtol v) as [n any]; simpl in *. destruct Hb as [-> Hn]. simpl. rewrite Hn.
      destruct (Z.of_nat (length body) =? 0)%Z eqn:E0; simpl.
      * apply Z.eqb_eq in E0. rewrite Hnil by lia. eexists.
        unfold succeed, with_state, with_request. simpl. by rewrite Hr.
      * exists (Z.of_nat (length body)). unfold parse_body. simpl.
        rewrite (proj2 (Z.ltb_ge _ _)) by (rewrite length_app; lia).
        rewrite Nat2Z.id. rewrite (make_string' _ _ _ [] body rest) by done. simpl.
        by rewrite drop_app_length.
    + rewrite Hnil by done. eexists. unfold succeed, with_state, with_request. simpl.
      by rewrite Hr.
  - rewrite Hnil by done. eexists. unfold succeed, with_state, with_request. simpl. by rewrite Hr.
Qed.

(** The parser after the request line. *)
Definition after_line (x : HttpMethodType) (path : bytes) (y : HttpVersionType) : HttpParser :=
  with_state EXPECT_HEADERS
    (with_request (set_version y (set_path path (set_method x (_request new_HttpParser)))) new_HttpParser).

Lemma request_line_no_CR n1 x method n2 path n3 y version n4 :
  method_name x = Some method -> version_name y = Some version -> CR ∉ path ->
  CR ∉ render_request_line n1 method n2 path n3 version n4.
Proof.
  intros Hx Hy Hpcr. unfold render_request_line. rewrite !elem_of_app.
  assert (Hsp : forall n, CR ∉ replicate n SP) by (intros n [? _]%elem_of_replicate; done).
  intros [H | [H | [H | [H | [H | [H | H]]]]]]; try by apply Hsp in H.
  - by apply (method_name_no_CR _ _ Hx).
  - done.
  - revert H. destruct y; [done | |]; injection Hy as <-; vm_compute; set_solver.
Qed.

Lemma request_line_parsed n1 x method n2 path n3 y version n4 tail ts :
  method_name x = Some method -> version_name y = Some version ->
  path <> [] -> SP ∉ path -> CR ∉ path ->
  parse new_HttpParser (render_request_line n1 method n2 path n3 version n4 ++ crlf ++ tail) ts
  = parse_rest (after_line x path y) tail ts.
Proof.
  intros Hx Hy Hp0 Hp Hpcr.
  pose proof (request_line_no_CR n1 x method n2 path n3 y version n4 Hx Hy Hpcr) as Hcr.
  pose proof (fun rest => request_line_accepted n1 x method n2 path n3 y version n4 rest
                            (_request new_HttpParser) Hx Hy Hp0 Hp) as Hacc. cbv zeta in Hacc.
  set (line := render_request_line _ _ _ _ _ _ _) in *.
  unfold parse. cbn [new_HttpParser _parsing_state get_next_crlf_position bytes_read_buffer].
  rewrite crlf_index_line by done. change (@readable bytes bytes_read_buffer ?l) with l.
  cbn [mbind result_bind]. rewrite Hacc. cbn [mbind result_bind negb].
  unfold forward_read_position. cbn [bytes_read_buffer]. rewrite Nat2Z.id.
  by rewrite (app_assoc line crlf), drop_app_length' by (rewrite length_app; simpl; lia).
Qed.

Lemma complete_request_parsed n1 x method n2 path n3 y version n4 hs body rest ts
    (Hx : method_name x = Some method) (Hy : version_name y = Some version)
    (Hp0 : path <> []) (Hp : SP ∉ path) (Hpcr : CR ∉ path)
    (Hhs : Forall header_line_ok hs)
    (Hbody : body_announced x (fields hs ∅) (length body)) :
  exists p, parse new_HttpParser
      (render_request_line n1 method n2 path n3 version n4 ++ crlf ++
       render_headers hs ++ crlf ++ body ++ rest) ts = Ok (true, p, rest) /\
    finished p = true /\ get_request p = Ok (complete_request x path y hs body ts).
Proof.
  rewrite (request_line_parsed n1 x method n2 path n3 y version n4) by done.
  rewrite parse_rest_headers, parse_headers_lines by (done || lia).
  set (p1 := with_request _ (after_line x path y)).
  destruct (headers_then_body p1 rest body ts) as [n Hn]; [done | done | exact Hbody |].
  cbv zeta in Hn. unfold p1 in *.
  destruct (headers_finished _ ts) as [ret p2]. cbn [mbind result_bind]. rewrite Hn.
  eexists. split; [done |]. done.
Qed.

(** As long as a byte of a complete request is missing the parser wants more, and
    has not complained. *)
Lemma request_prefix_unfinished n1 x method n2 path n3 y version n4 hs body got d ts
    (Hx : method_name x = Some method) (Hy : version_name y = Some version)
    (Hp0 : path <> []) (Hp : SP ∉ path) (Hpcr : CR ∉ path)
    (Hhs : Forall header_line_ok hs)
    (Hbody : body_announced x (fields hs ∅) (length body))
    (Hgot : got ++ d = render_request_line n1 method n2 path n3 version n4 ++ crlf ++
                       render_headers hs ++ crlf ++ body) (Hd : d <> []) :
  exists p l, parse new_HttpParser got ts = Ok (true, p, l) /\ finished p = false.
Proof.
  pose proof (request_line_no_CR n1 x method n2 path n3 y version n4 Hx Hy Hpcr) as Hcr.
  destruct (crlf_index got) as [e |] eqn:E.
  2: { exists new_HttpParser, got. unfold parse.
       cbn [new_HttpParser _parsing_state get_next_crlf_position bytes_read_buffer]. by rewrite E. }
  destruct (crlf_index_some _ _ E) as (Hsplit & Hlen & _).
  pose proof (crlf_index_app _ d _ E) as E'. rewrite Hgot, crlf_index_line in E' by done.
  injection E' as <-. set (line := render_request_line _ _ _ _ _ _ _) in *.
  assert (Htake : take (length line) got = line).
  { rewrite <- (take_app_le got d) by lia. by rewrite Hgot, take_app_length. }
  rewrite Htake in Hsplit. set (tail := drop _ got) in *. rewrite Hsplit.
  unfold line. rewrite (request_line_parsed n1 x method n2 path n3 y version n4) by done.
  assert (Hmid : mid_request (after_line x path y)) by (by left).
  destruct (parse_rest_total _ tail ts Hmid) as [[[r p] l] Er]. rewrite Er.
  destruct (finished p) eqn:Ef.
  2: { exists p, l. by rewrite (rest_unfinished_true _ _ _ _ _ _ Hmid Er Ef). }
  exfalso. pose proof (rest_finished_more _ _ d _ _ _ _ Hmid Er Ef) as Emore.
  destruct (complete_request_parsed n1 x method n2 path n3 y version n4 hs body [] ts
              Hx Hy Hp0 Hp Hpcr Hhs Hbody) as (p' & Ep & _).
  rewrite app_nil_r in Ep. fold line in Ep. rewrite <- Hgot, Hsplit, <- !app_assoc in Ep. unfold line in Ep.
  rewrite (request_line_parsed n1 x method n2 path n3 y version n4) in Ep by done.
  rewrite Emore in Ep. injection Ep as _ _ Enil. by apply app_nil in Enil as [_ ->].
Qed.

(** A complete request is parsed in one call: the parser succeeds with exactly
    the method, path, version, header fields (the last one wins) and body that
    were sent, notes whether the client asked to close, and leaves exactly what
    follows the request in the buffer. *)
Theorem parse_complete_request n1 x method n2 path n3 y version n4 hs body rest ts
    (Hx : method_name x = Some method) (Hy : version_name y = Some version)
    (Hp0 : path <> []) (Hp : SP ∉ path) (Hpcr : CR ∉ path)
    (Hhs : Forall header_line_ok hs)
    (Hbody : body_announced x (fields hs ∅) (length body)) :
  exists p, parse new_HttpParser
      (render_request_line n1 method n2 path n3 version n4 ++ crlf ++
       render_headers hs ++ crlf ++ body ++ rest) ts = Ok (true, p, rest) /\
    get_request p = Ok (complete_request x path y hs body ts).
Proof.
  destruct (complete_request_parsed n1 x method n2 path n3 y version n4 hs body rest ts
              Hx Hy Hp0 Hp Hpcr Hhs Hbody) as (p & E & _ & Hr). by exists p.
Qed.

(** Once the request line is in, no input can break the parser: while it reads
    headers or a body, and after a failure, a call always returns (the header loop
    terminates and stays inside the buffer).  But a call after a success, without
    a [reset] in between, is fatal to the process. *)
Theorem parse_total p (l : bytes) ts :
  match _parsing_state p with
  | EXPECT_REQUEST_LINE => crlf_index l = None -> parse p l ts = Ok (true, p, l)
  | EXPECT_HEADERS | EXPECT_BODY => exists r p' l', parse p l ts = Ok (r, p', l')
  | FAIL => parse p l ts = Ok (false, p, l)
  | SUCCESS => parse p l ts = Err Fatal
  end.
Proof.
  unfold parse. destruct (_parsing_state p) eqn:E.
  - cbn [get_next_crlf_position bytes_read_buffer]. by intros ->.
  - destruct (parse_rest_total p l ts (or_introl E)) as [[[r p'] l'] H]. eauto.
  - destruct (parse_rest_total p l ts (or_intror E)) as [[[r p'] l'] H]. eauto.
  - unfold parse_rest. rewrite E. by rewrite E.
  - done.
Qed.

(** * A concrete request *)
Definition sample_headers : list header_line :=
  [mkHeaderLine (str "Host:  a.b ") (str "Host") (str "a.b");
   mkHeaderLine (str "Content-Length: 5") (str "Content-Length") (str "5");
   mkHeaderLine (str "Connection: close") (str "Connection") (str "close")].

Lemma sample_headers_ok : Forall header_line_ok sample_headers.
Proof.
  repeat constructor; unfold header_line_ok; cbn [h_line h_name h_value];
    try (vm_compute; set_solver); try discriminate; reflexivity.
Qed.

Definition sample_time : TimePoint.t := TimePoint.mk 7.

Lemma parse_complete_request_witness :
  exists p, parse new_HttpParser
      (str "POST  /form HTTP/1.1" ++ crlf ++ str "Host:  a.b " ++ crlf ++
       str "Content-Length: 5" ++ crlf ++ str "Connection: close" ++ crlf ++ crlf ++
       str "a=b&c" ++ str "GET") sample_time = Ok (true, p, str "GET") /\
    get_request p = Ok (complete_request POST (str "/form") HTTP_1_1 sample_headers
                          (str "a=b&c") sample_time).
Proof.
  apply (parse_complete_request 0 POST (str "POST") 1 (str "/form") 0 HTTP_1_1 (str "HTTP/1.1") 0
           sample_headers (str "a=b&c") (str "GET") sample_time).
  - reflexivity.
  - reflexivity.
  - done.
  - vm_compute. set_solver.
  - vm_compute. set_solver.
  - exact sample_headers_ok.
  - vm_compute. split; reflexivity.
Defined.

(** Cut between the CR and the LF of the first header line. *)
Lemma parse_incremental_witness :
  exists p l, parse new_HttpParser (str "GET / HTTP/1.1" ++ crlf ++ str "A: b" ++ [CR]) sample_time
              = Ok (true, p, l) /\ finished p = false /\
    parse new_HttpParser ((str "GET / HTTP/1.1" ++ crlf ++ str "A: b" ++ [CR]) ++ [LF] ++ crlf)
      sample_time = parse p (l ++ [LF] ++ crlf) sample_time.
Proof.
  eexists _, _. split; [vm_compute; reflexivity |]. split; [reflexivity |].
  apply (parse_incremental new_HttpParser _ ([LF] ++ crlf) sample_time sample_time true).
  - vm_compute. reflexivity.
  - reflexivity.
Defined.
