(* ===== verification/HttpGrammar.v ===== *)
(** What a request is, on bytes, and [HttpParser.parse] as its decision procedure: the
    requests the parser accepts, with what it makes of them and what it leaves, are
    those of an inductive grammar; the inputs it rejects are those that cannot become
    one; and on everything else it waits. *)
From S2P Require Import Prelude TimePoint TcpBuffer HttpRequest HttpParser.
Open Scope nat_scope.

(** * The grammar *)

(** What a CRLF may end: a CR by itself belongs to the line. *)
Definition a_line (line : bytes) : Prop := crlf_index (line ++ [CR]) = None.

(** [spaces* method spaces+ path spaces+ version spaces*] *)
Definition request_line (line : bytes) (x : HttpMethodType) (path : bytes) (y : HttpVersionType) : Prop :=
  exists n1 method n2 n3 version n4,
    line = render_request_line n1 method n2 path n3 version n4 /\
    method_name x = Some method /\ version_name y = Some version /\ path <> [] /\ (SP ∉ path).

(** The header lines up to the empty one, the fields they add to [m], and what follows
    the empty line. *)
Inductive reads_headers : gmap bytes bytes -> bytes -> gmap bytes bytes -> bytes -> Prop :=
| headers_end m l : reads_headers m (crlf ++ l) m l
| headers_line m line key value l m' rest :
    a_line line -> line <> [] -> header_of_line line = Some (key, value) ->
    reads_headers (<[key := value]> m) l m' rest ->
    reads_headers m (line ++ crlf ++ l) m' rest.

(** Header lines that no further byte can mend: one without a name or a colon, or, in a
    POST, a [Content-Length] that is not a number. *)
Inductive bad_headers (x : HttpMethodType) : gmap bytes bytes -> bytes -> Prop :=
| bad_line m line l :
    a_line line -> line <> [] -> header_of_line line = None -> bad_headers x m (line ++ crlf ++ l)
| bad_length m value l :
    x = POST -> m !! CONTENT_LENGTH = Some value -> (strtol value).2 = false ->
    bad_headers x m (crlf ++ l)
| bad_after m line key value l :
    a_line line -> line <> [] -> header_of_line line = Some (key, value) ->
    bad_headers x (<[key := value]> m) l -> bad_headers x m (line ++ crlf ++ l).

(** A request at the beginning of the bytes, and what follows it. *)
Inductive reads_request (ts : TimePoint.t) : bytes -> HttpRequest -> bytes -> Prop :=
| a_request line x path y l m body rest :
    a_line line -> request_line line x path y -> reads_headers ∅ l m (body ++ rest) ->
    body_announced x m (length body) ->
    reads_request ts (line ++ crlf ++ l)
      (mkRequest x path y ts m (bool_decide (m !! CONNECTION = Some (str "close"))) body) rest.

Definition bad_first_line (l : bytes) : Prop :=
  exists line tail, l = line ++ crlf ++ tail /\ a_line line /\ forall x path y, ~ request_line line x path y.

(** Bytes that are not the beginning of any request. *)
Inductive rejected : bytes -> Prop :=
| rejected_line l : bad_first_line l -> rejected l
| rejected_headers line x path y l :
    a_line line -> request_line line x path y -> bad_headers x ∅ l -> rejected (line ++ crlf ++ l).

(** * Lines *)
Lemma a_line_index line l : a_line line -> crlf_index (line ++ crlf ++ l) = Some (length line).
Proof.
  unfold a_line. induction line as [| c [| d line] IH]; [done | |].
  - intros _. change ([c] ++ crlf ++ l) with (c :: CR :: LF :: l).
    rewrite TcpBuffer.crlf_index_cons, decide_False by (intros [_ [=]]). done.
  - intros H. change ((c :: d :: line) ++ [CR]) with (c :: d :: (line ++ [CR])) in H.
    change ((c :: d :: line) ++ crlf ++ l) with (c :: d :: (line ++ crlf ++ l)).
    rewrite TcpBuffer.crlf_index_cons in *. case_decide; [done |].
    change (d :: line ++ crlf ++ l) with ((d :: line) ++ crlf ++ l).
    rewrite IH; [done |]. change ((d :: line) ++ [CR]) with (d :: line ++ [CR]).
    by destruct (crlf_index (d :: line ++ [CR])).
Qed.

Lemma index_a_line l k :
  crlf_index l = Some k ->
  l = take k l ++ crlf ++ drop (k + 2) l /\ a_line (take k l) /\ length (take k l) = k.
Proof.
  intros (H1 & H2 & H3)%crlf_index_some. split; [done |]. split; [done |]. rewrite length_take. lia.
Qed.

Lemma drop_line line l : drop (length line + 2) (line ++ crlf ++ l) = l.
Proof. rewrite (app_assoc line crlf). apply drop_app_length'. rewrite length_app. simpl. lia. Qed.

(** * Headers *)
Definition with_headers (m : gmap bytes bytes) (p : HttpParser) : HttpParser :=
  with_request (set_headers m (_request p)) p.

Lemma with_headers_id p : with_headers (_headers (_request p)) p = p.
Proof. by destruct p as [s n []]. Qed.

(** One line of the loop. *)
Lemma headers_next fuel p line l ts :
  a_line line -> line <> [] ->
  parse_headers (S fuel) p (line ++ crlf ++ l) ts
  = match header_of_line line with
    | None => Ok (Some false, with_state FAIL p, line ++ crlf ++ l)
    | Some (key, value) => parse_headers fuel (with_headers (<[key := value]> (_headers (_request p))) p) l ts
    end.
Proof.
  intros Ha Hne. rewrite parse_headers_unfold, a_line_index by done.
  destruct (length line) as [| e] eqn:El; [by apply length_zero_iff_nil in El |].
  rewrite <- El, take_app_length, drop_line. by destruct (header_of_line line) as [[] |].
Qed.

Lemma headers_complete m l m' rest fuel p ts :
  reads_headers m l m' rest -> length l < fuel -> _headers (_request p) = m ->
  parse_headers fuel p l ts = Ok (headers_finished (with_headers m' p) ts, rest).
Proof.
  intros H. revert fuel p. induction H as [m l | m line key value l m' rest Ha Hne Hh _ IH];
    intros [| fuel] p Hf Hm; try lia.
  - rewrite parse_headers_unfold. simpl. subst m. by rewrite with_headers_id.
  - rewrite headers_next, Hh by done. rewrite !length_app in Hf.
    rewrite IH; [| simpl in Hf; lia | by rewrite <- Hm].
    by destruct p as [s n []].
Qed.

Lemma bad_headers_complete x m l fuel p ts :
  bad_headers x m l -> length l < fuel -> _headers (_request p) = m -> _method (_request p) = x ->
  exists p' l', parse_headers fuel p l ts = Ok (Some false, p', l') /\ _parsing_state p' = FAIL.
Proof.
  intros H. revert fuel p. induction H as [m line l Ha Hne Hh | m value l Hx Hv Hn | m line key value l Ha Hne Hh _ IH];
    intros [| fuel] p Hf Hm Hp; try lia.
  - rewrite headers_next, Hh by done. eauto.
  - rewrite parse_headers_unfold. simpl. unfold headers_finished. rewrite Hm, Hv. simpl.
    rewrite decide_True by congruence. destruct (strtol value) as [n b]. simpl in Hn. subst b. eauto.
  - rewrite headers_next, Hh by done. rewrite !length_app in Hf. apply IH; [simpl in Hf; lia | by rewrite <- Hm | done].
Qed.

Lemma bad_length_after x m l m' rest value :
  reads_headers m l m' rest -> x = POST -> m' !! CONTENT_LENGTH = Some value ->
  (strtol value).2 = false -> bad_headers x m l.
Proof.
  intros H Hx Hv Hn. induction H as [m l | m line key value' l m' rest Ha Hne Hh _ IH].
  - by eapply bad_length.
  - by eapply bad_after, IH.
Qed.

(** What the loop comes to, whatever the bytes. *)
Lemma headers_sound fuel p l ts :
  length l < fuel ->
  (exists m rest, reads_headers (_headers (_request p)) l m rest /\
     parse_headers fuel p l ts = Ok (headers_finished (with_headers m p) ts, rest)) \/
  (exists p' l', parse_headers fuel p l ts = Ok (Some false, p', l') /\ _parsing_state p' = FAIL /\
     bad_headers (_method (_request p)) (_headers (_request p)) l) \/
  (exists p' l', parse_headers fuel p l ts = Ok (Some true, p', l') /\
     _parsing_state p' = _parsing_state p).
Proof.
  revert p l. induction fuel as [| fuel IH]; intros p l Hf; [lia |].
  destruct (crlf_index l) as [k |] eqn:Ek.
  2: { right. right. rewrite parse_headers_unfold, Ek. eauto. }
  destruct (index_a_line _ _ Ek) as (El & Ha & Hk). set (line := take k l) in *.
  set (tail := drop (k + 2) l) in *. clearbody line tail. subst l.
  destruct (decide (line = [])) as [-> | Hne].
  { left. exists (_headers (_request p)), tail. split; [apply headers_end |].
    by rewrite parse_headers_unfold, with_headers_id. }
  rewrite headers_next by done. rewrite !length_app in Hf. change (length crlf) with 2 in Hf.
  destruct (header_of_line line) as [[key value] |] eqn:Eh.
  2: { right. left. do 2 eexists. split; [done |]. split; [done | by apply bad_line]. }
  destruct (IH (with_headers (<[key := value]> (_headers (_request p))) p) tail) as
    [(m & rest & Hr & E) | [(p' & l' & E & Hp & Hbad) | (p' & l' & E & Hp)]]; [lia | ..].
  - left. exists m, rest. split; [by eapply headers_line |]. rewrite E. by destruct p as [s n []].
  - right. left. exists p', l'. split; [done |]. split; [done | by eapply bad_after].
  - right. right. exists p', l'. by split.
Qed.

(** * The body *)

(** What follows the empty line: the request is there, or can never be, or is yet to
    come. *)
Lemma body_sound p rest ts :
  _parsing_state p = EXPECT_HEADERS -> _body (_request p) = [] ->
  let outcome :=
    let '(ret, p) := headers_finished p ts in
    match ret with
    | Some b => Ok (b, p, rest)
    | None => match _parsing_state p with EXPECT_BODY => parse_body p rest ts | _ => Err Fatal end
    end in
  (exists body rest', rest = body ++ rest' /\
     body_announced (_method (_request p)) (_headers (_request p)) (length body)) \/
  (exists p', outcome = Ok (false, p', rest) /\ _parsing_state p' = FAIL /\
     exists value, _method (_request p) = POST /\ _headers (_request p) !! CONTENT_LENGTH = Some value /\
       (strtol value).2 = false) \/
  (exists p', outcome = Ok (true, p', rest) /\ finished p' = false).
Proof.
  intros Es Hb0. cbv zeta. unfold headers_finished, body_announced.
  destruct (_headers (_request p) !! CONTENT_LENGTH) as [v |]; [| by left; exists [], rest].
  simpl. case_decide as Hm; [| by left; exists [], rest].
  destruct (strtol v) as [n any] eqn:Ev. cbn [fst snd]. destruct any; cbn [negb].
  2: { right. left. eexists. split; [done |]. split; [done |]. exists v. by rewrite Ev. }
  cbn [_body_length]. pose proof (u64_range n) as Hu. destruct (Z.eqb_spec (u64 n) 0) as [E0 | E0].
  { left. exists [], rest. simpl. by rewrite E0. }
  destruct (Z.ltb_spec (Z.of_nat (length rest)) (u64 n)) as [Hlt | Hge].
  - right. right. cbn [_parsing_state with_state]. unfold parse_body.
    cbn [get_readable_size bytes_read_buffer _body_length with_state].
    rewrite (proj2 (Z.ltb_lt _ _)) by done. eexists. split; [done |]. done.
  - left. exists (take (Z.to_nat (u64 n)) rest), (drop (Z.to_nat (u64 n)) rest).
    rewrite take_drop, length_take, Nat.min_l by lia. split; [done |]. split; [done | lia].
Qed.

(** From the headers on: complete requests, ... *)
Definition request_read (x : HttpMethodType) (path : bytes) (y : HttpVersionType) (m : gmap bytes bytes)
    (body : bytes) (ts : TimePoint.t) : HttpRequest :=
  mkRequest x path y ts m (bool_decide (m !! CONNECTION = Some (str "close"))) body.

Lemma rest_complete x path y l m body rest ts :
  reads_headers ∅ l m (body ++ rest) -> body_announced x m (length body) ->
  exists p, parse_rest (after_line x path y) l ts = Ok (true, p, rest) /\
    get_request p = Ok (request_read x path y m body ts).
Proof.
  intros Hr Hb. rewrite parse_rest_headers by done.
  rewrite (headers_complete _ _ _ _ _ (after_line x path y) ts Hr) by (done || lia).
  destruct (headers_then_body (with_headers m (after_line x path y)) rest body ts) as [n Hn]; [done .. |].
  cbv zeta in Hn. destruct (headers_finished _ ts) as [ret p2]. cbn [mbind result_bind]. rewrite Hn.
  eexists. split; [done |]. done.
Qed.

(** ... inputs that cannot become one, ... *)
Lemma rest_rejects x path y l ts :
  bad_headers x ∅ l ->
  exists p l', parse_rest (after_line x path y) l ts = Ok (false, p, l') /\ _parsing_state p = FAIL.
Proof.
  intros Hb. rewrite parse_rest_headers by done.
  destruct (bad_headers_complete x ∅ l (S (length l)) (after_line x path y) ts Hb) as (p & l' & E & Hp);
    [lia | done | done |].
  exists p, l'. by rewrite E.
Qed.

(** ... and there is nothing else than these, but to wait. *)
Lemma rest_sound x path y l ts :
  (exists m body rest, reads_headers ∅ l m (body ++ rest) /\ body_announced x m (length body)) \/
  bad_headers x ∅ l \/
  (exists p l', parse_rest (after_line x path y) l ts = Ok (true, p, l') /\ finished p = false).
Proof.
  rewrite parse_rest_headers by done.
  destruct (headers_sound (S (length l)) (after_line x path y) l ts) as
    [(m & rest & Hr & E) | [(p' & l' & E & Hp & Hbad) | (p' & l' & E & Hp)]]; [lia | ..].
  - destruct (body_sound (with_headers m (after_line x path y)) rest ts) as
      [(body & rest' & -> & Hb) | [(p' & Eb & Hp & v & Hx & Hv & Hn) | (p' & Eb & Hp)]]; [done | done | ..].
    + left. by exists m, body, rest'.
    + right. left. by eapply bad_length_after.
    + right. right. rewrite E. destruct (headers_finished _ ts) as [ret p2]. cbn [mbind result_bind].
      exists p', rest. by rewrite Eb.
  - by right; left.
  - right. right. rewrite E. exists p', l'. split; [done |]. unfold finished. by rewrite Hp.
Qed.

(** * The request line *)
Lemma line_accepted line x path y l ts :
  a_line line -> request_line line x path y ->
  parse new_HttpParser (line ++ crlf ++ l) ts = parse_rest (after_line x path y) l ts.
Proof.
  intros Ha (n1 & method & n2 & n3 & version & n4 & -> & Hx & Hy & Hp0 & Hp).
  pose proof (request_line_accepted n1 x method n2 path n3 y version n4 (crlf ++ l)
                (_request new_HttpParser) Hx Hy Hp0 Hp) as Hacc. cbv zeta in Hacc.
  set (line := render_request_line _ _ _ _ _ _ _) in *.
  unfold parse. cbn [new_HttpParser _parsing_state get_next_crlf_position bytes_read_buffer].
  rewrite a_line_index by done. change (@readable bytes bytes_read_buffer ?l) with l.
  cbn [mbind result_bind]. rewrite Hacc. cbn [mbind result_bind negb].
  unfold forward_read_position. cbn [bytes_read_buffer]. by rewrite Nat2Z.id, drop_line.
Qed.

Lemma line_refused line l ts :
  a_line line -> (forall x path y, ~ request_line line x path y) ->
  match parse new_HttpParser (line ++ crlf ++ l) ts with
  | Ok (verdict, p, _) => verdict = false /\ _parsing_state p = FAIL
  | Err _ => True
  end.
Proof.
  intros Ha Hno. unfold parse.
  cbn [new_HttpParser _parsing_state get_next_crlf_position bytes_read_buffer].
  rewrite a_line_index by done. change (@readable bytes bytes_read_buffer ?l) with l.
  cbn [mbind result_bind]. change (line ++ crlf ++ l) with (line ++ CR :: (LF :: l)).
  destruct (parse_request_line _ _ _) as [[[] r] |] eqn:E; cbn [mbind result_bind negb]; [| done | done].
  apply request_line_sound in E as (n1 & x & method & n2 & path & n3 & y & version & n4 & E).
  destruct (Hno x path y). exists n1, method, n2, n3, version, n4. naive_solver.
Qed.

(** The parser itself tells whether a line is a request line. *)
Lemma request_line_decided line :
  (exists x path y, request_line line x path y) \/ (forall x path y, ~ request_line line x path y).
Proof.
  destruct (parse_request_line (line ++ [CR]) (length line) new_HttpRequest) as [[[] r] |] eqn:E.
  1: { left. apply request_line_sound in E as (n1 & x & method & n2 & path & n3 & y & version & n4 & E).
       exists x, path, y, n1, method, n2, n3, version, n4. naive_solver. }
  all: right; intros x path y (n1 & method & n2 & n3 & version & n4 & -> & Hx & Hy & Hp0 & Hp);
    pose proof (request_line_accepted n1 x method n2 path n3 y version n4 [CR] new_HttpRequest Hx Hy Hp0 Hp) as Ha;
    cbv zeta in Ha; congruence.
Qed.

(** The parser on bytes: what it answers, and only that. *)
Lemma parse_sound l ts :
  match parse new_HttpParser l ts with
  | Ok (true, p, rest) =>
      finished p = false \/ exists r, reads_request ts l r rest /\ get_request p = Ok r
  | Ok (false, p, _) => _parsing_state p = FAIL /\ rejected l
  | Err _ => bad_first_line l
  end.
Proof.
  destruct (crlf_index l) as [k |] eqn:Ek.
  2: { unfold parse. cbn [new_HttpParser _parsing_state get_next_crlf_position bytes_read_buffer].
       rewrite Ek. by left. }
  destruct (index_a_line _ _ Ek) as (El & Ha & Hk). set (line := take k l) in *.
  set (tail := drop (k + 2) l) in *. clearbody line tail. subst l.
  destruct (request_line_decided line) as [(x & path & y & Hline) | Hno].
  - rewrite (line_accepted line x path y) by done.
    destruct (rest_sound x path y tail ts) as [(m & body & rest & Hr & Hb) | [Hbad | (p & l' & -> & Hp)]].
    + destruct (rest_complete x path y _ _ _ _ ts Hr Hb) as (p & -> & Hp). right.
      eexists. split; [by econstructor | exact Hp].
    + destruct (rest_rejects x path y _ ts Hbad) as (p & l' & -> & Hp). split; [done |].
      by eapply rejected_headers.
    + by left.
  - pose proof (line_refused line tail ts Ha Hno) as Hr.
    assert (Hbad : bad_first_line (line ++ crlf ++ tail)) by by exists line, tail.
    destruct (parse _ _ ts) as [[[[] p] l'] | e]; [by destruct Hr | | done].
    split; [apply Hr | by apply rejected_line].
Qed.

Lemma parse_complete l ts r rest :
  reads_request ts l r rest ->
  exists p, parse new_HttpParser l ts = Ok (true, p, rest) /\ get_request p = Ok r.
Proof.
  intros [line x path y tail m body rest' Ha Hline Hr Hb].
  rewrite (line_accepted line x path y) by done. by apply rest_complete.
Qed.

Lemma parse_rejects l ts :
  rejected l ->
  match parse new_HttpParser l ts with
  | Ok (verdict, p, _) => verdict = false /\ _parsing_state p = FAIL
  | Err _ => bad_first_line l
  end.
Proof.
  intros [l' (line & tail & -> & Ha & Hno) | line x path y tail Ha Hline Hbad].
  - pose proof (line_refused line tail ts Ha Hno) as Hr.
    destruct (parse _ _ ts) as [[[v p] l'] | e]; [done |]. by exists line, tail.
  - rewrite (line_accepted line x path y) by done.
    by destruct (rest_rejects x path y _ ts Hbad) as (p & l' & -> & Hp).
Qed.

(** * The parser on a buffer *)
Section Decides.
Set Default Proof Using "Type*".
Context {B : Type} `{ReadBuffer B} `{!ReadBufferLaws B}.

(** What the parser does on a lawful buffer, from what it does on its bytes. *)
Lemma parse_new_on_bytes (b : B) ts :
  b_ok b ->
  match parse new_HttpParser b ts, parse new_HttpParser (readable b) ts with
  | Ok (v, p, b'), Ok (v', p', l) => v = v' /\ p = p' /\ b_ok b' /\ readable b' = l
  | Err e, Err e' => e = e'
  | _, _ => False
  end.
Proof. intros Hb. by apply (parse_on_bytes new_HttpParser b ts Hb). Qed.

(** C9: A new parser decides the grammar of requests, on any lawful buffer (a TCP buffer
    in use, in particular).  It succeeds with a request exactly when the bytes begin
    with that request - its method, path, version and header fields (the last one of a
    name wins), whether it asks for the connection to be closed, a body exactly as long
    as a POST announces - and then leaves exactly the bytes that follow.  It rejects
    only inputs that cannot become a request, whatever comes: a first line that is not a
    request line, a header line without a name or a colon, or a POST whose
    [Content-Length] has no digits; and it never fails to reject one, except that a bad
    first line may also run into a range or a read that C++ does not allow.  In all
    other cases it waits for more bytes.  It fails in no other way. *)
Theorem parse_decides (b : B) ts (Hb : b_ok b) :
  (forall r rest,
     (exists p b', parse new_HttpParser b ts = Ok (true, p, b') /\ get_request p = Ok r /\
                   b_ok b' /\ readable b' = rest) <->
     reads_request ts (readable b) r rest) /\
  match parse new_HttpParser b ts with
  | Ok (true, p, _) => _parsing_state p <> FAIL /\ ~ rejected (readable b)
  | Ok (false, p, _) => _parsing_state p = FAIL /\ rejected (readable b)
  | Err _ => bad_first_line (readable b)
  end.
Proof.
  pose proof (parse_new_on_bytes b ts Hb) as Hsame. pose proof (parse_sound (readable b) ts) as Hsound.
  pose proof (parse_rejects (readable b) ts) as Hrej. split.
  - intros r rest. split.
    + intros (p & b' & E & Hp & Hb' & <-). rewrite E in Hsame.
      destruct (parse new_HttpParser (readable b) ts) as [[[v p'] l] |]; [| done].
      destruct Hsame as (<- & <- & _ & <-). destruct Hsound as [Hf | (r' & Hr & Hp')].
      * unfold get_request, is_success in Hp. case_bool_decide as Hs; [| done].
        unfold finished in Hf. by rewrite Hs in Hf.
      * rewrite Hp in Hp'. by injection Hp' as ->.
    + intros Hr. destruct (parse_complete _ _ _ _ Hr) as (p & E & Hp). rewrite E in Hsame.
      destruct (parse new_HttpParser b ts) as [[[v p'] b'] |]; [| done].
      destruct Hsame as (-> & -> & ? & ?). exists p, b'. by split.
  - destruct (parse new_HttpParser b ts) as [[[v p] b'] | e];
      destruct (parse new_HttpParser (readable b) ts) as [[[v' p'] l'] | e']; try done.
    destruct Hsame as (-> & -> & _). destruct v'; [| done]. split.
    + destruct Hsound as [Hf | (r & _ & Hp)]; intros Hs.
      * unfold finished in Hf. by rewrite Hs in Hf.
      * unfold get_request, is_success in Hp. by rewrite Hs in Hp.
    + intros Hr. by destruct (Hrej Hr).
Qed.
End Decides.

(** * Samples *)

(** A request in a TCP buffer whose first three bytes were read before, the beginning of
    the next one after it. *)
Definition sample_buffer (l : bytes) : TcpBuffer.t :=
  TcpBuffer.mk (str "xyz" ++ l) (100 + length l) 2 (Some 2) 3 (3 + length l).

Lemma sample_buffer_ok l : (length l < 1000) -> b_ok (sample_buffer l) /\ readable (sample_buffer l) = l.
Proof.
  intros Hl. split; [split; simpl; try done; lia |].
  unfold readable. simpl. unfold TcpBuffer.contents, slice. simpl.
  apply take_ge. lia.
Qed.

Definition sample_request_text : bytes :=
  str "POST /a HTTP/1.1" ++ crlf ++ str "Content-Length: 2" ++ crlf ++ crlf ++ str "hi".

(** Read, waiting for its last byte, and rejected. *)
Lemma parse_decides_witness :
  (exists r, reads_request sample_time (sample_request_text ++ str "GE") r (str "GE") /\
     HttpRequest._body r = str "hi" /\ _path r = str "/a") /\
  (forall r rest, ~ reads_request sample_time (take 39 sample_request_text) r rest) /\
  ~ rejected (take 39 sample_request_text) /\
  rejected (str "GET /a HTTP/1.1" ++ crlf ++ str "no colon" ++ crlf).
Proof.
  destruct (sample_buffer_ok (sample_request_text ++ str "GE")) as [Hb1 Hr1]; [vm_compute; lia |].
  destruct (sample_buffer_ok (take 39 sample_request_text)) as [Hb2 Hr2]; [vm_compute; lia |].
  destruct (sample_buffer_ok (str "GET /a HTTP/1.1" ++ crlf ++ str "no colon" ++ crlf)) as [Hb3 Hr3]; [vm_compute; lia |].
  destruct (parse_decides _ sample_time Hb1) as [H1 _].
  destruct (parse_decides _ sample_time Hb2) as [H2 H2'].
  destruct (parse_decides _ sample_time Hb3) as [_ H3].
  rewrite Hr1 in H1. rewrite Hr2 in H2, H2'. rewrite Hr3 in H3. split; [| split; [| split]].
  - destruct (parse new_HttpParser (sample_buffer (sample_request_text ++ str "GE")) sample_time)
      as [[[[] p] b] |] eqn:E; vm_compute in E; try discriminate E.
    exists (_request p). split; [| injection E as <- <-; split; reflexivity].
    apply H1. exists p, b. injection E as <- <-. split; [reflexivity |]. split; [reflexivity |].
    split; [split; simpl; try done; lia | reflexivity].
  - intros r rest Hr. apply H2 in Hr as (p & b & E & Hp & _). vm_compute in E. injection E as <- <-.
    discriminate Hp.
  - destruct (parse new_HttpParser (sample_buffer (take 39 sample_request_text)) sample_time)
      as [[[[] p] b] |] eqn:E; vm_compute in E; try discriminate E. apply H2'.
  - destruct (parse new_HttpParser (sample_buffer (str "GET /a HTTP/1.1" ++ crlf ++ str "no colon" ++ crlf)) sample_time)
      as [[[[] p] b] |] eqn:E; vm_compute in E; try discriminate E. apply H3.
Defined.
