(* ===== verification/TcpConnectSocketfd.v ===== *)
(** TCP connections: [src/tcp_connect_socketfd.cc] and its header.

    A connection is modelled inside the thread of its event loop (where every
    operation but the construction runs), together with the poller of that loop
    and the kernel.  [outside] is whatever the callbacks of the server and of the
    user keep for themselves; [context] is the user's [util::Any].  The system
    calls on the socket are the class [Socket]. *)
From S2P Require Import Prelude TimePoint TcpBuffer Poller.
Open Scope nat_scope.

(** * The kernel *)
Inductive recv_result := RecvData (data : bytes) | RecvEof | RecvAgain | RecvError.
Inductive send_result := Sent (n : nat) | SendAgain | SendPipe | SendError.
Inductive shutdown_result := ShutdownDone | NotConnected | ShutdownError.

(** [accepted]: the bytes the kernel has taken for the peer so far.
    [set_linger] fails with [None]; [get_socketfd_errno] reads and clears the
    pending error of the socket.  [send_patience] is not the kernel's but the
    model's: how many failures of [send(2)] inside one call of the code's sending
    loop, which retries for ever, the loop is followed through.  It is any number. *)
Class Socket (K : Type) := {
  send_patience : nat;
  sys_recv : K -> Z -> nat -> recv_result * K;
  sys_send : K -> Z -> bytes -> send_result * K;
  sys_shutdown_write : K -> Z -> shutdown_result * K;
  set_linger : K -> Z -> option K;
  get_socketfd_errno : K -> Z -> K;
  accepted : K -> Z -> bytes
}.

Record callbacks (C : Type) := mkCallbacks {
  _message_callback : option (TimePoint.t -> C -> result C);
  _write_complete_callback : option (C -> result C);
  _close_callback : option (C -> result C)
}.
Arguments mkCallbacks {C}.
Arguments _message_callback {C}.
Arguments _write_complete_callback {C}.
Arguments _close_callback {C}.

Record TcpConnectSocketfd (K X U : Type) := mkConn {
  _pollable_file_descriptor : PollableFd;
  _loop : EventPoller K;
  _input_buffer : TcpBuffer.t;
  _output_buffer : TcpBuffer.t;
  context : option X;
  _is_write_end_shutdown : bool;
  _is_reset : bool;
  _is_abotrted : bool;
  outside : U
}.
Arguments mkConn {K X U}.
Arguments _pollable_file_descriptor {K X U}.
Arguments _loop {K X U}.
Arguments _input_buffer {K X U}.
Arguments _output_buffer {K X U}.
Arguments context {K X U}.
Arguments _is_write_end_shutdown {K X U}.
Arguments _is_reset {K X U}.
Arguments _is_abotrted {K X U}.
Arguments outside {K X U}.

Section Connection.
Context {K X U : Type} `{Epoll K} `{Socket K} {strings : StringAllocator}.
Abbreviation conn := (TcpConnectSocketfd K X U).

Definition with_descriptor (s : PollableFd * EventPoller K) (c : conn) : conn :=
  mkConn s.1 s.2 (_input_buffer c) (_output_buffer c) (context c) (_is_write_end_shutdown c)
    (_is_reset c) (_is_abotrted c) (outside c).
Definition with_input (b : TcpBuffer.t) (c : conn) : conn :=
  mkConn (_pollable_file_descriptor c) (_loop c) b (_output_buffer c) (context c)
    (_is_write_end_shutdown c) (_is_reset c) (_is_abotrted c) (outside c).
Definition with_output (b : TcpBuffer.t) (c : conn) : conn :=
  mkConn (_pollable_file_descriptor c) (_loop c) (_input_buffer c) b (context c)
    (_is_write_end_shutdown c) (_is_reset c) (_is_abotrted c) (outside c).
Definition clear_context (c : conn) : conn :=
  mkConn (_pollable_file_descriptor c) (_loop c) (_input_buffer c) (_output_buffer c) None
    (_is_write_end_shutdown c) (_is_reset c) (_is_abotrted c) (outside c).
Definition with_marks (shut reset aborted : bool) (c : conn) : conn :=
  mkConn (_pollable_file_descriptor c) (_loop c) (_input_buffer c) (_output_buffer c) (context c)
    shut reset aborted (outside c).
Definition with_outside (u : U) (c : conn) : conn :=
  mkConn (_pollable_file_descriptor c) (_loop c) (_input_buffer c) (_output_buffer c) (context c)
    (_is_write_end_shutdown c) (_is_reset c) (_is_abotrted c) u.

Definition fd_of (c : conn) : Z := _fd (_pollable_file_descriptor c).
Definition kernel_of (c : conn) : K := kernel (_loop c).
Definition with_kernel (k : K) (c : conn) : conn :=
  with_descriptor
    (_pollable_file_descriptor c,
     mkPoller k (_fds_that_are_listening_on (_loop c))
       (_number_of_fds_that_are_listening_on (_loop c))) c.

Definition is_reading (c : conn) : bool := _is_reading (_pollable_file_descriptor c).
Definition is_writing (c : conn) : bool := _is_writing (_pollable_file_descriptor c).
Definition is_stopped (c : conn) : bool := _is_detached (_pollable_file_descriptor c).

(** An operation of the descriptor, run by its connection. *)
Definition descriptor (f : PollableFd * EventPoller K -> result (PollableFd * EventPoller K)) (c : conn)
    : result conn :=
  let* s := f (_pollable_file_descriptor c, _loop c) in Ok (with_descriptor s c).

Definition invoke (callback : option (conn -> result conn)) (c : conn) : result conn :=
  match callback with Some f => f c | None => Ok c end.

(** The constructor; the descriptor is edge-triggered. *)
Definition new_TcpConnectSocketfd (self fd : Z) (loop : EventPoller K) (u : U)
    : result conn :=
  let* d := new_PollableFd self fd true in
  Ok (mkConn d loop (TcpBuffer.new 0) (TcpBuffer.new 0) None false false false u).

(** The destructor: the descriptor is closed unless a reset already did. *)
Definition delete_TcpConnectSocketfd (c : conn) : result conn :=
  if negb (_is_reset c) then descriptor close_fd c else Ok c.

Section Callbacks.
Context (cb : callbacks conn).

Definition reset_connection (c : conn) : result conn :=
  if _is_reset c then Err Fatal
  else
    let* c := invoke (_close_callback cb) c in
    match set_linger (kernel_of c) (fd_of c) with
    | None => Err Fatal
    | Some k =>
        let* c := descriptor close_fd (with_kernel k c) in
        let c := with_input (TcpBuffer.release (_input_buffer c)) c in
        let c := with_output (TcpBuffer.release (_output_buffer c)) c in
        Ok (with_marks true true (_is_abotrted c) (clear_context c))
    end.

Definition abort_from_event_loop (c : conn) : result conn :=
  if _is_abotrted c then Err Fatal
  else
    let* c := descriptor detach_from_poller c in
    let* c := reset_connection c in
    Ok (with_marks (_is_write_end_shutdown c) (_is_reset c) true c).

Definition _close_event_callback (c : conn) : result conn :=
  let* c := descriptor detach_from_poller c in invoke (_close_callback cb) c.

Definition _error_event_callback (c : conn) : conn :=
  with_kernel (get_socketfd_errno (kernel_of c) (fd_of c)) c.

(** [_check_and_abort_impl] with the value of the predicate. *)
Definition _check_and_abort_impl (predicate : conn -> bool) (c : conn) : result conn :=
  if predicate c then abort_from_event_loop c else Ok c.

(** What follows a successful [::shutdown], and a failure other than
    [ENOTCONN]. *)
Definition finish_shutdown (c : conn) : result conn :=
  let* c := descriptor disable_write_event c in
  let* c := invoke (_write_complete_callback cb) c in
  let c := with_output (TcpBuffer.release (_output_buffer c)) c in
  let c := clear_context c in
  Ok (with_marks true (_is_reset c) (_is_abotrted c) c).

Definition shutdown_write (c : conn) : result conn :=
  if _is_write_end_shutdown c then Ok c
  else
    let '(r, k) := sys_shutdown_write (kernel_of c) (fd_of c) in
    let c := with_kernel k c in
    match r with
    | NotConnected => abort_from_event_loop c
    | ShutdownError => let* c := _close_event_callback c in finish_shutdown c
    | ShutdownDone => finish_shutdown c
    end.

(** The loop of [_send_as_many_data]: the bytes sent, [total] of which before. *)
Fixpoint send_loop (fuel : nat) (data : bytes) (total : nat) (c : conn) : result (nat * conn) :=
  if length data <=? total then Ok (total, c)
  else
    match fuel with
    | O => Err OutOfFuel
    | S fuel =>
        let '(r, k) := sys_send (kernel_of c) (fd_of c) (drop total data) in
        let c := with_kernel k c in
        match r with
        | Sent n => send_loop fuel data (total + n) c
        | SendAgain => Ok (total, c)
        | SendPipe => let* c := abort_from_event_loop c in Ok (length data, c)
        | SendError => send_loop fuel data total (_error_event_callback c)
        end
    end.

Definition _send_as_many_data (fuel : nat) (data : bytes) (c : conn) : result (nat * conn) :=
  if length data =? 0 then Ok (0, c) else send_loop fuel data 0 c.

(** One iteration per byte, and one per failure that is followed through. *)
Definition send_fuel (data : bytes) : nat := length data + send_patience.

(** How many times the kernel, from the state [k] on, answers the loop with an
    error that makes it try again. *)
Fixpoint send_errors (fuel : nat) (data : bytes) (total : nat) (k : K) (fd : Z) : nat :=
  if length data <=? total then 0
  else
    match fuel with
    | O => 0
    | S fuel =>
        let '(r, k) := sys_send k fd (drop total data) in
        match r with
        | Sent n => send_errors fuel data (total + n) k fd
        | SendError => S (send_errors fuel data total (get_socketfd_errno k fd) fd)
        | _ => 0
        end
    end.

(** The kernel fails the sending of [data] more often than it is followed. *)
Definition out_of_patience (data : bytes) (k : K) (fd : Z) : Prop :=
  send_patience < send_errors (send_fuel data) data 0 k fd.

(** ... of some data, at some time. *)
Definition stubborn (fd : Z) : Prop := exists data k, out_of_patience data k fd.

Definition send (data : bytes) (c : conn) : result conn :=
  if is_stopped c then Ok c
  else if is_writing c then
    let* b := TcpBuffer.append data (_output_buffer c) in Ok (with_output b c)
  else
    let* (n, c) := _send_as_many_data (send_fuel data) data c in
    if n =? length data then invoke (_write_complete_callback cb) c
    else
      let* b := TcpBuffer.append (drop n data) (_output_buffer c) in
      descriptor enable_write_event (with_output b c).

Definition _RECEIVE_DATA_SIZE : nat := 4096.

(** [_receive_all_data], and the number of bytes read. *)
Fixpoint _receive_all_data (fuel : nat) (total : nat) (c : conn) : result (nat * conn) :=
  match fuel with
  | O => Err OutOfFuel
  | S fuel =>
      let '(r, k) := sys_recv (kernel_of c) (fd_of c) _RECEIVE_DATA_SIZE in
      let c := with_kernel k c in
      match r with
      | RecvData data =>
          let* b := TcpBuffer.append data (_input_buffer c) in
          _receive_all_data fuel (total + length data) (with_input b c)
      | RecvEof => let* c := descriptor disable_read_event c in Ok (total, c)
      | RecvAgain => Ok (total, c)
      | RecvError => _receive_all_data fuel total (_error_event_callback c)
      end
  end.

Definition _read_event_callback (fuel : nat) (time_stamp : TimePoint.t) (c : conn) : result conn :=
  let* (total, c) := _receive_all_data fuel 0 c in
  let* c :=
    if total =? 0 then Ok c
    else match _message_callback cb with
         | Some f => f time_stamp c
         | None => Err Uncaught
         end in
  if is_reading c then Ok c
  else
    let c := with_input (TcpBuffer.release (_input_buffer c)) c in
    if negb (_is_write_end_shutdown c) && negb (is_writing c) then shutdown_write c else Ok c.

(** The pending bytes are offered to the kernel; what it took is dropped. *)
Definition flush_output (c : conn) : result (bool * conn) :=
  let data := TcpBuffer.contents (_output_buffer c) in
  if 0 <? TcpBuffer.get_readable_size (_output_buffer c) then
    let* (n, c) := _send_as_many_data (send_fuel data) data c in
    let c := with_output (TcpBuffer.forward_read_position (Z.of_nat n) (_output_buffer c)) c in
    Ok (negb (n <? length data), c)
  else Ok (true, c).

Definition _write_event_callback (c : conn) : result conn :=
  if is_stopped c then Ok c
  else if _is_write_end_shutdown c then Ok c
  else
    let* (flushed, c) := flush_output c in
    if negb flushed then Ok c
    else
      let* c := descriptor disable_write_event c in
      let* c := invoke (_write_complete_callback cb) c in
      if negb (is_reading c) && negb (is_writing c) then shutdown_write c else Ok c.

(** [start], in the thread of the loop. *)
Definition start (c : conn) : result conn :=
  if is_reading c then Ok c
  else match _message_callback cb with
       | None => Err Fatal
       | Some _ => descriptor enable_read_event c
       end.

(** The callbacks that [start] registers with the descriptor. *)
Definition event_handlers (fuel : nat) (time_stamp : TimePoint.t) : handlers conn :=
  mkHandlers (Some _close_event_callback) (Some (fun c => Ok (_error_event_callback c)))
    (Some (_read_event_callback fuel time_stamp)) (Some _write_event_callback).

(** The events of one poll, dispatched to a connection that is still alive. *)
Definition dispatch (fuel : nat) (time_stamp : TimePoint.t) (active_events : Z) (c : conn) : result conn :=
  dispatch_active_events (event_handlers fuel time_stamp) (Some true) active_events c.
End Callbacks.
End Connection.

(** * Laws of the kernel *)
Definition kept {K} `{Epoll K} (k k' : K) : Prop :=
  opened k' = opened k /\ interest k' = interest k.

(** Documented behaviour of the calls: none but [send] adds to what was
    accepted, a successful [send] takes a non-empty prefix of non-empty data,
    [recv] delivers at most what was asked for, and [setsockopt] succeeds on an
    open socket. *)
Class SocketLaws (K : Type) `{Epoll K} `{Socket K} : Prop := {
  recv_law k fd n r k' :
    sys_recv k fd n = (r, k') ->
    kept k k' /\ accepted k' fd = accepted k fd /\
    forall d, r = RecvData d -> 0 < length d <= n;
  send_law k fd d r k' :
    sys_send k fd d = (r, k') ->
    kept k k' /\
    match r with
    | Sent n => n <= length d /\ (d <> [] -> 0 < n) /\
                accepted k' fd = accepted k fd ++ take n d
    | _ => accepted k' fd = accepted k fd
    end;
  shutdown_law k fd r k' :
    sys_shutdown_write k fd = (r, k') -> kept k k' /\ accepted k' fd = accepted k fd;
  linger_law k fd :
    fd ∈ opened k ->
    exists k', set_linger k fd = Some k' /\ kept k k' /\ accepted k' fd = accepted k fd;
  errno_law k fd :
    kept k (get_socketfd_errno k fd) /\ accepted (get_socketfd_errno k fd) fd = accepted k fd;
  ctl_law k op fd' ev k' fd :
    epoll_ctl k op fd' ev = Some k' -> accepted k' fd = accepted k fd;
  close_law k fd k' : sys_close k fd = Some k' -> accepted k' fd = accepted k fd
}.

Section Laws.
Set Default Proof Using "Type*".
Context {K X U : Type} `{Epoll K} `{!EpollLaws K} `{Socket K} `{!SocketLaws K} {strings : StringAllocator}.
Abbreviation conn := (TcpConnectSocketfd K X U).

(** The descriptor agrees with the poller and the kernel. *)
Definition attached_ok (c : conn) : Prop :=
  mirror (_pollable_file_descriptor c, _loop c) /\ poller_ok (_loop c).

Definition buffer_ok (b : TcpBuffer.t) : Prop := TcpBuffer.wf b \/ TcpBuffer.released b.

(** The bytes handed to [send] that are not lost: accepted or pending. *)
Definition stream (c : conn) : bytes :=
  accepted (kernel_of c) (fd_of c) ++ TcpBuffer.contents (_output_buffer c).

(** A connection in the loop whose write end is open; it is writing whenever
    bytes are pending. *)
Record live (c : conn) : Prop := {
  live_attached : attached_ok c;
  live_running : is_stopped c = false;
  live_marks : (_is_write_end_shutdown c, _is_reset c, _is_abotrted c) = (false, false, false);
  live_input : buffer_ok (_input_buffer c);
  live_output : TcpBuffer.wf (_output_buffer c);
  live_idle : is_writing c = false -> TcpBuffer.contents (_output_buffer c) = []
}.

(** A connection after an abort: out of the loop, closed, resources dropped. *)
Record aborted (c : conn) : Prop := {
  ab_flags : flags (_pollable_file_descriptor c) = (false, false, true);
  ab_marks : (_is_write_end_shutdown c, _is_reset c, _is_abotrted c) = (true, true, true);
  ab_input : TcpBuffer.released (_input_buffer c);
  ab_output : TcpBuffer.released (_output_buffer c);
  ab_context : context c = None;
  ab_closed : fd_of c ∉ opened (kernel_of c);
  ab_unwatched : interest (kernel_of c) !! fd_of c = None
}.

(** What its destructor finds: a descriptor closed and unknown to the kernel, or
    one that is open and as the poller believes it to be. *)
Definition closable (c : conn) : Prop :=
  if _is_reset c then interest (kernel_of c) !! fd_of c = None else attached_ok c.

(** A callback that only touches its own state. *)
Definition passive (callback : option (conn -> result conn)) : Prop :=
  forall f, callback = Some f -> forall c, exists u, f c = Ok (with_outside u c).

Lemma with_outside_id (c : conn) : with_outside (outside c) c = c.
Proof. by destruct c. Qed.

Lemma invoke_passive callback c :
  passive callback -> exists u, invoke callback c = Ok (with_outside u c).
Proof.
  intros Hp. destruct callback as [f |]; simpl; [by apply Hp |].
  exists (outside c). by rewrite with_outside_id.
Qed.

Lemma one_ctl_accepted k k' fd : one_ctl k k' -> accepted k' fd = accepted k fd.
Proof. intros [-> | (op & fd' & ev & E)]; [done |]. by eapply ctl_law. Qed.

(** Every operation of the descriptor succeeds; only the descriptor and the
    poller change. *)
Lemma descriptor_command cmd (c : conn) :
  attached_ok c ->
  exists d p, descriptor (run_command cmd) c = Ok (with_descriptor (d, p) c) /\
    attached_ok (with_descriptor (d, p) c) /\ _fd d = fd_of c /\
    flags d = flags_after cmd (_pollable_file_descriptor c) /\
    accepted (kernel p) (fd_of c) = accepted (kernel_of c) (fd_of c) /\
    opened (kernel p) = opened (kernel_of c) /\ one_ctl (kernel_of c) (kernel p).
Proof.
  intros [Hm Hok].
  destruct (run_command_good cmd _ _ Hm Hok) as ([d p] & E & Hm' & Hok' & Hfd & (_ & Ho & _)).
  destruct (run_command_flags _ _ _ _ _ Hm E) as [Hf Hk].
  exists d, p. unfold descriptor. rewrite E. split; [done |]. split; [by split |].
  split; [done |]. split; [done |]. by split; [apply one_ctl_accepted |].
Qed.

Lemma attached_with_kernel k (c : conn) :
  kept (kernel_of c) k -> attached_ok c -> attached_ok (with_kernel k c).
Proof.
  intros [Ho Hi] [(Hu & H1 & H2 & H3 & H4) [H5 H6]]. unfold kernel_of in *.
  split; [split; [| split; [done | split; [done | split; [done |]]]] | split].
  - destruct Hu as [? ?]. split; [done |]. simpl. by rewrite Ho.
  - simpl. by rewrite Hi.
  - intros fd. simpl. rewrite Hi. apply H5.
  - simpl. unfold size in *. simpl. by rewrite Hi.
Qed.

Lemma attached_opened (c : conn) : attached_ok c -> fd_of c ∈ opened (kernel_of c).
Proof. intros [([_ ?] & _) _]. done. Qed.

Lemma kept_refl (k : K) : kept k k.
Proof. done. Qed.

Lemma kept_trans (k1 k2 k3 : K) : kept k1 k2 -> kept k2 k3 -> kept k1 k3.
Proof. intros [Ho Hi] [Ho2 Hi2]. split; [by rewrite Ho2 | by rewrite Hi2]. Qed.

Lemma released_release b : buffer_ok b -> TcpBuffer.released (TcpBuffer.release b).
Proof.
  intros [Hw | Hr]; [by apply TcpBuffer.release_released |].
  unfold TcpBuffer.release. pose proof Hr as (-> & _). done.
Qed.

Lemma live_outside u (c : conn) : live c -> live (with_outside u c).
Proof. by intros []; split. Qed.

Lemma live_kernel k (c : conn) : kept (kernel_of c) k -> live c -> live (with_kernel k c).
Proof. intros Hk []. split; try done. by apply attached_with_kernel. Qed.

Lemma live_with_output o (c : conn) :
  live c -> TcpBuffer.wf o -> (is_writing c = false -> TcpBuffer.contents o = []) ->
  live (with_output o c).
Proof. by intros [] ? ?; split. Qed.

Lemma live_marks3 (c : conn) :
  live c -> _is_write_end_shutdown c = false /\ _is_reset c = false /\ _is_abotrted c = false.
Proof. intros Hl. pose proof (live_marks _ Hl). simplify_eq. done. Qed.

Lemma stream_idle (c : conn) :
  live c -> is_writing c = false -> stream c = accepted (kernel_of c) (fd_of c).
Proof. intros Hl Hw. unfold stream. by rewrite (live_idle _ Hl), app_nil_r. Qed.

(** ** The read event *)

(** The kernel's answers to the successive [recv] calls of one read event: [n]
    calls, the chunks received, the state after the last call, and whether it
    reported the end of the stream. *)
Inductive delivers (fd : Z) : nat -> K -> list bytes -> K -> bool -> Prop :=
| delivers_again k k' :
    sys_recv k fd _RECEIVE_DATA_SIZE = (RecvAgain, k') -> delivers fd 1 k [] k' false
| delivers_eof k k' :
    sys_recv k fd _RECEIVE_DATA_SIZE = (RecvEof, k') -> delivers fd 1 k [] k' true
| delivers_data n k k1 d ds k' eof :
    sys_recv k fd _RECEIVE_DATA_SIZE = (RecvData d, k1) -> delivers fd n k1 ds k' eof ->
    delivers fd (S n) k (d :: ds) k' eof
| delivers_error n k k1 ds k' eof :
    sys_recv k fd _RECEIVE_DATA_SIZE = (RecvError, k1) ->
    delivers fd n (get_socketfd_errno k1 fd) ds k' eof -> delivers fd (S n) k ds k' eof.

Fixpoint appends (ds : list bytes) (b : TcpBuffer.t) : result TcpBuffer.t :=
  match ds with
  | [] => Ok b
  | d :: ds => let* b := TcpBuffer.append d b in appends ds b
  end.

Lemma appends_capacity ds b b' :
  appends ds b = Ok b' -> TcpBuffer.capacity b <= TcpBuffer.capacity b'.
Proof.
  revert b. induction ds as [| d ds IH]; simpl; intros b; [by intros [= ->] |].
  destruct (TcpBuffer.append d b) eqn:E; [| done]. intros E'.
  apply TcpBuffer.append_capacity in E. apply IH in E'. lia.
Qed.

Lemma appends_contents ds b b' :
  TcpBuffer.wf b -> Forall (fun d => length d <= _RECEIVE_DATA_SIZE) ds ->
  appends ds b = Ok b' -> (Z.of_nat (TcpBuffer.capacity b') < 2 ^ 59)%Z ->
  TcpBuffer.wf b' /\ TcpBuffer.contents b' = TcpBuffer.contents b ++ concat ds.
Proof.
  intros Hw Hds E Hc. revert b Hw E. induction Hds as [| d ds Hd _ IH]; simpl; intros b Hw E.
  { simplify_eq. by rewrite app_nil_r. }
  destruct (TcpBuffer.append d b) as [b1 |] eqn:E1; [| done].
  pose proof (appends_capacity _ _ _ E) as H1. pose proof (TcpBuffer.append_capacity _ _ _ E1) as H2.
  assert (Hsize : (Z.of_nat (TcpBuffer.capacity b + length d) < 2 ^ 60)%Z).
  { unfold _RECEIVE_DATA_SIZE in Hd. lia. }
  pose proof (TcpBuffer.append_ok d b Hw Hsize) as Happ.
  destruct (TcpBuffer.append_undefined _ _); [congruence |].
  destruct Happ as (b2 & E2 & Hw2 & Hc2). rewrite E1 in E2. injection E2 as <-.
  destruct (IH b1 Hw2 E) as [Hw' Hc']. split; [done |]. by rewrite Hc', Hc2, app_assoc.
Qed.

Lemma delivers_chunks fd n k ds k' eof :
  delivers fd n k ds k' eof ->
  Forall (fun d => length d <= _RECEIVE_DATA_SIZE) ds /\ kept k k' /\ accepted k' fd = accepted k fd.
Proof.
  induction 1 as [k k' E | k k' E | n k k1 d ds k' eof E _ (IH1 & IH2 & IH3)
                 | n k k1 ds k' eof E _ (IH1 & IH2 & IH3)];
    destruct (recv_law _ _ _ _ _ E) as (Hk & Hacc & Hd); [done | done | |].
  - split; [constructor; [by apply Hd | done] |]. split; [by eapply kept_trans | congruence].
  - destruct (errno_law k1 fd) as [Hk1 Hacc1]. split; [done |].
    split; [eauto using kept_trans | congruence].
Qed.

Lemma delivers_nonempty fd n k ds k' eof :
  delivers fd n k ds k' eof -> ds <> [] -> length (concat ds) <> 0.
Proof.
  induction 1 as [k k' E | k k' E | n k k1 d ds k' eof E _ IH | n k k1 ds k' eof E _ IH];
    intros Hne; [done | done | | auto].
  destruct (recv_law _ _ _ _ _ E) as (_ & _ & Hx). destruct (Hx d eq_refl).
  simpl. rewrite length_app. lia.
Qed.

(** The receiving loop ends with the first refusal of the kernel, having appended
    every chunk in order. *)
Lemma receive_spec fd n k ds k' eof fuel total (c : conn) :
  delivers fd n k ds k' eof -> n <= fuel -> fd_of c = fd -> kernel_of c = k ->
  _receive_all_data fuel total c
  = let* b := appends ds (_input_buffer c) in
    let c := with_kernel k' (with_input b c) in
    if eof then let* c := descriptor disable_read_event c in Ok (total + length (concat ds), c)
    else Ok (total + length (concat ds), c).
Proof.
  intros Hd. revert fuel total c.
  induction Hd as [k k' E | k k' E | n k k1 d ds k' eof E Hd IH | n k k1 ds k' eof E Hd IH];
    intros [| fuel] total c Hf Hfd Hk; try lia; cbn [_receive_all_data]; rewrite Hfd, Hk, E.
  - simpl. rewrite Nat.add_0_r. by destruct c.
  - simpl. rewrite Nat.add_0_r. by destruct c.
  - simpl. destruct (TcpBuffer.append d (_input_buffer c)) as [b |]; [| done].
    rewrite IH by (done || lia). cbn [_input_buffer with_input].
    destruct (appends ds b); [| done]. by rewrite length_app, Nat.add_assoc.
  - rewrite (IH fuel total (_error_event_callback (with_kernel k1 c)));
      [done | lia | exact Hfd | by rewrite <- Hfd].
Qed.


(** Starting to write: the rest of the data is pending, the event enabled. *)
Lemma start_writing (c : conn) b rest :
  live c -> TcpBuffer.wf b -> TcpBuffer.contents b = TcpBuffer.contents (_output_buffer c) ++ rest ->
  exists c', descriptor enable_write_event (with_output b c) = Ok c' /\ live c' /\
    fd_of c' = fd_of c /\ stream c' = stream c ++ rest.
Proof.
  intros Hl Hb Hc.
  destruct (descriptor_command EnableWrite (with_output b c) (live_attached _ Hl))
    as (d & p & E & Ha & Hfd & Hf & Hacc & _).
  exists (with_descriptor (d, p) (with_output b c)). split; [done |].
  assert (Hfl : _is_writing d = true /\ _is_detached d = false).
  { pose proof (live_running _ Hl) as Hr. unfold is_stopped in Hr.
    unfold flags, flags_after in Hf. simpl in Hf.
    destruct (_is_writing (_pollable_file_descriptor c)) eqn:Ew; unfold flags in Hf;
      simplify_eq; split; congruence. }
  destruct Hfl as [Hw Hd]. split; [| split; [done |]].
  - split; try done; try by apply Hl. unfold is_writing; simpl. congruence.
  - unfold stream. simpl in *. rewrite Hc, app_assoc. unfold fd_of, kernel_of in *. simpl in *.
    by rewrite Hfd, Hacc.
Qed.

(** ** Destroying *)

(** The destructor leaves nothing of the object in the kernel's interest list. *)
Lemma delete_connection_spec (c : conn) :
  closable c ->
  exists c', delete_TcpConnectSocketfd c = Ok c' /\ fd_of c' = fd_of c /\
    interest (kernel_of c') !! fd_of c = None.
Proof.
  unfold closable, delete_TcpConnectSocketfd. destruct (_is_reset c); intros Hc; simpl; [by eauto |].
  pose proof (attached_opened _ Hc) as Ho. unfold descriptor, close_fd. simpl.
  destruct (close_opened _ _ Ho) as (k & E & Hi & _). unfold kernel_of, fd_of in *. rewrite E.
  eexists. split; [done |]. split; [done |]. simpl. by rewrite Hi, lookup_delete_eq.
Qed.

(** A connection destroyed while it is attached stays in the table of the poller,
    which counts it, and the next connection that is given its descriptor cannot
    be registered: the poller modifies an entry the kernel does not have. *)
Theorem destroyed_while_attached (c : conn)
    (Ha : attached_ok c) (Hr : _is_reset c = false) (Hs : is_stopped c = false) :
  exists c', delete_TcpConnectSocketfd c = Ok c' /\ (fd_of c ∉ opened (kernel_of c')) /\
    size (_loop c') = size (_loop c) /\
    forall k ev, interest k !! fd_of c = None ->
      register_event_for_fd (fd_of c) ev
        (mkPoller k (_fds_that_are_listening_on (_loop c')) (size (_loop c'))) = Err Fatal.
Proof.
  pose proof (attached_opened _ Ha) as Ho. unfold delete_TcpConnectSocketfd, descriptor, close_fd.
  rewrite Hr. simpl. destruct (close_opened _ _ Ho) as (k' & E & _ & Ho'). unfold kernel_of, fd_of in *.
  rewrite E. eexists. split; [done |]. simpl. split; [rewrite Ho'; set_solver |]. split; [done |].
  intros k ev Hk. destruct Ha as [(Hu & _ & _ & _ & Hi) [Hl _]].
  assert (Hlis : listening (_loop c) (_fd (_pollable_file_descriptor c)) = true).
  { apply Hl; [by destruct Hu; lia |]. unfold is_stopped in Hs. rewrite Hi, Hs. by eexists. }
  unfold register_event_for_fd. simpl. rewrite array_get_listening, Hlis by done.
  by rewrite ctl_mod_absent.
Qed.

Section WithCallbacks.
Context (cb : callbacks conn).

(** What the read event does after the message callback. *)
Definition after_message (c : conn) : result conn :=
  if is_reading c then Ok c
  else
    let c := with_input (TcpBuffer.release (_input_buffer c)) c in
    if negb (_is_write_end_shutdown c) && negb (is_writing c) then shutdown_write cb c else Ok c.

(** A read event that brings data. *)
Lemma read_event_delivers n k ds time_stamp fuel f b (c : conn) :
  live c -> TcpBuffer.wf (_input_buffer c) -> delivers (fd_of c) n (kernel_of c) ds k false ->
  n <= fuel -> ds <> [] -> _message_callback cb = Some f ->
  appends ds (_input_buffer c) = Ok b -> (Z.of_nat (TcpBuffer.capacity b) < 2 ^ 59)%Z ->
  let c1 := with_input b (with_kernel k c) in
  live c1 /\ TcpBuffer.wf b /\
  TcpBuffer.contents b = TcpBuffer.contents (_input_buffer c) ++ concat ds /\
  _read_event_callback cb fuel time_stamp c = (let* c2 := f time_stamp c1 in after_message c2).
Proof.
  intros Hl Hin Hd Hfuel Hnonempty Hf Hb Hsize.
  destruct (delivers_chunks _ _ _ _ _ _ Hd) as (Hds & Hk & Hacc).
  destruct (appends_contents _ _ _ Hin Hds Hb Hsize) as [Hw Hc]. cbv zeta.
  split; [apply (live_kernel k) in Hl; [| done]; destruct Hl; split; try done; by left |].
  split; [exact Hw |]. split; [exact Hc |].
  assert (E : _receive_all_data fuel 0 c
              = Ok (length (concat ds), with_input b (with_kernel k c))).
  { rewrite (receive_spec _ _ _ _ _ _ fuel 0 c Hd Hfuel) by done. by rewrite Hb. }
  pose proof (delivers_nonempty _ _ _ _ _ _ Hd Hnonempty) as Hpos. apply Nat.eqb_neq in Hpos.
  unfold _read_event_callback. by rewrite E, Hpos, Hf.
Qed.

(** ... and is asked to read on. *)
Lemma read_event_runs n k ds time_stamp fuel f b (c : conn)
    (Hl : live c) (Hin : TcpBuffer.wf (_input_buffer c)) (Hread : is_reading c = true)
    (Hd : delivers (fd_of c) n (kernel_of c) ds k false) (Hfuel : n <= fuel)
    (Hnonempty : ds <> []) (Hf : _message_callback cb = Some f)
    (Hb : appends ds (_input_buffer c) = Ok b)
    (Hsize : (Z.of_nat (TcpBuffer.capacity b) < 2 ^ 59)%Z) :
  let c1 := with_input b (with_kernel k c) in
  live c1 /\ TcpBuffer.contents (_input_buffer c1)
             = TcpBuffer.contents (_input_buffer c) ++ concat ds /\
  ((forall c2, f time_stamp c1 = Ok c2 -> is_reading c2 = true ->
      _read_event_callback cb fuel time_stamp c = Ok c2) /\
   forall e, f time_stamp c1 = Err e -> _read_event_callback cb fuel time_stamp c = Err e).
Proof.
  destruct (read_event_delivers n k ds time_stamp fuel f b c) as (H1 & _ & H2 & ->); try done.
  split; [done |]. split; [done |]. split; intros x ->; [| done]. intros Hr.
  unfold after_message. by rewrite Hr.
Qed.

(** An aborted connection reads no more, and nothing is left to be shut down. *)
Lemma after_message_aborted (c : conn) :
  aborted c -> after_message c = Ok (with_input (TcpBuffer.release (_input_buffer c)) c).
Proof.
  intros Hab. pose proof (ab_flags _ Hab) as Hf. pose proof (ab_marks _ Hab) as Hm.
  unfold flags in Hf. injection Hf as Hr _ _. injection Hm as Hs _ _.
  unfold after_message, is_reading. rewrite Hr. cbn [_is_write_end_shutdown with_input].
  by rewrite Hs.
Qed.

(** A read event that brings data: the message callback runs once, on a
    connection whose input buffer holds what was there before followed by every
    byte received, in order; only the buffer and the kernel differ. *)
Theorem read_event_spec n k ds time_stamp fuel f b (c : conn)
    (Hl : live c) (Hin : TcpBuffer.wf (_input_buffer c)) (Hread : is_reading c = true)
    (Hd : delivers (fd_of c) n (kernel_of c) ds k false) (Hfuel : n <= fuel)
    (Hnonempty : ds <> []) (Hf : _message_callback cb = Some f)
    (Hb : appends ds (_input_buffer c) = Ok b)
    (Hsize : (Z.of_nat (TcpBuffer.capacity b) < 2 ^ 59)%Z) :
  let c1 := with_input b (with_kernel k c) in
  live c1 /\ TcpBuffer.contents (_input_buffer c1)
             = TcpBuffer.contents (_input_buffer c) ++ concat ds /\
  ((forall c2, f time_stamp c1 = Ok c2 -> is_reading c2 = true ->
      _read_event_callback cb fuel time_stamp c = Ok c2) /\
   forall e, f time_stamp c1 = Err e -> _read_event_callback cb fuel time_stamp c = Err e).
Proof. by eapply read_event_runs. Qed.
Hypothesis close_passive : passive (_close_callback cb).

(** ** Aborting *)
Lemma abort_spec (c : conn) :
  attached_ok c -> _is_reset c = false -> _is_abotrted c = false ->
  buffer_ok (_input_buffer c) -> buffer_ok (_output_buffer c) ->
  exists c', abort_from_event_loop cb c = Ok c' /\ aborted c' /\ fd_of c' = fd_of c /\
    accepted (kernel_of c') (fd_of c) = accepted (kernel_of c) (fd_of c).
Proof.
  intros Ha Hr Hb Hin Hout. unfold abort_from_event_loop. rewrite Hb.
  destruct (descriptor_command Detach c Ha) as (d & p & E & Ha1 & Hfd & Hfl & Hacc & Hop).
  cbn [run_command] in E. change (run_command Detach) with (detach_from_poller (K := K)) in E.
  rewrite E. unfold reset_connection. cbn [_is_reset with_descriptor]. rewrite Hr.
  destruct (invoke_passive _ (with_descriptor (d, p) c) close_passive) as [u ->].
  pose proof (attached_opened _ Ha1) as Hopen. unfold fd_of, kernel_of in *. simpl in *.
  destruct (linger_law _ _ Hopen) as (k & -> & [Hk Hi] & Hacc').
  unfold descriptor, close_fd. simpl. rewrite <- Hk in Hopen.
  destruct (close_opened _ _ Hopen) as (k' & E' & Hi' & Ho'). rewrite E'.
  eexists. split; [done |]. split; [| split; [done |]].
  - split; simpl; try done; try by apply released_release.
    + unfold fd_of, kernel_of; simpl. rewrite Ho'. set_solver.
    + unfold fd_of, kernel_of; simpl. by rewrite Hi', lookup_delete_eq.
  - simpl. rewrite <- Hfd, (close_law _ _ _ E'), Hacc'. by rewrite Hfd.
Qed.

(** An abort runs the close callback. *)
Lemma abort_outside (c c' : conn) :
  abort_from_event_loop cb c = Ok c' ->
  exists s, invoke (_close_callback cb) (with_descriptor s c)
            = Ok (with_outside (outside c') (with_descriptor s c)).
Proof.
  unfold abort_from_event_loop, descriptor. destruct (_is_abotrted c); [done |].
  destruct (detach_from_poller _) as [s |]; [| done]. unfold reset_connection.
  destruct (_is_reset _); [done |].
  destruct (invoke_passive _ (with_descriptor s c) close_passive) as [u Hu]. rewrite Hu.
  destruct (set_linger _ _) as [k |]; [| done]. unfold descriptor.
  destruct (close_fd _); [| done]. intros [= <-]. by exists s.
Qed.

Hypothesis write_complete_passive : passive (_write_complete_callback cb).

(** ** Closing the write end *)

(** The write end is closed and everything kept for it is dropped. *)
Record write_closed (c c' : conn) : Prop := {
  wc_fd : fd_of c' = fd_of c;
  wc_shut : _is_write_end_shutdown c' = true;
  wc_writing : is_writing c' = false;
  wc_output : TcpBuffer.released (_output_buffer c');
  wc_context : context c' = None;
  wc_accepted : accepted (kernel_of c') (fd_of c) = accepted (kernel_of c) (fd_of c);
  wc_input : TcpBuffer.released (_input_buffer c') \/ _input_buffer c' = _input_buffer c;
  wc_reading : is_reading c = false -> is_reading c' = false;
  wc_closable : closable c'
}.

Lemma write_closed_from (c c1 c' : conn) :
  fd_of c1 = fd_of c -> accepted (kernel_of c1) (fd_of c) = accepted (kernel_of c) (fd_of c) ->
  _input_buffer c1 = _input_buffer c -> (is_reading c = false -> is_reading c1 = false) ->
  write_closed c1 c' -> write_closed c c'.
Proof.
  intros Hfd Hacc Hin Hr []. rewrite Hfd in *.
  split; try done; [by rewrite <- Hacc | by rewrite <- Hin | auto].
Qed.

Lemma finish_shutdown_spec (c : conn) :
  attached_ok c -> _is_reset c = false -> buffer_ok (_output_buffer c) ->
  exists c', finish_shutdown cb c = Ok c' /\ write_closed c c'.
Proof.
  intros Ha Hre Ho. unfold finish_shutdown.
  destruct (descriptor_command DisableWrite c Ha) as (d & p & E & Ha' & Hfd & Hf & Hacc & _).
  change (run_command DisableWrite) with (disable_write_event (K := K)) in E. rewrite E.
  destruct (invoke_passive _ (with_descriptor (d, p) c) write_complete_passive) as [u ->].
  eexists. split; [done |].
  assert (Hfl : _is_writing d = false /\ _is_reading d = is_reading c).
  { unfold flags, flags_after, is_reading in *.
    destruct (_is_writing (_pollable_file_descriptor c)) eqn:?; unfold flags in Hf;
      simplify_eq; split; congruence. }
  destruct Hfl as [Hw Hr]. split; simpl; try done.
  - by apply released_release.
  - by right.
  - unfold is_reading in *. simpl. congruence.
  - unfold closable; simpl. by rewrite Hre.
Qed.

Lemma shutdown_spec (c : conn) :
  attached_ok c -> _is_write_end_shutdown c = false -> _is_reset c = false ->
  _is_abotrted c = false -> buffer_ok (_input_buffer c) -> buffer_ok (_output_buffer c) ->
  exists c', shutdown_write cb c = Ok c' /\ write_closed c c'.
Proof.
  intros Ha Hs Hr Hb Hin Hout. unfold shutdown_write. rewrite Hs.
  destruct (sys_shutdown_write _ _) as [r k] eqn:E. destruct (shutdown_law _ _ _ _ E) as [Hk Hacc].
  pose proof (attached_with_kernel k c Hk Ha) as Ha'. destruct r.
  - destruct (finish_shutdown_spec (with_kernel k c) Ha' Hr Hout) as (c' & -> & Hc').
    exists c'. split; [done |]. by apply (write_closed_from c (with_kernel k c)).
  - destruct (abort_spec (with_kernel k c)) as (c' & -> & [] & Hfd & Hacc'); try done.
    exists c'. split; [done |]. unfold flags in *. simplify_eq.
    split; try done; unfold is_writing, is_reading in *; try congruence.
    + etransitivity; [exact Hacc' | exact Hacc].
    + by left.
    + unfold closable. by replace (_is_reset c') with true by congruence.
  - unfold _close_event_callback.
    destruct (descriptor_command Detach (with_kernel k c) Ha')
      as (d & p & E' & Ha2 & Hfd & Hf & Hacc2 & _).
    change (run_command Detach) with (detach_from_poller (K := K)) in E'. rewrite E'.
    destruct (invoke_passive _ (with_descriptor (d, p) (with_kernel k c)) close_passive) as [u ->].
    destruct (finish_shutdown_spec (with_outside u (with_descriptor (d, p) (with_kernel k c))) Ha2 Hr Hout)
      as (c' & -> & Hc').
    exists c'. split; [done |]. eapply write_closed_from; [.. | exact Hc']; try done.
    + by etransitivity; [exact Hacc2 |].
    + intros _. unfold flags, flags_after in Hf. by simplify_eq.
Qed.


(** The end of the peer's stream.  A read event that finds nothing but the end
    stops the reading and drops the input buffer; the write end is closed at
    once if nothing is pending, and otherwise the pending bytes stay in the
    stream (a write event closes the write end after the last of them).  It
    always returns. *)
Theorem half_close_spec n k time_stamp fuel (c : conn)
    (Hl : live c) (Hread : is_reading c = true)
    (Hd : delivers (fd_of c) n (kernel_of c) [] k true) (Hfuel : n <= fuel) :
  exists c', _read_event_callback cb fuel time_stamp c = Ok c' /\ fd_of c' = fd_of c /\
    is_reading c' = false /\ TcpBuffer.released (_input_buffer c') /\
    if is_writing c
    then live c' /\ is_writing c' = true /\ stream c' = stream c
    else _is_write_end_shutdown c' = true /\ TcpBuffer.released (_output_buffer c') /\
         context c' = None /\ accepted (kernel_of c') (fd_of c) = stream c.
Proof.
  destruct (live_marks3 _ Hl) as (Hs & Hr & Hb).
  destruct (delivers_chunks _ _ _ _ _ _ Hd) as (_ & Hk & Hacc).
  unfold _read_event_callback. rewrite (receive_spec _ _ _ _ _ _ fuel 0 c Hd Hfuel) by done.
  cbn [appends concat length Nat.add].
  assert (Hl1 : live (with_kernel k c)) by by apply live_kernel.
  assert (E1 : with_kernel k (with_input (_input_buffer c) c) = with_kernel k c) by by destruct c.
  rewrite E1.
  destruct (descriptor_command DisableRead _ (live_attached _ Hl1))
    as (d & p & E & Ha & Hfd & Hf & Hacc2 & _).
  change (run_command DisableRead) with (disable_read_event (K := K)) in E. rewrite E.
  cbn [Nat.eqb].
  assert (Hfl : _is_reading d = false /\ _is_writing d = is_writing c /\ _is_detached d = false).
  { unfold flags, flags_after, is_reading, is_writing in *. simpl in Hf. rewrite Hread in Hf.
    by simplify_eq. }
  destruct Hfl as (Hfr & Hfw & Hfd0).
  set (c1 := with_descriptor (d, p) (with_kernel k c)).
  change (is_reading c1) with (_is_reading d). rewrite Hfr.
  set (c2 := with_input (TcpBuffer.release (_input_buffer c1)) c1).
  change (_is_write_end_shutdown c2) with (_is_write_end_shutdown c). rewrite Hs.
  change (is_writing c2) with (_is_writing d). rewrite Hfw.
  assert (Hin : TcpBuffer.released (_input_buffer c2)) by by apply released_release, Hl.
  assert (Hacc3 : accepted (kernel_of c2) (fd_of c) = accepted (kernel_of c) (fd_of c)).
  { etransitivity; [exact Hacc2 | exact Hacc]. }
  destruct (is_writing c) eqn:Ew; cbn [negb andb].
  - exists c2. split; [done |]. split; [done |]. split; [done |]. split; [done |].
    split; [| split; [done |]].
    + destruct Hl. split; try done; [by right |]. unfold is_writing; simpl. congruence.
    + unfold stream. change (fd_of c2) with (_fd d). rewrite Hfd.
      change (fd_of (with_kernel k c)) with (fd_of c). by rewrite Hacc3.
  - destruct (shutdown_spec c2) as (c3 & E3 & []); try done; [by right | left; by apply Hl |].
    exists c3. split; [done |]. rewrite stream_idle by done.
    assert (Hfd2 : fd_of c2 = fd_of c) by done. rewrite Hfd2 in *.
    split; [done |]. split; [by apply wc_reading0 |].
    split; [destruct wc_input0 as [| ->]; done |]. split; [done |]. split; [done |].
    split; [done |]. congruence.
Qed.

(** ** The sending loop *)

Definition sent_so_far (c c' : conn) (data : bytes) (i j : nat) : Prop :=
  accepted (kernel_of c') (fd_of c) = accepted (kernel_of c) (fd_of c) ++ slice data i j.

Lemma sent_nothing (c c' : conn) data i :
  accepted (kernel_of c') (fd_of c) = accepted (kernel_of c) (fd_of c) -> sent_so_far c c' data i i.
Proof using Type. intros E. unfold sent_so_far, slice. by rewrite Nat.sub_diag, app_nil_r. Qed.

(** What a run of the sending loop from [i] has come to: bytes went to the kernel
    and nothing else happened, or the peer broke the connection. *)
Definition sent (c c' : conn) (data : bytes) (i n : nat) : Prop :=
  (exists k, c' = with_kernel k c /\ kept (kernel_of c) k /\ sent_so_far c c' data i n) \/
  (aborted c' /\ fd_of c' = fd_of c /\ n = length data /\
   exists m, i <= m <= length data /\ sent_so_far c c' data i m).

Lemma sent_fd (c c' : conn) data i n : sent c c' data i n -> fd_of c' = fd_of c.
Proof using Type. by intros [(k & -> & _) | (_ & ? & _)]. Qed.

(** One more answer of the kernel in front: [j - i] bytes taken. *)
Lemma sent_step k (c c' : conn) data i j n :
  kept (kernel_of c) k -> i <= j <= n ->
  accepted k (fd_of c) = accepted (kernel_of c) (fd_of c) ++ slice data i j ->
  sent (with_kernel k c) c' data j n -> sent c c' data i n.
Proof.
  intros Hk Hij Hacc Hs.
  assert (Hslice : forall m, j <= m -> accepted (kernel_of c) (fd_of c) ++ slice data i m
            = accepted k (fd_of c) ++ slice data j m).
  { intros m Hm. rewrite Hacc, <- app_assoc. f_equal. apply slice_split; lia. }
  destruct Hs as [(k' & -> & Hk' & Hs') | (Hab & Hfd & -> & m & Hm & Hs')].
  - left. exists k'. split; [done |]. split; [by eapply kept_trans |].
    unfold sent_so_far in *. rewrite Hslice by lia. done.
  - right. split; [done |]. split; [done |]. split; [done |]. exists m. split; [lia |].
    unfold sent_so_far in *. rewrite Hslice by lia. done.
Qed.

(** The loop returns, unless the kernel fails too often. *)
Lemma send_loop_spec data fuel total (c : conn) :
  attached_ok c -> _is_reset c = false -> _is_abotrted c = false ->
  buffer_ok (_input_buffer c) -> buffer_ok (_output_buffer c) -> total <= length data ->
  match send_loop cb fuel data total c with
  | Ok (n, c') => total <= n <= length data /\ sent c c' data total n
  | Err e =>
      e = OutOfFuel /\
      fuel < length data - total + send_errors fuel data total (kernel_of c) (fd_of c)
  end.
Proof.
  revert total c. induction fuel as [| fuel IH]; intros total c Ha Hr Hb Hin Hout Hn; simpl.
  all: destruct (Nat.leb_spec (length data) total) as [Hl | Hl];
    [split; [lia |]; left; exists (kernel_of c);
     split; [by destruct c as [? []] |]; split; [done | by apply sent_nothing] |].
  { split; [done | lia]. }
  destruct (sys_send (kernel_of c) (fd_of c) (drop total data)) as [r k] eqn:E.
  destruct (send_law _ _ _ _ _ E) as [Hk Hs].
  pose proof (attached_with_kernel k c Hk Ha) as Ha'.
  destruct r as [n | | |].
  - destruct Hs as (Hn1 & Hn2 & Hacc). rewrite length_drop in Hn1.
    assert (0 < n) by (apply Hn2; intros Hnil; apply (f_equal length) in Hnil;
                       rewrite length_drop in Hnil; simpl in Hnil; lia).
    specialize (IH (total + n) (with_kernel k c) Ha' Hr Hb Hin Hout ltac:(lia)).
    change (kernel_of (with_kernel k c)) with k in IH.
    change (fd_of (with_kernel k c)) with (fd_of c) in IH.
    destruct (send_loop cb fuel data (total + n) (with_kernel k c)) as [[m c'] | e].
    + destruct IH as [Hm IH]. split; [lia |]. apply (sent_step k c c' data total (total + n) m); [done | lia | | done].
      rewrite Hacc. f_equal. unfold slice. by replace (total + n - total) with n by lia.
    + destruct IH as [-> IH]. split; [done | lia].
  - split; [lia |]. left. exists k. split; [done |]. split; [done | by apply sent_nothing].
  - destruct (abort_spec (with_kernel k c)) as (c' & -> & Hab & Hfd & Hacc); try done.
    split; [lia |]. right. split; [done |]. split; [done |]. split; [done |]. exists total. split; [lia |].
    apply sent_nothing. etransitivity; [exact Hacc | exact Hs].
  - destruct (errno_law k (fd_of c)) as [Hk2 Hacc2].
    pose proof (kept_trans _ _ _ Hk Hk2) as Hk3.
    specialize (IH total (with_kernel (get_socketfd_errno k (fd_of c)) c)
                  (attached_with_kernel _ c Hk3 Ha) Hr Hb Hin Hout Hn).
    change (kernel_of (with_kernel _ c)) with (get_socketfd_errno k (fd_of c)) in IH.
    change (fd_of (with_kernel _ c)) with (fd_of c) in IH.
    change (_error_event_callback (with_kernel k c))
      with (with_kernel (get_socketfd_errno k (fd_of c)) c).
    destruct (send_loop cb fuel data total (with_kernel (get_socketfd_errno k (fd_of c)) c)) as [[m c'] | e].
    + destruct IH as [Hm IH]. split; [done |].
      apply (sent_step (get_socketfd_errno k (fd_of c)) c c' data total total m); [done | lia | | done].
      rewrite Hacc2, Hs. unfold slice. by rewrite Nat.sub_diag, app_nil_r.
    + destruct IH as [-> IH]. split; [done | lia].
Qed.

Lemma send_as_many_spec data (c : conn) :
  attached_ok c -> _is_reset c = false -> _is_abotrted c = false ->
  buffer_ok (_input_buffer c) -> buffer_ok (_output_buffer c) ->
  match _send_as_many_data cb (send_fuel data) data c with
  | Ok (n, c') => n <= length data /\ sent c c' data 0 n
  | Err e => e = OutOfFuel /\ out_of_patience data (kernel_of c) (fd_of c)
  end.
Proof.
  intros Ha Hr Hb Hin Hout. unfold _send_as_many_data.
  destruct (Nat.eqb_spec (length data) 0) as [E | E].
  { split; [lia |]. left. exists (kernel_of c).
    split; [by destruct c as [? []] |]. split; [done | by apply sent_nothing]. }
  pose proof (send_loop_spec data (send_fuel data) 0 c Ha Hr Hb Hin Hout ltac:(lia)) as Hspec.
  destruct (send_loop _ _ _ _ _) as [[n c'] | e].
  - destruct Hspec as [Hn Hspec]. split; [lia | done].
  - destruct Hspec as [-> Hspec]. split; [done |]. unfold out_of_patience. unfold send_fuel at 1 in Hspec. lia.
Qed.

(** A kernel that keeps failing keeps the loop, and the event loop with it, for
    ever: no amount of fuel is enough. *)
Lemma send_loop_persistent (failing : K -> Prop) data fuel total (c : conn) :
  (forall k d, failing k -> exists k', sys_send k (fd_of c) d = (SendError, k') /\
     failing (get_socketfd_errno k' (fd_of c))) ->
  failing (kernel_of c) -> total < length data -> send_loop cb fuel data total c = Err OutOfFuel.
Proof using Type.
  revert c. induction fuel as [| fuel IH]; intros c Hf Hc Hn; simpl;
    rewrite (proj2 (Nat.leb_gt _ _)) by done; [done |].
  destruct (Hf _ (drop total data) Hc) as (k' & -> & Hk'). apply IH; done.
Qed.

(** ** Sending *)

(** Why a [send] of [data] fails: an append to the output buffer is undefined -
    only for want of a defined growth if nothing was pending - or the kernel
    reports one error after the other. *)
Definition send_fails (data : bytes) (c : conn) (e : failure) : Prop :=
  (e = UndefinedBehaviour /\
   if is_writing c then TcpBuffer.append_undefined (length data) (_output_buffer c) = true
   else exists n, n < length data /\
          TcpBuffer.growth_undefined (length data - n) (_output_buffer c) = true) \/
  (e = OutOfFuel /\ is_writing c = false /\ out_of_patience data (kernel_of c) (fd_of c)).

(** What becomes of the data handed to [send]. *)
Lemma send_goes data (c : conn) (Hl : live c)
    (Hsize : (Z.of_nat (TcpBuffer.capacity (_output_buffer c) + length data) < 2 ^ 60)%Z) :
  match send cb data c with
  | Ok c' =>
      fd_of c' = fd_of c /\
      ((live c' /\ stream c' = stream c ++ data) \/
       (aborted c' /\ exists m, sent_so_far c c' data 0 m))
  | Err e => send_fails data c e
  end.
Proof.
  destruct (live_marks3 _ Hl) as (_ & Hr & Hb). pose proof (live_output _ Hl) as Ho.
  unfold send, send_fails. rewrite (live_running _ Hl). destruct (is_writing c) eqn:Ew.
  { pose proof (TcpBuffer.append_ok data _ Ho Hsize) as Happ.
    destruct (TcpBuffer.append_undefined _ _); [rewrite Happ; by left |].
    destruct Happ as (b & -> & Hwf & Hc). split; [done |]. left. split.
    - split; try done; try by apply Hl. unfold is_writing in *. simpl in *. congruence.
    - unfold stream. simpl. by rewrite Hc, app_assoc. }
  pose proof (send_as_many_spec data c (live_attached _ Hl) Hr Hb (live_input _ Hl) (or_introl Ho)) as Hmany.
  destruct (_send_as_many_data cb (send_fuel data) data c) as [[n c1] | e];
    [| destruct Hmany as [-> Hmany]; by right].
  destruct Hmany as [Hn Hcase]. pose proof (sent_fd _ _ _ _ _ Hcase) as Hfd1.
  destruct (Nat.eqb_spec n (length data)) as [-> | Hne].
  - destruct (invoke_passive _ c1 write_complete_passive) as [u ->]. split; [done |].
    destruct Hcase as [(k & -> & Hk & Hs) | (Hab & _ & _ & m & _ & Hs)].
    + left. assert (Hl1 : live (with_kernel k c)) by by apply live_kernel.
      split; [by apply live_outside |]. rewrite !stream_idle by (done || by apply live_outside).
      unfold sent_so_far in Hs. by rewrite slice_all in Hs.
    + right. split; [by destruct Hab; split | by exists m].
  - destruct Hcase as [(k & -> & Hk & Hs) | (_ & _ & ? & _)]; [| done].
    assert (Hl1 : live (with_kernel k c)) by by apply live_kernel.
    cbn [_output_buffer with_kernel with_descriptor].
    assert (Hlen : length (drop n data) = length data - n) by apply length_drop.
    pose proof (TcpBuffer.append_ok (drop n data) _ Ho ltac:(lia)) as Happ.
    rewrite TcpBuffer.append_undefined_empty, Hlen in Happ by (done || by apply Hl).
    destruct (TcpBuffer.growth_undefined _ _) eqn:Eg.
    { rewrite Happ. left. split; [done |]. exists n. split; [lia | done]. }
    destruct Happ as (b & -> & Hwf & Hc).
    destruct (start_writing (with_kernel k c) b (drop n data) Hl1 Hwf Hc) as (c' & -> & Hl' & Hfd & Hst).
    split; [done |]. left. split; [done |].
    rewrite Hst, !stream_idle by done. unfold sent_so_far in Hs.
    change (fd_of (with_kernel k c)) with (fd_of c). rewrite Hs, <- app_assoc.
    f_equal. unfold slice. rewrite drop_0, Nat.sub_0_r. apply take_drop.
Qed.

(** In short, for the callers: *)
Definition send_error (fd : Z) (e : failure) : Prop :=
  e = UndefinedBehaviour \/ (e = OutOfFuel /\ stubborn fd).

Lemma send_fails_error data (c : conn) e : send_fails data c e -> send_error (fd_of c) e.
Proof using Type.
  intros [[-> _] | (-> & _ & Ho)]; [by left | right]. split; [done |]. by exists data, (kernel_of c).
Qed.

(** What [send] leaves alone unless it aborts the connection. *)
Definition same_input (c c' : conn) : Prop :=
  context c' = context c /\ _input_buffer c' = _input_buffer c /\ is_reading c' = is_reading c.

Lemma enable_write_reading (s s' : PollableFd * EventPoller K) :
  enable_write_event s = Ok s' -> _is_reading s'.1 = _is_reading s.1.
Proof using Type.
  destruct s as [d p]. unfold enable_write_event, _register_event.
  destruct (_is_writing d); [by intros [= <-] |].
  destruct (register_event_for_fd _ _ _) as [p' |]; [| done]. by intros [= <-].
Qed.

Lemma abort_marks (c c' : conn) : abort_from_event_loop cb c = Ok c' -> _is_abotrted c' = true.
Proof.
  unfold abort_from_event_loop. destruct (_is_abotrted c); [done |].
  destruct (descriptor detach_from_poller c) as [c1 |]; [| done].
  by destruct (reset_connection cb c1); [intros [= <-] |].
Qed.

Lemma send_loop_input data fuel total n (c c' : conn) :
  send_loop cb fuel data total c = Ok (n, c') -> _is_abotrted c' = false -> same_input c c'.
Proof.
  revert total c. induction fuel as [| fuel IH]; intros total c; simpl;
    (destruct (length data <=? total); [by intros [= _ <-] |]); [done |].
  destruct (sys_send _ _ _) as [[] k].
  - intros E Hb. exact (IH _ _ E Hb).
  - by intros [= _ <-].
  - destruct (abort_from_event_loop cb (with_kernel k c)) as [c1 |] eqn:E; [| done].
    apply abort_marks in E. intros [= _ <-]. congruence.
  - intros E Hb. exact (IH _ _ E Hb).
Qed.

Lemma send_input d (c c' : conn) :
  send cb d c = Ok c' -> _is_abotrted c' = false -> same_input c c'.
Proof.
  unfold send, _send_as_many_data. destruct (is_stopped c); [by intros [= <-] |]. destruct (is_writing c).
  { destruct (TcpBuffer.append _ _); [| done]. by intros [= <-]. }
  assert (Hloop : forall n c1, (if length d =? 0 then Ok (0, c) else send_loop cb (send_fuel d) d 0 c) = Ok (n, c1) ->
                               _is_abotrted c1 = false -> same_input c c1).
  { intros n c1. destruct (length d =? 0); [by intros [= _ <-] | apply send_loop_input]. }
  destruct (if length d =? 0 then _ else _) as [[n c1] |]; [| done]. specialize (Hloop n c1 eq_refl).
  destruct (n =? length d).
  - destruct (invoke_passive _ c1 write_complete_passive) as [u ->]. by intros [= <-].
  - destruct (TcpBuffer.append _ _) as [b |]; [| done].
    unfold descriptor. destruct (enable_write_event _) as [s |] eqn:Es; [| done].
    apply enable_write_reading in Es. intros [= <-] Hb. destruct (Hloop Hb) as (H1 & H2 & H3).
    split; [exact H1 |]. split; [exact H2 |]. etransitivity; [exact Es | exact H3].
Qed.

(** [c'] is [c] after [data] has been handed to [send]: [data] is at the end of the
    stream, and what was received is untouched, or the peer broke the connection. *)
Definition handed (data : bytes) (c c' : conn) : Prop :=
  fd_of c' = fd_of c /\ ((live c' /\ stream c' = stream c ++ data /\ same_input c c') \/ aborted c').

(** The buffers stay far below the size of the address space. *)
Definition fits (data : bytes) (c : conn) : Prop :=
  (Z.of_nat (TcpBuffer.capacity (_output_buffer c) + length data) < 2 ^ 60)%Z.

Lemma handed_nil c : live c -> handed [] c c.
Proof using Type.
  intros Hl. split; [done |]. left. split; [done |]. by rewrite app_nil_r.
Qed.

Lemma send_handed data d c c1 :
  handed data c c1 -> fits d c1 ->
  match send cb d c1 with
  | Ok c' => handed (data ++ d) c c'
  | Err e => send_error (fd_of c) e
  end.
Proof.
  intros [Hfd [(Hl & Hs & Hi) | Hab]] Hf.
  - pose proof (send_goes d c1 Hl Hf) as Hsend. rewrite <- Hfd.
    destruct (send cb d c1) as [c' | e] eqn:Esend; [| by eapply send_fails_error].
    destruct Hsend as [Hfd' [[Hl' Hs'] | [Hab _]]]; (split; [congruence |]).
    + left. split; [done |]. split; [by rewrite Hs', Hs, app_assoc |].
      destruct (live_marks3 _ Hl') as (_ & _ & Hb).
      destruct Hi as (Hi1 & Hi2 & Hi3), (send_input _ _ _ Esend Hb) as (Hi4 & Hi5 & Hi6).
      split; [congruence |]. split; congruence.
    + by right.
  - pose proof (ab_flags _ Hab) as Hfl. unfold flags in Hfl. injection Hfl as _ _ Hfl.
    unfold send, is_stopped. rewrite Hfl. split; [done | by right].
Qed.

(** How much the output buffer can grow by a [send]. *)
Lemma send_room d (c c' : conn) :
  live c -> send cb d c = Ok c' -> live c' ->
  TcpBuffer.capacity (_output_buffer c')
    <= Nat.max (TcpBuffer.capacity (_output_buffer c))
         (2 * (length (TcpBuffer.contents (_output_buffer c)) + length d)) /\
  (fits d c -> length (TcpBuffer.contents (_output_buffer c'))
               <= length (TcpBuffer.contents (_output_buffer c)) + length d).
Proof.
  intros Hl E Hl'. destruct (live_marks3 _ Hl) as (_ & Hr & Hb). pose proof (live_output _ Hl) as Ho.
  assert (Happ : forall e b, length e <= length d -> TcpBuffer.append e (_output_buffer c) = Ok b ->
    TcpBuffer.capacity b <= Nat.max (TcpBuffer.capacity (_output_buffer c))
      (2 * (length (TcpBuffer.contents (_output_buffer c)) + length d)) /\
    (fits d c -> length (TcpBuffer.contents b) <= length (TcpBuffer.contents (_output_buffer c)) + length d)).
  { intros e b He Eb. pose proof (TcpBuffer.append_capacity_le _ _ _ Ho Eb). split; [lia |].
    intros Hf. unfold fits in Hf. pose proof (TcpBuffer.append_ok e _ Ho ltac:(lia)) as Hok.
    destruct (TcpBuffer.append_undefined _ _); [congruence |].
    destruct Hok as (b' & Eb' & _ & Hc). rewrite Eb in Eb'. injection Eb' as ->. rewrite Hc, length_app. lia. }
  revert E. unfold send. rewrite (live_running _ Hl). destruct (is_writing c).
  { destruct (TcpBuffer.append d _) as [b |] eqn:Eb; [| done]. intros [= <-]. by apply (Happ d b). }
  pose proof (send_as_many_spec d c (live_attached _ Hl) Hr Hb (live_input _ Hl) (or_introl Ho)) as Hmany.
  destruct (_send_as_many_data cb (send_fuel d) d c) as [[n c1] | e]; [| done].
  destruct Hmany as [Hn Hcase]. destruct (Nat.eqb_spec n (length d)) as [-> | Hne].
  - destruct (invoke_passive _ c1 write_complete_passive) as [u ->]. intros [= <-].
    destruct Hcase as [(k & -> & _) | (Hab & _)]; [simpl; split; lia |].
    destruct (live_marks3 _ Hl') as (_ & _ & Hb'). pose proof (ab_marks _ Hab) as Hm.
    injection Hm as _ _ Hm. simpl in Hb'. congruence.
  - destruct Hcase as [(k & -> & _) | (_ & _ & ? & _)]; [| done]. simpl.
    destruct (TcpBuffer.append _ _) as [b |] eqn:Eb; [| done].
    unfold descriptor. destruct (enable_write_event _) as [s |]; [| done]. intros [= <-].
    apply (Happ (drop n d) b); [rewrite length_drop; lia | done].
Qed.

(** A [send], even one that aborts the connection and drops the bytes received,
    leaves the two offsets of the input buffer as they are. *)
Definition input_offsets (c : conn) : nat * nat :=
  (TcpBuffer._read_offset (_input_buffer c), TcpBuffer._write_offset (_input_buffer c)).

Lemma abort_offsets (c c' : conn) :
  abort_from_event_loop cb c = Ok c' -> input_offsets c' = input_offsets c.
Proof.
  unfold abort_from_event_loop, reset_connection, descriptor. destruct (_is_abotrted c); [done |].
  destruct (detach_from_poller _) as [s |]; [| done]. simpl. destruct (_is_reset c); [done |].
  destruct (invoke_passive _ (with_descriptor s c) close_passive) as [u ->]. simpl.
  destruct (set_linger _ _) as [k |]; [| done].
  unfold close_fd. simpl. destruct (sys_close _ _) as [k' |]; [| done].
  intros [= <-]. unfold input_offsets. simpl.
  unfold TcpBuffer.release. by destruct (TcpBuffer._volatile_buffer_begin_ptr _).
Qed.

Lemma send_loop_offsets data fuel total n (c c' : conn) :
  send_loop cb fuel data total c = Ok (n, c') -> input_offsets c' = input_offsets c.
Proof.
  revert total c. induction fuel as [| fuel IH]; intros total c; simpl;
    (destruct (length data <=? total); [by intros [= _ <-] |]); [done |].
  destruct (sys_send _ _ _) as [[] k].
  - exact (IH _ _).
  - by intros [= _ <-].
  - destruct (abort_from_event_loop cb (with_kernel k c)) as [c1 |] eqn:E; [| done].
    apply abort_offsets in E. by intros [= _ <-].
  - exact (IH _ _).
Qed.

Lemma send_offsets d (c c' : conn) : send cb d c = Ok c' -> input_offsets c' = input_offsets c.
Proof.
  unfold send, _send_as_many_data. destruct (is_stopped c); [by intros [= <-] |]. destruct (is_writing c).
  { destruct (TcpBuffer.append _ _); [| done]. by intros [= <-]. }
  destruct (if length d =? 0 then _ else _) as [[n c1] |] eqn:E; [| done].
  assert (Hc1 : input_offsets c1 = input_offsets c).
  { destruct (length d =? 0); [by injection E as _ <- | by eapply send_loop_offsets]. }
  rewrite <- Hc1. destruct (n =? length d).
  - destruct (invoke_passive _ c1 write_complete_passive) as [u ->]. by intros [= <-].
  - destruct (TcpBuffer.append _ _) as [b |]; [| done].
    unfold descriptor. destruct (enable_write_event _) as [s |]; [| done]. by intros [= <-].
Qed.

(** ** The write event *)
Lemma aborted_forward n (c : conn) :
  aborted c -> aborted (with_output (TcpBuffer.forward_read_position n (_output_buffer c)) c).
Proof. intros []. by split. Qed.

Lemma aborted_outside u (c : conn) : aborted c -> aborted (with_outside u c).
Proof. intros []. by split. Qed.

Lemma flush_spec (c : conn) :
  live c ->
  match flush_output cb c with
  | Ok (b, c') =>
      (exists k o, c' = with_output o (with_kernel k c) /\ kept (kernel_of c) k /\ TcpBuffer.wf o /\
        accepted k (fd_of c) ++ TcpBuffer.contents o = stream c /\
        (b = true -> TcpBuffer.contents o = []) /\ (b = false -> TcpBuffer.contents o <> [])) \/
      (b = true /\ aborted c' /\ fd_of c' = fd_of c /\
        exists m, sent_so_far c c' (TcpBuffer.contents (_output_buffer c)) 0 m)
  | Err e =>
      e = OutOfFuel /\
      out_of_patience (TcpBuffer.contents (_output_buffer c)) (kernel_of c) (fd_of c)
  end.
Proof.
  intros Hl. destruct (live_marks3 _ Hl) as (_ & Hr & Hb). pose proof (live_output _ Hl) as Ho.
  unfold flush_output. pose proof (rb_size _ Ho) as Hsz. simpl in Hsz. rewrite Hsz. clear Hsz.
  destruct (Nat.ltb_spec 0 (length (TcpBuffer.contents (_output_buffer c)))) as [Hn | Hn].
  2: { left. exists (kernel_of c), (_output_buffer c).
       split; [by destruct c as [? []] |]. split; [done |]. split; [done |]. split; [done |].
       split; [| done]. intros _. apply length_zero_iff_nil. lia. }
  pose proof (send_as_many_spec (TcpBuffer.contents (_output_buffer c)) c (live_attached _ Hl) Hr Hb
                (live_input _ Hl) (or_introl Ho)) as Hmany.
  destruct (_send_as_many_data _ _ _ _) as [[n c1] | e]; [| exact Hmany].
  destruct Hmany as [Hle [(k & -> & Hk & Hs) | (Hab & Hfd & -> & m & _ & Hs)]].
  - left. destruct (TcpBuffer.forward_wf n _ Ho Hle) as [Hf1 Hf2].
    eexists k, _. split; [done |]. split; [done |]. split; [done |]. cbn [_output_buffer with_kernel with_descriptor].
    rewrite Hf2. unfold sent_so_far in Hs. change (kernel_of (with_kernel k c)) with k in Hs.
    rewrite Hs.
    split.
    { unfold stream. rewrite <- app_assoc. f_equal. unfold slice.
      rewrite drop_0, Nat.sub_0_r. apply take_drop. }
    rewrite negb_true_iff, negb_false_iff, Nat.ltb_ge, Nat.ltb_lt.
    split; [intros ?; apply drop_ge; lia |].
    intros Hlt Hnil. apply (f_equal length) in Hnil. rewrite length_drop in Hnil. simpl in Hnil. lia.
  - right. split; [by rewrite Nat.ltb_irrefl |]. split; [by apply aborted_forward |].
    split; [done |]. by exists m.
Qed.

(** What the write event does once everything has been flushed. *)
Definition finish_write (c : conn) : result conn :=
  let* c := descriptor disable_write_event c in
  let* c := invoke (_write_complete_callback cb) c in
  if negb (is_reading c) && negb (is_writing c) then shutdown_write cb c else Ok c.

Lemma finish_write_live (c : conn) :
  attached_ok c -> is_stopped c = false -> is_writing c = true ->
  (_is_write_end_shutdown c, _is_reset c, _is_abotrted c) = (false, false, false) ->
  buffer_ok (_input_buffer c) -> TcpBuffer.wf (_output_buffer c) -> TcpBuffer.contents (_output_buffer c) = [] ->
  exists c', finish_write c = Ok c' /\ fd_of c' = fd_of c /\
    if is_reading c then live c' /\ is_writing c' = false /\ stream c' = stream c
    else _is_write_end_shutdown c' = true /\ TcpBuffer.released (_output_buffer c') /\
         accepted (kernel_of c') (fd_of c) = accepted (kernel_of c) (fd_of c).
Proof.
  intros Ha Hrun Hw Hm Hin Ho Hc. unfold finish_write.
  destruct (descriptor_command DisableWrite _ Ha) as (d & p & E & Ha2 & Hfd & Hf & Hacc & _).
  change (run_command DisableWrite) with (disable_write_event (K := K)) in E. rewrite E.
  destruct (invoke_passive _ (with_descriptor (d, p) c) write_complete_passive) as [u ->].
  set (c2 := with_outside u (with_descriptor (d, p) c)).
  assert (Hfl : is_writing c2 = false /\ is_reading c2 = is_reading c /\ is_stopped c2 = false).
  { unfold is_writing, is_reading, is_stopped in *. simpl in *.
    unfold flags, flags_after in Hf. simpl in Hf. rewrite Hw in Hf. by simplify_eq. }
  destruct Hfl as (Hw2 & Hr2 & Hst2). rewrite Hw2, Hr2. destruct (is_reading c) eqn:Er; cbn [negb andb].
  - exists c2. split; [done |]. split; [done |]. split; [by split |]. split; [done |].
    unfold stream. change (_output_buffer c2) with (_output_buffer c). rewrite Hc, !app_nil_r.
    change (fd_of c2) with (_fd d). by rewrite Hfd.
  - injection Hm as Hs Hr Hb.
    destruct (shutdown_spec c2) as (c3 & E3 & []); try done; [by left |]. exists c3.
    assert (Hfd2 : fd_of c2 = fd_of c) by done. rewrite Hfd2 in *.
    split; [done |]. split; [congruence |]. split; [done |]. split; [done |]. by rewrite wc_accepted0.
Qed.

Lemma finish_write_aborted (c : conn) :
  aborted c -> exists u, finish_write c = Ok (with_outside u c).
Proof.
  intros Hab. unfold finish_write.
  assert (Hidle : forall c0 : conn, aborted c0 -> is_writing c0 = false /\ is_reading c0 = false /\
            _is_write_end_shutdown c0 = true).
  { intros c0 []. unfold flags, is_writing, is_reading in *. by simplify_eq. }
  assert (E : descriptor disable_write_event c = Ok c).
  { unfold descriptor, disable_write_event. destruct (Hidle _ Hab) as [Hx _].
    unfold is_writing in Hx. rewrite Hx. simpl. by destruct c. }
  rewrite E. destruct (invoke_passive _ c write_complete_passive) as [u ->]. exists u.
  pose proof (aborted_outside u _ Hab) as Hab2. destruct (Hidle _ Hab2) as (-> & -> & Hsh).
  cbn [negb andb]. unfold shutdown_write. by rewrite Hsh.
Qed.

(** What a write event does to a connection that is writing. *)
Lemma write_event_goes (c : conn) (Hl : live c) (Hw : is_writing c = true) :
  match _write_event_callback cb c with
  | Ok c' =>
      fd_of c' = fd_of c /\
      ((live c' /\ stream c' = stream c /\
        if is_writing c' then TcpBuffer.contents (_output_buffer c') <> [] else is_reading c = true) \/
       (is_reading c = false /\ _is_write_end_shutdown c' = true /\
        TcpBuffer.released (_output_buffer c') /\
        accepted (kernel_of c') (fd_of c) = stream c) \/
       (aborted c' /\ exists m, sent_so_far c c' (TcpBuffer.contents (_output_buffer c)) 0 m))
  | Err e =>
      e = OutOfFuel /\
      out_of_patience (TcpBuffer.contents (_output_buffer c)) (kernel_of c) (fd_of c)
  end.
Proof.
  destruct (live_marks3 _ Hl) as (Hs & Hr & Hb). unfold _write_event_callback.
  rewrite (live_running _ Hl), Hs. pose proof (flush_spec c Hl) as Hflush.
  destruct (flush_output cb c) as [[b c1] | e]; [| exact Hflush].
  destruct Hflush as [Hok | (-> & Hab & Hfd & m & Hm)].
  - destruct Hok as (k & o & -> & Hk & Ho & Hst & Hb1 & Hb2). destruct b; cbn [negb].
    + specialize (Hb1 eq_refl). rewrite Hb1, app_nil_r in Hst.
      destruct (finish_write_live (with_output o (with_kernel k c))) as (c' & E & Hfd & Hc); try done.
      * change (attached_ok (with_kernel k c)). by apply attached_with_kernel, Hl.
      * exact (live_running _ Hl).
      * exact (live_marks _ Hl).
      * exact (live_input _ Hl).
      * unfold finish_write in E. rewrite E. split; [done |].
        change (is_reading (with_output o (with_kernel k c))) with (is_reading c) in Hc.
        destruct (is_reading c); [left | right; left]; destruct Hc as (H1 & H2 & H3).
        -- split; [done |]. rewrite H2. split; [| done]. rewrite H3. unfold stream at 1. simpl.
           by rewrite Hb1, app_nil_r.
        -- split; [done |]. split; [done |]. split; [done |]. by etransitivity; [exact H3 |].
    + split; [done |]. left. split; [| split; [exact Hst |]].
      * apply live_with_output; [by apply live_kernel | done |].
        change (is_writing (with_kernel k c)) with (is_writing c). congruence.
      * change (is_writing (with_output o (with_kernel k c))) with (is_writing c). rewrite Hw. by apply Hb2.
  - destruct (finish_write_aborted c1 Hab) as [u E]. unfold finish_write in E. cbn [negb]. rewrite E.
    split; [done |]. right. right. split; [by apply aborted_outside | by exists m].
Qed.
End WithCallbacks.

(** The properties of the two sending operations, for a connection whose close and
    write-complete callbacks only touch state of their own. *)

(** C5: Everything handed to [send] reaches the stream at its end: accepted by the
    kernel or pending, in order and nothing twice - whatever the kernel answers to
    [send(2)], full buffers, broken pipes and failures included - on a connection
    whose close and write-complete callbacks touch only state of their own.  A
    connection that the peer broke ends up aborted, after a prefix of the data.
    There are two ways not to get there.  The append of what is left to the output
    buffer can be undefined: compacting with overlapping regions, if bytes were
    pending, or growing to a size the allocator of strings is undefined for.  And
    the loop goes on as long as the kernel reports errors other than those two:
    [send] returns unless they are more than the model follows, for any number
    chosen to follow. *)
Theorem send_spec (cb : callbacks conn) (close_passive : passive (_close_callback cb))
    (write_complete_passive : passive (_write_complete_callback cb)) data (c : conn) (Hl : live c)
    (Hsize : (Z.of_nat (TcpBuffer.capacity (_output_buffer c) + length data) < 2 ^ 60)%Z) :
  match send cb data c with
  | Ok c' =>
      fd_of c' = fd_of c /\
      ((live c' /\ stream c' = stream c ++ data) \/
       (aborted c' /\ exists m, sent_so_far c c' data 0 m))
  | Err UndefinedBehaviour =>
      if is_writing c then TcpBuffer.append_undefined (length data) (_output_buffer c) = true
      else exists n, n < length data /\
             TcpBuffer.growth_undefined (length data - n) (_output_buffer c) = true
  | Err OutOfFuel =>
      send_patience < send_errors (length data + send_patience) data 0 (kernel_of c) (fd_of c)
  | Err _ => False
  end.
Proof.
  pose proof (send_goes cb close_passive write_complete_passive data c Hl Hsize) as Hs.
  destruct (send cb data c) as [c' | e]; [exact Hs |].
  destruct Hs as [[-> Hs] | (-> & _ & Hs)]; exact Hs.
Qed.

(** C21: A write event sends pending bytes in order, on a connection whose close and
    write-complete callbacks touch only state of their own.  Either some are left and
    the event stays enabled; or none is, the event is disabled, and if the peer has
    finished sending too the write end is closed after the last byte; or the peer
    broke the connection, which is aborted after a prefix of them.  The event always
    ends in one of these ways, unless the kernel answers [send(2)] with more errors
    than the model follows, for any number chosen to follow: the loop retries as
    long as they go on. *)
Theorem write_event_spec (cb : callbacks conn) (close_passive : passive (_close_callback cb))
    (write_complete_passive : passive (_write_complete_callback cb)) (c : conn) (Hl : live c)
    (Hw : is_writing c = true) :
  match _write_event_callback cb c with
  | Ok c' =>
      fd_of c' = fd_of c /\
      ((live c' /\ stream c' = stream c /\
        if is_writing c' then TcpBuffer.contents (_output_buffer c') <> [] else is_reading c = true) \/
       (is_reading c = false /\ _is_write_end_shutdown c' = true /\
        TcpBuffer.released (_output_buffer c') /\
        accepted (kernel_of c') (fd_of c) = stream c) \/
       (aborted c' /\ exists m, sent_so_far c c' (TcpBuffer.contents (_output_buffer c)) 0 m))
  | Err e =>
      e = OutOfFuel /\
      let pending := TcpBuffer.contents (_output_buffer c) in
      send_patience < send_errors (length pending + send_patience) pending 0 (kernel_of c) (fd_of c)
  end.
Proof. exact (write_event_goes cb close_passive write_complete_passive c Hl Hw). Qed.
End Laws.

(** * A connection that the peer resets

    After a reset by the peer [epoll] reports [EPOLLHUP] together with
    [EPOLLIN], [recv] reports the end of the stream and [shutdown] fails with
    [ENOTCONN]. *)
Section Reset.
Set Default Proof Using "Type*".
Context {K X : Type} `{Epoll K} `{!EpollLaws K} `{Socket K} `{!SocketLaws K} {strings : StringAllocator}.
Abbreviation conn := (TcpConnectSocketfd K X nat).

(** Callbacks that count the runs of the close callback. *)
Definition counting (f : TimePoint.t -> conn -> result conn) : callbacks conn :=
  mkCallbacks (Some f) None (Some (fun c => Ok (with_outside (S (outside c)) c))).

Lemma counting_passive f : passive (_close_callback (counting f)).
Proof. intros g [= <-] c. by exists (S (outside c)). Qed.

(** The kernels in which the socket [fd] has been reset. *)
Record reset_by_peer (fd : Z) (gone : K -> Prop) : Prop := {
  gone_recv k : gone k -> exists k', sys_recv k fd _RECEIVE_DATA_SIZE = (RecvEof, k') /\ gone k';
  gone_shutdown k : gone k -> exists k', sys_shutdown_write k fd = (NotConnected, k');
  gone_ctl k op fd' ev k' : gone k -> epoll_ctl k op fd' ev = Some k' -> gone k';
  gone_errno k : gone k -> gone (get_socketfd_errno k fd)
}.

(** After the close callback: in nobody's loop, with [n] runs of the callback, and
    nothing else done. *)
Record hung_up (gone : K -> Prop) (fd : Z) (n : nat) (c : conn) : Prop := {
  hu_attached : attached_ok c;
  hu_fd : fd_of c = fd;
  hu_flags : is_reading c = false /\ is_writing c = false;
  hu_marks : (_is_write_end_shutdown c, _is_reset c, _is_abotrted c) = (false, false, false);
  hu_buffers : buffer_ok (_input_buffer c) /\ buffer_ok (_output_buffer c);
  hu_count : outside c = n;
  hu_gone : gone (kernel_of c)
}.

Lemma hung_up_kernel gone fd n k (c : conn) :
  kept (kernel_of c) k -> gone k -> hung_up gone fd n c -> hung_up gone fd n (with_kernel k c).
Proof. intros Hk Hg []. split; try done. by apply attached_with_kernel. Qed.

Lemma close_hangs_up gone f (c : conn) :
  live c -> reset_by_peer (fd_of c) gone -> gone (kernel_of c) ->
  exists c', _close_event_callback (counting f) c = Ok c' /\ hung_up gone (fd_of c) (S (outside c)) c'.
Proof.
  intros Hl Hgone Hnow. unfold _close_event_callback.
  destruct (descriptor_command Detach c (live_attached _ Hl)) as (d & p & E & Ha & Hfd & Hf & _ & _ & Hctl).
  change (run_command Detach) with (detach_from_poller (K := K)) in E. rewrite E.
  cbn [invoke _close_callback counting]. eexists. split; [done |].
  unfold flags, flags_after in Hf. injection Hf as Hf1 Hf2 Hf3. split; try done.
  - exact (live_marks _ Hl).
  - split; [apply Hl | left; apply Hl].
  - destruct Hctl as [E' | (op & fd' & ev & Ectl)]; [by rewrite <- E' in Hnow | by eapply gone_ctl].
Qed.

Lemma hung_up_read gone f time_stamp fuel fd n (c : conn) :
  reset_by_peer fd gone -> hung_up gone fd n c ->
  exists c', _read_event_callback (counting f) (S fuel) time_stamp c = Ok c' /\
    aborted c' /\ outside c' = S n.
Proof.
  intros Hgone [Ha <- [Hrd Hwr] Hm [Hin Hout] <- Hg]. injection Hm as Hsh Hre Hab.
  unfold _read_event_callback. cbn [_receive_all_data].
  destruct (gone_recv _ _ Hgone _ Hg) as (k & E & Hg1). rewrite E.
  destruct (recv_law _ _ _ _ _ E) as (Hk & _ & _). set (c1 := with_kernel k c).
  assert (Ed : descriptor disable_read_event c1 = Ok c1).
  { unfold descriptor, disable_read_event. change (_is_reading (_pollable_file_descriptor c1)) with (is_reading c).
    rewrite Hrd. by destruct c. }
  rewrite Ed. cbn [Nat.eqb]. change (is_reading c1) with (is_reading c). rewrite Hrd.
  set (c2 := with_input (TcpBuffer.release (_input_buffer c1)) c1).
  change (is_writing c2) with (is_writing c). rewrite Hwr.
  change (_is_write_end_shutdown c2) with (_is_write_end_shutdown c). rewrite Hsh. cbn [negb andb].
  unfold shutdown_write. change (_is_write_end_shutdown c2) with (_is_write_end_shutdown c). rewrite Hsh.
  change (fd_of c2) with (fd_of c). change (kernel_of c2) with k.
  destruct (gone_shutdown _ _ Hgone _ Hg1) as (k2 & E2). rewrite E2. destruct (shutdown_law _ _ _ _ E2) as (Hk2 & _).
  destruct (abort_spec (counting f) (counting_passive f) (with_kernel k2 c2)) as (c3 & E3 & Hab3 & _); try done.
  { apply attached_with_kernel; [done |]. change (attached_ok (with_kernel k c)). by apply attached_with_kernel. }
  { right. by apply released_release. }
  rewrite E3. exists c3. split; [done |]. split; [done |].
  destruct (abort_outside (counting f) (counting_passive f) _ _ E3) as [s Hs]. simpl in Hs. by injection Hs as <-.
Qed.

(** The close callback runs twice for one and the same connection: once for the
    close event, and once more when the read event of the same poll tries to
    close the write end and aborts. *)
Theorem reset_by_peer_closes_twice gone f time_stamp fuel active_events (c : conn)
    (Hl : live c)
    (Hclose : has_event active_events EVENT_TYPE_CLOSE = true)
    (Hread : has_event active_events EVENT_TYPE_READ = true)
    (Hgone : reset_by_peer (fd_of c) gone) (Hnow : gone (kernel_of c)) :
  exists c', dispatch (counting f) (S fuel) time_stamp active_events c = Ok c' /\
    outside c' = outside c + 2 /\ aborted c'.
Proof.
  unfold dispatch, dispatch_active_events, _dispatch_active_events, event_handlers. simpl. rewrite Hclose, Hread.
  destruct (close_hangs_up gone f c Hl Hgone Hnow) as (c1 & E1 & H1). unfold run_if at 1. rewrite E1.
  assert (H2 : exists c2, run_if (has_event active_events EVENT_TYPE_ERROR)
              (Some (fun c0 : conn => Ok (_error_event_callback c0))) c1 = Ok c2 /\
            hung_up gone (fd_of c) (S (outside c)) c2).
  { destruct (has_event active_events EVENT_TYPE_ERROR); [| by exists c1]. eexists. split; [done |].
    apply hung_up_kernel; [apply errno_law | | done]. rewrite (hu_fd _ _ _ _ H1).
    by apply gone_errno, H1. }
  destruct H2 as (c2 & -> & H2). unfold run_if at 1.
  destruct (hung_up_read gone f time_stamp fuel _ _ c2 Hgone H2) as (c3 & -> & Hab & Hout).
  exists c3. split; [| split; [lia | done]].
  unfold run_if. destruct (has_event active_events EVENT_TYPE_WRITE); [| done].
  unfold _write_event_callback. pose proof (ab_flags _ Hab) as Hfl. unfold flags in Hfl.
  injection Hfl as _ _ Hfl. unfold is_stopped. by rewrite Hfl.
Qed.
End Reset.

(** * A concrete kernel with one socket: the chunks left to receive and whether
    the peer has finished, the room of the send buffer, and the outcome of
    [shutdown]; nothing can be sent on a socket that is not connected. *)
#[export] Instance shutdown_result_eq_dec : EqDecision shutdown_result.
Proof. solve_decision. Defined.

Record sample_socket := mkSocket {
  s_kernel : sample_kernel;
  s_chunks : list bytes;
  s_finished : bool;
  s_room : nat;
  s_accepted : bytes;
  s_shutdown : shutdown_result
}.

Definition with_s_kernel (s : sample_socket) (k : sample_kernel) : sample_socket :=
  mkSocket k (s_chunks s) (s_finished s) (s_room s) (s_accepted s) (s_shutdown s).

(** The samples run on [std::string]. *)
#[local] Existing Instance std_strings.

#[export] Instance sample_socket_epoll : Epoll sample_socket := {
  epoll_ctl s op fd ev := with_s_kernel s <$> epoll_ctl (s_kernel s) op fd ev;
  sys_close s fd := with_s_kernel s <$> sys_close (s_kernel s) fd;
  opened s := opened (s_kernel s);
  interest s := interest (s_kernel s)
}.

#[export] Instance sample_socket_epoll_laws : EpollLaws sample_socket.
Proof.
  split; intros s fd; cbn -[epoll_ctl sys_close opened interest sample_epoll].
  - intros ev H1 H2. destruct (ctl_add (s_kernel s) fd ev H1 H2) as (k & E & ?).
    exists (with_s_kernel s k). simpl in *. by rewrite E.
  - intros ev H1. pose proof (ctl_add_exists (s_kernel s) fd ev H1) as E. simpl in *. by rewrite E.
  - intros ev H1 H2. destruct (ctl_mod (s_kernel s) fd ev H1 H2) as (k & E & ?).
    exists (with_s_kernel s k). simpl in *. by rewrite E.
  - intros ev H1. pose proof (ctl_mod_absent (s_kernel s) fd ev H1) as E. simpl in *. by rewrite E.
  - intros ev H1 H2. destruct (ctl_del (s_kernel s) fd ev H1 H2) as (k & E & ?).
    exists (with_s_kernel s k). simpl in *. by rewrite E.
  - intros ev H1. pose proof (ctl_del_absent (s_kernel s) fd ev H1) as E. simpl in *. by rewrite E.
  - intros H1. destruct (close_opened (s_kernel s) fd H1) as (k & E & ?).
    exists (with_s_kernel s k). simpl in *. by rewrite E.
Qed.

#[export] Instance sample_socket_calls : Socket sample_socket := {
  send_patience := 2;
  sys_recv s fd n :=
    match s_chunks s with
    | d :: ds =>
        if (0 <? length d) && (length d <=? n)
        then (RecvData d, mkSocket (s_kernel s) ds (s_finished s) (s_room s) (s_accepted s) (s_shutdown s))
        else (RecvAgain, s)
    | [] => (if s_finished s then RecvEof else RecvAgain, s)
    end;
  sys_send s fd d :=
    if decide (s_shutdown s = NotConnected) then (SendPipe, s)
    else if s_room s =? 0 then (SendAgain, s)
    else let n := Nat.min (s_room s) (length d) in
         (Sent n, mkSocket (s_kernel s) (s_chunks s) (s_finished s) (s_room s - n)
                    (s_accepted s ++ take n d) (s_shutdown s));
  sys_shutdown_write s fd := (s_shutdown s, s);
  set_linger s fd := Some s;
  get_socketfd_errno s fd := s;
  accepted s fd := s_accepted s
}.

#[export] Instance sample_socket_laws : SocketLaws sample_socket.
Proof.
  split; simpl; unfold kept.
  - intros s fd n r s'. destruct (s_chunks s) as [| d ds].
    + intros [= <- <-]. split; [done |]. split; [done |]. by destruct (s_finished s).
    + destruct (_ && _) eqn:E; intros [= <- <-]; [| done].
      apply andb_true_iff in E as [E1%Nat.ltb_lt E2%Nat.leb_le].
      split; [done |]. split; [done |]. by intros ? [= <-].
  - intros s fd d r s'. case_decide; [by intros [= <- <-] |].
    destruct (Nat.eqb_spec (s_room s) 0); intros [= <- <-]; simpl; [done |].
    split; [done |]. split; [lia |]. split; [| done].
    intros Hd. destruct d; [done | simpl; lia].
  - by intros s fd r s' [= <- <-].
  - intros s fd _. by exists s.
  - done.
  - intros s op fd' ev s' fd E. apply fmap_Some in E as (k & _ & ->). done.
  - intros s fd s' E. apply fmap_Some in E as (k & _ & ->). done.
Qed.

(** A connection on descriptor [5], registered for reading. *)
Definition sample_socket_state (room : nat) (chunks : list bytes) (finished : bool)
    (r : shutdown_result) : sample_socket :=
  mkSocket (mkKernel {[3%Z; 5%Z]} ∅) chunks finished room [] r.

Definition sample_callbacks {K} : callbacks (TcpConnectSocketfd K nat nat) :=
  counting (fun _ c => Ok c).

(** The connection after [cmds], with [out] pending. *)
Definition sample_conn (cmds : list fd_command) (out : TcpBuffer.t) (k : sample_socket)
    : result (TcpConnectSocketfd sample_socket nat nat) :=
  let* s := run_commands cmds (sample_fd, new_EventPoller k 16) in
  Ok (mkConn s.1 s.2 (TcpBuffer.new 0) out None false false false 0).

Lemma sample_conn_live cmds out room chunks finished r :
  TcpBuffer.wf out ->
  exists c, sample_conn cmds out (sample_socket_state room chunks finished r) = Ok c /\
    fd_of c = 5%Z /\ _input_buffer c = TcpBuffer.new 0 /\ _output_buffer c = out /\
    (is_stopped c = false -> (is_writing c = false -> TcpBuffer.contents out = []) -> live c).
Proof.
  intros Hout. set (k := sample_socket_state room chunks finished r).
  assert (Hm : mirror (sample_fd, new_EventPoller k 16) /\ poller_ok (new_EventPoller k 16)).
  { destruct sample_mirror as [(Hu & H1 & H2 & H3 & H4) [H5 H6]].
    split; [| by split]. split; [exact Hu |]. split; [by right |]. by split. }
  destruct Hm as [Hm Hp].
  destruct (run_commands_good cmds _ _ Hm Hp) as ([d p] & E & Hm' & Hp' & Hfd & _).
  unfold sample_conn. rewrite E. eexists. split; [done |]. split; [exact Hfd |].
  split; [done |]. split; [done |]. intros Hs Hw.
  split; try done. by left; apply TcpBuffer.new_wf.
Qed.

Lemma sample_close_passive : passive (K := sample_socket) (_close_callback sample_callbacks).
Proof. apply counting_passive. Qed.

Lemma sample_write_complete_passive :
  passive (K := sample_socket) (_write_complete_callback sample_callbacks).
Proof. by intros f. Qed.

(** Five bytes through a send buffer with room for three. *)
Lemma send_spec_witness :
  exists c c', sample_conn [EnableRead] (TcpBuffer.new 0)
                 (sample_socket_state 3 [] false ShutdownDone) = Ok c /\
    send sample_callbacks (str "hello") c = Ok c' /\ stream c' = str "hello" /\
    s_accepted (kernel_of c') = str "hel".
Proof.
  destruct (sample_conn_live [EnableRead] (TcpBuffer.new 0) 3 [] false ShutdownDone
              (TcpBuffer.new_wf 0)) as (c & E & _ & _ & Hout & Hl).
  assert (Hb : is_stopped c = false /\ is_writing c = false /\ s_accepted (kernel_of c) = [] /\
               match send sample_callbacks (str "hello") c with
               | Ok c' => s_accepted (kernel_of c') = str "hel" /\ _is_reset c' = false
               | Err _ => False
               end).
  { clear Hl Hout. vm_compute in E. injection E as <-. vm_compute. by repeat split. }
  destruct Hb as (H1 & H2 & H3 & H4).
  pose proof (send_spec sample_callbacks sample_close_passive
                sample_write_complete_passive (str "hello") c (Hl H1 (fun _ => eq_refl))
                ltac:(rewrite Hout; vm_compute; reflexivity)) as H.
  exists c. destruct (send sample_callbacks (str "hello") c) as [c' | e]; [| by destruct H4].
  exists c'. split; [exact E |]. split; [reflexivity |]. destruct H4 as [H4 H5].
  split; [| exact H4]. destruct H as (_ & [[_ H] | [H _]]).
  - rewrite H. unfold stream. rewrite Hout. cbn [accepted sample_socket_calls]. by rewrite H3.
  - pose proof (ab_marks _ H) as Hm. injection Hm as _ Hm _. congruence.
Defined.

Definition sample_pending : TcpBuffer.t := TcpBuffer.mk (str "lo") 15 0 (Some 0) 0 2.

Lemma sample_pending_wf : TcpBuffer.wf sample_pending.
Proof. split; simpl; try done; lia. Qed.

(** The last two bytes after the peer has finished: the write end is closed. *)
Lemma write_event_spec_witness :
  exists c c', sample_conn [EnableRead; EnableWrite; DisableRead] sample_pending
                 (sample_socket_state 9 [] false ShutdownDone) = Ok c /\
    _write_event_callback sample_callbacks c = Ok c' /\ _is_write_end_shutdown c' = true /\
    accepted (kernel_of c') (fd_of c) = stream c.
Proof.
  destruct (sample_conn_live [EnableRead; EnableWrite; DisableRead] sample_pending 9 [] false
              ShutdownDone sample_pending_wf) as (c & E & _ & _ & _ & Hl).
  assert (Hb : is_stopped c = false /\ is_writing c = true /\
               match _write_event_callback sample_callbacks c with
               | Ok c' => is_writing c' = false /\ _is_reset c' = false /\ is_reading c = false
               | Err _ => False
               end).
  { clear Hl. vm_compute in E. injection E as <-. vm_compute. by repeat split. }
  destruct Hb as (H1 & H2 & H4).
  pose proof (write_event_spec sample_callbacks sample_close_passive
                sample_write_complete_passive c (Hl H1 ltac:(congruence)) H2) as H.
  exists c. destruct (_write_event_callback sample_callbacks c) as [c' | e]; [| by destruct H4].
  destruct H4 as (H4 & H5 & H6), H as [_ H].
  exists c'. split; [exact E |]. split; [reflexivity |].
  destruct H as [(_ & _ & H) | [(_ & H7 & _ & H8) | [H _]]].
  - rewrite H4 in H. congruence.
  - exact (conj H7 H8).
  - pose proof (ab_marks _ H) as Hm. injection Hm as _ Hm _. congruence.
Defined.

Lemma half_close_spec_witness :
  exists c c', sample_conn [EnableRead] (TcpBuffer.new 0)
                 (sample_socket_state 3 [] true ShutdownDone) = Ok c /\
    _read_event_callback sample_callbacks 1 (TimePoint.mk 0) c = Ok c' /\
    _is_write_end_shutdown c' = true /\ TcpBuffer.released (_input_buffer c').
Proof.
  destruct (sample_conn_live [EnableRead] (TcpBuffer.new 0) 3 [] true ShutdownDone
              (TcpBuffer.new_wf 0)) as (c & E & Hfd & _ & _ & Hl).
  assert (Hb : is_stopped c = false /\ is_writing c = false /\ is_reading c = true /\
               s_chunks (kernel_of c) = [] /\ s_finished (kernel_of c) = true).
  { clear Hl Hfd. vm_compute in E. injection E as <-. vm_compute. by repeat split. }
  destruct Hb as (H1 & H2 & H3 & H4 & H5).
  assert (Hd : delivers (fd_of c) 1 (kernel_of c) [] (kernel_of c) true).
  { apply delivers_eof. simpl. by rewrite H4, H5. }
  destruct (half_close_spec sample_callbacks sample_close_passive
              sample_write_complete_passive 1 _ (TimePoint.mk 0) 1 c
              (Hl H1 (fun _ => eq_refl)) H3 Hd (le_n 1)) as (c' & E' & _ & _ & H6 & H7).
  rewrite H2 in H7. exists c, c'. split; [exact E |]. split; [exact E' |].
  exact (conj (proj1 H7) H6).
Defined.

(** Two chunks in one read event. *)
Lemma read_event_spec_witness :
  exists c c', sample_conn [EnableRead] (TcpBuffer.new 0)
                 (sample_socket_state 3 [str "GET "; str "/"] false ShutdownDone) = Ok c /\
    _read_event_callback sample_callbacks 3 (TimePoint.mk 0) c = Ok c' /\
    TcpBuffer.contents (_input_buffer c') = str "GET /".
Proof.
  destruct (sample_conn_live [EnableRead] (TcpBuffer.new 0) 3 [str "GET "; str "/"] false ShutdownDone
              (TcpBuffer.new_wf 0)) as (c & E & Hfd & Hin & _ & Hl).
  assert (Hb : is_stopped c = false /\ is_reading c = true /\
               s_chunks (kernel_of c) = [str "GET "; str "/"] /\ s_finished (kernel_of c) = false).
  { clear Hl Hfd Hin. vm_compute in E. injection E as <-. vm_compute. by repeat split. }
  destruct Hb as (H1 & H3 & H4 & H5).
  assert (Hd : exists k, delivers (fd_of c) 3 (kernel_of c) [str "GET "; str "/"] k false).
  { eexists. eapply delivers_data; [simpl; by rewrite H4 |].
    eapply delivers_data; [reflexivity |]. apply delivers_again. simpl. by rewrite H5. }
  destruct Hd as [k Hd].
  edestruct (read_event_spec sample_callbacks 3 k [str "GET "; str "/"] (TimePoint.mk 0) 3
               (fun _ c => Ok c)) as (_ & Hc & H & _);
    [exact (Hl H1 (fun _ => eq_refl)) | rewrite Hin; apply TcpBuffer.new_wf | exact H3 | exact Hd
    | exact (le_n 3) | discriminate | reflexivity | rewrite Hin; reflexivity | reflexivity |].
  rewrite Hin in Hc. eexists c, _. split; [exact E |].
  split; [apply H; [reflexivity | exact H3] | exact Hc].
Defined.

Lemma reset_by_peer_closes_twice_witness :
  exists c c', sample_conn [EnableRead] (TcpBuffer.new 0)
                 (sample_socket_state 3 [] true NotConnected) = Ok c /\
    dispatch sample_callbacks 1 (TimePoint.mk 0) 0x2019 c = Ok c' /\ outside c' = 2.
Proof.
  destruct (sample_conn_live [EnableRead] (TcpBuffer.new 0) 3 [] true NotConnected
              (TcpBuffer.new_wf 0)) as (c & E & Hfd & _ & _ & Hl).
  assert (Hb : is_stopped c = false /\ outside c = 0 /\ s_chunks (kernel_of c) = [] /\
               s_finished (kernel_of c) = true /\ s_shutdown (kernel_of c) = NotConnected).
  { clear Hl Hfd. vm_compute in E. injection E as <-. vm_compute. by repeat split. }
  destruct Hb as (H1 & H2 & H3).
  edestruct (reset_by_peer_closes_twice
               (fun k => s_chunks k = [] /\ s_finished k = true /\ s_shutdown k = NotConnected)
               (fun _ c => Ok c) (TimePoint.mk 0) 0 0x2019 c
               (Hl H1 (fun _ => eq_refl)) eq_refl eq_refl) as (c' & E' & Ho & _).
  - split.
    + intros k (H4 & H5 & H6). exists k. simpl. by rewrite H4, H5.
    + intros k (H4 & H5 & H6). exists k. simpl. by rewrite H6.
    + intros k op fd' ev k' Hk Ek. apply fmap_Some in Ek as (x & _ & ->). exact Hk.
    + done.
  - exact H3.
  - exists c, c'. split; [exact E |]. split; [exact E' |]. rewrite Ho, H2. reflexivity.
Defined.
