(* ===== verification/Echo.v ===== *)
(** The echo example: [src/example/echo/server/server.cc],
    [src/example/echo/client/client.cc], [src/example/echo/client/src/stdinfd.cc].

    The server sends every complete line back, the client prints the lines that come
    back, and a descriptor of standard input feeds the connection of the client.  Both
    programs set the log level to [FATAL], so the arguments of their [LOG_DEBUG]
    statements are never evaluated. *)
From S2P Require Import Prelude TimePoint TcpBuffer Poller Descriptors TcpConnectSocketfd.
Open Scope nat_scope.

(** * Lines

    The complete lines at the beginning of the bytes, each with its newline, and what
    is left. *)
Fixpoint split_lines (l : bytes) : bytes * bytes :=
  match l with
  | [] => ([], [])
  | c :: l =>
      let '(whole, rest) := split_lines l in
      if decide (c = LF \/ whole <> []) then (c :: whole, rest) else ([], c :: rest)
  end.

(** ** The server *)
Section Server.
Context {K X U : Type} `{Epoll K} `{Socket K} {strings : StringAllocator}.
Abbreviation conn := (TcpConnectSocketfd K X U).
Context (cb : callbacks conn).

(** The message ends with its newline. *)
Definition client_message (newline_position : nat) (b : TcpBuffer.t) : bytes :=
  slice (TcpBuffer._buffer b) (TcpBuffer._read_offset b) (newline_position + 1).

Definition client_message_length (newline_position : nat) (b : TcpBuffer.t) : Z :=
  Z.of_nat (newline_position + 1 - TcpBuffer._read_offset b).

Fixpoint message_callback (fuel : nat) (c : conn) : result conn :=
  match fuel with
  | O => Err OutOfFuel
  | S fuel =>
      let* newline_position := TcpBuffer.get_next_newline_position (_input_buffer c) in
      match newline_position with
      | None => Ok c
      | Some newline_position =>
          let message := client_message newline_position (_input_buffer c) in
          let message_length := client_message_length newline_position (_input_buffer c) in
          let* c := send cb message c in
          let input_buffer := TcpBuffer.forward_read_position message_length (_input_buffer c) in
          message_callback fuel (with_input input_buffer c)
      end
  end.
End Server.

(** ** The client *)

(** [cout]: the bytes printed. *)
Fixpoint client_message_callback (fuel : nat) (input_buffer : TcpBuffer.t) (cout : bytes)
    : result (TcpBuffer.t * bytes) :=
  match fuel with
  | O => Err OutOfFuel
  | S fuel =>
      let* newline_position := TcpBuffer.get_next_newline_position input_buffer in
      match newline_position with
      | None => Ok (input_buffer, cout)
      | Some newline_position =>
          let server_message := client_message newline_position input_buffer in
          let server_message_length := client_message_length newline_position input_buffer in
          client_message_callback fuel
            (TcpBuffer.forward_read_position server_message_length input_buffer)
            (cout ++ server_message)
      end
  end.

(** ** Standard input

    [read] reads at most [STDIN_BUFFER] bytes from it; [cout] is a mark printed by the
    constructor's [start] and by the destructor. *)
Inductive stdin_read := StdinData (buffer : bytes) | StdinClosed | StdinAgain | StdinError.

#[export] Instance stdin_read_eq_dec : EqDecision stdin_read.
Proof. solve_decision. Defined.

Definition STDIN_FILENO : Z := 0.
Definition STDIN_BUFFER : nat := 256.

Definition session_begin : bytes := str "---------------- Session Begin ----------------" ++ [LF].
Definition session_end : bytes := str "----------------- Session End -----------------" ++ [LF].

Section Stdin.
Context {K X U I : Type} `{Epoll K} `{Socket K} `{!Descriptors K} {strings : StringAllocator}.
Abbreviation conn := (TcpConnectSocketfd K X U).
Context (cb : callbacks conn) (read : I -> nat -> stdin_read * I).

(** [Stdinfd::Stdinfd]: an edge-triggered, non-blocking descriptor. *)
Definition new_Stdinfd (self : Z) (k : K) : result (PollableFd * K) :=
  construct_PollableFd self STDIN_FILENO true true k.

Definition stdinfd_start (s : PollableFd * EventPoller K) (cout : bytes)
    : result (PollableFd * EventPoller K * bytes) :=
  let* s := enable_read_event s in Ok (s, cout ++ session_begin).

Definition delete_Stdinfd (s : PollableFd * EventPoller K) (cout : bytes)
    : result (PollableFd * EventPoller K * bytes) :=
  let* s := detach_from_poller s in
  let cout := cout ++ session_end in
  let* s := close_fd s in
  Ok (s, cout).

(** The loop of [_read_event_callback]. *)
Fixpoint forward_stdin (fuel : nat) (i : I) (c : conn) : result (I * conn) :=
  match fuel with
  | O => Err OutOfFuel
  | S fuel =>
      match read i STDIN_BUFFER with
      | (StdinData buffer, i) => let* c := send cb buffer c in forward_stdin fuel i c
      | (StdinClosed, i) => Err Fatal
      | (StdinAgain, i) => Ok (i, c)
      | (StdinError, i) => Err Fatal
      end
  end.

(** The connection that [_tcp_connect_socketfd_weak_ptr] still leads to, or, when it is
    gone, the poller alone. *)
Definition stdinfd_read_event_callback (fuel : nat) (d : PollableFd) (i : I)
    (connection : conn + EventPoller K) : result (PollableFd * I * (conn + EventPoller K)) :=
  match connection with
  | inr p => let* (d, p) := disable_read_event (d, p) in Ok (d, i, inr p)
  | inl c => let* (i, c) := forward_stdin fuel i c in Ok (d, i, inl c)
  end.
End Stdin.

(** * What [split_lines] computes *)
Definition whole_lines (l : bytes) : bytes := (split_lines l).1.
Definition unfinished_line (l : bytes) : bytes := (split_lines l).2.

Lemma split_lines_cons c l :
  split_lines (c :: l) =
  if decide (c = LF \/ whole_lines l <> []) then (c :: whole_lines l, unfinished_line l)
  else ([], c :: unfinished_line l).
Proof. unfold whole_lines, unfinished_line. simpl. by destruct (split_lines l). Qed.

Lemma whole_lines_cons c l :
  whole_lines (c :: l) = if decide (c = LF \/ whole_lines l <> []) then c :: whole_lines l else [].
Proof. unfold whole_lines at 1. rewrite split_lines_cons. by case_decide. Qed.

Lemma unfinished_line_cons c l :
  unfinished_line (c :: l)
  = if decide (c = LF \/ whole_lines l <> []) then unfinished_line l else c :: unfinished_line l.
Proof. unfold unfinished_line at 1. rewrite split_lines_cons. by case_decide. Qed.

Lemma split_lines_app l : l = whole_lines l ++ unfinished_line l.
Proof.
  induction l as [| c l IH]; [done |]. unfold whole_lines, unfinished_line in IH |- *. simpl.
  destruct (split_lines l) as [whole rest]. simpl in IH. case_decide as Hd; simpl; f_equal; [done |].
  destruct whole; [done |]. destruct Hd. by right.
Qed.

Lemma no_newline_unsplit l : newline_index l = None -> split_lines l = ([], l).
Proof.
  induction l as [| c l IH]; [done |]. simpl. case_decide as Hd; [done |].
  destruct (newline_index l); [done |]. intros _. rewrite IH by done.
  rewrite decide_False; [done |]. naive_solver.
Qed.

Lemma unfinished_no_newline l : newline_index (unfinished_line l) = None.
Proof.
  unfold unfinished_line. induction l as [| c l IH]; [done |].
  rewrite split_lines_cons. case_decide as Hd; simpl; [done |].
  rewrite decide_False by naive_solver. unfold unfinished_line. by rewrite IH.
Qed.

(** The first line is one of the complete lines. *)
Lemma split_first_line l k :
  newline_index l = Some k ->
  whole_lines l = take (S k) l ++ whole_lines (drop (S k) l) /\
  unfinished_line l = unfinished_line (drop (S k) l) /\ S k <= length l.
Proof.
  revert k. induction l as [| c l IH]; [done |]. intros k. simpl newline_index.
  unfold whole_lines at 1, unfinished_line at 1. rewrite split_lines_cons.
  case_decide as Hc.
  - intros [= <-]. rewrite decide_True by by left. simpl. split; [done |]. split; [done | lia].
  - destruct (newline_index l) as [j |]; [| done]. intros [= <-].
    destruct (IH j eq_refl) as (Hw & Hr & Hl). rewrite decide_True.
    + simpl. rewrite Hw, Hr. split; [done |]. split; [done | lia].
    + right. rewrite Hw. destruct l; [simpl in Hl; lia | done].
Qed.

(** Bytes that come later continue the unfinished line. *)
Lemma split_lines_later l m :
  whole_lines (l ++ m) = whole_lines l ++ whole_lines (unfinished_line l ++ m) /\
  unfinished_line (l ++ m) = unfinished_line (unfinished_line l ++ m).
Proof.
  induction l as [| c l [IH1 IH2]]; [done |]. rewrite <- app_comm_cons.
  rewrite !whole_lines_cons, !unfinished_line_cons, IH1, IH2.
  destruct (decide (c = LF \/ whole_lines l <> [])) as [Hd | Hd].
  - assert (Hd' : c = LF \/ whole_lines l ++ whole_lines (unfinished_line l ++ m) <> []).
    { destruct Hd as [| Hd]; [by left | right]. intros [E _]%app_nil. by apply Hd. }
    by rewrite !(decide_True _ _ Hd').
  - destruct (whole_lines l) eqn:El; [| destruct Hd; by right]. simpl.
    by rewrite whole_lines_cons, unfinished_line_cons.
Qed.

(** There is nothing unfinished in the complete lines. *)
Lemma split_whole_lines l : split_lines (whole_lines l) = (whole_lines l, []).
Proof.
  induction l as [| c l IH]; [done |]. rewrite whole_lines_cons. case_decide as Hd; [| done].
  simpl. rewrite IH. case_decide as Hd'; [done |].
  destruct Hd'. destruct Hd as [| Hd]; [by left | by right].
Qed.

(** The first line in a buffer in use, and the buffer once it is read. *)
Lemma first_message b k :
  TcpBuffer.wf b -> newline_index (TcpBuffer.contents b) = Some k ->
  TcpBuffer.get_next_newline_position b = Ok (Some (TcpBuffer._read_offset b + k)) /\
  client_message (TcpBuffer._read_offset b + k) b = take (S k) (TcpBuffer.contents b) /\
  client_message_length (TcpBuffer._read_offset b + k) b = Z.of_nat (S k) /\
  S k <= length (TcpBuffer.contents b).
Proof.
  intros Hwf Hk. destruct (split_first_line _ _ Hk) as (_ & _ & Hle).
  pose proof (TcpBuffer.length_contents _ Hwf) as Hlen.
  rewrite TcpBuffer.get_next_newline_ok, Hk by done. split; [done |].
  unfold client_message, client_message_length, TcpBuffer.contents, slice in *.
  split; [| split; [f_equal; lia | done]].
  rewrite take_take. f_equal. lia.
Qed.

(** * The client *)

(** The loop of the client. *)
Lemma client_loop fuel b cout :
  TcpBuffer.wf b -> length (TcpBuffer.contents b) < fuel ->
  exists b', client_message_callback fuel b cout
             = Ok (b', cout ++ whole_lines (TcpBuffer.contents b)) /\
    TcpBuffer.wf b' /\ TcpBuffer.contents b' = unfinished_line (TcpBuffer.contents b).
Proof.
  revert b cout. induction fuel as [| fuel IH]; intros b cout Hwf Hfuel; [lia |].
  cbn [client_message_callback].
  destruct (newline_index (TcpBuffer.contents b)) as [k |] eqn:Ek.
  - destruct (first_message b k Hwf Ek) as (-> & Hm & Hl & Hle). cbn [mbind result_bind]. rewrite Hm, Hl.
    destruct (TcpBuffer.forward_wf (S k) b Hwf Hle) as [Hwf' Hc'].
    destruct (split_first_line _ _ Ek) as (Hw & Hu & _).
    destruct (IH (TcpBuffer.forward_read_position (Z.of_nat (S k)) b)
                (cout ++ take (S k) (TcpBuffer.contents b)) Hwf') as (b' & E & Hwf2 & Hc2).
    { rewrite Hc', length_drop. lia. }
    exists b'. rewrite E, Hc', <- app_assoc, <- Hw. split; [done |]. split; [done |].
    by rewrite Hc2, Hc', <- Hu.
  - rewrite TcpBuffer.get_next_newline_ok, Ek by done. simpl. exists b.
    unfold whole_lines, unfinished_line. rewrite no_newline_unsplit by done. simpl.
    by rewrite app_nil_r.
Qed.

(** The client prints the complete lines it has received, and nothing else; what
    is left of them stays in its buffer until more bytes come. *)
Theorem client_prints_lines fuel b cout
    (Hwf : TcpBuffer.wf b) (Hfuel : length (TcpBuffer.contents b) < fuel) :
  exists b', client_message_callback fuel b cout
             = Ok (b', cout ++ whole_lines (TcpBuffer.contents b)) /\
    TcpBuffer.wf b' /\ TcpBuffer.contents b' = unfinished_line (TcpBuffer.contents b).
Proof. by apply client_loop. Qed.

(** * The server and standard input *)
Section Laws.
Set Default Proof Using "Type*".
Context {K X U : Type} `{Epoll K} `{!EpollLaws K} `{Socket K} `{!SocketLaws K}
  {strings : StringAllocator}.
Abbreviation conn := (TcpConnectSocketfd K X U).
Context (cb : callbacks conn).
Hypothesis close_passive : passive (TcpConnectSocketfd._close_callback cb).
Hypothesis write_complete_passive : passive (TcpConnectSocketfd._write_complete_callback cb).

(** The output buffer stays far below the size of the address space while [n] more
    bytes are sent. *)
Definition room_for (n : nat) (c : conn) : Prop :=
  (Z.of_nat (TcpBuffer.capacity (_output_buffer c)) < 2 ^ 59)%Z /\
  (2 * Z.of_nat (length (TcpBuffer.contents (_output_buffer c)) + n) < 2 ^ 59)%Z.

(** [data] is at the end of the stream, or the peer broke the connection. *)
Definition delivered (data : bytes) (c c' : conn) : Prop :=
  fd_of c' = fd_of c /\ ((live c' /\ stream c' = stream c ++ data) \/ aborted c').

Lemma delivered_nil (c : conn) : live c -> delivered [] c c.
Proof using Type. intros Hl. split; [done |]. left. by rewrite app_nil_r. Qed.

Lemma live_not_aborted (c : conn) : live c -> aborted c -> False.
Proof using Type.
  intros Hl Ha. pose proof (live_marks _ Hl) as E. rewrite (ab_marks _ Ha) in E. done.
Qed.

Lemma delivered_app d e (c c1 c2 : conn) :
  live c1 -> delivered d c c1 -> delivered e c1 c2 -> delivered (d ++ e) c c2.
Proof using Type.
  intros Hl [Hf1 H1] [Hf2 H2]. split; [congruence |].
  destruct H1 as [[_ H1] | H1]; [| by destruct (live_not_aborted _ Hl H1)].
  destruct H2 as [[Hl2 H2] | H2]; [left | by right]. by rewrite H2, H1, app_assoc.
Qed.

(** One [send] of [d], which is part of [n] bytes. *)
Lemma send_step d n c :
  live c -> length d <= n -> room_for n c ->
  match send cb d c with
  | Ok c' => delivered d c c' /\ input_offsets c' = input_offsets c /\
             (live c' -> same_input c c' /\ room_for (n - length d) c')
  | Err e => send_fails d c e
  end.
Proof.
  intros Hl Hn [Hr1 Hr2].
  assert (Hf : fits d c) by (unfold fits; lia).
  pose proof (send_goes cb close_passive write_complete_passive d c Hl Hf) as Hg.
  destruct (send cb d c) as [c' | e] eqn:E; [| exact Hg].
  split; [| split].
  - destruct Hg as [Hfd [Hg | [Hg _]]]; split; try done; [by left | by right].
  - by eapply send_offsets.
  - intros Hl'. destruct (live_marks3 _ Hl') as (_ & _ & Hb).
    split; [by eapply send_input |].
    destruct (send_room cb close_passive write_complete_passive d c c' Hl E Hl') as [H1 H2].
    specialize (H2 Hf). split; lia.
Qed.

Lemma live_with_input b (c : conn) : live c -> TcpBuffer.wf b -> live (with_input b c).
Proof using Type. intros [] Hb. split; try done. by left. Qed.

(** Once the connection is broken, the loop ends at once, or goes through the null
    pointer of the input buffer if bytes are left in it. *)
Lemma echo_aborted fuel n (c : conn) :
  aborted c ->
  message_callback cb (S fuel) (with_input (TcpBuffer.forward_read_position n (_input_buffer c)) c)
  = if TcpBuffer._write_offset (_input_buffer c)
       <=? TcpBuffer._read_offset (TcpBuffer.forward_read_position n (_input_buffer c))
    then Ok (with_input (TcpBuffer.forward_read_position n (_input_buffer c)) c)
    else Err UndefinedBehaviour.
Proof using Type.
  intros Ha. cbn [message_callback]. rewrite TcpBuffer.get_next_newline_released by apply Ha.
  simpl. by destruct (_ <=? _).
Qed.

(** Why the echo of [todo] went wrong: the peer broke the connection while bytes were
    left, or the [send] of a line failed. *)
Definition echo_fails (todo : bytes) (c : conn) (e : failure) : Prop :=
  exists sent more c1, todo = sent ++ more /\ more <> [] /\ delivered sent c c1 /\
    ((e = UndefinedBehaviour /\ aborted c1) \/
     exists k, newline_index more = Some k /\ send_fails (take (S k) more) c1 e).

Lemma aborted_with_input n (c : conn) :
  aborted c -> aborted (with_input (TcpBuffer.forward_read_position n (_input_buffer c)) c).
Proof using Type. intros []. by split. Qed.

Lemma echo_broken fuel k (c c1 : conn) (l := TcpBuffer.contents (_input_buffer c)) :
  TcpBuffer.wf (_input_buffer c) -> newline_index l = Some k ->
  delivered (take (S k) l) c c1 -> aborted c1 -> input_offsets c1 = input_offsets c ->
  match message_callback cb (S fuel)
          (with_input (TcpBuffer.forward_read_position (Z.of_nat (S k)) (_input_buffer c1)) c1) with
  | Ok c' => delivered (whole_lines l) c c' /\ aborted c' /\ unfinished_line l = []
  | Err e => echo_fails l c e
  end.
Proof using Type.
  intros Hwf Ek Hd Hab Hoff. unfold input_offsets in Hoff. injection Hoff as Hor How.
  destruct (split_first_line l k Ek) as (Hw & Hu & Hle).
  rewrite echo_aborted by done. simpl. rewrite Hor, How.
  pose proof (TcpBuffer.length_contents _ Hwf) as Hlc. fold l in Hlc. destruct Hwf as [_ Hr Hwr Hcap Hsz].
  unfold TcpBuffer.size_add. rewrite u64_small by lia.
  destruct (Nat.leb_spec (TcpBuffer._write_offset (_input_buffer c))
              (Nat.min (Z.to_nat (Z.of_nat (TcpBuffer._read_offset (_input_buffer c)) + Z.of_nat (S k)))
                 (TcpBuffer._write_offset (_input_buffer c)))) as [Hend | Hend].
  - assert (Hnil : drop (S k) l = []) by (apply drop_ge; lia).
    rewrite Hw, Hu, Hnil. unfold whole_lines, unfinished_line. simpl. rewrite app_nil_r.
    split; [split; [apply Hd | right; by apply aborted_with_input] |].
    split; [by apply aborted_with_input | done].
  - exists (take (S k) l), (drop (S k) l), c1. rewrite take_drop.
    split; [done |]. split; [| split; [done | by left]].
    intros E. apply (f_equal length) in E. rewrite length_drop in E. simpl in E. lia.
Qed.

Lemma echo_loop fuel c :
  live c -> TcpBuffer.wf (_input_buffer c) ->
  length (TcpBuffer.contents (_input_buffer c)) < fuel ->
  room_for (length (TcpBuffer.contents (_input_buffer c))) c ->
  match message_callback cb fuel c with
  | Ok c' =>
      delivered (whole_lines (TcpBuffer.contents (_input_buffer c))) c c' /\
      (live c' -> TcpBuffer.wf (_input_buffer c') /\ context c' = context c /\
        TcpBuffer.contents (_input_buffer c') = unfinished_line (TcpBuffer.contents (_input_buffer c))) /\
      (aborted c' -> unfinished_line (TcpBuffer.contents (_input_buffer c)) = [])
  | Err e => echo_fails (TcpBuffer.contents (_input_buffer c)) c e
  end.
Proof.
  revert c. induction fuel as [| fuel IH]; intros c Hl Hwf Hfuel Hroom; [lia |].
  cbn [message_callback]. set (l := TcpBuffer.contents (_input_buffer c)) in *.
  destruct (newline_index l) as [k |] eqn:Ek.
  2: { rewrite TcpBuffer.get_next_newline_ok by done. fold l. rewrite Ek. simpl.
       unfold whole_lines, unfinished_line. rewrite no_newline_unsplit by done. simpl.
       split; [by apply delivered_nil |]. split; [done |]. intros Ha. by destruct (live_not_aborted c). }
  destruct (first_message _ k Hwf Ek) as (-> & Hm & Hlen & Hle). fold l in Hm, Hle.
  cbn [mbind result_bind]. rewrite Hm, Hlen.
  destruct (split_first_line l k Ek) as (Hw & Hu & _).
  assert (Htl : length (take (S k) l) = S k) by (rewrite length_take; lia).
  pose proof (send_step (take (S k) l) (length l) c Hl ltac:(lia) Hroom) as Hs.
  rewrite Htl in Hs. destruct (send cb (take (S k) l) c) as [c1 | e].
  2: { exists [], l, c. split; [done |].
       split; [by intros E; rewrite E in Ek |]. split; [by apply delivered_nil |]. right. by exists k. }
  destruct Hs as (Hd & Hoff & Hlive). cbn [mbind result_bind].
  destruct (proj2 Hd) as [[Hl1 _] | Hab].
  - (* the line is sent: the rest of the buffer *)
    destruct (Hlive Hl1) as [(Hctx & Hi & _) Hroom1]. rewrite Hi.
    destruct (TcpBuffer.forward_wf (S k) _ Hwf Hle) as [Hwf' Hc']. fold l in Hc'.
    set (b' := TcpBuffer.forward_read_position (Z.of_nat (S k)) (_input_buffer c)) in *.
    pose proof (live_with_input b' _ Hl1 Hwf') as Hl2.
    assert (Hd2 : delivered (take (S k) l) c (with_input b' c1)).
    { split; [apply Hd |]. left. split; [done |]. destruct Hd as [_ [[_ Hd] | Hd]]; [exact Hd |].
      by destruct (live_not_aborted c1). }
    specialize (IH (with_input b' c1) Hl2 Hwf'). cbn [_input_buffer with_input] in IH.
    rewrite Hc', length_drop in IH. specialize (IH ltac:(lia) Hroom1).
    destruct (message_callback cb fuel (with_input b' c1)) as [c2 | e].
    + destruct IH as (H1 & H2 & H3). rewrite Hw, Hu. split; [by eapply delivered_app |].
      split; [| done]. intros Hl3. destruct (H2 Hl3) as (? & Hx & ?). cbn [context with_input] in Hx.
      by rewrite Hx, Hctx.
    + destruct IH as (sent & more & c3 & E1 & E2 & E3 & E4).
      exists (take (S k) l ++ sent), more, c3. rewrite <- app_assoc, <- E1, take_drop.
      split; [done |]. split; [done |]. split; [by eapply delivered_app | done].
  - destruct fuel as [| fuel]; [lia |].
    pose proof (echo_broken fuel k c c1 Hwf Ek Hd Hab Hoff) as Hb. fold l in Hb.
    destruct (message_callback cb (S fuel) _) as [c2 |]; [| done].
    destruct Hb as (H1 & H2 & H3). split; [done |]. split; [| done].
    intros Hl3. by destruct (live_not_aborted _ Hl3 H2).
Qed.

(** A peer that sends more than one line, and is found gone when the first is sent
    back, makes the server look for the next line through a null pointer. *)
Theorem broken_echo_undefined fuel k kernel' c
    (Hl : live c) (Hwf : TcpBuffer.wf (_input_buffer c)) (Hidle : is_writing c = false)
    (Hk : newline_index (TcpBuffer.contents (_input_buffer c)) = Some k)
    (Hmore : S k < length (TcpBuffer.contents (_input_buffer c)))
    (Hpipe : sys_send (kernel_of c) (fd_of c) (take (S k) (TcpBuffer.contents (_input_buffer c)))
             = (SendPipe, kernel')) :
  message_callback cb (S (S fuel)) c = Err UndefinedBehaviour.
Proof.
  destruct (first_message _ k Hwf Hk) as (E1 & E2 & E3 & Hle).
  remember (S fuel) as next eqn:Enext. cbn [message_callback]. rewrite E1. cbn [mbind result_bind]. rewrite E2, E3.
  set (l := TcpBuffer.contents (_input_buffer c)) in *.
  destruct (live_marks3 _ Hl) as (_ & Hr & Hb).
  assert (Hlen : length (take (S k) l) = S k) by (rewrite length_take; lia).
  destruct (send_law _ _ _ _ _ Hpipe) as [Hkept _].
  destruct (abort_spec cb close_passive (with_kernel kernel' c))
    as (c1 & Ea & Hab & Hfd & _); [| done .. | by apply Hl | by left; apply Hl |].
  { apply attached_with_kernel; [done | apply Hl]. }
  assert (Es : send cb (take (S k) l) c = invoke (_write_complete_callback cb) c1).
  { unfold send, _send_as_many_data, send_fuel. rewrite (live_running _ Hl), Hidle, Hlen.
    clear - Hlen Hpipe Ea. revert Hlen Hpipe. generalize (take (S k) l). intros data Hlen Hpipe.
    cbn [Nat.eqb Nat.add send_loop]. rewrite Hlen. cbn [Nat.leb]. rewrite drop_0, Hpipe, Ea.
    cbn [mbind result_bind]. by rewrite Nat.eqb_refl. }
  destruct (invoke_passive _ c1 write_complete_passive) as [u Eu]. rewrite Es, Eu.
  cbn [mbind result_bind].
  assert (Hab2 : aborted (with_outside u c1)) by (by destruct Hab; split).
  rewrite Enext, (echo_aborted fuel _ _ Hab2).
  assert (Hoff : input_offsets c1 = input_offsets c).
  { change (input_offsets c) with (input_offsets (with_kernel kernel' c)).
    by eapply abort_offsets. }
  unfold input_offsets in Hoff. injection Hoff as Hor How. simpl. rewrite Hor, How.
  pose proof (TcpBuffer.length_contents _ Hwf) as Hlc. fold l in Hlc. destruct Hwf as [_ Hr' Hwr Hcap Hsz].
  unfold TcpBuffer.size_add. rewrite u64_small by lia.
  destruct (Nat.leb_spec (TcpBuffer._write_offset (_input_buffer c))
              (Nat.min (Z.to_nat (Z.of_nat (TcpBuffer._read_offset (_input_buffer c)) + Z.of_nat (S k)))
                 (TcpBuffer._write_offset (_input_buffer c)))); [lia | done].
Qed.

(** How the bytes arrive does not matter: lines that are cut in two are sent back as
    if all bytes had come at once. *)
Theorem echo_in_pieces fuel1 fuel2 later c c1 b c2
    (Hl : live c) (Hwf : TcpBuffer.wf (_input_buffer c))
    (Hfuel1 : length (TcpBuffer.contents (_input_buffer c)) < fuel1)
    (Hroom1 : room_for (length (TcpBuffer.contents (_input_buffer c))) c)
    (H1 : message_callback cb fuel1 c = Ok c1) (Hl1 : live c1)
    (Hb : TcpBuffer.append later (_input_buffer c1) = Ok b)
    (Hsize : (Z.of_nat (TcpBuffer.capacity (_input_buffer c1) + length later) < 2 ^ 60)%Z)
    (Hfuel2 : length (TcpBuffer.contents b) < fuel2)
    (Hroom2 : room_for (length (TcpBuffer.contents b)) c1)
    (H2 : message_callback cb fuel2 (with_input b c1) = Ok c2) (Hl2 : live c2) :
  stream c2 = stream c ++ whole_lines (TcpBuffer.contents (_input_buffer c) ++ later) /\
  TcpBuffer.contents (_input_buffer c2)
  = unfinished_line (TcpBuffer.contents (_input_buffer c) ++ later).
Proof.
  pose proof (echo_loop fuel1 c Hl Hwf Hfuel1 Hroom1) as E1. rewrite H1 in E1.
  destruct E1 as (Hd1 & Hin1 & _). destruct (Hin1 Hl1) as (Hwf1 & _ & Hc1).
  pose proof (TcpBuffer.append_ok later _ Hwf1 Hsize) as Ha. rewrite Hb in Ha.
  destruct (TcpBuffer.append_undefined _ _); [done |]. destruct Ha as (b' & [= <-] & Hwfb & Hcb).
  pose proof (echo_loop fuel2 (with_input b c1) (live_with_input _ _ Hl1 Hwfb) Hwfb Hfuel2 Hroom2) as E2.
  rewrite H2 in E2. destruct E2 as (Hd2 & Hin2 & _). destruct (Hin2 Hl2) as (_ & _ & Hc2).
  cbn [_input_buffer with_input] in Hc2, Hd2. rewrite Hcb, Hc1 in Hc2, Hd2.
  destruct (split_lines_later (TcpBuffer.contents (_input_buffer c)) later) as [-> ->].
  split; [| done].
  destruct Hd2 as [_ [[_ Hs2] | Ha]]; [| by destruct (live_not_aborted _ Hl2 Ha)].
  destruct Hd1 as [_ [[_ Hs1] | Ha]]; [| by destruct (live_not_aborted _ Hl1 Ha)].
  change (stream (with_input b c1)) with (stream c1) in Hs2. by rewrite Hs2, Hs1, app_assoc.
Qed.

(** From the bytes the server has received to those the client prints: once the
    stream of the server has reached the client's buffer, exactly the complete lines
    have been printed, and nothing is left there. *)
Theorem echo_round_trip fuel fuel' c c' b cout
    (Hl : live c) (Hfresh : stream c = []) (Hwf : TcpBuffer.wf (_input_buffer c))
    (Hfuel : length (TcpBuffer.contents (_input_buffer c)) < fuel)
    (Hroom : room_for (length (TcpBuffer.contents (_input_buffer c))) c)
    (Hserver : message_callback cb fuel c = Ok c') (Hl' : live c')
    (Hb : TcpBuffer.wf b) (Hsent : TcpBuffer.contents b = stream c')
    (Hfuel' : length (TcpBuffer.contents b) < fuel') :
  exists b', client_message_callback fuel' b cout
             = Ok (b', cout ++ whole_lines (TcpBuffer.contents (_input_buffer c))) /\
    TcpBuffer.contents b' = [].
Proof.
  pose proof (echo_loop fuel c Hl Hwf Hfuel Hroom) as E. rewrite Hserver in E.
  destruct E as ([_ [[_ Hs] | Ha]] & _); [| by destruct (live_not_aborted _ Hl' Ha)].
  rewrite Hfresh in Hs. simpl in Hs. rewrite Hs in Hsent.
  destruct (client_loop fuel' b cout Hb Hfuel') as (b' & E & _ & Hc). exists b'.
  rewrite Hsent in E, Hc. unfold unfinished_line in Hc. rewrite split_whole_lines in Hc.
  split; [| done]. rewrite E. unfold whole_lines at 1. by rewrite split_whole_lines.
Qed.

(** ** Standard input *)
Context {I : Type} (read : I -> nat -> stdin_read * I).

(** The chunks that reading standard input gives, and the answer it ends with. *)
Inductive typed : I -> list bytes -> stdin_read -> I -> Prop :=
| typed_end i r i' :
    read i STDIN_BUFFER = (r, i') -> (forall d, r <> StdinData d) -> typed i [] r i'
| typed_more i d i1 ds r i' :
    read i STDIN_BUFFER = (StdinData d, i1) -> typed i1 ds r i' -> typed i (d :: ds) r i'.

Lemma send_stopped d (c : conn) : aborted c -> send cb d c = Ok c.
Proof using Type.
  intros Ha. pose proof (ab_flags _ Ha) as Hf. unfold flags in Hf. injection Hf as _ _ Hf.
  unfold send, is_stopped. by rewrite Hf.
Qed.

Lemma forward_aborted fuel i ds r i' (c : conn) :
  typed i ds r i' -> length ds < fuel -> aborted c ->
  forward_stdin cb read fuel i c = if decide (r = StdinAgain) then Ok (i', c) else Err Fatal.
Proof using Type.
  intros Ht. revert fuel. induction Ht as [i r i' E Hend | i d i1 ds r i' E Ht IH];
    intros [| fuel] Hf Ha; simpl in Hf; try lia; cbn [forward_stdin]; rewrite E.
  - destruct r; [by destruct (Hend buffer) | done | done | done].
  - rewrite send_stopped by done. apply IH; [lia | done].
Qed.

(** Why forwarding [ds] went wrong: the [send] of a chunk failed. *)
Definition forward_fails (ds : list bytes) (c : conn) (e : failure) : Prop :=
  exists sent d more c1, ds = sent ++ d :: more /\ delivered (concat sent) c c1 /\
    send_fails d c1 e.

Lemma forward_loop fuel i ds r i' c :
  typed i ds r i' -> length ds < fuel -> live c -> room_for (length (concat ds)) c ->
  match forward_stdin cb read fuel i c with
  | Ok (i'', c') => r = StdinAgain /\ i'' = i' /\ delivered (concat ds) c c'
  | Err e => (e = Fatal /\ (r = StdinClosed \/ r = StdinError)) \/
             forward_fails ds c e
  end.
Proof.
  intros Ht. revert fuel c. induction Ht as [i r i' E Hend | i d i1 ds r i' E Ht IH];
    intros [| fuel] c Hf Hl Hr; simpl in Hf; try lia; cbn [forward_stdin]; rewrite E.
  { destruct r; [by destruct (Hend buffer) | by left; eauto | | by left; eauto].
    split; [done |]. split; [done |]. by apply delivered_nil. }
  simpl in Hr. rewrite length_app in Hr.
  pose proof (send_step d (length d + length (concat ds)) c Hl ltac:(lia) Hr) as Hs.
  destruct (send cb d c) as [c1 | e].
  2: { right. exists [], d, ds, c.
       split; [done |]. split; [by apply delivered_nil | done]. }
  destruct Hs as (Hd & _ & Hlive). cbn [mbind result_bind].
  destruct (proj2 Hd) as [[Hl1 _] | Hab].
  - destruct (Hlive Hl1) as [_ Hr1]. rewrite Nat.add_comm, Nat.add_sub in Hr1.
    specialize (IH fuel c1 ltac:(lia) Hl1 Hr1).
    destruct (forward_stdin cb read fuel i1 c1) as [[i2 c2] | e].
    + destruct IH as (-> & -> & IH). split; [done |]. split; [done |]. by eapply delivered_app.
    + destruct IH as [IH | (sent & d2 & more & c2 & -> & IH1 & IH2)]; [by left | right].
      exists (d :: sent), d2, more, c2. split; [done |]. split; [| done].
      by eapply (delivered_app d).
  - rewrite (forward_aborted _ _ _ _ _ _ Ht) by (done || lia).
    case_decide as Hd'; [| left; split; [done |]].
    + split; [done |]. split; [done |]. split; [apply Hd | by right].
    + clear - Ht Hd'. induction Ht as [i r i' E Hend |]; [| auto].
      destruct r; [by destruct (Hend buffer) | by left | done | by right].
Qed.

(** What is typed is sent, in the order in which it was read, until the descriptor has
    nothing left; the end of standard input, like an error, ends the program.  If the
    connection is gone the descriptor stops reading. *)
Theorem stdin_forwarded fuel d i ds r i' c
    (Ht : typed i ds r i') (Hfuel : length ds < fuel) (Hl : live c)
    (Hroom : room_for (length (concat ds)) c) :
  match stdinfd_read_event_callback cb read fuel d i (inl c) with
  | Ok (d', i'', w) =>
      r = StdinAgain /\ d' = d /\ i'' = i' /\ exists c', w = inl c' /\ delivered (concat ds) c c'
  | Err e => (e = Fatal /\ (r = StdinClosed \/ r = StdinError)) \/
             forward_fails ds c e
  end.
Proof.
  pose proof (forward_loop fuel i ds r i' c Ht Hfuel Hl Hroom) as Hloop.
  unfold stdinfd_read_event_callback. destruct (forward_stdin cb read fuel i c) as [[i2 c2] |]; [| done].
  destruct Hloop as (-> & -> & Hd). split; [done |]. split; [done |]. split; [done |]. by exists c2.
Qed.
End Laws.

(** C23: For a connection whose close and write-complete callbacks touch only state of
    their own: every complete line that was received is sent back once, in order, and
    what is left of the bytes stays in the input buffer; or the peer broke the
    connection.  The callback ends: its fuel is the number of bytes.  It fails in two
    ways: undefined if the connection breaks while bytes are left, and as the [send] of
    one of the lines fails - the output buffer cannot take it (overlapping compaction,
    or growth to a size its allocator is undefined for), or the kernel reports more
    errors than the model follows. *)
Theorem echo_lines {K X U : Type} `{Epoll K} `{!EpollLaws K} `{Socket K} `{!SocketLaws K}
    {strings : StringAllocator} (cb : callbacks (TcpConnectSocketfd K X U))
    (close_passive : passive (TcpConnectSocketfd._close_callback cb))
    (write_complete_passive : passive (TcpConnectSocketfd._write_complete_callback cb)) fuel c
    (Hl : live c) (Hwf : TcpBuffer.wf (_input_buffer c))
    (Hfuel : length (TcpBuffer.contents (_input_buffer c)) < fuel)
    (Hroom : room_for (length (TcpBuffer.contents (_input_buffer c))) c) :
  match message_callback cb fuel c with
  | Ok c' =>
      delivered (whole_lines (TcpBuffer.contents (_input_buffer c))) c c' /\
      (live c' -> TcpBuffer.wf (_input_buffer c') /\ context c' = context c /\
        TcpBuffer.contents (_input_buffer c') = unfinished_line (TcpBuffer.contents (_input_buffer c))) /\
      (aborted c' -> unfinished_line (TcpBuffer.contents (_input_buffer c)) = [])
  | Err e =>
      exists sent more c1, TcpBuffer.contents (_input_buffer c) = sent ++ more /\ more <> [] /\
        delivered sent c c1 /\
        ((e = UndefinedBehaviour /\ aborted c1) \/
         exists k, newline_index more = Some k /\ send_fails (take (S k) more) c1 e)
  end.
Proof. by apply echo_loop. Qed.

(** * Samples *)
#[local] Existing Instance std_strings.

(** A buffer that holds [l]. *)
Definition sample_buffer (l : bytes) : TcpBuffer.t := TcpBuffer.mk l 64 0 (Some 0) 0 (length l).

Lemma echo_buffer_wf l : length l <= 64 -> TcpBuffer.wf (sample_buffer l).
Proof. intros H. by split; simpl; try done; lia. Qed.

Definition line (s : string) : bytes := str s ++ [LF].

(** Two lines and the beginning of a third. *)
Definition sample_input : bytes := line "hello" ++ line "world" ++ str "!".

Lemma client_prints_lines_witness : exists b',
  client_message_callback 20 (sample_buffer sample_input) []
  = Ok (b', line "hello" ++ line "world").
Proof.
  destruct (client_prints_lines 20 (sample_buffer sample_input) []) as (b' & E & _);
    [apply echo_buffer_wf; vm_compute; lia | vm_compute; lia |].
  exists b'. exact E.
Defined.

(** The sample connection that has received [l]. *)
Lemma sample_received l room r :
  length l <= 64 ->
  exists c, sample_conn [EnableRead] (TcpBuffer.new 0) (sample_socket_state room [] false r) = Ok c /\
    let c := with_input (sample_buffer l) c in
    live c /\ TcpBuffer.contents (_input_buffer c) = l /\ stream c = [] /\ is_writing c = false /\
    room_for 64 c.
Proof.
  intros Hlen.
  destruct (sample_conn_live [EnableRead] (TcpBuffer.new 0) room [] false r
              (TcpBuffer.new_wf 0)) as (c & E & _ & _ & Hout & Hl).
  exists c. split; [exact E |]. cbv zeta.
  assert (Hb : is_stopped c = false /\ is_writing c = false /\ s_accepted (kernel_of c) = []).
  { clear Hl Hout. vm_compute in E. injection E as <-. by vm_compute. }
  destruct Hb as (H1 & H2 & H3). specialize (Hl H1 (fun _ => eq_refl)).
  split; [by apply live_with_input; [| apply echo_buffer_wf] |].
  split; [unfold TcpBuffer.contents, slice; simpl; rewrite drop_0, Nat.sub_0_r; by apply take_ge |].
  split; [| split; [exact H2 |]].
  - unfold stream. cbn [with_input _output_buffer]. rewrite Hout.
    change (s_accepted (kernel_of c) ++ [] = []). by rewrite H3.
  - unfold room_for. cbn [with_input _output_buffer]. rewrite Hout. split; vm_compute; reflexivity.
Qed.

(** What the server makes of [l], by evaluation: it does not abort the connection. *)
Definition not_reset (r : result (TcpConnectSocketfd sample_socket nat nat)) : bool :=
  match r with Ok c => negb (_is_reset c) | Err _ => false end.

Lemma room_for_less n m (c c' : TcpConnectSocketfd sample_socket nat nat) :
  m <= n -> _output_buffer c' = _output_buffer c -> room_for n c -> room_for m c'.
Proof. intros Hm E [H1 H2]. unfold room_for. rewrite E. split; lia. Qed.

Ltac has_room H := eapply (room_for_less 64); [| | exact H]; [vm_compute; lia | reflexivity].

Lemma not_reset_live cmds l room r fuel c :
  sample_conn cmds (TcpBuffer.new 0) (sample_socket_state room [] false r) = Ok c ->
  not_reset (let* c := sample_conn cmds (TcpBuffer.new 0) (sample_socket_state room [] false r) in
             message_callback sample_callbacks fuel (with_input (sample_buffer l) c)) = true ->
  exists c', message_callback sample_callbacks fuel (with_input (sample_buffer l) c) = Ok c' /\
    _is_reset c' = false.
Proof.
  intros E. rewrite E. cbn [mbind result_bind].
  destruct (message_callback _ _ _) as [c' |]; [| done]. simpl.
  destruct (_is_reset c') eqn:Er; [done | by exists c'].
Qed.

Lemma aborted_is_reset (c : TcpConnectSocketfd sample_socket nat nat) :
  aborted c -> _is_reset c = false -> False.
Proof. intros Ha Hr. pose proof (ab_marks _ Ha) as Hm. rewrite Hr in Hm. done. Qed.

(** The send buffer has room for eight bytes: the rest of the answer is pending. *)
Lemma echo_lines_witness : exists c c',
  message_callback sample_callbacks 20 (with_input (sample_buffer sample_input) c) = Ok c' /\
  stream c' = line "hello" ++ line "world" /\ TcpBuffer.contents (_input_buffer c') = str "!".
Proof.
  destruct (sample_received sample_input 8 ShutdownDone) as (c & E & Hl & Hc & Hs & _ & Hr);
    [vm_compute; lia |].
  assert (Hwf : TcpBuffer.wf (sample_buffer sample_input)) by (apply echo_buffer_wf; vm_compute; lia).
  destruct (not_reset_live _ sample_input 8 ShutdownDone 20 c E) as (c' & Em & Hn);
    [vm_compute; reflexivity |].
  clear E. exists c, c'. split; [exact Em |].
  pose proof (echo_lines sample_callbacks sample_close_passive sample_write_complete_passive
                20 (with_input (sample_buffer sample_input) c) Hl Hwf) as H.
  rewrite Hc, Em in H.
  destruct H as ([_ [[Hl' H] | Ha]] & Hin & _).
  - vm_compute; lia.
  - has_room Hr.
  - rewrite Hs in H. split; [exact H |]. destruct (Hin Hl') as (_ & _ & Hin'). exact Hin'.
  - destruct (aborted_is_reset _ Ha Hn).
Defined.

Lemma broken_echo_undefined_witness : exists c,
  message_callback sample_callbacks 20 (with_input (sample_buffer sample_input) c)
  = Err UndefinedBehaviour.
Proof.
  destruct (sample_received sample_input 8 NotConnected) as (c & E & Hl & Hc & _ & Hw & _);
    [vm_compute; lia |].
  exists c. apply (broken_echo_undefined sample_callbacks sample_close_passive sample_write_complete_passive
                     18 5 (kernel_of c)).
  - exact Hl.
  - apply echo_buffer_wf. vm_compute. lia.
  - exact Hw.
  - rewrite Hc. reflexivity.
  - rewrite Hc. vm_compute. lia.
  - clear - E. vm_compute in E. injection E as <-. reflexivity.
Defined.

(** The first line arrives in two pieces. *)
Lemma echo_in_pieces_witness : exists c c1 b c2,
  message_callback sample_callbacks 20 (with_input (sample_buffer (str "hel")) c) = Ok c1 /\
  TcpBuffer.append (line "lo") (_input_buffer c1) = Ok b /\
  message_callback sample_callbacks 20 (with_input b c1) = Ok c2 /\ stream c2 = line "hello".
Proof.
  destruct (sample_received (str "hel") 8 ShutdownDone) as (c & E & Hl & Hc & Hs & _ & Hr);
    [vm_compute; lia |].
  set (b := sample_buffer (line "hello")).
  assert (Hwf : TcpBuffer.wf (sample_buffer (str "hel"))) by (apply echo_buffer_wf; vm_compute; lia).
  assert (E1 : message_callback sample_callbacks 20 (with_input (sample_buffer (str "hel")) c)
               = Ok (with_input (sample_buffer (str "hel")) c)) by reflexivity.
  assert (E2 : exists c2, message_callback sample_callbacks 20
                            (with_input b (with_input (sample_buffer (str "hel")) c)) = Ok c2 /\
                          _is_reset c2 = false).
  { apply (not_reset_live _ (line "hello") 8 ShutdownDone 20 c E). vm_compute. reflexivity. }
  destruct E2 as (c2 & E2 & Hn). clear E.
  exists c, (with_input (sample_buffer (str "hel")) c), b, c2.
  split; [exact E1 |]. split; [reflexivity |]. split; [exact E2 |].
  assert (Hb : TcpBuffer.wf b) by (apply echo_buffer_wf; vm_compute; lia).
  assert (Hl2 : live c2).
  { pose proof (echo_loop sample_callbacks sample_close_passive sample_write_complete_passive
                  20 (with_input b (with_input (sample_buffer (str "hel")) c))
                  (live_with_input _ _ Hl Hb) Hb) as H.
    rewrite E2 in H. destruct H as ([_ [[H _] | H]] & _); [vm_compute; lia | | exact H |].
    - has_room Hr.
    - destruct (aborted_is_reset _ H Hn). }
  destruct (echo_in_pieces sample_callbacks sample_close_passive sample_write_complete_passive
              20 20 (line "lo") _ _ b c2 Hl Hwf ltac:(vm_compute; lia)
              ltac:(has_room Hr) E1 Hl ltac:(reflexivity) ltac:(vm_compute; reflexivity) ltac:(vm_compute; lia)
              ltac:(has_room Hr) E2 Hl2) as [H _].
  rewrite Hs, Hc in H. exact H.
Defined.

Lemma echo_round_trip_witness : exists c c' b',
  message_callback sample_callbacks 20 (with_input (sample_buffer sample_input) c) = Ok c' /\
  client_message_callback 20 (sample_buffer (stream c')) [] = Ok (b', line "hello" ++ line "world").
Proof.
  destruct (sample_received sample_input 8 ShutdownDone) as (c & E & Hl & Hc & Hs & _ & Hr);
    [vm_compute; lia |].
  assert (Hwf : TcpBuffer.wf (sample_buffer sample_input)) by (apply echo_buffer_wf; vm_compute; lia).
  destruct (not_reset_live _ sample_input 8 ShutdownDone 20 c E) as (c' & Em & Hn);
    [vm_compute; reflexivity |].
  assert (Hstream : stream c' = line "hello" ++ line "world").
  { clear - E Em. vm_compute in E. injection E as <-. vm_compute in Em. injection Em as <-. reflexivity. }
  clear E.
  assert (Hr' : room_for (length (TcpBuffer.contents (sample_buffer sample_input)))
                  (with_input (sample_buffer sample_input) c))
    by (has_room Hr).
  assert (Hl' : live c').
  { pose proof (echo_loop sample_callbacks sample_close_passive sample_write_complete_passive
                  20 (with_input (sample_buffer sample_input) c) Hl Hwf
                  ltac:(vm_compute; lia) Hr') as H.
    rewrite Em in H. destruct H as ([_ [[H _] | H]] & _); [exact H |].
    destruct (aborted_is_reset _ H Hn). }
  destruct (echo_round_trip sample_callbacks sample_close_passive sample_write_complete_passive
              20 20 _ c' (sample_buffer (stream c')) [] Hl Hs Hwf
              ltac:(vm_compute; lia) Hr' Em Hl') as (b' & E' & _).
  - rewrite Hstream. apply echo_buffer_wf. vm_compute. lia.
  - unfold TcpBuffer.contents, slice. simpl. rewrite drop_0, Nat.sub_0_r. by apply take_ge.
  - rewrite Hstream. vm_compute. lia.
  - exists c, c', b'. split; [exact Em | exact E'].
Defined.

(** Standard input as a list of chunks. *)
Definition sample_stdin (i : list bytes) (n : nat) : stdin_read * list bytes :=
  match i with
  | [] => (StdinAgain, [])
  | d :: i => (StdinData d, i)
  end.

Lemma stdin_forwarded_witness : exists c d i c',
  stdinfd_read_event_callback sample_callbacks sample_stdin 3 sample_fd [line "hi"; str "x"]
    (inl (with_input (sample_buffer []) c)) = Ok (d, i, inl c') /\ stream c' = line "hi" ++ str "x".
Proof.
  destruct (sample_received [] 3 ShutdownDone) as (c & E & Hl & _ & Hs & _ & Hr); [vm_compute; lia |].
  assert (Ht : typed sample_stdin [line "hi"; str "x"] [line "hi"; str "x"] StdinAgain []).
  { eapply typed_more; [reflexivity |]. eapply typed_more; [reflexivity |].
    apply typed_end; [reflexivity | discriminate]. }
  assert (Hn : match stdinfd_read_event_callback sample_callbacks sample_stdin 3 sample_fd
                       [line "hi"; str "x"] (inl (with_input (sample_buffer []) c)) with
               | Ok (_, _, inl c') => _is_reset c' = false
               | _ => False
               end).
  { clear - E. vm_compute in E. injection E as <-. vm_compute. reflexivity. }
  clear E.
  pose proof (stdin_forwarded sample_callbacks sample_close_passive sample_write_complete_passive
                sample_stdin 3 sample_fd _ _ _ _ _ Ht ltac:(simpl; lia) Hl
                ltac:(has_room Hr)) as H.
  destruct (stdinfd_read_event_callback _ _ _ _ _ _) as [[[d i] w] |] eqn:Es; [| destruct Hn].
  destruct H as (_ & _ & _ & c' & -> & _ & [[_ H] | Ha]); [| destruct (aborted_is_reset _ Ha Hn)].
  exists c, d, i, c'. split; [exact Es |]. rewrite H, Hs. reflexivity.
Defined.
