(* ===== verification/EventLoopThreadPool.v ===== *)
(** Threads, event loop threads and their pool: [src/util/thread.cc],
    [src/event_loop_thread.cc] and [src/event_loop_thread_pool.cc].

    The operations run in the thread that owns the pool; a worker thread appears
    through the flag it sets when it is done and through its loop, of which only
    the index and the stop request matter here.  [aborted] threads of the pool
    end the process ([::abort()] and [LOG_FATAL] are both [Fatal]). *)
From S2P Require Import Prelude.
Open Scope nat_scope.

(** * Threads *)
Record Thread := mkThread {
  _is_started : bool;
  _is_joinable : bool;   (* stored by the worker when its function has returned *)
  _is_joined : bool
}.

Definition new_Thread : Thread := mkThread false false false.

(** [pthread_create] fails with [created = false].  The call waits until the
    worker has published its thread id. *)
Definition thread_start (created : bool) (t : Thread) : result Thread :=
  if _is_started t then Ok t
  else if negb created then Err Fatal
  else Ok (mkThread true (_is_joinable t) (_is_joined t)).

(** The outcome of [pthread_join], with the value of [errno] the code looks at. *)
Inductive join_outcome := Joined | Deadlock | InvalidThread | OtherErrno.

(** [join] waits for the worker: a successful [pthread_join] returns after the
    worker function has. *)
Definition thread_join (created : bool) (outcome : join_outcome) (t : Thread) : result Thread :=
  let* t := thread_start created t in
  if _is_joined t then Ok t
  else
    match outcome with
    | Joined => Ok (mkThread (_is_started t) true true)
    | Deadlock | InvalidThread => Err Fatal
    | OtherErrno => Ok (mkThread (_is_started t) (_is_joinable t) true)
    end.

(** The end of the worker's function. *)
Definition worker_done (t : Thread) : Thread := mkThread (_is_started t) true (_is_joined t).

Definition delete_Thread (t : Thread) : result unit :=
  if _is_joined t then Ok tt else Err Fatal.

(** * Event loop threads *)
Record EventLoopThread := mkLoopThread {
  _thread : Thread;
  _loop_index : nat;
  _loop_ptr : bool;         (* whether the worker has published its loop *)
  loop_need_stop : bool     (* the loop has been asked to stop *)
}.

Definition new_EventLoopThread (loop_index : nat) : EventLoopThread :=
  mkLoopThread new_Thread loop_index false false.

(** [start] waits for the loop to be published. *)
Definition loop_thread_start (created : bool) (t : EventLoopThread) : result EventLoopThread :=
  let* th := thread_start created (_thread t) in
  Ok (mkLoopThread th (_loop_index t) true (loop_need_stop t)).

(** [get_loop()->ask_to_stop()] *)
Definition loop_ask_to_stop (t : EventLoopThread) : result EventLoopThread :=
  if _loop_ptr t then Ok (mkLoopThread (_thread t) (_loop_index t) true true)
  else Err UndefinedBehaviour.

Definition loop_thread_join (created : bool) (outcome : join_outcome) (t : EventLoopThread)
    : result EventLoopThread :=
  let* th := thread_join created outcome (_thread t) in
  Ok (mkLoopThread th (_loop_index t) (_loop_ptr t) (loop_need_stop t)).

(** The destructor, and that of the thread inside. *)
Definition delete_EventLoopThread (t : EventLoopThread) : result unit :=
  if _is_joined (_thread t) then delete_Thread (_thread t) else Err Fatal.

(** * The pool *)
Record EventLoopThreadPool := mkPool {
  _thread_pool_capasity : nat;
  pool_is_started : bool;
  pool_is_stopped : bool;
  pool_is_joined : bool;
  _thread_pool : list EventLoopThread;
  _next_loop_index_counter : Z
}.

Definition new_EventLoopThreadPool (thread_pool_capasity : nat) : result EventLoopThreadPool :=
  if thread_pool_capasity =? 0 then Err Fatal
  else Ok (mkPool thread_pool_capasity false false false [] 0).

(** An operation on every thread, in order. *)
Fixpoint for_each {A B} (f : A -> result B) (l : list A) : result (list B) :=
  match l with
  | [] => Ok []
  | a :: l => let* b := f a in let* bs := for_each f l in Ok (b :: bs)
  end.

(** [created]: whether the system can create threads. *)
Definition pool_start (created : bool) (p : EventLoopThreadPool) : result EventLoopThreadPool :=
  if pool_is_started p then Ok p
  else
    let* threads :=
      for_each (fun i => loop_thread_start created (new_EventLoopThread i))
        (seq 0 (_thread_pool_capasity p)) in
    Ok (mkPool (_thread_pool_capasity p) true (pool_is_stopped p) (pool_is_joined p)
          (_thread_pool p ++ threads) (_next_loop_index_counter p)).

Definition pool_stop (p : EventLoopThreadPool) : result EventLoopThreadPool :=
  if pool_is_stopped p then Ok p
  else if negb (pool_is_started p) then Err Fatal
  else
    let* threads := for_each loop_ask_to_stop (_thread_pool p) in
    Ok (mkPool (_thread_pool_capasity p) (pool_is_started p) true (pool_is_joined p) threads
          (_next_loop_index_counter p)).

Definition pool_is_joinable (p : EventLoopThreadPool) : bool :=
  forallb (fun t => _is_joinable (_thread t)) (_thread_pool p).

Definition pool_join (created : bool) (outcome : join_outcome) (p : EventLoopThreadPool)
    : result EventLoopThreadPool :=
  if pool_is_joined p then Ok p
  else
    let* threads := for_each (loop_thread_join created outcome) (_thread_pool p) in
    Ok (mkPool (_thread_pool_capasity p) (pool_is_started p) (pool_is_stopped p) true threads
          (_next_loop_index_counter p)).

(** The destructor, then those of the threads. *)
Definition delete_EventLoopThreadPool (created : bool) (outcome : join_outcome)
    (p : EventLoopThreadPool) : result unit :=
  if negb (pool_is_stopped p) then Err Fatal
  else
    let* p := if negb (pool_is_joined p) then pool_join created outcome p else Ok p in
    let* _ := for_each delete_EventLoopThread (_thread_pool p) in
    Ok tt.

(** 32-bit signed wrap-around, as [std::atomic<int>] has it. *)
Definition i32 (z : Z) : Z := ((z + 2 ^ 31) mod 2 ^ 32 - 2 ^ 31)%Z.

(** The [int] counter is converted to [size_t] by the remainder. *)
Definition get_next_loop (p : EventLoopThreadPool) : result (nat * EventLoopThreadPool) :=
  let counter := _next_loop_index_counter p in
  let next_loop_index := Z.to_nat (u64 counter mod Z.of_nat (_thread_pool_capasity p)) in
  let p := mkPool (_thread_pool_capasity p) (pool_is_started p) (pool_is_stopped p)
             (pool_is_joined p) (_thread_pool p) (i32 (counter + 1)) in
  match _thread_pool p !! next_loop_index with
  | Some t => if _loop_ptr t then Ok (_loop_index t, p) else Err UndefinedBehaviour
  | None => Err UndefinedBehaviour
  end.

(** The loops chosen by [n] successive calls. *)
Fixpoint choose_loops (n : nat) (p : EventLoopThreadPool) : result (list nat * EventLoopThreadPool) :=
  match n with
  | O => Ok ([], p)
  | S n =>
      let* (i, p) := get_next_loop p in
      let* (l, p) := choose_loops n p in
      Ok (i :: l, p)
  end.

(** * A running pool *)
Record pool_running (p : EventLoopThreadPool) : Prop := {
  run_capacity : (0 < _thread_pool_capasity p);
  run_started : pool_is_started p = true;
  run_counter : (- 2 ^ 31 <= _next_loop_index_counter p < 2 ^ 31)%Z;
  run_threads : length (_thread_pool p) = _thread_pool_capasity p;
  run_loops i t : _thread_pool p !! i = Some t ->
    _loop_index t = i /\ _loop_ptr t = true /\ _is_started (_thread t) = true
}.

Lemma for_each_ok {A B} (f : A -> result B) (g : A -> B) l :
  (forall a, a ∈ l -> f a = Ok (g a)) -> for_each f l = Ok (g <$> l).
Proof.
  induction l as [| a l IH]; simpl; intros H; [done |].
  rewrite H by left. rewrite IH; [done |]. intros b Hb. apply H. by right.
Qed.

Lemma i32_range z : (- 2 ^ 31 <= i32 z < 2 ^ 31)%Z.
Proof. unfold i32. pose proof (Z.mod_pos_bound (z + 2 ^ 31) (2 ^ 32) ltac:(lia)). lia. Qed.

Lemma i32_small z : (- 2 ^ 31 <= z < 2 ^ 31)%Z -> i32 z = z.
Proof. intros H. unfold i32. rewrite Z.mod_small by lia. lia. Qed.

Lemma get_next_loop_spec p :
  pool_running p ->
  let i := Z.to_nat (u64 (_next_loop_index_counter p) mod Z.of_nat (_thread_pool_capasity p)) in
  exists p', get_next_loop p = Ok (i, p') /\ i < _thread_pool_capasity p /\ pool_running p' /\
    _thread_pool_capasity p' = _thread_pool_capasity p /\
    _next_loop_index_counter p' = i32 (_next_loop_index_counter p + 1).
Proof.
  intros Hr i. pose proof (run_capacity _ Hr) as Hc.
  assert (Hi : i < _thread_pool_capasity p).
  { unfold i. pose proof (Z.mod_pos_bound (u64 (_next_loop_index_counter p))
      (Z.of_nat (_thread_pool_capasity p)) ltac:(lia)). lia. }
  unfold get_next_loop. cbn [_thread_pool]. fold i.
  destruct (lookup_lt_is_Some_2 (_thread_pool p) i) as [t Ht]; [by rewrite (run_threads _ Hr) |].
  destruct (run_loops _ Hr i t Ht) as (Hl & Hp & _). rewrite Ht, Hp, Hl.
  eexists. split; [done |]. split; [done |].
  split; [| done]. destruct Hr. split; try done. apply i32_range.
Qed.

(** Consecutive remainders visit every loop once. *)
Lemma rotation_permutation m (c : Z) :
  0 < m -> (0 <= c)%Z ->
  (fun k => Z.to_nat ((c + Z.of_nat k) mod Z.of_nat m)) <$> seq 0 m ≡ₚ seq 0 m.
Proof.
  intros Hm Hc. apply NoDup_Permutation_bis.
  - apply NoDup_ListNoDup, NoDup_fmap_2_strong; [| apply NoDup_seq].
    intros x y Hx%elem_of_seq Hy%elem_of_seq E.
    pose proof (Z.mod_pos_bound (c + Z.of_nat x) (Z.of_nat m) ltac:(lia)).
    pose proof (Z.mod_pos_bound (c + Z.of_nat y) (Z.of_nat m) ltac:(lia)).
    pose proof (Z_div_mod_eq_full (c + Z.of_nat x) (Z.of_nat m)) as H1.
    pose proof (Z_div_mod_eq_full (c + Z.of_nat y) (Z.of_nat m)) as H2.
    assert (E' : ((c + Z.of_nat x) mod Z.of_nat m = (c + Z.of_nat y) mod Z.of_nat m)%Z) by lia.
    rewrite E' in H1.
    assert (Hq : (Z.of_nat x - Z.of_nat y = Z.of_nat m *
                  ((c + Z.of_nat x) / Z.of_nat m - (c + Z.of_nat y) / Z.of_nat m))%Z) by lia.
    set (q := ((c + Z.of_nat x) / Z.of_nat m - (c + Z.of_nat y) / Z.of_nat m)%Z) in *.
    assert (Hb : (- Z.of_nat m < Z.of_nat m * q < Z.of_nat m)%Z) by lia.
    assert (q = 0%Z) as -> by (clear - Hb Hm; nia). lia.
  - by rewrite length_fmap.
  - intros i (k & -> & Hk)%list_elem_of_In%list_elem_of_fmap. apply list_elem_of_In, elem_of_seq.
    pose proof (Z.mod_pos_bound (c + Z.of_nat k) (Z.of_nat m) ltac:(lia)). lia.
Qed.

Lemma choose_loops_spec n p :
  pool_running p ->
  exists l p', choose_loops n p = Ok (l, p') /\ pool_running p' /\ length l = n /\
    Forall (fun i => i < _thread_pool_capasity p) l /\
    ((0 <= _next_loop_index_counter p)%Z ->
     (_next_loop_index_counter p + Z.of_nat n <= 2 ^ 31)%Z ->
     l = (fun k => Z.to_nat ((_next_loop_index_counter p + Z.of_nat k)
                             mod Z.of_nat (_thread_pool_capasity p))) <$> seq 0 n).
Proof.
  revert p. induction n as [| n IH]; intros p Hr.
  { exists [], p. split; [done |]. split; [done |]. split; [done |]. by split; [constructor |]. }
  destruct (get_next_loop_spec p Hr) as (p1 & E1 & Hi & Hr1 & Hc1 & Hn1).
  destruct (IH p1 Hr1) as (l & p2 & E2 & Hr2 & Hlen & Hall & Hl). simpl. rewrite E1, E2.
  do 2 eexists. split; [done |]. split; [done |]. split; [simpl; lia |].
  rewrite Hc1 in Hall. split; [by constructor |]. intros H0 H1.
  pose proof (run_counter _ Hr) as Hcount. pose proof (run_capacity _ Hr) as Hcap.
  simpl. f_equal.
  { rewrite u64_small by lia. by rewrite Z.add_0_r. }
  destruct (decide (_next_loop_index_counter p + 1 = 2 ^ 31)%Z) as [Hlast | Hlast].
  { assert (n = 0) as -> by lia. by apply length_zero_iff_nil in Hlen. }
  rewrite i32_small in Hn1 by lia. rewrite Hn1, Hc1 in Hl. rewrite Hl by lia.
  rewrite <- (fmap_S_seq 0 n), <- list_fmap_compose. apply list_fmap_ext. intros ? k _. simpl.
  do 2 f_equal. lia.
Qed.

(** Connections are spread over the worker loops round robin: from any running
    pool, every choice is a loop of the pool (even when the [int] counter has
    wrapped around), and, as long as the counter does not wrap, choice [k] is the
    loop [(counter + k) mod capacity]; so any [capacity] successive choices
    contain every loop exactly once. *)
Theorem get_next_loop_round_robin n p (Hr : pool_running p) :
  exists l p', choose_loops n p = Ok (l, p') /\ pool_running p' /\ length l = n /\
    Forall (fun i => i < _thread_pool_capasity p) l /\
    ((0 <= _next_loop_index_counter p)%Z ->
     (_next_loop_index_counter p + Z.of_nat n <= 2 ^ 31)%Z ->
     l = (fun k => Z.to_nat ((_next_loop_index_counter p + Z.of_nat k)
                             mod Z.of_nat (_thread_pool_capasity p))) <$> seq 0 n /\
     (n = _thread_pool_capasity p -> l ≡ₚ seq 0 n)).
Proof.
  destruct (choose_loops_spec n p Hr) as (l & p' & E & Hr' & Hlen & Hall & Hl).
  exists l, p'. split; [done |]. split; [done |]. split; [done |]. split; [done |].
  intros H0 H1. specialize (Hl H0 H1). split; [done |]. intros ->. rewrite Hl.
  apply rotation_permutation; [apply (run_capacity _ Hr) | done].
Qed.

(** * The life of a pool *)
Definition all_joined (p : EventLoopThreadPool) : Prop :=
  Forall (fun t => _is_joined (_thread t) = true) (_thread_pool p).

(** A pool that is started runs. *)
Lemma pool_starts n :
  0 < n -> exists p0 p1, new_EventLoopThreadPool n = Ok p0 /\ pool_start true p0 = Ok p1 /\
    pool_running p1 /\ _thread_pool_capasity p1 = n.
Proof.
  intros Hn. unfold new_EventLoopThreadPool. rewrite (proj2 (Nat.eqb_neq n 0)) by lia.
  set (started i := mkLoopThread (mkThread true false false) i true false).
  assert (E1 : for_each (fun i => loop_thread_start true (new_EventLoopThread i)) (seq 0 n)
               = Ok (started <$> seq 0 n)) by by apply for_each_ok.
  do 2 eexists. split; [done |]. unfold pool_start. simpl. rewrite E1. split; [done |]. split; [| done].
  split; simpl; try done; [by rewrite length_fmap, length_seq |].
  intros i t H. apply list_lookup_fmap_Some in H as (j & -> & Hij).
  apply lookup_seq in Hij as [-> _]. done.
Qed.

(** Starting a new pool creates exactly one thread per index, with its loop
    published, and the pool is running; once stopped, every loop has been asked to
    stop; joining waits for all the workers, once; and then the destructor is
    safe.  Destroying a pool that was not stopped, or stopping one that was not
    started, ends the process. *)
Theorem pool_life_cycle n (Hn : 0 < n) :
  exists p0 p1 p2 p3,
    new_EventLoopThreadPool n = Ok p0 /\ pool_start true p0 = Ok p1 /\
    pool_stop p1 = Ok p2 /\ pool_join true Joined p2 = Ok p3 /\
    pool_running p1 /\ pool_start true p1 = Ok p1 /\
    Forall (fun t => loop_need_stop t = true) (_thread_pool p2) /\ pool_is_joinable p1 = false /\
    all_joined p3 /\ pool_is_joinable p3 = true /\ pool_join true Joined p3 = Ok p3 /\
    delete_EventLoopThreadPool true Joined p3 = Ok tt /\
    delete_EventLoopThreadPool true Joined p2 = Ok tt /\
    delete_EventLoopThreadPool true Joined p1 = Err Fatal /\ pool_stop p0 = Err Fatal.
Proof.
  unfold new_EventLoopThreadPool. rewrite (proj2 (Nat.eqb_neq n 0)) by lia.
  set (started i := mkLoopThread (mkThread true false false) i true false).
  set (asked i := mkLoopThread (mkThread true false false) i true true).
  set (joined i := mkLoopThread (mkThread true true true) i true true).
  assert (E1 : for_each (fun i => loop_thread_start true (new_EventLoopThread i)) (seq 0 n)
               = Ok (started <$> seq 0 n)) by by apply for_each_ok.
  assert (E2 : for_each loop_ask_to_stop (started <$> seq 0 n) = Ok (asked <$> seq 0 n)).
  { rewrite (for_each_ok _ (fun t => asked (_loop_index t))).
    - by rewrite <- list_fmap_compose.
    - intros t (i & -> & _)%list_elem_of_fmap. done. }
  assert (E3 : for_each (loop_thread_join true Joined) (asked <$> seq 0 n) = Ok (joined <$> seq 0 n)).
  { rewrite (for_each_ok _ (fun t => joined (_loop_index t))).
    - by rewrite <- list_fmap_compose.
    - intros t (i & -> & _)%list_elem_of_fmap. done. }
  assert (E4 : for_each delete_EventLoopThread (joined <$> seq 0 n)
               = Ok ((fun _ => tt) <$> (joined <$> seq 0 n))).
  { apply for_each_ok. intros t (i & -> & _)%list_elem_of_fmap. done. }
  assert (Hj : forall f b, (forall i, _is_joinable (_thread (f i)) = b) ->
            forallb (fun t => _is_joinable (_thread t)) (f <$> seq 0 n) = b).
  { intros f b Hf. destruct n as [| k]; [lia |]. destruct b; simpl; rewrite Hf; [| done].
    simpl. rewrite forallb_forall. intros t (i & <- & _)%in_map_iff. apply Hf. }
  do 4 eexists. split; [done |]. unfold pool_start at 1. simpl. rewrite E1. split; [done |].
  unfold pool_stop at 1. simpl. rewrite E2. split; [done |].
  unfold pool_join at 1. simpl. rewrite E3. split; [done |].
  split.
  { split; simpl; try done; [by rewrite length_fmap, length_seq |].
    intros i t H. apply list_lookup_fmap_Some in H as (j & -> & Hij).
    apply lookup_seq in Hij as [-> _]. done. }
  split; [done |]. split.
  { apply Forall_fmap, Forall_forall. done. }
  split; [by apply Hj |]. split.
  { apply Forall_fmap, Forall_forall. done. }
  split; [by apply Hj |]. split; [done |].
  unfold delete_EventLoopThreadPool, pool_join. simpl. rewrite E3. simpl. by rewrite E4.
Qed.

(** A running pool of three. *)
Definition sample_pool : EventLoopThreadPool :=
  mkPool 3 true false false
    ((fun i => mkLoopThread (mkThread true false false) i true false) <$> seq 0 3) 0.

Lemma sample_pool_running : pool_running sample_pool.
Proof.
  split; simpl; try done; [lia |]. intros [| [| [| i]]] t; simpl; naive_solver.
Qed.

Lemma get_next_loop_round_robin_witness :
  exists p', choose_loops 5 sample_pool = Ok ([0; 1; 2; 0; 1], p').
Proof.
  destruct (get_next_loop_round_robin 5 sample_pool sample_pool_running)
    as (l & p' & E & _ & _ & _ & Hl).
  exists p'. destruct (Hl ltac:(done) ltac:(done)) as [-> _]. exact E.
Defined.

Lemma pool_life_cycle_witness :
  exists p0 p1, new_EventLoopThreadPool 4 = Ok p0 /\ pool_start true p0 = Ok p1 /\ pool_running p1.
Proof.
  destruct (pool_life_cycle 4 ltac:(lia)) as (p0 & p1 & _ & _ & H1 & H2 & _ & _ & H3 & _).
  exact (ex_intro _ p0 (ex_intro _ p1 (conj H1 (conj H2 H3)))).
Defined.
