(* ===== verification/TcpServer.v ===== *)
(** The TCP server: [src/tcp_server.cc] and its header, in the default build
    configuration (no destruction transferring).

    The server's table of connections belongs to the thread of its main loop.  A
    worker's connection that closes posts a functor to the main loop, on the
    queue with the worker's index; [queued] holds the ids of the connections
    whose functors wait there.  What the server does with a connection is the
    class [ServerConnection], which [TcpConnectSocketfd] implements. *)
From S2P Require Import Prelude Poller TcpBuffer TcpConnectSocketfd EventLoopThreadPool.
From stdpp Require Import fin_maps functions sorting.
Open Scope nat_scope.

(** [conn_reset] is [reset_connection], given the close callback as a function
    on the state of its owner. *)
Class ServerConnection (C : Type) := {
  conn_new : Z -> nat -> Z -> result C;
  conn_start : C -> result C;
  conn_reset {S : Type} : (S -> result S) -> C -> S -> result (C * S)
}.

(** A reset runs the close callback exactly once. *)
Class ServerConnectionLaws (C : Type) `{ServerConnection C} : Prop := {
  conn_reset_law {S : Type} (f : S -> result S) c s c' s' :
    conn_reset f c s = Ok (c', s') -> f s = Ok s';
  conn_reset_err {S : Type} (f : S -> result S) c s e :
    f s = Err e -> conn_reset f c s = Err e \/ conn_reset f c s = Err Fatal
}.

Record TcpServer (C : Type) := mkServer {
  _is_started : bool;
  _is_stopped : bool;
  _tcp_connect_socketfds : gmap Z C;
  _tcp_connection_id_counter : Z;
  _thread_pool_capacity : nat;
  _thread_pool_ptr : option EventLoopThreadPool;
  _max_number_of_connections : nat;
  number_of_queues : nat;      (* of the main loop *)
  queued : nat -> list Z       (* close functors, by queue *)
}.
Arguments mkServer {C}.
Arguments _is_started {C}.
Arguments _is_stopped {C}.
Arguments _tcp_connect_socketfds {C}.
Arguments _tcp_connection_id_counter {C}.
Arguments _thread_pool_capacity {C}.
Arguments _thread_pool_ptr {C}.
Arguments _max_number_of_connections {C}.
Arguments number_of_queues {C}.
Arguments queued {C}.

Section Server.
Context {C : Type} `{ServerConnection C}.
Abbreviation server := (TcpServer C).

Definition with_table (m : gmap Z C) (s : server) : server :=
  mkServer (_is_started s) (_is_stopped s) m (_tcp_connection_id_counter s)
    (_thread_pool_capacity s) (_thread_pool_ptr s) (_max_number_of_connections s)
    (number_of_queues s) (queued s).
Definition with_pool (p : option EventLoopThreadPool) (s : server) : server :=
  mkServer (_is_started s) (_is_stopped s) (_tcp_connect_socketfds s)
    (_tcp_connection_id_counter s) (_thread_pool_capacity s) p (_max_number_of_connections s)
    (number_of_queues s) (queued s).
Definition with_queue (i : nat) (l : list Z) (s : server) : server :=
  mkServer (_is_started s) (_is_stopped s) (_tcp_connect_socketfds s)
    (_tcp_connection_id_counter s) (_thread_pool_capacity s) (_thread_pool_ptr s)
    (_max_number_of_connections s) (number_of_queues s) (<[i := l]> (queued s)).
Definition with_counters (id : Z) (n : nat) (s : server) : server :=
  mkServer (_is_started s) (_is_stopped s) (_tcp_connect_socketfds s) id
    (_thread_pool_capacity s) (_thread_pool_ptr s) n (number_of_queues s) (queued s).
Definition with_state (started stopped : bool) (s : server) : server :=
  mkServer started stopped (_tcp_connect_socketfds s) (_tcp_connection_id_counter s)
    (_thread_pool_capacity s) (_thread_pool_ptr s) (_max_number_of_connections s)
    (number_of_queues s) (queued s).

(** The constructor and [set_thread_pool_capacity]; the main loop has
    [number_of_queues] functor queues. *)
Definition new_TcpServer (capacity queues : nat) : server :=
  mkServer false false ∅ 0 capacity None 0 queues (fun _ => []).

Definition get_number_of_tcp_connections (s : server) : nat :=
  base.size (_tcp_connect_socketfds s).

(** What [start] does after the listening socket is set up ([ServerStart.start]). *)
Definition start_thread_pool (s : server) : result server :=
  let* s :=
    if 0 <? _thread_pool_capacity s then
      let* p := new_EventLoopThreadPool (_thread_pool_capacity s) in
      let* p := pool_start true p in
      Ok (with_pool (Some p) s)
    else Ok s in
  Ok (with_state true (_is_stopped s) s).

(** The loop of a new connection: [None] is the main loop. *)
Definition choose_loop (s : server) : result (option nat * server) :=
  if 0 <? _thread_pool_capacity s then
    match _thread_pool_ptr s with
    | Some p => let* (i, p) := get_next_loop p in Ok (Some i, with_pool (Some p) s)
    | None => Err UndefinedBehaviour
    end
  else Ok (None, s).

(** [get_loop_index]: the main loop has index 0. *)
Definition get_loop_index (loop : option nat) : nat := default 0 loop.

(** [_new_connection_callback]; [on_connect] is the user's callback. *)
Definition _new_connection_callback (on_connect : C -> result C) (connect_socketfd : Z)
    (s : server) : result (Z * option nat * server) :=
  let id := _tcp_connection_id_counter s in
  let s := with_counters (u64 (id + 1)) (_max_number_of_connections s) s in
  let* (chosen_loop, s) := choose_loop s in
  let* c := conn_new connect_socketfd (get_loop_index chosen_loop) id in
  match _tcp_connect_socketfds s !! id with
  | Some _ => Err Fatal
  | None =>
      let s := with_table (<[id := c]> (_tcp_connect_socketfds s)) s in
      let s := with_counters (_tcp_connection_id_counter s)
                 (Nat.max (_max_number_of_connections s) (get_number_of_tcp_connections s)) s in
      let* c := on_connect c in
      let* c := conn_start c in
      Ok (id, chosen_loop, with_table (<[id := c]> (_tcp_connect_socketfds s)) s)
  end.

(** The functor that [_close_callback] gives to the main loop. *)
Definition close_functor (connection_id : Z) (s : server) : result server :=
  match _tcp_connect_socketfds s !! connection_id with
  | None => Err Fatal
  | Some _ => Ok (with_table (delete connection_id (_tcp_connect_socketfds s)) s)
  end.

(** [_close_callback]: run at once in the thread of the main loop, posted to a
    queue from another thread. *)
Definition _close_callback (in_owner_thread : bool) (functor_blocking_queue_index : nat)
    (connection_id : Z) (s : server) : result server :=
  if in_owner_thread then close_functor connection_id s
  else if functor_blocking_queue_index <? number_of_queues s then
    Ok (with_queue functor_blocking_queue_index
          (queued s functor_blocking_queue_index ++ [connection_id]) s)
  else Err UndefinedBehaviour.

Fixpoint run_functors (ids : list Z) (s : server) : result server :=
  match ids with
  | [] => Ok s
  | id :: ids => let* s := close_functor id s in run_functors ids s
  end.

(** The main loop empties a queue. *)
Definition drain_queue (i : nat) (s : server) : result server :=
  run_functors (queued s i) (with_queue i [] s).

Fixpoint drain_queues (indices : list nat) (s : server) : result server :=
  match indices with
  | [] => Ok s
  | i :: indices => let* s := drain_queue i s in drain_queues indices s
  end.

(** [_loop->invoke_all_functors()] in the thread of the main loop. *)
Definition invoke_all_functors (s : server) : result server :=
  drain_queues (seq 0 (number_of_queues s)) s.

Fixpoint post_all (posts : list (nat * Z)) (s : server) : result server :=
  match posts with
  | [] => Ok s
  | (i, id) :: posts => let* s := _close_callback false i id s in post_all posts s
  end.

(** [stop].  A round of its loop: what the workers post while it sleeps, and the
    threads as it finds them; [None]: the rounds given are not enough. *)
Fixpoint stop_rounds (rounds : list (list (nat * Z) * EventLoopThreadPool)) (s : server)
    : option (result server) :=
  match rounds with
  | [] => None
  | (posts, p) :: rounds =>
      match post_all posts s with
      | Err e => Some (Err e)
      | Ok s =>
          match invoke_all_functors (with_pool (Some p) s) with
          | Err e => Some (Err e)
          | Ok s =>
              if pool_is_joinable p then
                Some (let* p := pool_join true Joined p in Ok (with_pool (Some p) s))
              else stop_rounds rounds s
          end
      end
  end.

Definition stop (rounds : list (list (nat * Z) * EventLoopThreadPool)) (s : server)
    : option (result server) :=
  if _is_stopped s then Some (Ok s)
  else if negb (_is_started s) then Some (Err Fatal)
  else
    let finish (s : server) := Ok (with_state (_is_started s) true s) in
    if 0 <? _thread_pool_capacity s then
      match _thread_pool_ptr s with
      | None => Some (Err UndefinedBehaviour)
      | Some p =>
          match pool_stop p with
          | Err e => Some (Err e)
          | Ok p =>
              match stop_rounds rounds (with_pool (Some p) s) with
              | None => None
              | Some (Err e) => Some (Err e)
              | Some (Ok s) => Some (finish s)
              end
          end
      end
    else Some (finish s).

(** The ids in the order of a [std::map]. *)
Definition ascending_ids (m : gmap Z C) : list Z := merge_sort Z.le (elements (dom m)).

(** A loop over the table, for a body that adds no connection and erases none
    but its own.  Going on to the next element is undefined when the current one
    has been erased. *)
Fixpoint for_each_connection (body : Z -> C -> server -> result server) (ids : list Z) (s : server)
    : result server :=
  match ids with
  | [] => Ok s
  | id :: ids =>
      match _tcp_connect_socketfds s !! id with
      | None => Err UndefinedBehaviour
      | Some c =>
          let* s := body id c s in
          match _tcp_connect_socketfds s !! id with
          | None => Err UndefinedBehaviour
          | Some _ => for_each_connection body ids s
          end
      end
  end.

Definition run_for_each_connection (callback : Z -> C -> server -> result server) (s : server)
    : result server :=
  for_each_connection callback (ascending_ids (_tcp_connect_socketfds s)) s.

(** What the destructor does with a connection that is left; [index] is the queue
    index it was given. *)
Definition reset_one (in_owner_thread : bool) (index : Z -> nat) (id : Z) (c : C) (s : server)
    : result server :=
  let* (c, s) := conn_reset (_close_callback in_owner_thread (index id) id) c s in
  match _tcp_connect_socketfds s !! id with
  | None => Ok s
  | Some _ => Ok (with_table (<[id := c]> (_tcp_connect_socketfds s)) s)
  end.

Definition delete_TcpServer (in_owner_thread : bool) (index : Z -> nat) (s : server)
    : result server :=
  if negb (_is_stopped s) then Err Fatal
  else run_for_each_connection (reset_one in_owner_thread index) s.
End Server.

(** * The connections of the server *)
Section TcpConnection.
Context {K X : Type} `{Epoll K} `{Socket K}.
Context (make_loop : nat -> EventPoller K) (cb : callbacks (TcpConnectSocketfd K X unit)).

Definition set_outside {U V} (v : V) (c : TcpConnectSocketfd K X U) : TcpConnectSocketfd K X V :=
  mkConn (_pollable_file_descriptor c) (_loop c) (_input_buffer c) (_output_buffer c) (context c)
    (_is_write_end_shutdown c) (_is_reset c) (_is_abotrted c) v.

(** The close callback that [_new_connection_callback] registers. *)
Definition owner_callback {S} (f : S -> result S) : callbacks (TcpConnectSocketfd K X S) :=
  mkCallbacks None None (Some (fun c => let* s := f (outside c) in Ok (with_outside s c))).

#[export] Instance tcp_server_connection : ServerConnection (TcpConnectSocketfd K X unit) := {
  conn_new fd loop id := new_TcpConnectSocketfd id fd (make_loop loop) tt;
  conn_start := TcpConnectSocketfd.start cb;
  conn_reset S f c s :=
    let* c' := reset_connection (owner_callback f) (set_outside s c) in
    Ok (set_outside tt c', outside c')
}.

#[export] Instance tcp_server_connection_laws : ServerConnectionLaws (TcpConnectSocketfd K X unit).
Proof.
  split; intros S f c s; simpl; unfold reset_connection; simpl.
  - intros c' s'. destruct (_is_reset c); [done |].
    destruct (f s) as [s1 |]; [| done]. simpl. destruct (set_linger _ _); [| done].
    unfold descriptor. destruct (close_fd _); [| done]. simpl. by intros [= _ <-].
  - intros e E. destruct (_is_reset c); [by right |]. rewrite E. by left.
Qed.
End TcpConnection.

(** * The table follows the connections *)

(** What happens to the server while it runs: the kernel accepts a connection, a
    connection runs its close callback (in the thread of its loop), the main loop
    runs a queue of functors. *)
Inductive server_op := Connect (connect_socketfd : Z) | CloseConnection (id : Z) | DrainQueue (i : nat).

(** The server, the loops of the connections accepted so far, and the connections
    whose close callback has run. *)
Record world (C : Type) := mkWorld {
  srv : TcpServer C;
  chosen : gmap Z (option nat);
  closed : gset Z
}.
Arguments mkWorld {C}.
Arguments srv {C}.
Arguments chosen {C}.
Arguments closed {C}.

Section Table.
Set Default Proof Using "Type*".
Context {C : Type} `{ServerConnection C}.

(** The ids whose functors wait in some queue. *)
Definition waiting (s : TcpServer C) : list Z :=
  concat (queued s <$> seq 0 (number_of_queues s)).

Definition table (s : TcpServer C) : gset Z := dom (_tcp_connect_socketfds s).

Lemma concat_update (f : nat -> list Z) i l js :
  NoDup js -> i ∈ js ->
  f i ++ concat (<[i := l]> f <$> js) ≡ₚ l ++ concat (f <$> js).
Proof.
  induction 1 as [| j js Hj Hnd IH]; [by intros ?%elem_of_nil |]. intros [-> | Hi]%elem_of_cons.
  - rewrite !fmap_cons. cbn [concat]. rewrite fn_lookup_insert.
    assert (E : <[j := l]> f <$> js = f <$> js).
    { apply list_fmap_ext. intros k x Hx. apply list_elem_of_lookup_2 in Hx.
      apply fn_lookup_insert_ne. naive_solver. }
    rewrite E. rewrite !app_assoc. by rewrite (Permutation_app_comm (f j) l).
  - rewrite !fmap_cons. cbn [concat]. destruct (decide (i = j)) as [-> | Hne]; [done |].
    rewrite fn_lookup_insert_ne by done.
    rewrite app_assoc, (Permutation_app_comm (f i)), <- app_assoc, (IH Hi).
    rewrite !app_assoc. by rewrite (Permutation_app_comm (f j) l).
Qed.

Lemma waiting_update i l (s : TcpServer C) :
  i < number_of_queues s ->
  queued s i ++ waiting (with_queue i l s) ≡ₚ l ++ waiting s.
Proof. intros Hi. apply concat_update; [apply NoDup_seq | apply elem_of_seq; simpl; lia]. Qed.

Lemma close_functor_ok id (s : TcpServer C) :
  id ∈ table s ->
  close_functor id s = Ok (with_table (delete id (_tcp_connect_socketfds s)) s).
Proof. unfold table. intros [c Hc]%elem_of_dom. unfold close_functor. by rewrite Hc. Qed.

Lemma run_functors_ok ids (s : TcpServer C) :
  NoDup ids -> (forall id, id ∈ ids -> id ∈ table s) ->
  exists m, run_functors ids s = Ok (with_table m s) /\ dom m = table s ∖ list_to_set ids.
Proof.
  intros Hnd. revert s. induction Hnd as [| id ids Hid Hnd IH]; intros s Hin; simpl.
  - exists (_tcp_connect_socketfds s). split; [by destruct s |]. unfold table. set_solver.
  - rewrite close_functor_ok by set_solver.
    destruct (IH (with_table (delete id (_tcp_connect_socketfds s)) s)) as (m & -> & Hm).
    + intros id' Hid'. unfold table; simpl. rewrite dom_delete_L. set_solver.
    + exists m. split; [done |]. rewrite Hm. unfold table; simpl. rewrite dom_delete_L. set_solver.
Qed.

End Table.

Section Accounting.
Set Default Proof Using "All".
Context {C : Type} `{ServerConnection C} (on_connect : C -> result C).
Context (fd_ok : Z -> Prop) (ready : C -> Prop).

Definition run_op (op : server_op) (w : world C) : result (world C) :=
  match op with
  | Connect fd =>
      let* (id, loop, s) := _new_connection_callback on_connect fd (srv w) in
      Ok (mkWorld s (<[id := loop]> (chosen w)) (closed w))
  | CloseConnection id =>
      match chosen w !! id with
      | None => Ok w
      | Some loop =>
          let* s := _close_callback (bool_decide (loop = None)) (get_loop_index loop) id (srv w) in
          Ok (mkWorld s (chosen w) ({[id]} ∪ closed w))
      end
  | DrainQueue i => let* s := drain_queue i (srv w) in Ok (mkWorld s (chosen w) (closed w))
  end.

Fixpoint run_ops (ops : list server_op) (w : world C) : result (world C) :=
  match ops with
  | [] => Ok w
  | op :: ops => let* w := run_op op w in run_ops ops w
  end.

(** No connection runs its close callback twice (or before it exists), the queues
    are the loop's, and the ids do not wrap around. *)
Definition op_ok (op : server_op) (w : world C) : Prop :=
  match op with
  | Connect fd => fd_ok fd /\ (_tcp_connection_id_counter (srv w) + 1 < 2 ^ 64)%Z
  | CloseConnection id => id ∈ dom (chosen w) /\ id ∉ closed w
  | DrainQueue i => i < number_of_queues (srv w)
  end.

Fixpoint ops_ok (ops : list server_op) (w : world C) : Prop :=
  match ops with
  | [] => True
  | op :: ops => op_ok op w /\ forall w', run_op op w = Ok w' -> ops_ok ops w'
  end.

Definition loops_ok (s : TcpServer C) : Prop :=
  0 < number_of_queues s /\
  if 0 <? _thread_pool_capacity s
  then exists p, _thread_pool_ptr s = Some p /\ pool_running p /\
         _thread_pool_capasity p <= number_of_queues s
  else True.

Record accounted (w : world C) : Prop := {
  acc_table : table (srv w) = (dom (chosen w) ∖ closed w) ∪ list_to_set (waiting (srv w));
  acc_nodup : NoDup (waiting (srv w));
  acc_waiting : list_to_set (waiting (srv w)) ⊆ closed w;
  acc_closed : closed w ⊆ dom (chosen w);
  acc_ids id : id ∈ dom (chosen w) -> (id < _tcp_connection_id_counter (srv w))%Z;
  acc_counter : (0 <= _tcp_connection_id_counter (srv w) < 2 ^ 64)%Z;
  acc_index id i : chosen w !! id = Some (Some i) -> i < number_of_queues (srv w);
  acc_loops : loops_ok (srv w)
}.

Lemma drain_queue_ok i w :
  accounted w -> i < number_of_queues (srv w) ->
  exists m, drain_queue i (srv w) = Ok (with_table m (with_queue i [] (srv w))) /\
    accounted (mkWorld (with_table m (with_queue i [] (srv w))) (chosen w) (closed w)).
Proof.
  intros Hw Hi. pose proof (waiting_update i [] (srv w) Hi) as Hp. simpl in Hp.
  pose proof (acc_nodup _ Hw) as Hnd. rewrite <- Hp in Hnd. apply NoDup_app in Hnd as (Hnd1 & Hdis & Hnd2).
  assert (Hset : (list_to_set (waiting (srv w)) : gset Z)
            = list_to_set (queued (srv w) i) ∪ list_to_set (waiting (with_queue i [] (srv w)))).
  { rewrite <- list_to_set_app_L. by rewrite Hp. }
  destruct (run_functors_ok (queued (srv w) i) (with_queue i [] (srv w)) Hnd1) as (m & E & Hm).
  { intros id Hid. change (id ∈ table (srv w)). rewrite (acc_table _ Hw), Hset. set_solver. }
  exists m. split; [exact E |]. pose proof (acc_waiting _ Hw) as Hwc. rewrite Hset in Hwc.
  split; cbn [srv chosen closed]; try by apply Hw.
  - unfold table; simpl. rewrite Hm. change (table (with_queue i [] (srv w))) with (table (srv w)).
    rewrite (acc_table _ Hw), Hset.
    change (waiting (with_table m (with_queue i [] (srv w)))) with (waiting (with_queue i [] (srv w))).
    apply set_eq. intros x. specialize (Hdis x). specialize (Hwc x).
    rewrite elem_of_union, !elem_of_list_to_set in Hwc.
    rewrite elem_of_difference, !elem_of_union, elem_of_difference, !elem_of_list_to_set. naive_solver.
  - exact Hnd2.
  - change (list_to_set (waiting (with_queue i [] (srv w))) ⊆ closed w). set_solver.
Qed.

Lemma close_ok id w :
  accounted w -> op_ok (CloseConnection id) w ->
  exists w', run_op (CloseConnection id) w = Ok w' /\ accounted w' /\
    chosen w' = chosen w /\ closed w' = {[id]} ∪ closed w.
Proof.
  intros Hw [Hid Hnc]. pose proof Hid as Hdom. apply elem_of_dom in Hid as [loop Hl]. simpl. rewrite Hl.
  assert (Htab : id ∈ table (srv w)) by (rewrite (acc_table _ Hw); set_solver).
  assert (Hwait : id ∉ waiting (srv w)).
  { intros Hin. apply Hnc, (acc_waiting _ Hw), elem_of_list_to_set, Hin. }
  destruct loop as [i |].
  - rewrite bool_decide_false by done. change (get_loop_index (Some i)) with i. unfold _close_callback. pose proof (acc_index _ Hw _ _ Hl) as Hi.
    rewrite (proj2 (Nat.ltb_lt _ _) Hi).
    set (s := with_queue i (queued (srv w) i ++ [id]) (srv w)).
    assert (Hp : waiting s ≡ₚ id :: waiting (srv w)).
    { apply (Permutation_app_inv_l (queued (srv w) i)).
      unfold s. rewrite (waiting_update i _ (srv w) Hi). by rewrite <- app_assoc. }
    eexists. split; [done |]. split; [| done].
    assert (Hset : (list_to_set (waiting s) : gset Z) = {[id]} ∪ list_to_set (waiting (srv w))).
    { rewrite (list_to_set_perm_L _ _ Hp). done. }
    split; cbn [srv chosen closed]; try by apply Hw.
    + change (table s) with (table (srv w)). rewrite Hset, (acc_table _ Hw).
      apply set_eq. intros x. rewrite !elem_of_union, !elem_of_difference, elem_of_union, elem_of_singleton.
      destruct (decide (x = id)); naive_solver.
    + rewrite Hp. constructor; [done | apply Hw].
    + rewrite Hset. pose proof (acc_waiting _ Hw). set_solver.
    + pose proof (acc_closed _ Hw). set_solver.
  - rewrite bool_decide_true by done. unfold _close_callback. rewrite close_functor_ok by done.
    eexists. split; [done |]. split; [| done].
    split; cbn [srv chosen closed]; try by apply Hw.
    + unfold table at 1. cbn [_tcp_connect_socketfds with_table]. rewrite dom_delete_L.
      change (dom (_tcp_connect_socketfds (srv w))) with (table (srv w)). rewrite (acc_table _ Hw).
      change (waiting (with_table _ (srv w))) with (waiting (srv w)).
      apply set_eq. intros x. rewrite !elem_of_difference, !elem_of_union, !elem_of_difference,
        elem_of_union, elem_of_singleton, elem_of_list_to_set.
      destruct (decide (x = id)); naive_solver.
    + change (waiting (with_table _ (srv w))) with (waiting (srv w)).
      pose proof (acc_waiting _ Hw). set_solver.
    + pose proof (acc_closed _ Hw). set_solver.
Qed.

(** C29: When a connection runs its close callback twice, the second functor does not
    find it in the table and ends the process. *)
Theorem double_close_is_fatal id i w (Hw : accounted w) (Hid : op_ok (CloseConnection id) w)
    (Hloop : chosen w !! id = Some (Some i)) :
  exists w1 s2, run_op (CloseConnection id) w = Ok w1 /\
    _close_callback false i id (srv w1) = Ok s2 /\ drain_queue i s2 = Err Fatal.
Proof.
  destruct (close_ok id w Hw Hid) as (w1 & E & Hw1 & Hch & Hcl).
  pose proof (acc_index _ Hw1 id i ltac:(by rewrite Hch)) as Hi.
  exists w1. eexists. split; [exact E |].
  unfold _close_callback. rewrite (proj2 (Nat.ltb_lt _ _) Hi). split; [done |]. unfold drain_queue. cbn [queued with_queue]. rewrite fn_lookup_insert.
  pose proof (waiting_update i [] (srv w1) Hi) as Hp. simpl in Hp.
  pose proof (acc_nodup _ Hw1) as Hnd. rewrite <- Hp in Hnd. apply NoDup_app in Hnd as (Hnd & _ & _).
  assert (Hin : id ∈ queued (srv w1) i).
  { simpl in E. rewrite Hloop in E. rewrite bool_decide_false in E by done. simpl in E.
    unfold _close_callback in E. pose proof (acc_index _ Hw _ _ Hloop) as Hi0.
    rewrite (proj2 (Nat.ltb_lt _ _) Hi0) in E. injection E as <-. simpl. rewrite fn_lookup_insert.
    apply elem_of_app. right. by apply list_elem_of_singleton. }
  assert (Happ : forall l1 l2 (s : TcpServer C), run_functors (l1 ++ l2) s
            = let* s := run_functors l1 s in run_functors l2 s).
  { induction l1 as [| x l1 IH]; simpl; intros l2 s; [done |]. destruct (close_functor x s); [apply IH | done]. }
  rewrite Happ.
  set (s0 := with_queue i [] (with_queue i (queued (srv w1) i ++ [id]) (srv w1))).
  destruct (run_functors_ok (queued (srv w1) i) s0 Hnd) as (m & -> & Hm).
  { intros x Hx. change (x ∈ table (srv w1)). rewrite (acc_table _ Hw1).
    apply elem_of_union. right. apply elem_of_list_to_set. rewrite <- Hp. apply elem_of_app. by left. }
  simpl. unfold close_functor. cbn [_tcp_connect_socketfds with_table].
  assert (Hnone : m !! id = None).
  { apply not_elem_of_dom. rewrite Hm. rewrite elem_of_difference, elem_of_list_to_set. naive_solver. }
  by rewrite Hnone.
Qed.
(** Connections on the descriptors that the kernel hands out can be constructed,
    passed to the user's callback and started. *)
Hypothesis new_ok : forall fd loop id,
  fd_ok fd -> exists c, conn_new fd loop id = Ok c /\ ready c.
Hypothesis connect_ok : forall c, ready c -> exists c', on_connect c = Ok c' /\ ready c'.
Hypothesis start_ok : forall c, ready c -> exists c', conn_start c = Ok c'.

Lemma choose_loop_ok (s : TcpServer C) :
  loops_ok s ->
  exists loop p, choose_loop s = Ok (loop, with_pool p s) /\ loops_ok (with_pool p s) /\
    forall i, loop = Some i -> i < number_of_queues s.
Proof.
  unfold choose_loop, loops_ok. intros [Hq Hp]. cbn [_thread_pool_capacity with_pool number_of_queues].
  destruct (0 <? _thread_pool_capacity s).
  - destruct Hp as (p & -> & Hr & Hc). destruct (get_next_loop_spec p Hr) as (p' & -> & Hi & Hr' & Hc' & _).
    do 2 eexists. split; [done |]. split.
    + split; [done |]. exists p'. split; [done |]. split; [done |]. by rewrite Hc'.
    + intros ? [= <-]. lia.
  - exists None, (_thread_pool_ptr s). split; [by destruct s |]. by split.
Qed.

Lemma connect_accounted fd w :
  accounted w -> op_ok (Connect fd) w ->
  exists w' loop, run_op (Connect fd) w = Ok w' /\ accounted w' /\
    chosen w' = <[_tcp_connection_id_counter (srv w) := loop]> (chosen w) /\ closed w' = closed w /\
    _tcp_connection_id_counter (srv w') = (_tcp_connection_id_counter (srv w) + 1)%Z.
Proof.
  intros Hw [Hfd Hid]. set (id := _tcp_connection_id_counter (srv w)) in *.
  pose proof (acc_counter _ Hw) as Hc. fold id in Hc.
  assert (Hfresh : id ∉ dom (chosen w)).
  { intros Hin. pose proof (acc_ids _ Hw _ Hin) as Hlt. fold id in Hlt. lia. }
  assert (Htab : id ∉ table (srv w)).
  { rewrite (acc_table _ Hw). pose proof (acc_waiting _ Hw). pose proof (acc_closed _ Hw). set_solver. }
  simpl. unfold _new_connection_callback. fold id. rewrite u64_small by lia.
  destruct (choose_loop_ok (with_counters (id + 1) (_max_number_of_connections (srv w)) (srv w)))
    as (loop & p & -> & Hlo & Hin); [apply Hw |].
  destruct (new_ok fd (get_loop_index loop) id Hfd) as (c & -> & Hready).
  cbn [_tcp_connect_socketfds with_pool with_counters].
  assert (Hnone : _tcp_connect_socketfds (srv w) !! id = None) by by apply not_elem_of_dom.
  rewrite Hnone. destruct (connect_ok c Hready) as (c' & -> & Hready').
  destruct (start_ok c' Hready') as [c'' ->].
  eexists _, loop. split; [done |]. split; [| done].
  split; cbn [srv chosen closed]; try by apply Hw.
  - unfold table at 1. simpl. rewrite insert_insert_eq, dom_insert_L, dom_insert_L.
    change (dom (_tcp_connect_socketfds (srv w))) with (table (srv w)). rewrite (acc_table _ Hw).
    unfold waiting. simpl. pose proof (acc_closed _ Hw). set_solver.
  - pose proof (acc_closed _ Hw). rewrite dom_insert_L. set_solver.
  - intros id'. rewrite dom_insert_L, elem_of_union, elem_of_singleton. simpl. intros [-> | H']; [lia |].
    pose proof (acc_ids _ Hw _ H') as Hlt. fold id in Hlt. lia.
  - simpl. lia.
  - intros id' i. simpl. destruct (decide (id = id')) as [<- | Hne].
    + rewrite lookup_insert_eq. intros [= ->]. by apply Hin.
    + rewrite lookup_insert_ne by done. apply Hw.
  - exact Hlo.
Qed.

Lemma run_op_ok op w :
  accounted w -> op_ok op w -> exists w', run_op op w = Ok w' /\ accounted w'.
Proof.
  intros Hw Hop. destruct op.
  - destruct (connect_accounted _ _ Hw Hop) as (w' & _ & E & H' & _). eauto.
  - destruct (close_ok _ _ Hw Hop) as (w' & E & H' & _). eauto.
  - destruct (drain_queue_ok _ _ Hw Hop) as (m & E & H'). simpl. rewrite E. eauto.
Qed.

Lemma run_ops_ok ops w :
  accounted w -> ops_ok ops w -> exists w', run_ops ops w = Ok w' /\ accounted w'.
Proof.
  revert w. induction ops as [| op ops IH]; simpl; intros w Hw; [eauto |].
  intros [Hop Hops]. destruct (run_op_ok op w Hw Hop) as (w' & E & Hw'). rewrite E. auto.
Qed.

Lemma drain_queues_ok js w :
  accounted w -> Forall (fun i => i < number_of_queues (srv w)) js ->
  exists s, drain_queues js (srv w) = Ok s /\ accounted (mkWorld s (chosen w) (closed w)) /\
    number_of_queues s = number_of_queues (srv w) /\
    forall j, queued s j = if decide (j ∈ js) then [] else queued (srv w) j.
Proof.
  intros Hw Hjs. revert w Hw Hjs. induction js as [| i js IH]; simpl; intros w Hw Hjs.
  { exists (srv w). split; [done |]. split; [by destruct w |]. by split. }
  apply Forall_cons in Hjs as [Hi Hjs]. destruct (drain_queue_ok i w Hw Hi) as (m & -> & Hw').
  destruct (IH (mkWorld (with_table m (with_queue i [] (srv w))) (chosen w) (closed w)) Hw' Hjs)
    as (s & E & Hs & Hn & Hq).
  exists s. split; [exact E |]. split; [done |]. split; [done |]. intros j. rewrite Hq. cbn [srv queued with_table with_queue].
  destruct (decide (j ∈ js)) as [Hj | Hj].
  - by rewrite decide_True by (by right).
  - destruct (decide (j = i)) as [-> | Hne].
    + rewrite fn_lookup_insert. by rewrite decide_True by left.
    + rewrite fn_lookup_insert_ne by done. rewrite decide_False; [done |].
      rewrite elem_of_cons. naive_solver.
Qed.

(** C7: While every connection runs its close callback at most once, the server never
    fails: the table always holds exactly the connections accepted and not
    closed, and those closed whose functor still waits (each in one queue, once).
    Running all the functors then leaves exactly the connections that are
    accepted and not closed. *)
Theorem connections_accounted ops w (Hw : accounted w) (Hops : ops_ok ops w) :
  exists w' s, run_ops ops w = Ok w' /\
    table (srv w') = (dom (chosen w') ∖ closed w') ∪ list_to_set (waiting (srv w')) /\
    NoDup (waiting (srv w')) /\ list_to_set (waiting (srv w')) ⊆ closed w' /\
    invoke_all_functors (srv w') = Ok s /\ waiting s = [] /\
    table s = dom (chosen w') ∖ closed w' /\
    get_number_of_tcp_connections s = base.size (dom (chosen w') ∖ closed w').
Proof.
  destruct (run_ops_ok ops w Hw Hops) as (w' & E & Hw').
  destruct (drain_queues_ok (seq 0 (number_of_queues (srv w'))) w' Hw') as (s & Es & Hs & Hn & Hq).
  { apply Forall_forall. intros i Hi%elem_of_seq. lia. }
  exists w', s. split; [done |]. split; [apply Hw' |]. split; [apply Hw' |]. split; [apply Hw' |].
  split; [done |].
  assert (Hwait : waiting s = []).
  { unfold waiting. rewrite Hn. clear -Hq.
    assert (H0 : forall l, (forall j, j ∈ l -> queued s j = []) -> concat (queued s <$> l) = []).
    { induction l as [| j l IH]; [done |]. intros Hl. rewrite fmap_cons. cbn [concat].
      rewrite Hl by left. apply IH. intros j' Hj'. apply Hl. by right. }
    apply H0. intros j Hj. rewrite Hq. by rewrite decide_True. }
  split; [done |].
  assert (Ht : table s = dom (chosen w') ∖ closed w').
  { pose proof (acc_table _ Hs) as Ht. cbn [srv chosen closed] in Ht. rewrite Ht, Hwait. set_solver. }
  split; [done |]. rewrite <- Ht. unfold get_number_of_tcp_connections, table. by rewrite size_dom.
Qed.

End Accounting.

(** * Destroying the server *)
Section Destructor.
Set Default Proof Using "Type*".
Context {C : Type} `{ServerConnectionLaws C}.

Lemma ascending_ids_perm (m : gmap Z C) : ascending_ids m ≡ₚ elements (dom m).
Proof. apply merge_sort_Permutation. Qed.

(** Destroying a server with no connection left is safe.  But with one left, in
    the thread of the main loop, the reset of that connection runs its close
    callback at once, which erases it from the table under the loop of the
    destructor: undefined behaviour. *)
Theorem destructor_spec index (s : TcpServer C) (Hstop : _is_stopped s = true)
    (Hreset : forall id c (f : TcpServer C -> result (TcpServer C)) s1 s2,
       _tcp_connect_socketfds s !! id = Some c -> f s1 = Ok s2 ->
       exists r, conn_reset f c s1 = Ok r) :
  if decide (table s = ∅) then delete_TcpServer true index s = Ok s
  else delete_TcpServer true index s = Err UndefinedBehaviour.
Proof.
  unfold delete_TcpServer, run_for_each_connection. rewrite Hstop. cbn [negb].
  pose proof (ascending_ids_perm (_tcp_connect_socketfds s)) as Hp.
  destruct (decide (table s = ∅)) as [Ht | Ht].
  - unfold table in Ht. rewrite Ht, elements_empty in Hp. apply Permutation_nil_r in Hp. by rewrite Hp.
  - destruct (ascending_ids (_tcp_connect_socketfds s)) as [| id ids].
    + destruct Ht. apply Permutation_nil_l in Hp. symmetry in Hp.
      apply elements_empty_inv in Hp. by apply leibniz_equiv.
    + assert (Hid : id ∈ table s).
      { apply elem_of_elements. unfold table. rewrite <- Hp. by left. }
      pose proof (close_functor_ok id s Hid) as Hclose. unfold table in Hid. apply elem_of_dom in Hid as [c Hc].
      cbn [for_each_connection]. rewrite Hc. unfold reset_one.
      destruct (Hreset id c (_close_callback true (index id) id) s _ Hc Hclose) as [r Hr].
      destruct r as [c' s']. rewrite Hr. apply conn_reset_law in Hr as E.
      cbn [_close_callback] in E. rewrite Hclose in E. injection E as <-.
      cbn [_tcp_connect_socketfds with_table]. rewrite lookup_delete_eq. simpl.
      by rewrite lookup_delete_eq.
Qed.
End Destructor.

(** * A server with two workers on a concrete kernel *)
Abbreviation sample_connection := (TcpConnectSocketfd sample_socket nat unit).

Definition sample_loop (_ : nat) : EventPoller sample_socket :=
  new_EventPoller (sample_socket_state 9 [] false ShutdownDone) 16.

#[local] Instance sample_server_connection : ServerConnection sample_connection :=
  tcp_server_connection sample_loop (mkCallbacks (Some (fun _ c => Ok c)) None None).

#[local] Instance sample_server_connection_laws : ServerConnectionLaws sample_connection :=
  tcp_server_connection_laws sample_loop (mkCallbacks (Some (fun _ c => Ok c)) None None).

Definition sample_fd_ok (fd : Z) : Prop := fd = 5%Z.
Definition sample_ready (c : sample_connection) : Prop :=
  exists loop id, conn_new 5 loop id = Ok c.

Lemma sample_new_ok fd loop id :
  sample_fd_ok fd -> exists c : sample_connection, conn_new fd loop id = Ok c /\ sample_ready c.
Proof. intros ->. eexists. split; [reflexivity |]. by exists loop, id. Qed.

Lemma sample_connect_ok (c : sample_connection) :
  sample_ready c -> exists c', Ok c = Ok c' /\ sample_ready c'.
Proof. intros H. by exists c. Qed.

Lemma sample_start_ok (c : sample_connection) :
  sample_ready c -> exists c', conn_start c = Ok c'.
Proof. intros (loop & id & [= <-]). eexists. reflexivity. Qed.

Definition sample_server : result (TcpServer sample_connection) := start_thread_pool (new_TcpServer 2 2).

Lemma sample_server_accounted :
  exists s, sample_server = Ok s /\ _is_stopped s = false /\
    accounted (mkWorld s ∅ ∅).
Proof.
  eexists. split; [reflexivity |]. split; [reflexivity |].
  split; simpl; try done; try set_solver; [constructor |].
  split; [simpl; lia |]. eexists. split; [reflexivity |]. split; [| simpl; lia].
  split; simpl; try done; [lia |]. intros [| [| i]] t; simpl; naive_solver.
Qed.

(** Three connections, of which the first closes. *)
Definition sample_ops : list server_op := [Connect 5; Connect 5; CloseConnection 0; Connect 5].

Lemma sample_ops_ok s : sample_server = Ok s ->
  ops_ok (fun c => Ok c) sample_fd_ok sample_ops (mkWorld s ∅ ∅).
Proof.
  intros [= <-]. unfold sample_ops. cbn [ops_ok op_ok].
  split; [done |]. intros w1 H1. vm_compute in H1. injection H1 as <-. split; [done |].
  intros w2 H2. vm_compute in H2. injection H2 as <-.
  split; [split; [by apply elem_of_dom | apply not_elem_of_empty] |].
  intros w3 H3. vm_compute in H3. injection H3 as <-. by split.
Qed.

Lemma connections_accounted_witness :
  exists s w' s', sample_server = Ok s /\ run_ops (fun c => Ok c) sample_ops (mkWorld s ∅ ∅) = Ok w' /\
    invoke_all_functors (srv w') = Ok s' /\ table s' = dom (chosen w') ∖ closed w'.
Proof.
  destruct sample_server_accounted as (s & E & _ & Hacc).
  destruct (connections_accounted (fun c => Ok c) sample_fd_ok sample_ready sample_new_ok
              sample_connect_ok sample_start_ok sample_ops _ Hacc (sample_ops_ok s E))
    as (w' & s' & H1 & _ & _ & _ & H2 & _ & H3 & _).
  exists s, w', s'. exact (conj E (conj H1 (conj H2 H3))).
Defined.

Lemma sample_connected s w' : sample_server = Ok s ->
  run_ops (fun c => Ok c) [Connect 5] (mkWorld s ∅ ∅) = Ok w' -> accounted w'.
Proof.
  intros E E'. destruct sample_server_accounted as (s0 & E0 & _ & Hacc).
  rewrite E in E0. injection E0 as <-.
  destruct (run_ops_ok (fun c => Ok c) sample_fd_ok sample_ready sample_new_ok
              sample_connect_ok sample_start_ok [Connect 5] _ Hacc) as (w1 & E1 & Hw1).
  - injection E as <-. by split; [| intros].
  - rewrite E' in E1. by injection E1 as <-.
Qed.

Lemma double_close_is_fatal_witness :
  exists s w' w1 s2, sample_server = Ok s /\
    run_ops (fun c => Ok c) [Connect 5] (mkWorld s ∅ ∅) = Ok w' /\
    run_op (fun c => Ok c) (CloseConnection 0) w' = Ok w1 /\
    _close_callback false 0 0 (srv w1) = Ok s2 /\ drain_queue 0 s2 = Err Fatal.
Proof.
  eexists. eexists.
  edestruct (double_close_is_fatal (C := sample_connection) (fun c => Ok c) sample_fd_ok sample_ready 0 0)
    as (w1 & s2 & H1 & H2 & H3).
  - eapply sample_connected; reflexivity.
  - split; [by apply elem_of_dom | apply not_elem_of_empty].
  - reflexivity.
  - exists w1, s2. split; [reflexivity |]. split; [reflexivity |]. exact (conj H1 (conj H2 H3)).
Defined.

(** A stopped server with one connection left. *)
Definition sample_left_connection : sample_connection :=
  mkConn (mkPfd 0 5 false false true EPOLLET (mkEvent 0 EPOLLET)) (sample_loop 0)
    (TcpBuffer.new 0) (TcpBuffer.new 0) None false false false tt.

Definition sample_left : TcpServer sample_connection :=
  with_state true true (with_table {[0%Z := sample_left_connection]} (new_TcpServer 0 1)).

Lemma destructor_spec_witness : delete_TcpServer true (fun _ => 0) sample_left = Err UndefinedBehaviour.
Proof.
  pose proof (destructor_spec (fun _ => 0) sample_left eq_refl) as H.
  rewrite decide_False in H.
  - apply H. intros id c f s1 s2 Hc Hf. simpl in Hc.
    apply lookup_singleton_Some in Hc as [_ <-]. eexists.
    cbn [conn_reset sample_server_connection tcp_server_connection]. unfold reset_connection. simpl.
    rewrite Hf. reflexivity.
  - unfold table, sample_left. simpl. rewrite dom_singleton_L. set_solver.
Defined.
