(* ===== verification/ConnectionDestroying.v ===== *)
(** Destroying connections in the background: the parts of [src/tcp_server.cc] that
    [script/build.sh] turns on with [USE_SHARED_PTR_DESTRUCTION_TRANSFERING].

    A connection that closes leaves the table of the server, but the reference to it
    moves to a vector of the main loop; when that holds 512 of them it is pushed, under
    a mutex, on a vector of vectors, and a functor is posted to the loop of a thread of
    its own, which pops one of the vectors, under the mutex, and clears it.  The two
    threads are one machine whose steps are the critical sections, the posting, and the
    clearing.  A reference is the id of its connection. *)
From S2P Require Import Prelude EventLoopThreadPool TcpServer.
From stdpp Require Import fin_maps.
Open Scope nat_scope.

Definition _MAX_SIZE_OF_CURRENT_VECTOR : nat := 512.

Record Destroying := mkDestroying {
  _current_vector : list Z;
  _vectors : list (list Z);
  functors : nat;               (* waiting in the loop of the destroying thread *)
  picked : option (list Z);     (* what that thread is clearing *)
  destroyed : list Z            (* in the order of destruction *)
}.

Definition new_Destroying : Destroying := mkDestroying [] [] 0 None [].

(** ** The main loop *)
Definition move_to_current (id : Z) (d : Destroying) : Destroying :=
  mkDestroying (_current_vector d ++ [id]) (_vectors d) (functors d) (picked d) (destroyed d).

Definition current_is_full (d : Destroying) : bool :=
  _MAX_SIZE_OF_CURRENT_VECTOR <=? length (_current_vector d).

(** The critical section of [_transfer_tcp_connections_to_background_thread]. *)
Definition push_current (d : Destroying) : Destroying :=
  mkDestroying [] (_vectors d ++ [_current_vector d]) (functors d) (picked d) (destroyed d).

(** [run], which leaves the functor in the queue of the other loop. *)
Definition post_functor (d : Destroying) : Destroying :=
  mkDestroying (_current_vector d) (_vectors d) (S (functors d)) (picked d) (destroyed d).

Definition _transfer_tcp_connections_to_background_thread (d : Destroying) : Destroying :=
  post_functor (push_current d).

(** The functor of [_close_callback] in this configuration. *)
Definition close_functor_transferring {C} (connection_id : Z) (s : TcpServer C * Destroying)
    : result (TcpServer C * Destroying) :=
  match _tcp_connect_socketfds s.1 !! connection_id with
  | None => Err Fatal
  | Some _ =>
      let d := move_to_current connection_id s.2 in
      let d := if current_is_full d then _transfer_tcp_connections_to_background_thread d else d in
      let* s' := close_functor connection_id s.1 in
      Ok (s', d)
  end.

(** ** The destroying thread *)

(** The critical section of its functor; [back] of an empty vector is undefined. *)
Definition pick_vector (d : Destroying) : result Destroying :=
  match rev (_vectors d) with
  | [] => Err UndefinedBehaviour
  | v :: rest =>
      Ok (mkDestroying (_current_vector d) (rev rest) (pred (functors d)) (Some v) (destroyed d))
  end.

(** [clear], and the end of the functor. *)
Definition clear_picked (v : list Z) (d : Destroying) : Destroying :=
  mkDestroying (_current_vector d) (_vectors d) (functors d) None (destroyed d ++ v).

(** The destructor of the server, once the thread has been joined: the members are
    destroyed, the current vector first. *)
Definition delete_Destroying (d : Destroying) : Destroying :=
  mkDestroying [] [] (functors d) (picked d) (destroyed d ++ _current_vector d ++ concat (_vectors d)).

(** ** The machine

    [posting]: the connection whose functor is between the critical section and the
    erasing.  [accepted]: the ids of all connections there have been. *)
Record machine (C : Type) := mkMachine {
  server : TcpServer C;
  destroying : Destroying;
  posting : option Z;
  accepted : list Z
}.
Arguments mkMachine {C}.
Arguments server {C}.
Arguments destroying {C}.
Arguments posting {C}.
Arguments accepted {C}.

Inductive event := Accept (connect_socketfd : Z) | Close (id : Z) | Post | Pick | Clear.

Section Machine.
Context {C : Type} `{ServerConnection C} (on_connect : C -> result C).

Definition accept_step (connect_socketfd : Z) (m : machine C) : result (machine C) :=
  let* (id, _, s) := _new_connection_callback on_connect connect_socketfd (server m) in
  Ok (mkMachine s (destroying m) None (accepted m ++ [id])).

(** The functor up to the critical section; all of it when the vector is not full. *)
Definition close_step (id : Z) (m : machine C) : result (machine C) :=
  match _tcp_connect_socketfds (server m) !! id with
  | None => Err Fatal
  | Some _ =>
      let d := move_to_current id (destroying m) in
      if current_is_full d then Ok (mkMachine (server m) (push_current d) (Some id) (accepted m))
      else let* s := close_functor id (server m) in Ok (mkMachine s d None (accepted m))
  end.

(** The rest of it. *)
Definition post_step (id : Z) (m : machine C) : result (machine C) :=
  let d := post_functor (destroying m) in
  let* s := close_functor id (server m) in
  Ok (mkMachine s d None (accepted m)).

(** [None]: the thread is not at this point. *)
Definition step (e : event) (m : machine C) : option (result (machine C)) :=
  match e, posting m, picked (destroying m) with
  | Accept fd, None, _ => Some (accept_step fd m)
  | Close id, None, _ => Some (close_step id m)
  | Post, Some id, _ => Some (post_step id m)
  | Pick, _, None =>
      if 0 <? functors (destroying m)
      then Some (let* d := pick_vector (destroying m) in Ok (mkMachine (server m) d (posting m) (accepted m)))
      else None
  | Clear, _, Some v => Some (Ok (mkMachine (server m) (clear_picked v (destroying m)) (posting m) (accepted m)))
  | _, _, _ => None
  end.

Fixpoint run (es : list event) (m : machine C) : option (result (machine C)) :=
  match es with
  | [] => Some (Ok m)
  | e :: es =>
      match step e m with
      | Some (Ok m) => run es m
      | r => r
      end
  end.
End Machine.

(** * What the machine keeps *)
Section Accounting.
Set Default Proof Using "Type".
Context {C : Type} `{ServerConnection C} (on_connect : C -> result C).

(** The connections whose reference is still in the table. *)
Definition alive (m : machine C) : gset Z :=
  table (server m) ∖ match posting m with Some id => {[id]} | None => ∅ end.

Definition in_transfer (d : Destroying) : list Z :=
  _current_vector d ++ concat (_vectors d) ++ default [] (picked d) ++ destroyed d.

Record machine_ok (m : machine C) : Prop := {
  ok_current : length (_current_vector (destroying m)) < _MAX_SIZE_OF_CURRENT_VECTOR;
  ok_vectors : Forall (fun v => length v = _MAX_SIZE_OF_CURRENT_VECTOR) (_vectors (destroying m));
  ok_functors :
    length (_vectors (destroying m))
    = functors (destroying m) + match posting m with Some _ => 1 | None => 0 end;
  ok_posting : forall id, posting m = Some id -> id ∈ table (server m);
  ok_accepted : accepted m ≡ₚ elements (alive m) ++ in_transfer (destroying m)
}.

Lemma new_connection_table fd (s s' : TcpServer C) id loop :
  _new_connection_callback on_connect fd s = Ok (id, loop, s') ->
  id ∉ table s /\ table s' = {[id]} ∪ table s.
Proof.
  unfold _new_connection_callback. destruct (choose_loop _) as [[l s1] |] eqn:El; [| done].
  assert (Ht : _tcp_connect_socketfds s1 = _tcp_connect_socketfds s).
  { revert El. unfold choose_loop. destruct (_ <? _); [| by intros [= _ <-]].
    destruct (_thread_pool_ptr _) as [p |]; [| done].
    destruct (get_next_loop p) as [[i p'] |]; [| done]. by intros [= _ <-]. }
  simpl. destruct (conn_new _ _ _) as [c |]; [| done]. simpl.
  destruct (_tcp_connect_socketfds s1 !! _) eqn:Eid; [done |]. simpl.
  destruct (on_connect c) as [c1 |]; [| done]. simpl. destruct (conn_start c1) as [c2 |]; [| done].
  intros [= <- _ <-]. unfold table. simpl. rewrite <- Ht. split; [by apply not_elem_of_dom |].
  rewrite !dom_insert_L. set_solver.
Qed.

Lemma close_functor_table id (s s' : TcpServer C) :
  close_functor id s = Ok s' -> id ∈ table s /\ table s' = table s ∖ {[id]}.
Proof.
  unfold close_functor, table. destruct (_ !! id) eqn:E; [| done]. intros [= <-]. simpl.
  split; [by apply elem_of_dom | by rewrite dom_delete_L].
Qed.

Lemma elements_take_out (X : gset Z) id :
  id ∈ X -> elements X ≡ₚ id :: elements (X ∖ {[id]}).
Proof.
  intros Hid. rewrite <- elements_union_singleton by set_solver. f_equiv.
  rewrite <- union_difference_L; set_solver.
Qed.

Lemma elements_add (X : gset Z) id : id ∉ X -> elements ({[id]} ∪ X) ≡ₚ id :: elements X.
Proof. intros Hid. by rewrite elements_union_singleton. Qed.

Lemma accept_ok fd m m' :
  machine_ok m -> posting m = None -> accept_step on_connect fd m = Ok m' -> machine_ok m'.
Proof.
  intros Hm Hp. unfold accept_step.
  destruct (_new_connection_callback _ _ _) as [[[id l] s] |] eqn:E; [| done]. intros [= <-].
  destruct (new_connection_table _ _ _ _ _ E) as [Hid Ht].
  destruct Hm as [H1 H2 H3 H4 H5]. rewrite Hp in H3. split; simpl; try done.
  unfold alive in H5 |- *. simpl. rewrite Hp in H5. rewrite difference_empty_L in H5 |- *.
  rewrite Ht, elements_add, H5 by done. solve_Permutation.
Qed.

Lemma close_step_ok id m m' :
  machine_ok m -> posting m = None -> close_step id m = Ok m' -> machine_ok m'.
Proof.
  intros [H1 H2 H3 H4 H5] Hp. unfold close_step, current_is_full.
  destruct (_ !! id) eqn:Eid; [| done].
  assert (Hid : id ∈ table (server m)) by (by apply elem_of_dom).
  assert (Halive : elements (alive m) ≡ₚ id :: elements (table (server m) ∖ {[id]})).
  { unfold alive. rewrite Hp, difference_empty_L. by apply elements_take_out. }
  rewrite Hp in H3. destruct (Nat.leb_spec _MAX_SIZE_OF_CURRENT_VECTOR
                                (length (_current_vector (move_to_current id (destroying m))))) as [Hf | Hf].
  - intros [= <-]. simpl in Hf. rewrite length_app in Hf. simpl in Hf.
    split; simpl; [unfold _MAX_SIZE_OF_CURRENT_VECTOR; lia | | | by intros ? [= <-] |].
    + apply Forall_app. split; [done |]. constructor; [rewrite length_app; simpl; lia | done].
    + rewrite length_app. simpl. lia.
    + unfold alive at 1. simpl. rewrite H5, Halive. unfold in_transfer. simpl.
      rewrite concat_app. simpl. rewrite app_nil_r. solve_Permutation.
  - destruct (close_functor id (server m)) as [s |] eqn:E; [| done]. intros [= <-].
    apply close_functor_table in E as [_ Ht]. split; simpl; try done.
    unfold alive at 1. simpl. rewrite H5, Halive, Ht, difference_empty_L. unfold in_transfer. simpl.
    rewrite <- !app_assoc. solve_Permutation.
Qed.

Lemma post_ok id m m' :
  machine_ok m -> posting m = Some id -> post_step id m = Ok m' -> machine_ok m'.
Proof.
  intros [H1 H2 H3 H4 H5] Hp. unfold post_step.
  destruct (close_functor id (server m)) as [s |] eqn:E; [| done]. intros [= <-].
  apply close_functor_table in E as [_ Ht]. rewrite Hp in H3. split; simpl; try done; [lia |].
  unfold alive at 1. simpl. rewrite H5, Ht, difference_empty_L. unfold alive. by rewrite Hp.
Qed.

(** The functor never finds the vector of vectors empty. *)
Lemma pick_ok m :
  machine_ok m -> picked (destroying m) = None -> 0 < functors (destroying m) ->
  exists d, pick_vector (destroying m) = Ok d /\
    machine_ok (mkMachine (server m) d (posting m) (accepted m)) /\
    functors d = pred (functors (destroying m)) /\ _current_vector d = _current_vector (destroying m) /\
    exists v, picked d = Some v.
Proof.
  intros [H1 H2 H3 H4 H5] Hpk Hf. unfold pick_vector.
  destruct (rev (_vectors (destroying m))) as [| v rest] eqn:E.
  { apply (f_equal length) in E. rewrite length_rev in E. simpl in E. lia. }
  assert (Ev : _vectors (destroying m) = rev rest ++ [v]).
  { rewrite <- (rev_involutive (_vectors (destroying m))), E. done. }
  eexists. split; [done |]. split; [| split; [done | split; [done | by eexists]]].
  rewrite Ev in H2, H3. apply Forall_app in H2 as [H2 _]. rewrite length_app in H3. simpl in H3.
  split; simpl; try done; [lia |]. unfold alive in H5 |- *. simpl. rewrite H5.
  unfold in_transfer. rewrite Ev, Hpk, concat_app. simpl. solve_Permutation.
Qed.

Lemma clear_step_ok v m :
  machine_ok m -> picked (destroying m) = Some v ->
  machine_ok (mkMachine (server m) (clear_picked v (destroying m)) (posting m) (accepted m)).
Proof.
  intros [H1 H2 H3 H4 H5] Hpk. split; simpl; try done. unfold alive in H5 |- *. simpl. rewrite H5.
  unfold in_transfer. rewrite Hpk. simpl. solve_Permutation.
Qed.

Lemma machine_step_ok e m m' : machine_ok m -> step on_connect e m = Some (Ok m') -> machine_ok m'.
Proof.
  intros Hm. unfold step.
  destruct e as [fd | id | | |], (posting m) as [j |] eqn:Ep, (picked (destroying m)) as [v |] eqn:Ek;
    try done; intros E;
    try (injection E as E; first [by eapply accept_ok | by eapply close_step_ok | by eapply post_ok]).
  all: try (destruct (Nat.ltb_spec 0 (functors (destroying m))); [| done];
            destruct (pick_ok m Hm Ek) as (d & Ed & Hd & _); [done |]; rewrite Ed in E;
            injection E as <-; by rewrite Ep in Hd).
  all: injection E as <-; rewrite <- Ep; by apply clear_step_ok.
Qed.

Lemma run_ok es m m' : machine_ok m -> run on_connect es m = Some (Ok m') -> machine_ok m'.
Proof.
  revert m. induction es as [| e es IH]; intros m Hm; simpl; [by intros [= <-] |].
  destruct (step on_connect e m) as [[m1 |] |] eqn:E; [| done | done].
  apply IH. by eapply machine_step_ok.
Qed.

(** The machine of a server without connections. *)
Definition new_machine (s : TcpServer C) : machine C := mkMachine s new_Destroying None [].

Lemma new_machine_ok s : table s = ∅ -> machine_ok (new_machine s).
Proof.
  intros Ht. split; simpl; try done; [unfold _MAX_SIZE_OF_CURRENT_VECTOR; lia |].
  unfold alive. simpl. by rewrite difference_empty_L, Ht.
Qed.

(** C8: Whatever the two threads do, and in whatever order: every connection there has been
    is alive in the table, or in exactly one place on its way to its destruction, or was
    destroyed, once; fewer than 512 wait in the main loop; and the functor of the
    destroying thread never finds the vector of vectors empty, so a step of that thread
    never fails. *)
Theorem connections_destroyed_once es s m
    (Hs : table s = ∅) (Hrun : run on_connect es (new_machine s) = Some (Ok m)) :
  accepted m ≡ₚ elements (alive m) ++ in_transfer (destroying m) /\
  length (_current_vector (destroying m)) < _MAX_SIZE_OF_CURRENT_VECTOR /\
  forall e, e = Pick \/ e = Clear ->
    step on_connect e m = None \/ exists m', step on_connect e m = Some (Ok m').
Proof.
  assert (Hm : machine_ok m) by (eapply run_ok; [by apply new_machine_ok | done]).
  split; [apply Hm |]. split; [apply Hm |]. intros e [-> | ->]; unfold step.
  - destruct (picked (destroying m)) eqn:Ek; [by destruct (posting m); left |].
    destruct (Nat.ltb_spec 0 (functors (destroying m))) as [Hf | Hf]; [| by destruct (posting m); left].
    destruct (pick_ok m Hm Ek Hf) as (d & Ed & _). rewrite Ed.
    destruct (posting m); right; by eexists.
  - destruct (picked (destroying m)), (posting m); first [by left | right; by eexists].
Qed.

(** The destroying thread alone, [n] functors long. *)
Fixpoint destroyer_schedule (n : nat) : list event :=
  match n with
  | O => []
  | S n => Pick :: Clear :: destroyer_schedule n
  end.

Lemma destroyer_empties n m :
  machine_ok m -> posting m = None -> picked (destroying m) = None -> functors (destroying m) = n ->
  exists m', run on_connect (destroyer_schedule n) m = Some (Ok m') /\ machine_ok m' /\
    server m' = server m /\ posting m' = None /\ accepted m' = accepted m /\
    picked (destroying m') = None /\ _vectors (destroying m') = [] /\
    _current_vector (destroying m') = _current_vector (destroying m).
Proof.
  revert m. induction n as [| n IH]; intros m Hm Hp Hk Hf.
  - exists m. split; [done |]. split; [done |]. split; [done |]. split; [done |]. split; [done |].
    split; [done |]. split; [| done]. pose proof (ok_functors _ Hm) as Hl. rewrite Hp, Hf in Hl.
    by apply length_zero_iff_nil.
  - destruct (pick_ok m Hm Hk ltac:(lia)) as (d & Ed & Hd & Hfd & Hcd & v & Hv).
    cbn [destroyer_schedule run step]. rewrite Hk, Hf. cbn [Nat.ltb Nat.leb]. rewrite Ed. cbn.
    rewrite Hv. pose proof (clear_step_ok v _ Hd Hv) as Hc. cbn in Hc.
    destruct (IH _ Hc) as (m' & Er & Hm' & Hs & Hp' & Ha & Hk' & Hv' & Hcv); [done | done | simpl; lia |].
    exists m'. split; [by destruct (posting m) |]. split; [done |]. split; [done |]. split; [done |].
    split; [done |]. split; [done |]. split; [done |]. rewrite Hcv. exact Hcd.
Qed.

(** C31: Left alone, the destroying thread destroys whatever was handed to it: as many
    functors as are waiting, and then every connection that is not alive was destroyed,
    except the fewer than 512 that wait for more to close. *)
Theorem handed_over_is_destroyed es s m
    (Hs : table s = ∅) (Hrun : run on_connect es (new_machine s) = Some (Ok m))
    (Hidle : posting m = None) (Hready : picked (destroying m) = None) :
  exists m', run on_connect (destroyer_schedule (functors (destroying m))) m = Some (Ok m') /\
    server m' = server m /\
    accepted m ≡ₚ elements (table (server m)) ++ _current_vector (destroying m) ++ destroyed (destroying m') /\
    destroyed (delete_Destroying (destroying m'))
    = destroyed (destroying m') ++ _current_vector (destroying m).
Proof.
  assert (Hm : machine_ok m) by (eapply run_ok; [by apply new_machine_ok | done]).
  destruct (destroyer_empties _ m Hm Hidle Hready eq_refl) as (m' & E & Hm' & Es & Hp & Ea & Hk & Hv & Hc).
  exists m'. split; [done |]. split; [done |].
  pose proof (ok_accepted _ Hm') as H5. rewrite Ea in H5. split.
  - rewrite H5. unfold alive, in_transfer. rewrite Hp, difference_empty_L, Es, Hc, Hv, Hk. done.
  - simpl. by rewrite Hv, Hc, app_nil_r.
Qed.

(** The two steps of the main loop are the functor of the code. *)
Lemma close_then_post id (m r : machine C) :
  posting m = None -> close_step id m = Ok r ->
  (match posting r with Some j => post_step j r | None => Ok r end)
  = let* (s, d) := close_functor_transferring id (server m, destroying m) in
    Ok (mkMachine s d None (accepted m)).
Proof.
  intros Hp. unfold close_step, close_functor_transferring. simpl.
  destruct (_ !! id) eqn:E; [| done]. destruct (current_is_full _).
  - intros [= <-]. simpl. unfold post_step. simpl. by destruct (close_functor id (server m)).
  - destruct (close_functor id (server m)); [| done]. by intros [= <-].
Qed.
End Accounting.

(** * Six hundred connections, of which 513 close *)
#[export] Instance unit_connection : ServerConnection unit := {
  conn_new _ _ _ := Ok tt;
  conn_start _ := Ok tt;
  conn_reset S f c s := let* s := f s in Ok (c, s)
}.

Definition sample_events : list event :=
  (Accept <$> replicate 600 5%Z) ++ (Close <$> seqZ 0 512) ++ [Post; Close 512%Z].

Definition sample_run : option (result (machine unit)) :=
  run Ok sample_events (new_machine (new_TcpServer 0 1)).

Lemma sample_run_ends :
  exists m, sample_run = Some (Ok m) /\ posting m = None /\ picked (destroying m) = None /\
    functors (destroying m) = 1 /\ _current_vector (destroying m) = [512%Z].
Proof.
  assert (H : match sample_run with
              | Some (Ok m) => (posting m, picked (destroying m), functors (destroying m),
                                _current_vector (destroying m)) = (None, None, 1, [512%Z])
              | _ => False
              end) by (vm_compute; reflexivity).
  destruct sample_run as [[m |] |]; [| destruct H | destruct H].
  exists m. injection H as H1 H2 H3 H4. repeat (split; [assumption || reflexivity |]). exact H4.
Qed.

Lemma connections_destroyed_once_witness : exists m, sample_run = Some (Ok m) /\
  accepted m ≡ₚ elements (alive m) ++ in_transfer (destroying m).
Proof.
  destruct sample_run_ends as (m & E & _). exists m. split; [exact E |].
  apply (connections_destroyed_once Ok sample_events (new_TcpServer 0 1) m); [reflexivity | exact E].
Defined.

Lemma handed_over_is_destroyed_witness : exists m m', sample_run = Some (Ok m) /\
  run Ok [Pick; Clear] m = Some (Ok m') /\
  accepted m ≡ₚ elements (table (server m)) ++ [512%Z] ++ destroyed (destroying m').
Proof.
  destruct sample_run_ends as (m & E & H1 & H2 & H3 & H4).
  destruct (handed_over_is_destroyed Ok sample_events (new_TcpServer 0 1) m eq_refl E H1 H2)
    as (m' & Er & _ & Ha & _).
  rewrite H3 in Er. rewrite H4 in Ha. exists m, m'. split; [exact E |]. split; [exact Er | exact Ha].
Defined.
