(* ===== verification/ListenSocketfd.v ===== *)
(** The listening socket ([src/listen_socketfd.cc] and its header), in the thread of
    the main loop.

    The kernel is the poller's, with [accept4] and [open]; what the user's callback
    works on is [W], for which [TcpServer] is put at the end of the file. *)
From S2P Require Import Prelude TimePoint Poller Descriptors TcpBuffer TcpConnectSocketfd EventLoopThreadPool TcpServer.
Open Scope Z_scope.

Inductive accept_errno := EAGAIN | EWOULDBLOCK | ECONNABORTED | EMFILE | ENFILE | OtherErrno.

(** A connection comes with the address of the peer. *)
Inductive accept_result := Accepted (connect_socketfd : Z) (peer_address : bytes) | AcceptError (e : accept_errno).

Class AcceptKernel (K : Type) := {
  sys_accept : K -> Z -> accept_result * K;
  sys_open_null : K -> option (Z * K)          (* [open("/dev/null", O_RDONLY)] *)
}.

Record ListenSocketfd (K W : Type) := mkListen {
  _pollable_file_descriptor : PollableFd;
  _loop : EventPoller K;
  _spare_fd : Z;
  _is_stopped : bool;
  owner : W
}.
Arguments mkListen {K W} _ _ _ _ _.
Arguments _pollable_file_descriptor {K W} _.
Arguments _loop {K W} _.
Arguments _spare_fd {K W} _.
Arguments _is_stopped {K W} _.
Arguments owner {K W} _.

Definition _max_number_of_new_connections_at_a_time : nat := 1000.

Section Listen.
Context {K W : Type} `{Epoll K} `{AcceptKernel K}.
Context (_new_connection_callback : option (Z -> bytes -> TimePoint.t -> W -> result W)).
Abbreviation listener := (ListenSocketfd K W).

Definition with_descriptor (s : PollableFd * EventPoller K) (l : listener) : listener :=
  mkListen s.1 s.2 (_spare_fd l) (_is_stopped l) (owner l).
Definition with_kernel (k : K) (l : listener) : listener :=
  mkListen (_pollable_file_descriptor l)
    (mkPoller k (_fds_that_are_listening_on (_loop l)) (_number_of_fds_that_are_listening_on (_loop l)))
    (_spare_fd l) (_is_stopped l) (owner l).
Definition with_spare (fd : Z) (l : listener) : listener :=
  mkListen (_pollable_file_descriptor l) (_loop l) fd (_is_stopped l) (owner l).
Definition with_stopped (l : listener) : listener :=
  mkListen (_pollable_file_descriptor l) (_loop l) (_spare_fd l) true (owner l).
Definition with_owner (w : W) (l : listener) : listener :=
  mkListen (_pollable_file_descriptor l) (_loop l) (_spare_fd l) (_is_stopped l) w.

(** The constructor: level-triggered, non-blocking. *)
Definition new_ListenSocketfd `{Descriptors K} (self fd : Z) (loop : EventPoller K) (w : W)
    : result listener :=
  let* (d, k) := construct_PollableFd self fd false true (kernel loop) in
  Ok (with_kernel k (mkListen d loop (-1) false w)).

Definition _open_spare_fd (l : listener) : result listener :=
  match sys_open_null (kernel (_loop l)) with
  | None => Err Fatal
  | Some (fd, k) => Ok (with_spare fd (with_kernel k l))
  end.

(** The result of [::close] is ignored. *)
Definition _close_spare_fd (l : listener) : listener :=
  match sys_close (kernel (_loop l)) (_spare_fd l) with
  | None => l
  | Some k => with_kernel k l
  end.

Definition _accept_new_connection (l : listener) : accept_result * listener :=
  let '(r, k) := sys_accept (kernel (_loop l)) (_fd (_pollable_file_descriptor l)) in
  (r, with_kernel k l).

Definition _drop_connection_using_spare_fd (l : listener) : result listener :=
  let l := _close_spare_fd l in
  match _accept_new_connection l with
  | (AcceptError _, _) => Err Fatal
  | (Accepted fd _, l) =>
      let l := match sys_close (kernel (_loop l)) fd with None => l | Some k => with_kernel k l end in
      _open_spare_fd l
  end.

Definition start (l : listener) : result listener :=
  match _new_connection_callback with
  | None => Err Fatal
  | Some _ =>
      let* l := _open_spare_fd l in
      let* s := enable_read_event (_pollable_file_descriptor l, _loop l) in
      Ok (with_descriptor s l)
  end.

Definition stop (l : listener) : result listener :=
  if _is_stopped l then Ok l
  else
    let* s := detach_from_poller (_pollable_file_descriptor l, _loop l) in
    Ok (with_stopped (with_descriptor s l)).

Definition delete_ListenSocketfd (l : listener) : result listener :=
  let l := _close_spare_fd l in
  let* s := close_fd (_pollable_file_descriptor l, _loop l) in
  Ok (with_descriptor s l).

Definition call_new_connection_callback (fd : Z) (peer : bytes) (time_stamp : TimePoint.t) (l : listener)
    : result listener :=
  match _new_connection_callback with
  | None => Err Uncaught                       (* [std::bad_function_call] *)
  | Some f => let* w := f fd peer time_stamp (owner l) in Ok (with_owner w l)
  end.

(** The loop of [_read_event_callback]; [n] is how many rounds are left. *)
Fixpoint accept_loop (n : nat) (time_stamp : TimePoint.t) (l : listener) : result listener :=
  match n with
  | O => Ok l
  | S n =>
      match _accept_new_connection l with
      | (Accepted fd peer, l) =>
          let* l := call_new_connection_callback fd peer time_stamp l in
          accept_loop n time_stamp l
      | (AcceptError (EAGAIN | EWOULDBLOCK), l) => Ok l
      | (AcceptError ECONNABORTED, l) => accept_loop n time_stamp l
      | (AcceptError (EMFILE | ENFILE), l) => Ok l
      | (AcceptError OtherErrno, _) => Err Fatal
      end
  end.

Definition _read_event_callback (time_stamp : TimePoint.t) (l : listener) : result listener :=
  if _is_stopped l then Ok l
  else accept_loop _max_number_of_new_connections_at_a_time time_stamp l.
End Listen.

(** * What one read event accepts *)

(** The answers of [n] successive calls of [accept4], and the kernel after them:
    up to the first that ends the event, which is included. *)
Fixpoint answers {K} `{AcceptKernel K} (n : nat) (k : K) (fd : Z) : list accept_result * K :=
  match n with
  | O => ([], k)
  | S n =>
      let '(r, k') := sys_accept k fd in
      match r with
      | Accepted _ _ | AcceptError ECONNABORTED =>
          let '(rs, k'') := answers n k' fd in (r :: rs, k'')
      | AcceptError _ => ([r], k')
      end
  end.

Fixpoint connections (rs : list accept_result) : list (Z * bytes) :=
  match rs with
  | [] => []
  | Accepted fd peer :: rs => (fd, peer) :: connections rs
  | AcceptError _ :: rs => connections rs
  end.

Definition unknown_error (r : accept_result) : bool :=
  match r with AcceptError OtherErrno => true | _ => false end.

(** The callback over the connections, in order. *)
Fixpoint hand_over {W} (f : Z -> bytes -> TimePoint.t -> W -> result W) (time_stamp : TimePoint.t)
    (cs : list (Z * bytes)) (w : W) : result W :=
  match cs with
  | [] => Ok w
  | (fd, peer) :: cs => let* w := f fd peer time_stamp w in hand_over f time_stamp cs w
  end.

Section Spec.
Set Default Proof Using "Type*".
Context {K W : Type} `{Epoll K} `{AcceptKernel K}.
Context (f : Z -> bytes -> TimePoint.t -> W -> result W).
Abbreviation listener := (ListenSocketfd K W).

Lemma with_kernel_twice k k' (l : listener) : with_kernel k' (with_kernel k l) = with_kernel k' l.
Proof. done. Qed.

Lemma accept_loop_spec n time_stamp (l : listener) :
  let '(rs, k) := answers n (kernel (_loop l)) (_fd (_pollable_file_descriptor l)) in
  accept_loop (Some f) n time_stamp l
  = let* w := hand_over f time_stamp (connections rs) (owner l) in
    if existsb unknown_error rs then Err Fatal else Ok (with_owner w (with_kernel k l)).
Proof.
  revert l. induction n as [| n IH]; intros l; cbn [answers accept_loop].
  { simpl. by destruct l as [? [] ? ? ?]. }
  unfold _accept_new_connection.
  destruct (sys_accept (kernel (_loop l)) (_fd (_pollable_file_descriptor l))) as [r k] eqn:E.
  destruct r as [fd peer | e].
  - unfold call_new_connection_callback. specialize (fun w => IH (with_owner w (with_kernel k l))) as IH'.
    cbn [with_owner with_kernel _loop kernel _pollable_file_descriptor owner] in *.
    destruct (answers n k _) as [rs k'] eqn:Ea. cbn [connections hand_over existsb unknown_error orb].
    destruct (f fd peer time_stamp (owner l)) as [w |]; [| done]. exact (IH' w).
  - destruct e; try (simpl; by destruct l as [? [] ? ? ?]).
    specialize (IH (with_kernel k l)). cbn [with_kernel _loop kernel _pollable_file_descriptor owner] in IH.
    destruct (answers n k _) as [rs k'] eqn:Ea. exact IH.
Qed.

Lemma connections_bound n (k : K) fd : (length (connections (answers n k fd).1) <= n)%nat.
Proof.
  revert k. induction n as [| n IH]; simpl; intros k; [done |].
  destruct (sys_accept k fd) as [r k1]. specialize (IH k1).
  destruct (answers n k1 fd) as [rs k2]. destruct r as [fd' peer | []]; simpl in *; lia.
Qed.

(** One read event hands the connections the kernel has ready to the callback, each
    once, in order and with the address of its peer; aborted ones are skipped.  It
    goes on until the kernel has no more (or the process no descriptors), at most
    a thousand calls, and ends the process only for an unknown error. *)
Theorem read_event_accepts time_stamp (l : listener) :
  let '(rs, k) := answers _max_number_of_new_connections_at_a_time
                    (kernel (_loop l)) (_fd (_pollable_file_descriptor l)) in
  _read_event_callback (Some f) time_stamp l
  = (if _is_stopped l then Ok l
     else let* w := hand_over f time_stamp (connections rs) (owner l) in
          if existsb unknown_error rs then Err Fatal else Ok (with_owner w (with_kernel k l))) /\
  (length (connections rs) <= 1000)%nat.
Proof.
  pose proof (accept_loop_spec _max_number_of_new_connections_at_a_time time_stamp l) as Hl.
  destruct (answers _ _ _) as [rs k] eqn:E. split.
  - unfold _read_event_callback. by destruct (_is_stopped l).
  - pose proof (connections_bound _max_number_of_new_connections_at_a_time (kernel (_loop l))
                  (_fd (_pollable_file_descriptor l))) as Hb.
    by rewrite E in Hb.
Qed.
End Spec.

(** * Stopping *)
Section Stop.
Set Default Proof Using "Type*".
Context {K W : Type} `{Epoll K} `{!EpollLaws K} `{AcceptKernel K}.
Context (f : option (Z -> bytes -> TimePoint.t -> W -> result W)).
Abbreviation listener := (ListenSocketfd K W).

(** [stop] takes the socket out of the interest list of the kernel, and a read event
    that was already reported accepts nothing any more; stopping again changes
    nothing. *)
Theorem stop_listening_spec time_stamp (l : listener)
    (Hm : mirror (_pollable_file_descriptor l, _loop l)) (Hok : poller_ok (_loop l))
    (Hrun : _is_stopped l = false) :
  exists l', stop l = Ok l' /\ stop l' = Ok l' /\ owner l' = owner l /\
    interest (kernel (_loop l')) !! _fd (_pollable_file_descriptor l) = None /\
    _read_event_callback f time_stamp l' = Ok l'.
Proof.
  unfold stop. rewrite Hrun.
  destruct (run_command_good Detach _ _ Hm Hok) as ([d p] & E & (_ & _ & _ & _ & Hint) & _ & Hfd & _).
  destruct (run_command_flags Detach _ _ _ _ Hm E) as [Hf _].
  cbn [run_command] in E. rewrite E. eexists. split; [done |]. split; [done |]. split; [done |].
  split; [| done]. simpl in *. unfold flags in Hf. injection Hf as _ _ Hdet.
  rewrite <- Hfd. by rewrite Hint, Hdet.
Qed.
End Stop.

(** * Listening for a server *)
Section Server.
Set Default Proof Using "All".
Context {K C : Type} `{Epoll K} `{AcceptKernel K} `{ServerConnection C} (on_connect : C -> result C).
Context (fd_ok : Z -> Prop) (ready : C -> Prop).
Hypothesis new_ok : forall fd loop id,
  fd_ok fd -> exists c, conn_new fd loop id = Ok c /\ ready c.
Hypothesis connect_ok : forall c, ready c -> exists c', on_connect c = Ok c' /\ ready c'.
Hypothesis start_ok : forall c, ready c -> exists c', conn_start c = Ok c'.

(** The callback that [TcpServer::start] registers. *)
Definition server_callback (fd : Z) (peer_address : bytes) (time_stamp : TimePoint.t) (w : world C)
    : result (world C) := run_op on_connect (Connect fd) w.

Lemma hand_over_accounted time_stamp cs w :
  accounted w -> Forall (fun c => fd_ok c.1) cs ->
  _tcp_connection_id_counter (srv w) + Z.of_nat (length cs) < 2 ^ 64 ->
  exists w', hand_over server_callback time_stamp cs w = Ok w' /\ accounted w' /\
    base.size (dom (chosen w')) = (base.size (dom (chosen w)) + length cs)%nat /\
    closed w' = closed w.
Proof.
  intros Hw Hcs. revert w Hw. induction Hcs as [| [fd peer] cs Hfd Hcs IH]; simpl; intros w Hw Hc.
  { exists w. by rewrite Nat.add_0_r. }
  destruct (connect_accounted on_connect fd_ok ready new_ok connect_ok start_ok fd w Hw) as
    (w1 & loop & E & Hw1 & Hch & Hcl & Hctr); [split; [done | lia] |].
  destruct (IH w1 Hw1) as (w' & E' & Hw' & Hsz & Hcl'); [lia |].
  exists w'. unfold server_callback at 1. rewrite E. split; [done |]. split; [done |].
  split; [| congruence]. rewrite Hsz, Hch, dom_insert_L, size_union, size_singleton.
  - lia.
  - apply disjoint_singleton_l. intros Hin%(acc_ids _ Hw). lia.
Qed.

(** C14: What the listening socket accepts, the server accounts for: after a read event
    the server has exactly one more connection for each accepted descriptor, and
    its table is still what [connections_accounted] says. *)
Theorem listening_feeds_server time_stamp (l : ListenSocketfd K (world C))
    (Hw : accounted (owner l)) (Hrun : _is_stopped l = false)
    (Hk : let rs := (answers _max_number_of_new_connections_at_a_time (kernel (_loop l))
                       (_fd (_pollable_file_descriptor l))).1 in
          Forall (fun c => fd_ok c.1) (connections rs) /\ existsb unknown_error rs = false)
    (Hid : _tcp_connection_id_counter (srv (owner l)) + 1000 < 2 ^ 64) :
  exists l', _read_event_callback (Some server_callback) time_stamp l = Ok l' /\
    accounted (owner l') /\ closed (owner l') = closed (owner l) /\
    base.size (dom (chosen (owner l')))
    = (base.size (dom (chosen (owner l))) +
       length (connections (answers _max_number_of_new_connections_at_a_time (kernel (_loop l))
                              (_fd (_pollable_file_descriptor l))).1))%nat.
Proof.
  pose proof (accept_loop_spec server_callback _max_number_of_new_connections_at_a_time time_stamp l) as E.
  pose proof (connections_bound _max_number_of_new_connections_at_a_time (kernel (_loop l))
                (_fd (_pollable_file_descriptor l))) as Hb.
  destruct (answers _ _ _) as [rs k]. simpl in Hk, Hb. destruct Hk as [Hfds Herr].
  assert (Hb' : Z.of_nat (length (connections rs)) <= 1000)
    by (unfold _max_number_of_new_connections_at_a_time in Hb; lia).
  destruct (hand_over_accounted time_stamp (connections rs) (owner l) Hw Hfds)
    as (w' & Ew & Hw' & Hsz & Hcl); [lia |].
  rewrite Ew, Herr in E. eexists. split; [unfold _read_event_callback; rewrite Hrun; exact E |].
  done.
Qed.
End Server.

(** * A concrete kernel: the answers that [accept4] will give *)
Record sample_acceptor := mkAcceptor { a_kernel : sample_kernel; a_answers : list accept_result }.

Definition with_a_kernel (s : sample_acceptor) (k : sample_kernel) : sample_acceptor :=
  mkAcceptor k (a_answers s).

#[export] Instance sample_acceptor_epoll : Epoll sample_acceptor := {
  epoll_ctl s op fd ev := with_a_kernel s <$> epoll_ctl (a_kernel s) op fd ev;
  sys_close s fd := with_a_kernel s <$> sys_close (a_kernel s) fd;
  opened s := opened (a_kernel s);
  interest s := interest (a_kernel s)
}.

#[export] Instance sample_acceptor_epoll_laws : EpollLaws sample_acceptor.
Proof.
  split; intros s fd; cbn -[epoll_ctl sys_close opened interest sample_epoll].
  - intros ev H1 H2. destruct (ctl_add (a_kernel s) fd ev H1 H2) as (k & E & ?).
    exists (with_a_kernel s k). simpl in *. by rewrite E.
  - intros ev H1. pose proof (ctl_add_exists (a_kernel s) fd ev H1) as E. simpl in *. by rewrite E.
  - intros ev H1 H2. destruct (ctl_mod (a_kernel s) fd ev H1 H2) as (k & E & ?).
    exists (with_a_kernel s k). simpl in *. by rewrite E.
  - intros ev H1. pose proof (ctl_mod_absent (a_kernel s) fd ev H1) as E. simpl in *. by rewrite E.
  - intros ev H1 H2. destruct (ctl_del (a_kernel s) fd ev H1 H2) as (k & E & ?).
    exists (with_a_kernel s k). simpl in *. by rewrite E.
  - intros ev H1. pose proof (ctl_del_absent (a_kernel s) fd ev H1) as E. simpl in *. by rewrite E.
  - intros H1. destruct (close_opened (a_kernel s) fd H1) as (k & E & ?).
    exists (with_a_kernel s k). simpl in *. by rewrite E.
Qed.

#[export] Instance sample_acceptor_calls : AcceptKernel sample_acceptor := {
  sys_accept s fd :=
    match a_answers s with
    | [] => (AcceptError EAGAIN, s)
    | r :: rs => (r, mkAcceptor (a_kernel s) rs)
    end;
  sys_open_null s := Some (7, mkAcceptor (mkKernel ({[7]} ∪ k_opened (a_kernel s)) (k_interest (a_kernel s))) (a_answers s))
}.

(** A started listener on descriptor 3, with two connections and an aborted one. *)
Definition sample_listener {W} (w : W) : ListenSocketfd sample_acceptor W :=
  let k := mkAcceptor (mkKernel {[3; 5]} ∅)
             [Accepted 5 (str "10.0.0.1"); AcceptError ECONNABORTED; Accepted 5 (str "10.0.0.2")] in
  mkListen (mkPfd 3000 3 false false true 0 (mkEvent 3000 0)) (new_EventPoller k 16) 7 false w.

Lemma sample_listener_mirror {W} (w : W) :
  mirror (_pollable_file_descriptor (sample_listener w), _loop (sample_listener w)) /\
  poller_ok (_loop (sample_listener w)).
Proof.
  destruct sample_mirror as [_ [Hl Hs]]. split; [| split; [exact Hl | exact Hs]].
  split; [split; simpl; [lia | set_solver] |]. split; [by left |]. by split.
Qed.

Lemma stop_listening_spec_witness :
  exists l, stop (sample_listener tt) = Ok l /\ _is_stopped l = true /\
    _read_event_callback None (TimePoint.mk 0) l = Ok l.
Proof.
  destruct (stop_listening_spec None (TimePoint.mk 0) (sample_listener tt)
              (proj1 (sample_listener_mirror tt)) (proj2 (sample_listener_mirror tt)) eq_refl)
    as (l & E & _ & _ & _ & Hr).
  exists l. split; [exact E |]. split; [| exact Hr].
  vm_compute in E. injection E as <-. reflexivity.
Defined.

#[local] Existing Instances sample_server_connection sample_server_connection_laws.

Lemma listening_feeds_server_witness :
  exists s l, sample_server = Ok s /\
    _read_event_callback (Some (server_callback (fun c => Ok c))) (TimePoint.mk 0)
      (sample_listener (mkWorld s ∅ ∅)) = Ok l /\
    accounted (owner l) /\ base.size (dom (chosen (owner l))) = 2%nat.
Proof.
  destruct sample_server_accounted as (s & E & _ & Hacc).
  destruct (listening_feeds_server (fun c => Ok c) sample_fd_ok TcpServer.sample_ready sample_new_ok
              sample_connect_ok sample_start_ok (TimePoint.mk 0) (sample_listener (mkWorld s ∅ ∅))
              Hacc eq_refl) as (l & El & Hl & _ & Hn).
  - split; [| reflexivity]. by repeat constructor.
  - injection E as <-. simpl. lia.
  - exists s, l. exact (conj E (conj El (conj Hl Hn))).
Defined.
