(* ===== verification/Preconnect.v ===== *)
(** Connecting to a server with retries ([src/preconnect_socketfd.cc] and its
    header).

    The pollable descriptor is the class [ConnectDescriptor], which [Poller]
    implements; a retry waits in a timer of the event loop, of which this file
    keeps the ids that have not expired.  [Timer]s of the loop are one-shot here,
    so an expired one has been deleted, and cancelling it again reads freed memory
    ([EventLoopTimers.cancel_a_timer_spec]). *)
From S2P Require Import Prelude TimePoint Poller.
Open Scope Z_scope.

(** * The descriptor being connected *)
Class ConnectDescriptor (D : Type) := {
  cd_fd : D -> Z;
  cd_writing : D -> bool;
  cd_socket : D -> option (Z * D);       (* [Socketfd::create_socketfd] *)
  cd_enable_write : D -> result D;
  cd_detach : D -> result D;
  cd_close : D -> result D;
  cd_reset_to : Z -> D -> result D;
  cd_ready : D -> Prop;                  (* its descriptor is open *)
  cd_detached : D -> Prop;               (* and unknown to the poller *)
  cd_fresh : D -> Z -> Prop;             (* another open descriptor *)
  cd_spare : D -> Prop                   (* the process may open one more *)
}.

Class ConnectDescriptorLaws (D : Type) `{ConnectDescriptor D} : Prop := {
  cd_socket_ok d fd d' : cd_ready d -> cd_socket d = Some (fd, d') ->
    cd_ready d' /\ cd_fresh d' fd /\ cd_writing d' = cd_writing d;
  cd_enable_write_ok d : cd_ready d ->
    exists d', cd_enable_write d = Ok d' /\ cd_ready d' /\ cd_writing d' = true /\
      cd_fd d' = cd_fd d /\ (cd_spare d -> cd_spare d');
  cd_detach_ok d : cd_ready d ->
    exists d', cd_detach d = Ok d' /\ cd_ready d' /\ cd_writing d' = false /\ cd_fd d' = cd_fd d /\
      cd_detached d';
  cd_close_ok d : cd_ready d -> exists d', cd_close d = Ok d' /\ cd_writing d' = cd_writing d;
  cd_reset_ok d fd : cd_ready d -> cd_fresh d fd ->
    exists d', cd_reset_to fd d = Ok d' /\ cd_ready d' /\ cd_writing d' = false /\ cd_fd d' = fd;
  cd_spare_socket d : cd_ready d -> cd_spare d -> is_Some (cd_socket d);
  cd_spare_reset d fd d1 d2 : cd_ready d -> cd_socket d = Some (fd, d1) ->
    cd_reset_to fd d1 = Ok d2 -> cd_spare d2
}.

(** * The errors of [::connect] the code tells apart *)
Inductive connect_errno :=
| EINPROGRESS
| EADDRINUSE | EADDRNOTAVAIL | EAGAIN | ECONNREFUSED | ENETUNREACH
| EALREADY | EISCONN
| EACCES | EPERM | EAFNOSUPPORT | EBADF | EFAULT | ENOTSOCK | EPROTOTYPE
| OtherErrno.

#[export] Instance connect_errno_eq_dec : EqDecision connect_errno.
Proof. solve_decision. Defined.

Definition retryable (e : connect_errno) : bool :=
  match e with EADDRINUSE | EADDRNOTAVAIL | EAGAIN | ECONNREFUSED | ENETUNREACH => true | _ => false end.

(** What happens to the outside: a call of [::connect] (and whether its descriptor
    is non-blocking), a retry scheduled, the two callbacks. *)
Inductive connect_event :=
| Connecting (fd : Z) (nonblocking : bool)
| RetryAfter (interval : TimeInterval.t)
| NewConnection (fd : Z)
| ConnectFailed.

Record PreconnectSocketfd (D : Type) := mkPre {
  _MAX_NUMBER_OF_RETRIES : Z;
  _number_of_retries : Z;
  _current_retry_time_interval : TimeInterval.t;
  _timer_identifier_ptr : option nat;
  _connect_fail_callback : bool;         (* registered *)
  _pollable_file_descriptor : D;
  fd_is_nonblocking : bool;
  next_timer : nat;
  pending : list nat;                    (* timers that have not expired *)
  started : bool;
  trace : list connect_event
}.
Arguments mkPre {D} _ _ _ _ _ _ _ _ _ _ _.
Arguments _MAX_NUMBER_OF_RETRIES {D} _.
Arguments _number_of_retries {D} _.
Arguments _current_retry_time_interval {D} _.
Arguments _timer_identifier_ptr {D} _.
Arguments _connect_fail_callback {D} _.
Arguments _pollable_file_descriptor {D} _.
Arguments fd_is_nonblocking {D} _.
Arguments next_timer {D} _.
Arguments pending {D} _.
Arguments started {D} _.
Arguments trace {D} _.

Definition _INITIAL_RETRY_TIME_INTERVAL : TimeInterval.t := TimeInterval.mk (TimeInterval.SECOND `quot` 2).
Definition _MAX_RETRY_TIME_INTERVAL : TimeInterval.t := TimeInterval.mk (30 * TimeInterval.SECOND).

(** [std::min] *)
Definition min_interval (a b : TimeInterval.t) : TimeInterval.t := if TimeInterval.lt b a then b else a.

Section Preconnect.
Context {D : Type} `{ConnectDescriptor D}.
Abbreviation pre := (PreconnectSocketfd D).

(** The constructor: [PollableFileDescriptor] makes its descriptor non-blocking. *)
Definition new_PreconnectSocketfd (max_number_of_retries : Z) (connect_fail_callback : bool) (d : D) : pre :=
  mkPre max_number_of_retries 0 _INITIAL_RETRY_TIME_INTERVAL None connect_fail_callback d true 0 [] false [].

Definition with_descriptor (d : D) (s : pre) : pre :=
  mkPre (_MAX_NUMBER_OF_RETRIES s) (_number_of_retries s) (_current_retry_time_interval s)
    (_timer_identifier_ptr s) (_connect_fail_callback s) d (fd_is_nonblocking s) (next_timer s)
    (pending s) (started s) (trace s).
Definition with_timer (id : option nat) (s : pre) : pre :=
  mkPre (_MAX_NUMBER_OF_RETRIES s) (_number_of_retries s) (_current_retry_time_interval s)
    id (_connect_fail_callback s) (_pollable_file_descriptor s) (fd_is_nonblocking s) (next_timer s)
    (pending s) (started s) (trace s).
Definition with_pending (l : list nat) (s : pre) : pre :=
  mkPre (_MAX_NUMBER_OF_RETRIES s) (_number_of_retries s) (_current_retry_time_interval s)
    (_timer_identifier_ptr s) (_connect_fail_callback s) (_pollable_file_descriptor s)
    (fd_is_nonblocking s) (next_timer s) l (started s) (trace s).
Definition with_started (s : pre) : pre :=
  mkPre (_MAX_NUMBER_OF_RETRIES s) (_number_of_retries s) (_current_retry_time_interval s)
    (_timer_identifier_ptr s) (_connect_fail_callback s) (_pollable_file_descriptor s)
    (fd_is_nonblocking s) (next_timer s) (pending s) true (trace s).
Definition emit (e : connect_event) (s : pre) : pre :=
  mkPre (_MAX_NUMBER_OF_RETRIES s) (_number_of_retries s) (_current_retry_time_interval s)
    (_timer_identifier_ptr s) (_connect_fail_callback s) (_pollable_file_descriptor s)
    (fd_is_nonblocking s) (next_timer s) (pending s) (started s) (trace s ++ [e]).

Definition fail_callback (s : pre) : pre :=
  if _connect_fail_callback s then emit ConnectFailed s else s.

(** The reset of the timer id, the descriptor and the callback that end the
    attempts. *)
Definition end_attempts (s : pre) : result pre :=
  let s := with_timer None s in
  let* d := cd_detach (_pollable_file_descriptor s) in
  let* d := cd_close d in
  Ok (fail_callback (with_descriptor d s)).

Definition cancel (s : pre) : result pre :=
  match _timer_identifier_ptr s with
  | None => Ok s
  | Some id =>
      if bool_decide (id ∈ pending s)
      then end_attempts (with_pending (filter (fun i => i <> id) (pending s)) s)
      else Err UndefinedBehaviour
  end.

(** [reset_to] leaves the new descriptor as [socket] made it: blocking. *)
Definition _schedule_retry (s : pre) : result pre :=
  if _MAX_NUMBER_OF_RETRIES s <=? _number_of_retries s then end_attempts s
  else
    match cd_socket (_pollable_file_descriptor s) with
    | None => Err Fatal
    | Some (fd, d) =>
        let* d := cd_reset_to fd d in
        let interval := min_interval _MAX_RETRY_TIME_INTERVAL (_current_retry_time_interval s) in
        let id := next_timer s in
        let* current := TimeInterval.mul (_current_retry_time_interval s) 2 in
        Ok (mkPre (_MAX_NUMBER_OF_RETRIES s) (_number_of_retries s + 1) current (Some id)
              (_connect_fail_callback s) d false (S id) (pending s ++ [id]) (started s)
              (trace s ++ [RetryAfter interval]))
    end.

Definition connected (s : pre) : result pre :=
  let fd := cd_fd (_pollable_file_descriptor s) in
  let* d := cd_detach (_pollable_file_descriptor s) in
  Ok (emit (NewConnection fd) (with_descriptor d s)).

(** [socket_error] is what [getsockopt(SO_ERROR)] stored. *)
Definition _write_event_callback (socket_error : Z) (s : pre) : result pre :=
  if socket_error =? 0 then connected s else _schedule_retry s.

(** [connect_result] is the error of [::connect], [None] when it succeeds. *)
Definition _try_once (connect_result : option connect_errno) (s : pre) : result pre :=
  let s := emit (Connecting (cd_fd (_pollable_file_descriptor s)) (fd_is_nonblocking s)) s in
  match connect_result with
  | None => connected s
  | Some EINPROGRESS =>
      let* d := cd_enable_write (_pollable_file_descriptor s) in Ok (with_descriptor d s)
  | Some (EADDRINUSE | EADDRNOTAVAIL | EAGAIN | ECONNREFUSED | ENETUNREACH) => _schedule_retry s
  | Some (EALREADY | EISCONN) => Ok (fail_callback s)
  | Some (EACCES | EPERM | EAFNOSUPPORT | EBADF | EFAULT | ENOTSOCK | EPROTOTYPE) => Ok (fail_callback s)
  | Some OtherErrno => Err Fatal
  end.

(** [start], in the thread of the loop. *)
Definition start (new_connection_callback : bool) (connect_result : option connect_errno) (s : pre) : result pre :=
  if negb new_connection_callback then Err Fatal else _try_once connect_result (with_started s).

(** ** What drives it: the event loop and its user *)
Inductive connect_op :=
| Start (r : option connect_errno)
| TimerExpires (id : nat) (r : option connect_errno)
| WriteEvent (socket_error : Z)
| Cancel.

#[export] Instance connect_op_eq_dec : EqDecision connect_op.
Proof. solve_decision. Defined.

Definition run_op (op : connect_op) (s : pre) : result pre :=
  match op with
  | Start r => start true r s
  | TimerExpires id r => _try_once r (with_pending (filter (fun i => i <> id) (pending s)) s)
  | WriteEvent e => _write_event_callback e s
  | Cancel => cancel s
  end.

Definition is_outcome (e : connect_event) : bool :=
  match e with NewConnection _ | ConnectFailed => true | _ => false end.
Definition outcomes (s : pre) : list connect_event := filter (fun e => is_outcome e = true) (trace s).

(** Starting happens once, only pending timers expire, write events come for
    descriptors registered for them; the user cancels whenever he likes. *)
Definition op_enabled (op : connect_op) (s : pre) : bool :=
  match op with
  | Start _ => negb (started s)
  | TimerExpires id _ => bool_decide (id ∈ pending s)
  | WriteEvent _ => cd_writing (_pollable_file_descriptor s)
  | Cancel => true
  end.

Fixpoint run_ops (ops : list connect_op) (s : pre) : result pre :=
  match ops with
  | [] => Ok s
  | op :: ops => if op_enabled op s then let* s := run_op op s in run_ops ops s else run_ops ops s
  end.
End Preconnect.

(** * Every reachable state is driven by exactly one thing *)
Section Progress.
Set Default Proof Using "Type*".
Context {D : Type} `{ConnectDescriptor D} `{!ConnectDescriptorLaws D}.
Abbreviation pre := (PreconnectSocketfd D).

(** What can still happen to a started object: a retry waits, or the descriptor
    waits to become writable, or the user has been told how it ended. *)
Inductive phase := Idle | Waiting (id : nat) | Writing | Done (e : connect_event).

Definition in_phase (ph : phase) (s : pre) : Prop :=
  match ph with
  | Idle => started s = false /\ pending s = [] /\
            cd_writing (_pollable_file_descriptor s) = false /\ outcomes s = [] /\
            cd_ready (_pollable_file_descriptor s)
  | Waiting id => started s = true /\ pending s = [id] /\ _timer_identifier_ptr s = Some id /\
            cd_writing (_pollable_file_descriptor s) = false /\ outcomes s = [] /\
            cd_ready (_pollable_file_descriptor s)
  | Writing => started s = true /\ pending s = [] /\
            cd_writing (_pollable_file_descriptor s) = true /\ outcomes s = [] /\
            cd_ready (_pollable_file_descriptor s)
  | Done e => started s = true /\ pending s = [] /\
            cd_writing (_pollable_file_descriptor s) = false /\ outcomes s = [e] /\
            match e with
            | NewConnection fd =>
                let d := _pollable_file_descriptor s in cd_ready d /\ cd_detached d /\ fd = cd_fd d
            | _ => True
            end
  end.

(** An attempt is under way: nothing waits. *)
Definition trying (s : pre) : Prop :=
  started s = true /\ pending s = [] /\ outcomes s = [] /\
  cd_ready (_pollable_file_descriptor s) /\ _connect_fail_callback s = true.

Definition settled (s : pre) : Prop :=
  _connect_fail_callback s = true /\
  exists ph, in_phase ph s.

Lemma filter_ne_self (id : nat) : filter (fun i => i <> id) [id] = [].
Proof. rewrite filter_cons_False by naive_solver. done. Qed.

Lemma outcomes_emit e (s : pre) :
  outcomes (emit e s) = outcomes s ++ (if is_outcome e then [e] else []).
Proof. unfold outcomes; simpl. rewrite filter_app. by destruct e. Qed.

Lemma end_attempts_settled s : trying s ->
  exists s', end_attempts s = Ok s' /\ settled s' /\ in_phase (Done ConnectFailed) s'.
Proof.
  intros (Hs & Hp & Ho & Hr & Hc). unfold end_attempts; simpl.
  destruct (cd_detach_ok _ Hr) as (d & -> & Hrd & Hw & _).
  destruct (cd_close_ok d Hrd) as (d' & -> & Hw').
  unfold fail_callback; simpl. rewrite Hc. eexists. split; [done |].
  enough (in_phase (Done ConnectFailed) (emit ConnectFailed (with_descriptor d' (with_timer None s)))).
  { split; [| done]. split; [done |]. by exists (Done ConnectFailed). }
  split; [done |]. split; [done |]. split; [simpl; congruence |].
  split; [| done]. rewrite outcomes_emit. unfold outcomes in *; simpl. by rewrite Ho.
Qed.

Lemma schedule_retry_settled s s' : trying s -> _schedule_retry s = Ok s' -> settled s'.
Proof.
  intros Ht. pose proof Ht as (Hs & Hp & Ho & Hr & Hc). unfold _schedule_retry. case_match.
  { destruct (end_attempts_settled s Ht) as (? & -> & ? & _). by intros [= <-]. }
  destruct (cd_socket _) as [[fd d] |] eqn:E; [| done].
  destruct (cd_socket_ok _ _ _ Hr E) as (Hrd & Hf & _).
  destruct (cd_reset_ok d fd Hrd Hf) as (d' & -> & Hr' & Hw & _).
  destruct (TimeInterval.mul _ 2); [| done]. intros [= <-].
  split; [done |]. exists (Waiting (next_timer s)). simpl.
  rewrite Hp. do 4 (split; [done |]). split; [| done].
  unfold outcomes in *; simpl. by rewrite filter_app, Ho.
Qed.

Lemma connected_settled s s' : trying s -> connected s = Ok s' -> settled s'.
Proof.
  intros (Hs & Hp & Ho & Hr & Hc). unfold connected.
  destruct (cd_detach_ok _ Hr) as (d & -> & Hrd & Hw & Hfd & Hdet). intros [= <-].
  split; [done |]. exists (Done (NewConnection (cd_fd (_pollable_file_descriptor s)))).
  split; [done |]. split; [done |]. split; [done |]. split; [| by rewrite <- Hfd].
  rewrite outcomes_emit. unfold outcomes in *; simpl. by rewrite Ho.
Qed.

Lemma fail_callback_settled s : trying s ->
  cd_writing (_pollable_file_descriptor s) = false -> settled (fail_callback s).
Proof.
  intros (Hs & Hp & Ho & Hr & Hc) Hw. unfold fail_callback. rewrite Hc. split; [done |].
  exists (Done ConnectFailed). do 3 (split; [done |]).
  split; [| done]. rewrite outcomes_emit. by rewrite Ho.
Qed.

Lemma try_once_settled r s s' : trying s ->
  cd_writing (_pollable_file_descriptor s) = false -> _try_once r s = Ok s' -> settled s'.
Proof.
  intros (Hs & Hp & Ho & Hr & Hc) Hw. unfold _try_once.
  set (s1 := emit (Connecting _ _) s).
  assert (Ht : trying s1).
  { split; [done |]. split; [done |]. split; [| done]. unfold s1. by rewrite outcomes_emit, Ho. }
  change (cd_writing (_pollable_file_descriptor s1) = false) in Hw. clearbody s1.
  destruct r as [[] |]; intros E; try done;
    eauto using schedule_retry_settled, connected_settled.
  1: {
    pose proof Ht as (Hs' & Hp' & Ho' & Hr' & Hc').
    destruct (cd_enable_write_ok _ Hr') as (d & E' & Hrd & Hwd & _ & _). rewrite E' in E.
    injection E as <-. split; [done |]. by exists Writing. }
  all: injection E as <-; by apply fail_callback_settled.
Qed.

(** Cancelling ends a retry that waits; otherwise it changes nothing, or refers to
    a timer that has fired. *)
Lemma settled_cancel s s' : settled s -> cancel s = Ok s' -> settled s'.
Proof.
  intros [Hc [ph Hph]]. unfold cancel.
  destruct (_timer_identifier_ptr s) as [id |] eqn:Et; [| by intros [= <-]; split; [| exists ph]].
  case_bool_decide as Hin; [| done]. intros E.
  destruct ph as [| id' | | e]; simpl in Hph.
  2: {
    destruct Hph as (Hst & Hp & Ht & Hw & Ho & Hr). rewrite Et in Ht. injection Ht as [= <-].
    destruct (end_attempts_settled (with_pending (filter (fun i => i <> id) (pending s)) s))
      as (s1 & E1 & Hs1 & _); [| by rewrite E1 in E; injection E as <-].
    split; [done |]. split; [| done]. simpl. rewrite Hp. apply filter_ne_self. }
  all: destruct Hph as (_ & Hp & _); rewrite Hp in Hin; by apply not_elem_of_nil in Hin.
Qed.

Lemma settled_run_op op s s' :
  settled s -> op_enabled op s = true -> run_op op s = Ok s' -> settled s'.
Proof.
  intros Hset Hen E. pose proof Hset as [Hc [ph Hph]].
  destruct op as [r | id r | e |]; simpl in Hen, E.
  - destruct ph; simpl in Hph; destruct (started s) eqn:Hs; try naive_solver.
    apply (try_once_settled r (with_started s)); try naive_solver.
    destruct Hph as (_ & Hp & Hw & Ho & Hr). by repeat split.
  - apply bool_decide_eq_true in Hen.
    destruct ph; simpl in Hph; destruct_and! Hph;
      try (match goal with Hp : pending s = [] |- _ =>
             rewrite Hp in Hen; by apply not_elem_of_nil in Hen end).
    match goal with Hp : pending s = [_] |- _ => rewrite Hp in *; apply list_elem_of_singleton in Hen as -> end.
    refine (try_once_settled r _ _ _ _ E); [| done].
    split; [done |]. split; [| done]. apply filter_ne_self.
  - destruct ph; simpl in Hph; destruct_and! Hph; try congruence.
    assert (Ht : trying s) by (by repeat split).
    revert E. unfold _write_event_callback. case_match;
      eauto using schedule_retry_settled, connected_settled.
  - eauto using settled_cancel.
Qed.

Lemma settled_run_ops ops s s' : settled s -> run_ops ops s = Ok s' -> settled s'.
Proof.
  revert s. induction ops as [| op ops IH]; simpl; intros s Hs E; [by injection E as <- |].
  destruct (op_enabled op s) eqn:Hen; [| eauto].
  apply bind_ok in E as (s1 & E1 & E). eauto using settled_run_op.
Qed.

(** [cancel]: without a timer it does nothing at all; a retry that waits is
    withdrawn, the descriptor closed and the failure reported; an identifier whose
    timer has fired refers to a deleted timer. *)
Theorem cancel_spec s (Hr : cd_ready (_pollable_file_descriptor s)) :
  match _timer_identifier_ptr s with
  | None => cancel s = Ok s
  | Some id =>
      if bool_decide (id ∈ pending s) then
        exists s', cancel s = Ok s' /\ _timer_identifier_ptr s' = None /\ (id ∉ pending s') /\
          trace s' = trace s ++ (if _connect_fail_callback s then [ConnectFailed] else [])
      else cancel s = Err UndefinedBehaviour
  end.
Proof.
  unfold cancel. destruct (_timer_identifier_ptr s) as [id |]; [| done].
  case_bool_decide as Hin; [| done]. unfold end_attempts; simpl.
  destruct (cd_detach_ok _ Hr) as (d & -> & Hrd & _).
  destruct (cd_close_ok d Hrd) as (d' & -> & _). unfold fail_callback; simpl.
  assert (id ∉ filter (fun i => i <> id) (pending s)).
  { rewrite list_elem_of_filter. by intros []. }
  destruct (_connect_fail_callback s); eexists; simpl; rewrite ?app_nil_r; eauto.
Qed.

(** Cancelling while the first attempt is under way is ignored: the connection is
    handed on when it is made. *)
Theorem cancel_ignored_during_first_attempt m d
    (Hr : cd_ready d) (Hw : cd_writing d = false) :
  exists s, run_ops [Start (Some EINPROGRESS); Cancel; WriteEvent 0]
              (new_PreconnectSocketfd m true d) = Ok s /\
    outcomes s = [NewConnection (cd_fd d)].
Proof.
  destruct (cd_enable_write_ok d Hr) as (d1 & E1 & Hr1 & Hw1 & Hf1 & _).
  destruct (cd_detach_ok d1 Hr1) as (d2 & E2 & _).
  simpl. unfold start, _try_once; simpl. rewrite E1; simpl. rewrite Hw1.
  unfold _write_event_callback, connected; simpl. rewrite E2, Hf1. by eexists.
Qed.
End Progress.

(** * The schedule of the retries *)

(** How an attempt is answered: by [::connect] itself, or, when it is in progress,
    by the error of the descriptor once it is writable. *)
Inductive answer := Now (r : option connect_errno) | Later (socket_error : Z).

Definition refusal (a : answer) : bool :=
  match a with Now (Some e) => retryable e | Now None => false | Later e => negb (e =? 0) end.
Definition acceptance (a : answer) : bool :=
  match a with Now None => true | Now _ => false | Later e => e =? 0 end.

(** The events of the [k]-th attempt. *)
Definition begin_attempt (k : nat) (r : option connect_errno) : connect_op :=
  match k with O => Start r | S id => TimerExpires id r end.

Definition attempt_ops (k : nat) (a : answer) : list connect_op :=
  match a with
  | Now r => [begin_attempt k r]
  | Later e => [begin_attempt k (Some EINPROGRESS); WriteEvent e]
  end.

Fixpoint attempts_from (k : nat) (l : list answer) : list connect_op :=
  match l with [] => [] | a :: l => attempt_ops k a ++ attempts_from (S k) l end.

(** The trace without the numbers of the descriptors. *)
Inductive step := Attempt (nonblocking : bool) | Wait (ns : Z) | Connected | Failed.

Definition step_of (e : connect_event) : step :=
  match e with
  | Connecting _ b => Attempt b
  | RetryAfter i => Wait (TimeInterval.nanoseconds i)
  | NewConnection _ => Connected
  | ConnectFailed => Failed
  end.
Definition steps (D : Type) (s : PreconnectSocketfd D) : list step := map step_of (trace s).
Arguments steps {D}.

(** Half a second, doubled each time, at most thirty seconds. *)
Definition wait_before_retry (k : nat) : Z := Z.min (30 * 10 ^ 9) (5 * 10 ^ 8 * 2 ^ Z.of_nat k).

Definition refused_steps (n : nat) : list step :=
  flat_map (fun k => [Attempt (bool_decide (k = 0%nat)); Wait (wait_before_retry k)]) (seq 0 n).

Lemma attempts_from_snoc l a k :
  attempts_from k (l ++ [a]) = attempts_from k l ++ attempt_ops (k + length l) a.
Proof.
  revert k. induction l as [| b l IH]; intros k; simpl; [by rewrite Nat.add_0_r, app_nil_r |].
  by rewrite IH, app_assoc, Nat.add_succ_r.
Qed.

Lemma refusal_not_acceptance a : refusal a = true -> acceptance a = false.
Proof. destruct a as [[] | e]; simpl; try done. by destruct (e =? 0). Qed.

Section Schedule.
Set Default Proof Using "Type*".
Context {D : Type} `{ConnectDescriptor D} `{!ConnectDescriptorLaws D}.
Abbreviation pre := (PreconnectSocketfd D).

(** The state before attempt [k] of at most [m + 1], each refused so far. *)
Definition before_attempt (m : Z) (k : nat) (s : pre) : Prop :=
  _MAX_NUMBER_OF_RETRIES s = m /\ _number_of_retries s = Z.of_nat k /\
  _current_retry_time_interval s = TimeInterval.mk (5 * 10 ^ 8 * 2 ^ Z.of_nat k) /\
  next_timer s = k /\ pending s = match k with O => [] | S id => [id] end /\
  started s = bool_decide (k <> 0%nat) /\ fd_is_nonblocking s = bool_decide (k = 0%nat) /\
  _connect_fail_callback s = true /\
  cd_writing (_pollable_file_descriptor s) = false /\ cd_ready (_pollable_file_descriptor s) /\
  cd_spare (_pollable_file_descriptor s) /\ steps s = refused_steps k.

(** During attempt [k]. *)
Definition during_attempt (m : Z) (k : nat) (s : pre) : Prop :=
  _MAX_NUMBER_OF_RETRIES s = m /\ _number_of_retries s = Z.of_nat k /\
  _current_retry_time_interval s = TimeInterval.mk (5 * 10 ^ 8 * 2 ^ Z.of_nat k) /\
  next_timer s = k /\ pending s = [] /\ started s = true /\ 
  _connect_fail_callback s = true /\ cd_ready (_pollable_file_descriptor s) /\
  cd_spare (_pollable_file_descriptor s) /\ steps s = refused_steps k ++ [Attempt (bool_decide (k = 0%nat))].

Lemma run_ops_app ops1 ops2 (s : pre) :
  run_ops (ops1 ++ ops2) s = let* s := run_ops ops1 s in run_ops ops2 s.
Proof.
  revert s. induction ops1 as [| op ops1 IH]; simpl; intros s; [done |].
  destruct (op_enabled op s); [| done]. by destruct (run_op op s).
Qed.

Lemma steps_emit e (s : pre) : steps (emit e s) = steps s ++ [step_of e].
Proof. unfold steps; simpl. by rewrite map_app. Qed.

Lemma fresh_before_attempt m d : cd_ready d -> cd_spare d -> cd_writing d = false ->
  before_attempt m 0 (new_PreconnectSocketfd m true d).
Proof. by repeat split. Qed.

(** Whatever decides it, attempt [k] ends in the code that handles its answer. *)
Lemma attempt_begins m k s :
  before_attempt m k s ->
  exists s0, (forall r, op_enabled (begin_attempt k r) s = true /\
                        run_op (begin_attempt k r) s = _try_once r s0) /\
    during_attempt m k (emit (Connecting (cd_fd (_pollable_file_descriptor s0))
                                (fd_is_nonblocking s0)) s0).
Proof.
  intros (? & ? & ? & ? & Hp & Hs & Hb & ? & ? & ? & ? & Htr). destruct k as [| id].
  - exists (with_started s). split; [intros r; simpl; by rewrite Hs |].
    do 9 (split; [done |]). rewrite steps_emit. change (steps (with_started s)) with (steps s). simpl step_of. by rewrite Hb, Htr.
  - exists (with_pending (filter (fun i => i <> id) (pending s)) s). split.
    { intros r. simpl. rewrite Hp. split; [| done]. apply bool_decide_eq_true. set_solver. }
    do 4 (split; [done |]). split; [simpl; rewrite Hp; apply filter_ne_self |].
    do 4 (split; [done |]). rewrite steps_emit. change (steps (with_pending _ s)) with (steps s).
    simpl step_of. by rewrite Hb, Htr.
Qed.

(** Whatever decides it, attempt [k] ends in the code that handles its answer. *)
Lemma attempt_decided m k a s :
  before_attempt m k s -> refusal a || acceptance a = true ->
  exists s1, during_attempt m k s1 /\
    run_ops (attempt_ops k a) s = if acceptance a then connected s1 else _schedule_retry s1.
Proof.
  intros Hb Ha. destruct (attempt_begins m k s Hb) as (s0 & Hrun & Hd).
  destruct a as [r | e]; simpl; [destruct (Hrun r) as [-> ->] | destruct (Hrun (Some EINPROGRESS)) as [-> ->]];
    unfold _try_once; set (s1 := emit _ s0) in *.
  - exists s1. split; [done |].
    destruct r as [[] |]; try done; simpl;
      repeat match goal with |- context [_schedule_retry s1] => destruct (_schedule_retry s1)
             | |- context [connected s1] => destruct (connected s1) end; done.
  - pose proof Hd as (? & ? & ? & ? & ? & ? & ? & Hr & Hsp & ?).
    destruct (cd_enable_write_ok _ Hr) as (d & -> & Hrd & Hw & Hfd & Hsp').
    exists (with_descriptor d s1). split; [repeat split; try done; by apply Hsp' |]. simpl. rewrite Hw.
    unfold _write_event_callback. case_match; simpl;
      [destruct (connected _) | destruct (_schedule_retry _)]; done.
Qed.

Lemma refused_steps_S k :
  refused_steps (S k)
  = refused_steps k ++ [Attempt (bool_decide (k = 0%nat)); Wait (wait_before_retry k)].
Proof. unfold refused_steps. by rewrite seq_S, flat_map_app. Qed.

Lemma min_interval_wait k :
  TimeInterval.nanoseconds
    (min_interval _MAX_RETRY_TIME_INTERVAL (TimeInterval.mk (5 * 10 ^ 8 * 2 ^ Z.of_nat k)))
  = wait_before_retry k.
Proof.
  unfold min_interval, wait_before_retry, TimeInterval.lt, _MAX_RETRY_TIME_INTERVAL, TimeInterval.SECOND.
  cbn [TimeInterval.nanoseconds]. case_match; cbn [TimeInterval.nanoseconds]; lia.
Qed.

Lemma double_interval k :
  TimeInterval.mul (TimeInterval.mk (5 * 10 ^ 8 * 2 ^ Z.of_nat k)) 2
  = if (k <? 34)%nat then Ok (TimeInterval.mk (5 * 10 ^ 8 * 2 ^ Z.of_nat (S k)))
    else Err UndefinedBehaviour.
Proof.
  assert (E : 5 * 10 ^ 8 * 2 ^ Z.of_nat k * 2 = 5 * 10 ^ 8 * 2 ^ Z.of_nat (S k)).
  { rewrite Nat2Z.inj_succ, Z.pow_succ_r by lia. ring. }
  unfold TimeInterval.mul. cbn [TimeInterval.nanoseconds]. rewrite E. destruct (Nat.ltb_spec k 34).
  - pose proof (Z.pow_le_mono_r 2 (Z.of_nat (S k)) 34 ltac:(lia) ltac:(lia)).
    pose proof (Z.pow_nonneg 2 (Z.of_nat (S k)) ltac:(lia)).
    rewrite i64_ok by (unfold int64_min, int64_max; lia). done.
  - pose proof (Z.pow_le_mono_r 2 35 (Z.of_nat (S k)) ltac:(lia) ltac:(lia)).
    unfold i64. destruct (in_int64 _) eqn:Hi; [| done].
    apply in_int64_spec in Hi. unfold int64_max in Hi. lia.
Qed.

(** A refusal before the last attempt. *)
Lemma retry_spec m k s :
  during_attempt m k s -> Z.of_nat k < m ->
  if (k <? 34)%nat then exists s', _schedule_retry s = Ok s' /\ before_attempt m (S k) s'
  else _schedule_retry s = Err UndefinedBehaviour.
Proof.
  intros (Hm & Hn & Hi & Ht & Hp & Hs & Hc & Hr & Hsp & Htr) Hk. unfold _schedule_retry.
  rewrite Hm, Hn, (proj2 (Z.leb_gt _ _) Hk).
  destruct (cd_spare_socket _ Hr Hsp) as [[fd d] E]. rewrite E.
  destruct (cd_socket_ok _ _ _ Hr E) as (Hrd & Hf & _).
  destruct (cd_reset_ok d fd Hrd Hf) as (d' & E' & Hr' & Hw & _).
  pose proof (cd_spare_reset _ _ _ _ Hr E E') as Hsp'. rewrite E'.
  rewrite Hi, double_interval. case_match; [| done]. eexists. split; [done |].
  split; [done |]. split; [simpl; lia |]. split; [done |]. simpl.
  split; [congruence |]. split; [by rewrite Hp, Ht |]. do 6 (split; [done |]).
  unfold steps in *; simpl. rewrite refused_steps_S, map_app, Htr, <- app_assoc.
  cbn [map step_of app]. by rewrite min_interval_wait.
Qed.

Lemma last_retry_fails m k s :
  during_attempt m k s -> m <= Z.of_nat k ->
  exists s', _schedule_retry s = Ok s' /\ pending s' = [] /\
    steps s' = refused_steps k ++ [Attempt (bool_decide (k = 0%nat)); Failed].
Proof.
  intros (Hm & Hn & Hi & Ht & Hp & Hs & Hc & Hr & _ & Htr) Hk. unfold _schedule_retry.
  rewrite Hm, Hn, (proj2 (Z.leb_le _ _) Hk). unfold end_attempts; simpl.
  destruct (cd_detach_ok _ Hr) as (d & -> & Hrd & _).
  destruct (cd_close_ok d Hrd) as (d' & -> & _).
  unfold fail_callback; simpl. rewrite Hc. eexists. split; [done |]. split; [done |].
  rewrite steps_emit. unfold steps in *; simpl. by rewrite Htr, <- app_assoc.
Qed.

Lemma attempt_accepted m k s :
  during_attempt m k s ->
  exists s', connected s = Ok s' /\ pending s' = [] /\
    steps s' = refused_steps k ++ [Attempt (bool_decide (k = 0%nat)); Connected].
Proof.
  intros (_ & _ & _ & _ & Hp & _ & _ & Hr & _ & Htr). unfold connected.
  destruct (cd_detach_ok _ Hr) as (d & -> & _). eexists. split; [done |]. split; [done |].
  rewrite steps_emit. unfold steps in *; simpl. by rewrite Htr, <- app_assoc.
Qed.

(** [n] refusals, from attempt [k] on. *)
Lemma refused_attempts m l k s :
  before_attempt m k s -> Forall (fun a => refusal a = true) l ->
  Z.of_nat (k + length l) <= m -> (k + length l <= 34)%nat ->
  exists s', run_ops (attempts_from k l) s = Ok s' /\ before_attempt m (k + length l) s'.
Proof.
  intros Hb Hl Hm Hn. revert k s Hb Hm Hn. induction Hl as [| a l Ha Hl IH]; simpl; intros k s Hb Hm Hn.
  { exists s. by rewrite Nat.add_0_r. }
  destruct (attempt_decided m k a s Hb) as (s1 & Hd & E); [by rewrite Ha |].
  rewrite (refusal_not_acceptance a Ha) in E. pose proof (retry_spec m k s1 Hd ltac:(lia)) as Hr.
  rewrite (proj2 (Nat.ltb_lt k 34)) in Hr by lia. destruct Hr as (s' & E' & Hb').
  destruct (IH (S k) s' Hb') as (s2 & E2 & Hb2); [lia | lia |].
  exists s2. rewrite run_ops_app, E, E', E2. split; [done |]. by rewrite Nat.add_succ_r.
Qed.

(** The attempts are spaced by half a second, doubled after each refusal up to
    thirty seconds; the first is made on a non-blocking descriptor, every later one
    on a blocking one.  The first acceptance is handed on, and the refusal after the
    last retry is reported; either way nothing stays in the event loop. *)
Theorem preconnect_retry_schedule m l a d
    (Hr : cd_ready d) (Hsp : cd_spare d) (Hw : cd_writing d = false)
    (Hl : Forall (fun a => refusal a = true) l)
    (Hm : Z.of_nat (length l) <= m) (H34 : (length l <= 34)%nat)
    (Ha : acceptance a = true \/ refusal a = true /\ m = Z.of_nat (length l)) :
  exists s, run_ops (attempts_from 0 (l ++ [a])) (new_PreconnectSocketfd m true d) = Ok s /\
    steps s = refused_steps (length l) ++
      [Attempt (bool_decide (length l = 0%nat)); if acceptance a then Connected else Failed] /\
    pending s = [].
Proof.
  destruct (refused_attempts m l 0 _ (fresh_before_attempt m d Hr Hsp Hw) Hl Hm H34) as (s1 & E1 & Hb).
  rewrite attempts_from_snoc, run_ops_app, E1. change (0 + length l)%nat with (length l) in *.
  destruct (attempt_decided m (length l) a s1 Hb) as (s2 & Hd & ->).
  { destruct Ha as [-> | [-> _]]; [by rewrite orb_true_r | done]. }
  destruct (acceptance a).
  - destruct (attempt_accepted _ _ _ Hd) as (s & -> & ? & ?). eauto.
  - destruct Ha as [? | [_ ->]]; [done |].
    destruct (last_retry_fails _ _ _ Hd ltac:(lia)) as (s & -> & ? & ?). eauto.
Qed.

(** With thirty-five retries or more, doubling the interval after the thirty-fifth
    refusal overflows. *)
Theorem preconnect_retry_overflow m l a d
    (Hr : cd_ready d) (Hsp : cd_spare d) (Hw : cd_writing d = false)
    (Hl : Forall (fun a => refusal a = true) (l ++ [a])) (H34 : length l = 34%nat) (Hm : 35 <= m) :
  run_ops (attempts_from 0 (l ++ [a])) (new_PreconnectSocketfd m true d) = Err UndefinedBehaviour.
Proof.
  apply Forall_app in Hl as [Hl [Ha _]%Forall_cons].
  rewrite attempts_from_snoc, run_ops_app. change (0 + length l)%nat with (length l) in *.
  destruct (refused_attempts m l 0 _ (fresh_before_attempt m d Hr Hsp Hw) Hl) as (s1 & -> & Hb); [lia | lia |].
  change (0 + length l)%nat with (length l) in *.
  destruct (attempt_decided m (length l) a s1 Hb) as (s2 & Hd & ->); [by rewrite Ha |].
  assert (acceptance a = false) as -> by (by apply refusal_not_acceptance).
  pose proof (retry_spec m _ s2 Hd ltac:(lia)) as E. rewrite H34 in E. done.
Qed.

(** The interval follows the number of retries. *)
Definition doubled (s : pre) : Prop :=
  exists k, _number_of_retries s = Z.of_nat k /\
    _current_retry_time_interval s = TimeInterval.mk (5 * 10 ^ 8 * 2 ^ Z.of_nat k).

(** The identifier kept is that of a timer that has fired. *)
Definition stale (s : pre) : Prop :=
  exists id, _timer_identifier_ptr s = Some id /\ id ∉ pending s.

(** What an attempt was told by [::connect]. *)
Definition told (op : connect_op) : option connect_errno :=
  match op with Start r | TimerExpires _ r => r | _ => None end.

(** Why a step fails: the user cancels a timer that has fired; doubling the interval
    overflows; the process has no more descriptors or meets an error it does not
    know. *)
Definition fails (op : connect_op) (s : pre) (e : failure) : Prop :=
  match op with
  | Cancel => e = UndefinedBehaviour /\ stale s
  | _ => e = UndefinedBehaviour /\ 34 <= _number_of_retries s < _MAX_NUMBER_OF_RETRIES s \/
         e = Fatal /\ (cd_socket (_pollable_file_descriptor s) = None \/ told op = Some OtherErrno)
  end.

Lemma fails_fatal op s :
  op <> Cancel -> cd_socket (_pollable_file_descriptor s) = None \/ told op = Some OtherErrno ->
  fails op s Fatal.
Proof. destruct op; simpl; [by auto .. | done]. Qed.

Lemma fails_overflow op s :
  op <> Cancel -> 34 <= _number_of_retries s < _MAX_NUMBER_OF_RETRIES s -> fails op s UndefinedBehaviour.
Proof. destruct op; simpl; [by auto .. | done]. Qed.

(** A step from [s] that [op] takes, or the part of it that is left. *)
Definition goes (op : connect_op) (s : pre) (r : result pre) : Prop :=
  match r with
  | Ok s' => doubled s' /\ _MAX_NUMBER_OF_RETRIES s' = _MAX_NUMBER_OF_RETRIES s
  | Err e => fails op s e
  end.

Lemma end_attempts_goes op s0 s :
  cd_ready (_pollable_file_descriptor s) -> doubled s ->
  _MAX_NUMBER_OF_RETRIES s = _MAX_NUMBER_OF_RETRIES s0 -> goes op s0 (end_attempts s).
Proof.
  intros Hr Hp Hm. unfold end_attempts; simpl. destruct (cd_detach_ok _ Hr) as (d & -> & Hrd & _).
  destruct (cd_close_ok d Hrd) as (d' & -> & _). unfold fail_callback. by case_match.
Qed.

Lemma schedule_retry_goes op s :
  op <> Cancel -> cd_ready (_pollable_file_descriptor s) -> doubled s ->
  goes op s (_schedule_retry s).
Proof.
  intros Hop Hr (k & Hn & Hi). unfold _schedule_retry. case_match eqn:Hle.
  { apply end_attempts_goes; [done | by exists k | done]. }
  destruct (cd_socket _) as [[fd d] |] eqn:E; [| by apply fails_fatal; auto].
  destruct (cd_socket_ok _ _ _ Hr E) as (Hrd & Hf & _).
  destruct (cd_reset_ok d fd Hrd Hf) as (d' & -> & _).
  apply Z.leb_gt in Hle. rewrite Hi, double_interval. destruct (Nat.ltb_spec k 34).
  - split; [| done]. exists (S k). simpl. split; [lia | done].
  - apply fails_overflow; [done | lia].
Qed.

Lemma connected_goes op s :
  cd_ready (_pollable_file_descriptor s) -> doubled s -> goes op s (connected s).
Proof. intros Hr Hp. unfold connected. by destruct (cd_detach_ok _ Hr) as (d & -> & _). Qed.

Lemma try_once_goes op r s :
  op <> Cancel -> told op = r -> cd_ready (_pollable_file_descriptor s) -> doubled s ->
  goes op s (_try_once r s).
Proof.
  intros Hop Ht Hr Hp. unfold _try_once. set (s1 := emit _ s).
  assert (Hr1 : cd_ready (_pollable_file_descriptor s1)) by done.
  assert (Hp1 : doubled s1) by done.
  enough (goes op s1 match r with
            | None => connected s1
            | Some EINPROGRESS =>
                let* d := cd_enable_write (_pollable_file_descriptor s1) in Ok (with_descriptor d s1)
            | Some (EADDRINUSE | EADDRNOTAVAIL | EAGAIN | ECONNREFUSED | ENETUNREACH) => _schedule_retry s1
            | Some OtherErrno => Err Fatal
            | Some _ => Ok (fail_callback s1)
            end) as Hg by (by destruct r as [[] |]).
  clearbody s1. destruct r as [[] |]; auto using schedule_retry_goes, connected_goes.
  1: by destruct (cd_enable_write_ok _ Hr1) as (d & -> & _).
  all: try (simpl; unfold fail_callback; by case_match).
  apply fails_fatal; auto.
Qed.

Lemma cancel_goes s : settled s -> doubled s -> goes Cancel s (cancel s).
Proof.
  intros [Hc [ph Hph]] Hp. unfold cancel.
  destruct (_timer_identifier_ptr s) as [id |] eqn:Et; [| done].
  case_bool_decide as Hin; [| split; [done | by exists id]].
  apply end_attempts_goes; [| done | done]. simpl.
  destruct ph; simpl in Hph; destruct Hph as (_ & Hpe & Hph); try apply Hph.
  rewrite Hpe in Hin. by apply not_elem_of_nil in Hin.
Qed.

(** Whatever drives the object finds its descriptor open. *)
Lemma enabled_ready op s :
  settled s -> op_enabled op s = true -> op <> Cancel -> cd_ready (_pollable_file_descriptor s).
Proof.
  intros [_ [[] Hph]] Hen Hne; simpl in Hph; try apply Hph.
  destruct Hph as (Hs & Hp & Hw & Ho & _). destruct op; simpl in Hen; try done.
  - by rewrite Hs in Hen.
  - rewrite Hp in Hen. by apply bool_decide_eq_true, not_elem_of_nil in Hen.
  - congruence.
Qed.

Lemma schedule_retry_started s s' :
  _schedule_retry s = Ok s' -> started s = true -> started s' = true.
Proof.
  unfold _schedule_retry, end_attempts, fail_callback. intros E Hs.
  repeat case_match; inv_ok; simpl in *; congruence.
Qed.

Lemma try_once_started r s s' : _try_once r s = Ok s' -> started s = true -> started s' = true.
Proof.
  unfold _try_once, connected. intros E Hs.
  destruct r as [[] |]; unfold fail_callback in E; repeat case_match; inv_ok;
    eauto using schedule_retry_started.
Qed.

Lemma run_op_started op s s' :
  run_op op s = Ok s' -> started s = true -> started s' = true.
Proof.
  intros E Hs. destruct op; simpl in E.
  - unfold start in E. simpl in E. eauto using try_once_started.
  - eauto using try_once_started.
  - unfold _write_event_callback, connected in E.
    repeat case_match; inv_ok; eauto using schedule_retry_started.
  - unfold cancel, end_attempts, fail_callback in E. repeat case_match; inv_ok; done.
Qed.

Lemma run_op_goes op s :
  settled s -> doubled s -> op_enabled op s = true -> goes op s (run_op op s).
Proof.
  intros Hset Hp Hen. destruct (decide (op = Cancel)) as [-> | Hne]; [by apply cancel_goes |].
  pose proof (enabled_ready op s Hset Hen Hne) as Hr.
  destruct op as [r | id r | e |]; simpl run_op; try done.
  - by apply (try_once_goes (Start r) r (with_started s)).
  - by apply (try_once_goes (TimerExpires id r) r (with_pending _ s)).
  - unfold _write_event_callback. case_match; auto using schedule_retry_goes, connected_goes.
Qed.

(** With at most 34 retries, and no cancelling of a timer that has fired, the only
    way to fail is an error the code calls fatal. *)
Definition paced (s : pre) : Prop := _MAX_NUMBER_OF_RETRIES s <= 34 /\ doubled s.

Definition paced_or_fatal (r : result pre) : Prop :=
  match r with Ok s => paced s | Err e => e = Fatal end.

Lemma run_op_paced op s :
  settled s -> paced s -> op_enabled op s = true -> (op = Cancel -> ~ stale s) ->
  paced_or_fatal (run_op op s).
Proof.
  intros Hset [Hm Hp] Hen Hst. pose proof (run_op_goes op s Hset Hp Hen) as Hg.
  destruct (run_op op s) as [s' | e].
  - destruct Hg as [Hd Hm']. split; [| done]. by rewrite Hm'.
  - destruct op; simpl in Hg; [| | | destruct Hg as [_ Hs]; by destruct (Hst eq_refl Hs)].
    all: destruct Hg as [[_ ?] | [-> _]]; [lia | done].
Qed.

(** The timer kept is one that waits, or one whose expiry is among the steps. *)
Definition fired (id : nat) (ops : list connect_op) : Prop := exists r, TimerExpires id r ∈ ops.

Definition accounted (ops : list connect_op) (s : pre) : Prop :=
  forall id, _timer_identifier_ptr s = Some id -> id ∈ pending s \/ fired id ops.

(** [s'] keeps the timer of [s] with what is left in the loop, or has a new one that
    waits, or none. *)
Definition timer_kept (s s' : pre) : Prop :=
  forall id, _timer_identifier_ptr s' = Some id ->
    id ∈ pending s' \/ _timer_identifier_ptr s = Some id /\ pending s' = pending s.

Lemma schedule_retry_timer s s' : _schedule_retry s = Ok s' -> timer_kept s s'.
Proof.
  unfold _schedule_retry, end_attempts, fail_callback. intros E id.
  repeat case_match; inv_ok; simpl; intros [= <-]; left; set_solver.
Qed.

Lemma try_once_timer r s s' : _try_once r s = Ok s' -> timer_kept s s'.
Proof.
  unfold _try_once, connected. intros E.
  destruct r as [[] |]; unfold fail_callback in E; repeat case_match; inv_ok;
    try (intros id Hid; by right); by apply schedule_retry_timer in E.
Qed.

Lemma run_op_accounted ops op s s' :
  accounted ops s -> run_op op s = Ok s' -> accounted (ops ++ [op]) s'.
Proof.
  intros Ha E id Hid.
  assert (Hold : id ∈ pending s' \/ (_timer_identifier_ptr s = Some id /\
            (id ∈ pending s -> id ∈ pending s' \/ fired id [op]))).
  { assert (Hk : forall s0, _timer_identifier_ptr s0 = _timer_identifier_ptr s ->
              (id ∈ pending s -> id ∈ pending s0 \/ fired id [op]) -> timer_kept s0 s' ->
              id ∈ pending s' \/ (_timer_identifier_ptr s = Some id /\
                (id ∈ pending s -> id ∈ pending s' \/ fired id [op]))).
    { intros s0 Ht Hp Hk. destruct (Hk id Hid) as [? | [? ->]]; [by left | right]. by rewrite <- Ht. }
    destruct op as [r | i r | e |]; simpl in E.
    - apply (Hk (with_started s)); [done | by left |]. unfold start in E. by apply try_once_timer in E.
    - eapply Hk; [| | by eapply try_once_timer]; [done |]. simpl. intros Hin.
      destruct (decide (id = i)) as [-> | Hne].
      + right. exists r. by left.
      + left. by apply list_elem_of_filter.
    - apply (Hk s); [done | by left |]. unfold _write_event_callback, connected in E.
      repeat case_match; inv_ok; [intros i Hi; by right | by apply schedule_retry_timer].
    - apply (Hk s); [done | by left |]. unfold cancel, end_attempts, fail_callback in E.
      intros i Hi. repeat case_match; inv_ok; simplify_eq/=; auto. }
  unfold fired in *. setoid_rewrite elem_of_app.
  destruct Hold as [? | [Ht Hp]]; [by left |].
  destruct (Ha id Ht) as [Hin | [r Hr]]; [| right; by eauto].
  destruct (Hp Hin) as [? | [r Hr]]; [by left | right; by eauto].
Qed.

(** A run is settled, or stops at a step that fails. *)
Lemma run_ops_goes ops0 ops s :
  settled s -> doubled s -> accounted ops0 s ->
  match run_ops ops s with
  | Ok s' => settled s'
  | Err e => exists ops1 op ops2 s1, ops = ops1 ++ op :: ops2 /\ run_ops ops1 s = Ok s1 /\
      op_enabled op s1 = true /\ run_op op s1 = Err e /\ fails op s1 e /\
      _MAX_NUMBER_OF_RETRIES s1 = _MAX_NUMBER_OF_RETRIES s /\ accounted (ops0 ++ ops1) s1
  end.
Proof.
  revert ops0 s. induction ops as [| op ops IH]; simpl; intros ops0 s Hset Hd Ha; [done |].
  assert (Hskip : forall o, accounted (ops0 ++ [o]) s).
  { intros o id Hid. destruct (Ha id Hid) as [? | [r Hr]]; [by left | right; exists r; set_solver]. }
  destruct (op_enabled op s) eqn:Hen.
  - pose proof (run_op_goes op s Hset Hd Hen) as Hg.
    destruct (run_op op s) as [s1 | e] eqn:E; simpl.
    + destruct Hg as [Hd1 Hm1].
      specialize (IH (ops0 ++ [op]) s1 ltac:(eauto using settled_run_op) Hd1
                    ltac:(eauto using run_op_accounted)).
      destruct (run_ops ops s1) as [s' | e]; [done |].
      destruct IH as (ops1 & o & ops2 & s2 & -> & E2 & ? & ? & ? & Hm & Ha2).
      exists (op :: ops1), o, ops2, s2. simpl. rewrite Hen, E. simpl.
      rewrite <- app_assoc in Ha2. by rewrite Hm.
    + exists [], op, ops, s. rewrite app_nil_r. by repeat split.
  - specialize (IH (ops0 ++ [op]) s Hset Hd (Hskip op)).
    destruct (run_ops ops s) as [s' | e]; [done |].
    destruct IH as (ops1 & o & ops2 & s2 & -> & E2 & ? & ? & ? & Hm & Ha2).
    exists (op :: ops1), o, ops2, s2. simpl. rewrite Hen. by rewrite <- app_assoc in Ha2.
Qed.

(** C13: However the attempts to connect go, and whenever the user cancels: at most one
    outcome is reported; and until it is, a started object is waiting for exactly
    one thing, a timer or its descriptor, so that it is neither forgotten nor driven
    twice.  The run ends early in three cases only: the user cancels by the
    identifier of a retry whose timer has fired (undefined: that timer is freed);
    the doubling of the retry interval overflows, after 34 retries; there is no
    descriptor for the next attempt, or [connect] fails with an error the code does
    not know (fatal). *)
Theorem preconnect_driven_until_one_outcome m d ops
    (Hr : cd_ready d) (Hw : cd_writing d = false) :
  match run_ops ops (new_PreconnectSocketfd m true d) with
  | Ok s =>
      (started s = true -> outcomes s = [] ->
       (cd_writing (_pollable_file_descriptor s) = true /\ pending s = []) \/
       (cd_writing (_pollable_file_descriptor s) = false /\
        exists id, pending s = [id] /\ _timer_identifier_ptr s = Some id)) /\
      (outcomes s <> [] ->
       length (outcomes s) = 1%nat /\ pending s = [] /\
       cd_writing (_pollable_file_descriptor s) = false)
  | Err e =>
      exists ops1 op ops2 s1, ops = ops1 ++ op :: ops2 /\
        run_ops ops1 (new_PreconnectSocketfd m true d) = Ok s1 /\
        op_enabled op s1 = true /\ run_op op s1 = Err e /\
        match op with
        | Cancel => e = UndefinedBehaviour /\
            exists id, _timer_identifier_ptr s1 = Some id /\ (id ∉ pending s1) /\ fired id ops1
        | _ => e = UndefinedBehaviour /\ 34 <= _number_of_retries s1 < m \/
               e = Fatal /\ (cd_socket (_pollable_file_descriptor s1) = None \/
                             told op = Some OtherErrno)
        end
  end.
Proof.
  assert (H0 : settled (new_PreconnectSocketfd m true d)).
  { split; [done |]. by exists Idle. }
  pose proof (run_ops_goes [] ops _ H0) as Hg.
  specialize (Hg ltac:(by exists 0%nat) ltac:(done)).
  destruct (run_ops ops _) as [s | e].
  - destruct Hg as [_ [ph Hph]]. destruct ph; simpl in Hph.
    + destruct Hph as (? & _ & _ & ? & _). split; congruence.
    + destruct Hph as (_ & ? & ? & ? & ? & _). split; [eauto | congruence].
    + destruct Hph as (_ & ? & ? & ? & _). split; [eauto | congruence].
    + destruct Hph as (_ & ? & ? & Ho & _). rewrite Ho. by split.
  - destruct Hg as (ops1 & op & ops2 & s1 & ? & ? & ? & ? & Hf & Hm & Ha).
    exists ops1, op, ops2, s1. do 4 (split; [done |]). simpl in Hm.
    destruct op; simpl in Hf; rewrite ?Hm in Hf; try done.
    destruct Hf as [-> (id & Hid & Hn)]. split; [done |]. exists id. split; [done |].
    split; [done |]. by destruct (Ha id Hid).
Qed.
End Schedule.

(** * The poller's descriptors implement the interface *)

(** [Socketfd::create_socketfd]: the kernel opens a descriptor it was not using,
    below the limit the poller's table was sized for. *)
Class SocketKernel (K : Type) `{Epoll K} := {
  sys_socket : K -> option (Z * K);
  fd_limit : Z
}.

Class SocketKernelLaws (K : Type) `{SocketKernel K} : Prop := {
  socket_opens k fd k' : sys_socket k = Some (fd, k') ->
    0 <= fd < fd_limit /\ (fd ∉ opened k) /\ opened k' = {[fd]} ∪ opened k /\
    interest k' = interest k;
  socket_available k fd : 0 <= fd < fd_limit -> fd ∉ opened k -> is_Some (sys_socket k)
}.

Section Implementation.
Set Default Proof Using "Type*".
Context {K : Type} `{SocketKernel K} `{!EpollLaws K} `{!SocketKernelLaws K}.

Definition poller_with_kernel (k : K) (p : EventPoller K) : EventPoller K :=
  mkPoller k (_fds_that_are_listening_on p) (_number_of_fds_that_are_listening_on p).

(** Only open descriptors are in the interest list. *)
Definition interest_open (p : EventPoller K) : Prop :=
  forall fd, is_Some (interest (kernel p) !! fd) -> fd ∈ opened (kernel p).

#[export] Instance poller_descriptor : ConnectDescriptor (PollableFd * EventPoller K) := {
  cd_fd s := _fd s.1;
  cd_writing s := _is_writing s.1;
  cd_socket '(d, p) :=
    match sys_socket (kernel p) with
    | Some (fd, k) => Some (fd, (d, poller_with_kernel k p))
    | None => None
    end;
  cd_enable_write := enable_write_event;
  cd_detach := detach_from_poller;
  cd_close := close_fd;
  cd_reset_to := reset_to;
  cd_ready s := mirror s /\ poller_ok s.2 /\ interest_open s.2 /\
    fd_limit = Z.of_nat (length (_fds_that_are_listening_on s.2));
  cd_detached s := _is_detached s.1 = true;
  cd_fresh s fd := fd <> _fd s.1 /\ 0 <= fd < fd_limit /\ fd ∈ opened (kernel s.2) /\
    interest (kernel s.2) !! fd = None;
  cd_spare s := exists fd, 0 <= fd < fd_limit /\ fd ∉ opened (kernel s.2)
}.

(** A command keeps the table's length, and ends with the flags it stands for. *)
Lemma command_ready c s :
  cd_ready s ->
  exists s', run_command c s = Ok s' /\ cd_ready s' /\ cd_fd s' = cd_fd s /\
    flags s'.1 = flags_after c s.1 /\ others_kept (_fd s.1) s.2 s'.2.
Proof.
  destruct s as [d p]. intros (Hm & Hok & Hio & Hlen).
  destruct (run_command_good c d p Hm Hok) as ([d' p'] & E & Hm' & Hok' & Hfd & Hoth).
  exists (d', p'). split; [done |]. destruct (run_command_flags c d p d' p' Hm E) as [Hf _].
  split; [| done]. simpl in *. pose proof Hoth as (-> & Ho & Hi).
  split; [done |]. split; [done |]. split; [| done]. intros fd. rewrite Ho.
  destruct (decide (fd = _fd d)) as [-> | Hne]; [by destruct Hm as [[]] |].
  rewrite Hi by done. apply Hio.
Qed.

Lemma socket_ready d p fd k :
  cd_ready (d, p) -> sys_socket (kernel p) = Some (fd, k) ->
  cd_ready (d, poller_with_kernel k p) /\ cd_fresh (d, poller_with_kernel k p) fd.
Proof.
  intros (Hm & Hok & Hio & Hlen) Es.
  destruct (socket_opens _ _ _ Es) as (Hr & Hn & Ho & Hi).
  destruct Hm as (Hu & Hini & He & Hdet & Hint), Hok as [Hl Hs]. simpl in *. split.
  - split; [| split; [split; unfold size; simpl; rewrite Hi; done | split; [| done]]].
    2: { intros fd'. simpl. rewrite Hi, Ho. intros ?%Hio. set_solver. }
    split; [| rewrite Hi; done]. destruct Hu as [Hu1 Hu2]. split; [done |]. simpl. set_solver.
  - rewrite Ho, Hi. split; [intros ->; by destruct Hu |]. split; [done |]. split; [set_solver |].
    destruct (interest (kernel p) !! fd) eqn:E; [| done]. destruct Hn. by apply Hio.
Qed.

#[export] Instance poller_descriptor_laws : ConnectDescriptorLaws (PollableFd * EventPoller K).
Proof.
  split.
  - intros [d p] fd [d' p'] Hr E. simpl in E.
    destruct (sys_socket (kernel p)) as [[fd0 k] |] eqn:Es; [| done]. injection E as <- <- <-.
    destruct (socket_ready d p fd0 k Hr Es). done.
  - intros s Hr. destruct (command_ready EnableWrite s Hr) as (s' & E & Hr' & Hfd & Hf & Ho).
    exists s'. split; [done |]. split; [done |].
    split; [| split; [done | simpl; by destruct Ho as (_ & -> & _)]].
    simpl in *. unfold flags in Hf. destruct (_is_writing s.1) eqn:Ew; congruence.
  - intros s Hr. destruct (command_ready Detach s Hr) as (s' & E & Hr' & Hfd & Hf & _).
    exists s'. split; [done |]. split; [done |].
    unfold flags in Hf. simpl in *. split; [| split]; congruence.
  - intros [d p] ((Hu & _) & _). destruct Hu as [_ Ho]. simpl. unfold close_fd.
    destruct (close_opened _ _ Ho) as (k & -> & _). eauto.
  - intros [d p] fd (Hm & Hok & Hio & Hlen) (Hne & Hlim & Hop & Hint). simpl in *.
    destruct (reset_to_spec d p fd Hm Hok ltac:(lia))
      as (d' & p' & E & Hfd & Hfl & He & Hl & Hi0 & Ho & Hok' & Hself & Hini & Hlen' & Hothers).
    injection Hfl as Hr Hw Hdet. exists (d', p'). split; [done |]. simpl. split; [| done].
    split; [| split; [done | split; [| by rewrite Hlen']]].
    2: { intros fd' Hs. rewrite Ho. destruct (decide (fd' = _fd d)) as [-> | Hd].
         - rewrite Hi0 in Hs. by destruct Hs.
         - rewrite Hothers in Hs by done. apply Hio in Hs. set_solver. }
    assert (Hd : interest (kernel p') !! fd = None) by (by rewrite Hothers).
    split; [split; [rewrite Hfd, Hlen'; lia | rewrite Hfd, Ho; set_solver] |].
    split; [rewrite Hini; apply Hm |]. split.
    { rewrite He, Hself, <- Hini. f_equal. unfold mask_of. by rewrite Hr, Hw, Z.lor_0_r. }
    split; [done |]. by rewrite Hfd, Hd, Hdet.
  - intros [d p] _ (fd & Hr & Hn). simpl in *.
    destruct (socket_available _ _ Hr Hn) as [[fd' k] ->]. eauto.
  - intros [d p] fd d1 [d2 p2] Hready E E'. simpl in E, E'.
    destruct (sys_socket (kernel p)) as [[fd0 k] |] eqn:Es; [| done]. injection E as <- <-.
    destruct (socket_ready d p fd0 k Hready Es) as [(Hm & Hok & _ & Hlen) _].
    destruct (socket_opens _ _ _ Es) as ([Hfd _] & _).
    destruct (reset_to_spec d _ fd0 Hm Hok Hfd)
      as (d' & p' & E'' & _ & _ & _ & _ & _ & Ho & _).
    rewrite E'' in E'. injection E' as <- <-. exists (_fd d). simpl in *.
    destruct Hm as ([Hu _] & _). split; [simpl in Hu; lia | rewrite Ho; set_solver].
Qed.
End Implementation.

(** * A concrete process: the kernel of [Poller] with sockets, 16 descriptors *)
Definition first_free (k : sample_kernel) : option nat :=
  find (fun i => negb (bool_decide (Z.of_nat i ∈ k_opened k))) (seq 0 16).

#[export] Instance sample_sockets : SocketKernel sample_kernel := {
  sys_socket k :=
    match first_free k with
    | Some i => Some (Z.of_nat i, mkKernel ({[Z.of_nat i]} ∪ k_opened k) (k_interest k))
    | None => None
    end;
  fd_limit := 16
}.

#[export] Instance sample_sockets_laws : SocketKernelLaws sample_kernel.
Proof.
  split; simpl.
  - intros k fd k'. destruct (first_free k) as [i |] eqn:E; [| done]. intros [= <- <-].
    apply find_some in E as [Hi E%negb_true_iff]. apply in_seq in Hi.
    apply bool_decide_eq_false in E. simpl. repeat split; try done; lia.
  - intros k fd Hr Hn. destruct (first_free k) as [i |] eqn:E; [eauto |].
    pose proof (find_none _ _ E (Z.to_nat fd) ltac:(apply in_seq; lia)) as Hb.
    apply negb_false_iff, bool_decide_eq_true in Hb. by rewrite Z2Nat.id in Hb by lia.
Qed.

Definition fresh_fd : PollableFd := mkPfd 1000 5 false false true EPOLLET (mkEvent 1000 EPOLLET).

Lemma sample_ready : cd_ready (fresh_fd, sample_poller) /\ cd_spare (fresh_fd, sample_poller).
Proof.
  destruct sample_mirror as [Hm Hok]. split.
  - split; [exact Hm |]. split; [exact Hok |]. split; [| reflexivity].
    intros fd. simpl. rewrite lookup_empty. by intros [].
  - exists 0. split; [simpl; lia |]. simpl. set_solver.
Qed.

Lemma preconnect_driven_until_one_outcome_witness :
  (exists s, run_ops [Start (Some ECONNREFUSED); TimerExpires 0 (Some ENETUNREACH); Cancel; Cancel]
               (new_PreconnectSocketfd 5 true (fresh_fd, sample_poller)) = Ok s /\
     outcomes s = [ConnectFailed] /\ pending s = []) /\
  run_ops [Start (Some ECONNREFUSED); TimerExpires 0 (Some EINPROGRESS); Cancel]
    (new_PreconnectSocketfd 5 true (fresh_fd, sample_poller)) = Err UndefinedBehaviour.
Proof.
  pose proof (fun ops => preconnect_driven_until_one_outcome 5 (fresh_fd, sample_poller) ops
                (proj1 sample_ready) eq_refl) as H.
  split.
  - specialize (H [Start (Some ECONNREFUSED); TimerExpires 0 (Some ENETUNREACH); Cancel; Cancel]).
    destruct (run_ops _ _) as [s | e] eqn:E in H; [| vm_compute in E; discriminate E].
    exists s. split; [exact E |].
    assert (outcomes s = [ConnectFailed]) as Ho by (vm_compute in E; injection E as <-; reflexivity).
    split; [exact Ho |]. destruct H as [_ H]. destruct (H ltac:(rewrite Ho; discriminate)) as (_ & Hp & _).
    exact Hp.
  - vm_compute. reflexivity.
Defined.

Lemma preconnect_retry_schedule_witness :
  exists s, run_ops (attempts_from 0 [Later 111; Now (Some ECONNREFUSED); Now None])
              (new_PreconnectSocketfd 5 true (fresh_fd, sample_poller)) = Ok s /\
    steps s = [Attempt true; Wait 500000000; Attempt false; Wait 1000000000; Attempt false; Connected].
Proof.
  destruct (preconnect_retry_schedule 5 [Later 111; Now (Some ECONNREFUSED)] (Now None)
              (fresh_fd, sample_poller) (proj1 sample_ready) (proj2 sample_ready) eq_refl)
    as (s & E & H & _); [by repeat constructor | done | simpl; lia | by left |].
  exists s. split; [exact E | exact H].
Defined.

Lemma preconnect_retry_overflow_witness :
  run_ops (attempts_from 0 (replicate 34 (Now (Some ECONNREFUSED)) ++ [Now (Some ECONNREFUSED)]))
    (new_PreconnectSocketfd 100 true (fresh_fd, sample_poller)) = Err UndefinedBehaviour.
Proof.
  apply (preconnect_retry_overflow 100 _ _ _ (proj1 sample_ready) (proj2 sample_ready) eq_refl);
    [| reflexivity | lia].
  by repeat constructor.
Defined.

Definition waiting_to_retry : PreconnectSocketfd (PollableFd * EventPoller sample_kernel) :=
  mkPre 5 1 (TimeInterval.mk 1000000000) (Some 0%nat) true (fresh_fd, sample_poller) false 1 [0%nat]
    true [].

Lemma cancel_spec_witness :
  exists s, cancel waiting_to_retry = Ok s /\ trace s = [ConnectFailed].
Proof.
  pose proof (cancel_spec waiting_to_retry (proj1 sample_ready)) as H.
  cbn [waiting_to_retry _timer_identifier_ptr pending] in H.
  rewrite bool_decide_eq_true_2 in H by (by left). destruct H as (s & E & _ & _ & Ht).
  exists s. split; [exact E | exact Ht].
Defined.

Lemma cancel_ignored_during_first_attempt_witness :
  exists s, run_ops [Start (Some EINPROGRESS); Cancel; WriteEvent 0]
              (new_PreconnectSocketfd 5 true (fresh_fd, sample_poller)) = Ok s /\
    outcomes s = [NewConnection 5].
Proof.
  exact (cancel_ignored_during_first_attempt 5 (fresh_fd, sample_poller) (proj1 sample_ready) eq_refl).
Defined.
