(* ===== verification/TcpClient.v ===== *)
(** The TCP client ([src/tcp_client.cc] and its header).

    The client owns a [PreconnectSocketfd] until it is connected and a connection
    afterwards.  What it does with a connection is the class [ClientConnection],
    which [TcpConnectSocketfd] implements.  An object that is destroyed while the
    event loop still refers to it leaves [dangling] timers, a [dangling_fd] or a
    [dangling_connection] behind: the loop would call into freed memory.  The
    client holds the only reference to its connection. *)
From S2P Require Import Prelude TimePoint Poller TcpBuffer TcpConnectSocketfd Preconnect.
Open Scope Z_scope.

(** Which of the user's callbacks are set; moving a callback out unsets it. *)
Record client_callbacks := mkClientCallbacks {
  _message_callback : bool;
  _write_complete_callback : bool;
  _close_callback : bool
}.

Definition moved : client_callbacks := mkClientCallbacks false false false.

(** [conn_make fd d] is the constructor, on the loop that [d] belongs to. *)
Class ClientConnection (D C : Type) := {
  conn_make : Z -> D -> result C;
  conn_begin : client_callbacks -> C -> result C;
  conn_shutdown : client_callbacks -> C -> result C;
  conn_delete : C -> result C;           (* the destructor: what it leaves behind *)
  conn_watched : C -> bool;              (* the kernel reports events to the object *)
  conn_ready : C -> Prop;                (* made, not yet started *)
  conn_alive : C -> Prop                 (* started *)
}.

(** A call on a connection leaves it as it should be, or ends the process. *)
Definition sound {C : Type} (P : C -> Prop) (r : result C) : Prop :=
  match r with Ok c => P c | Err e => e = Fatal end.

Record TcpClient (D C : Type) := mkClient {
  _is_started : bool;
  _is_stopped : bool;
  user_callbacks : client_callbacks;
  _connect_success_callback : bool;
  _connect_fail_callback : bool;
  _preconnect_socketfd_ptr : option (PreconnectSocketfd D);
  _tcp_connect_socketfd_ptr : option C;
  connection_callbacks : client_callbacks;   (* those the connection was given *)
  dangling : list nat;
  dangling_fd : bool;
  dangling_connection : bool;
  _is_destroyed : bool;
  failures : nat                             (* calls of the connect-fail callback *)
}.
Arguments mkClient {D C} _ _ _ _ _ _ _ _ _ _ _ _ _.
Arguments _is_started {D C} _.
Arguments _is_stopped {D C} _.
Arguments user_callbacks {D C} _.
Arguments _connect_success_callback {D C} _.
Arguments _connect_fail_callback {D C} _.
Arguments _preconnect_socketfd_ptr {D C} _.
Arguments _tcp_connect_socketfd_ptr {D C} _.
Arguments connection_callbacks {D C} _.
Arguments dangling {D C} _.
Arguments dangling_fd {D C} _.
Arguments dangling_connection {D C} _.
Arguments _is_destroyed {D C} _.
Arguments failures {D C} _.

Definition _MAX_NUMBER_OF_RETRIES : Z := 5.

Section Client.
Context {D C : Type} `{ConnectDescriptor D} `{ClientConnection D C}.
Context (on_connect : C -> result C).
Abbreviation client := (TcpClient D C).
Abbreviation pre := (PreconnectSocketfd D).

(** The constructor and the registration of the callbacks. *)
Definition new_TcpClient (cbs : client_callbacks) (success fail : bool) : client :=
  mkClient false false cbs success fail None None moved [] false false false 0.

Definition with_preconnect (p : option pre) (s : client) : client :=
  mkClient (_is_started s) (_is_stopped s) (user_callbacks s) (_connect_success_callback s)
    (_connect_fail_callback s) p (_tcp_connect_socketfd_ptr s) (connection_callbacks s)
    (dangling s) (dangling_fd s) (dangling_connection s) (_is_destroyed s) (failures s).
Definition with_connection (c : option C) (s : client) : client :=
  mkClient (_is_started s) (_is_stopped s) (user_callbacks s) (_connect_success_callback s)
    (_connect_fail_callback s) (_preconnect_socketfd_ptr s) c (connection_callbacks s)
    (dangling s) (dangling_fd s) (dangling_connection s) (_is_destroyed s) (failures s).
Definition with_state (started stopped : bool) (s : client) : client :=
  mkClient started stopped (user_callbacks s) (_connect_success_callback s)
    (_connect_fail_callback s) (_preconnect_socketfd_ptr s) (_tcp_connect_socketfd_ptr s)
    (connection_callbacks s) (dangling s) (dangling_fd s) (dangling_connection s) (_is_destroyed s) (failures s).
Definition count_failure (s : client) : client :=
  mkClient (_is_started s) (_is_stopped s) (user_callbacks s) (_connect_success_callback s)
    (_connect_fail_callback s) (_preconnect_socketfd_ptr s) (_tcp_connect_socketfd_ptr s)
    (connection_callbacks s) (dangling s) (dangling_fd s) (dangling_connection s) (_is_destroyed s) (S (failures s)).
Definition with_destroyed (s : client) : client :=
  mkClient (_is_started s) (_is_stopped s) (user_callbacks s) (_connect_success_callback s)
    (_connect_fail_callback s) (_preconnect_socketfd_ptr s) (_tcp_connect_socketfd_ptr s)
    (connection_callbacks s) (dangling s) (dangling_fd s) (dangling_connection s) true (failures s).
(** [std::move] of the three callbacks into the connection. *)
Definition move_callbacks (s : client) : client :=
  mkClient (_is_started s) (_is_stopped s) moved (_connect_success_callback s)
    (_connect_fail_callback s) (_preconnect_socketfd_ptr s) (_tcp_connect_socketfd_ptr s)
    (user_callbacks s) (dangling s) (dangling_fd s) (dangling_connection s) (_is_destroyed s) (failures s).
Definition move_fail_callback (s : client) : client :=
  mkClient (_is_started s) (_is_stopped s) (user_callbacks s) (_connect_success_callback s)
    false (_preconnect_socketfd_ptr s) (_tcp_connect_socketfd_ptr s)
    (connection_callbacks s) (dangling s) (dangling_fd s) (dangling_connection s) (_is_destroyed s) (failures s).

(** [_preconnect_socketfd_ptr.reset()]: the object dies with its timers and its
    registration in the poller left as they are. *)
Definition drop_preconnect (s : client) : client :=
  match _preconnect_socketfd_ptr s with
  | None => s
  | Some p =>
      mkClient (_is_started s) (_is_stopped s) (user_callbacks s) (_connect_success_callback s)
        (_connect_fail_callback s) None (_tcp_connect_socketfd_ptr s) (connection_callbacks s)
        (dangling s ++ pending p) (dangling_fd s || cd_writing (_pollable_file_descriptor p))
        (dangling_connection s) (_is_destroyed s) (failures s)
  end.

(** [_tcp_connect_socketfd_ptr.reset()]: the destructor of the connection runs.
    [collected]: the poller has reported an event of the connection, which waits for
    its turn to be dispatched. *)
Definition drop_connection (collected : bool) (s : client) : result client :=
  match _tcp_connect_socketfd_ptr s with
  | None => Ok s
  | Some c =>
      let* c := conn_delete c in
      Ok (mkClient (_is_started s) (_is_stopped s) (user_callbacks s) (_connect_success_callback s)
            (_connect_fail_callback s) (_preconnect_socketfd_ptr s) None (connection_callbacks s)
            (dangling s) (dangling_fd s) (dangling_connection s || conn_watched c || collected)
            (_is_destroyed s) (failures s))
  end.

(** [d]: the descriptor of the preconnect object, hence the loop. *)
Definition _new_connection_callback (connect_socketfd : Z) (d : D) (s : client) : result client :=
  let s := drop_preconnect s in
  let* c := conn_make connect_socketfd d in
  let* c := if _connect_success_callback s then on_connect c else Ok c in
  let s := move_callbacks (with_connection (Some c) s) in
  let* c := conn_begin (connection_callbacks s) c in
  Ok (with_connection (Some c) s).

(** The callbacks that a step of the preconnect object, from [p] to [p'], has run. *)
Definition deliver (p p' : pre) (s : client) : result client :=
  let s := with_preconnect (Some p') s in
  match drop (length (outcomes p)) (outcomes p') with
  | NewConnection fd :: _ => _new_connection_callback fd (_pollable_file_descriptor p') s
  | ConnectFailed :: _ => Ok (count_failure s)
  | _ => Ok s
  end.

(** [start], in the thread of the loop; [d] is the descriptor that the constructor
    of the preconnect object makes ([None]: no more descriptors), [r] the answer to
    the first [::connect]. *)
Definition start (d : option D) (r : option connect_errno) (s : client) : result client :=
  if _is_started s then Ok s
  else if negb (_message_callback (user_callbacks s)) then Err Fatal
  else
    match d with
    | None => Err Fatal
    | Some d =>
        let p := new_PreconnectSocketfd _MAX_NUMBER_OF_RETRIES (_connect_fail_callback s) d in
        let s := move_fail_callback s in
        let* p' := Preconnect.start true r p in
        let* s := deliver p p' s in
        Ok (with_state true (_is_stopped s) s)
    end.

Definition stop (s : client) : result client :=
  if _is_stopped s then Ok s
  else if negb (_is_started s) then Err Fatal
  else
    let* s :=
      match _preconnect_socketfd_ptr s with
      | None => Ok s
      | Some p => let* p' := cancel p in deliver p p' s
      end in
    let* s :=
      match _tcp_connect_socketfd_ptr s with
      | None => Ok s
      | Some c => let* c := conn_shutdown (connection_callbacks s) c in Ok (with_connection (Some c) s)
      end in
    Ok (with_state (_is_started s) true s).

Definition close_preconnect_socketfd (s : client) : result client := Ok (drop_preconnect s).

Definition close_tcp_connect_socketfd_ptr (collected : bool) (s : client) : result client :=
  drop_connection collected s.

(** The destructor, and those of the two members. *)
Definition delete_TcpClient (collected : bool) (s : client) : result client :=
  if negb (_is_started s) then Err Fatal
  else let* s := drop_connection collected s in Ok (with_destroyed (drop_preconnect s)).

(** ** What drives it: the user, the event loop, the connection *)
Inductive client_op :=
| StartClient (d : option D) (r : option connect_errno)
| StopClient
| TimerFires (id : nat) (r : option connect_errno)
| Writable (socket_error : Z)
| ClosePreconnect
| CloseConnection (collected : bool)
| DestroyClient (collected : bool)
| ConnectionEvent (f : C -> result C).

(** The calls of the user. *)
Definition by_user (op : client_op) : bool :=
  match op with TimerFires _ _ | Writable _ | ConnectionEvent _ => false | _ => true end.

(** An event for a destroyed object calls into freed memory, and so does a call of
    the user on a destroyed client. *)
Definition run_client_op (op : client_op) (s : client) : result client :=
  let drive o :=
    match _preconnect_socketfd_ptr s with
    | Some p => if op_enabled o p then let* p' := run_op o p in deliver p p' s else Ok s
    | None => Ok s
    end in
  if by_user op && _is_destroyed s then Err UndefinedBehaviour
  else
    match op with
    | StartClient d r => start d r s
    | StopClient => stop s
    | TimerFires id r =>
        if bool_decide (id ∈ dangling s) then Err UndefinedBehaviour else drive (TimerExpires id r)
    | Writable e => if dangling_fd s then Err UndefinedBehaviour else drive (WriteEvent e)
    | ClosePreconnect => close_preconnect_socketfd s
    | CloseConnection collected => close_tcp_connect_socketfd_ptr collected s
    | DestroyClient collected => delete_TcpClient collected s
    | ConnectionEvent f =>
        if dangling_connection s then Err UndefinedBehaviour
        else
          match _tcp_connect_socketfd_ptr s with
          | Some c => let* c := f c in Ok (with_connection (Some c) s)
          | None => Ok s
          end
    end.

(** The discipline the client expects of its user: he does not use a destroyed
    client; the object that connects is dropped only after it has reported its
    outcome, and the connection only when no event of it waits to be dispatched;
    [stop] does not come after the timer of a retry has fired with no later retry. *)
Definition client_op_ok (op : client_op) (s : client) : Prop :=
  (by_user op = true -> _is_destroyed s = false) /\
  match op with
  | StartClient d _ => forall d', d = Some d' -> cd_ready d' /\ cd_writing d' = false
  | ConnectionEvent f => forall c, conn_alive c -> sound conn_alive (f c)
  | ClosePreconnect => forall p, _preconnect_socketfd_ptr s = Some p -> outcomes p <> []
  | CloseConnection collected => collected = false
  | DestroyClient collected =>
      collected = false /\ forall p, _preconnect_socketfd_ptr s = Some p -> outcomes p <> []
  | StopClient => _is_started s = true /\ forall p, _preconnect_socketfd_ptr s = Some p -> ~ stale p
  | _ => True
  end.

Fixpoint run_client_ops (ops : list client_op) (s : client) : result client :=
  match ops with
  | [] => Ok s
  | op :: ops => let* s := run_client_op op s in run_client_ops ops s
  end.

Fixpoint client_ops_ok (ops : list client_op) (s : client) : Prop :=
  match ops with
  | [] => True
  | op :: ops => client_op_ok op s /\ forall s', run_client_op op s = Ok s' -> client_ops_ok ops s'
  end.
End Client.

Class ClientConnectionLaws (D C : Type) `{ConnectDescriptor D} `{ClientConnection D C} : Prop := {
  conn_make_sound fd d : cd_ready d -> cd_detached d -> fd = cd_fd d ->
    sound conn_ready (conn_make fd d);
  conn_begin_sound cbs c : conn_ready c -> sound conn_alive (conn_begin cbs c);
  conn_shutdown_sound cbs c : conn_alive c -> sound conn_alive (conn_shutdown cbs c);
  conn_delete_sound c : conn_alive c -> sound (fun c' => conn_watched c' = false) (conn_delete c)
}.

(** * The life of a client *)
Section LifeCycle.
Set Default Proof Using "Type*".
Context {D C : Type} `{ConnectDescriptorLaws D} `{ClientConnection D C} `{!ClientConnectionLaws D C}.
Context (on_connect : C -> result C).
Hypothesis on_connect_sound : forall c, conn_ready c -> sound conn_ready (on_connect c).
Abbreviation client := (TcpClient D C).
Abbreviation pre := (PreconnectSocketfd D).

Definition nothing_dangles (s : client) : Prop :=
  dangling s = [] /\ dangling_fd s = false /\ dangling_connection s = false.

(** Connecting, or failed: no connection.  Connected: it has the callbacks the user
    gave to the client. *)
Definition core (cbs : client_callbacks) (s : client) : Prop :=
  nothing_dangles s /\ (failures s <= 1)%nat /\
  match _preconnect_socketfd_ptr s with
  | Some p =>
      settled p /\ paced p /\ Preconnect.started p = true /\ _tcp_connect_socketfd_ptr s = None /\
      user_callbacks s = cbs /\
      outcomes p = (if (failures s =? 0)%nat then [] else [ConnectFailed])
  | None =>
      forall c, _tcp_connect_socketfd_ptr s = Some c ->
        conn_alive c /\ connection_callbacks s = cbs /\ failures s = 0%nat
  end.

Definition unstarted (cbs : client_callbacks) (s : client) : Prop :=
  _preconnect_socketfd_ptr s = None /\ _tcp_connect_socketfd_ptr s = None /\
  user_callbacks s = cbs /\ _connect_fail_callback s = true /\ failures s = 0%nat.

Definition invariant (cbs : client_callbacks) (s : client) : Prop :=
  core cbs s /\ (_is_started s = false -> unstarted cbs s).

Definition invariant_or_fatal (cbs : client_callbacks) (r : result client) : Prop :=
  match r with Ok s => invariant cbs s | Err e => e = Fatal end.

Lemma outcomes_are_outcomes (p : pre) e : e ∈ outcomes p -> is_outcome e = true.
Proof. unfold outcomes. by intros [? _]%list_elem_of_filter. Qed.

(** With an outcome nothing is left in the loop. *)
Lemma outcome_leaves_nothing (p : pre) :
  settled p -> outcomes p <> [] ->
  pending p = [] /\ cd_writing (_pollable_file_descriptor p) = false.
Proof.
  intros [_ [[] Hph]] Ho; simpl in Hph.
  - by destruct Hph as (_ & _ & _ & ? & _).
  - by destruct Hph as (_ & _ & _ & _ & ? & _).
  - by destruct Hph as (_ & _ & _ & ? & _).
  - by destruct Hph as (_ & ? & ? & _).
Qed.

Lemma settled_outcomes (p : pre) e l : settled p -> outcomes p = e :: l ->
  l = [] /\ match e with
            | NewConnection fd =>
                let d := _pollable_file_descriptor p in cd_ready d /\ cd_detached d /\ fd = cd_fd d
            | _ => True
            end.
Proof.
  intros [_ [[] Hph]] Ho; simpl in Hph.
  - destruct Hph as (_ & _ & _ & ? & _). congruence.
  - destruct Hph as (_ & _ & _ & _ & ? & _). congruence.
  - destruct Hph as (_ & _ & _ & ? & _). congruence.
  - destruct Hph as (_ & _ & _ & Ho' & Hph). rewrite Ho in Ho'. by injection Ho' as <- ->.
Qed.

Lemma new_connection_core cbs fd (p : pre) s :
  nothing_dangles s -> failures s = 0%nat -> user_callbacks s = cbs ->
  _preconnect_socketfd_ptr s = Some p -> settled p -> outcomes p = [NewConnection fd] ->
  match _new_connection_callback on_connect fd (_pollable_file_descriptor p) s with
  | Ok s' => core cbs s' /\ _is_started s' = _is_started s
  | Err e => e = Fatal
  end.
Proof.
  intros (Hd & Hdf & Hdc) Hf Hu Hp Hset Ho. unfold _new_connection_callback, drop_preconnect. rewrite Hp.
  destruct (outcome_leaves_nothing p Hset) as [Hpe Hw]; [by rewrite Ho |].
  destruct (settled_outcomes p _ _ Hset Ho) as [_ (Hr & Hdet & Hfd)].
  pose proof (conn_make_sound fd _ Hr Hdet Hfd) as Hs.
  destruct (conn_make _ _) as [c |]; [| done].
  cbn [_connect_success_callback user_callbacks].
  assert (Hs2 : sound conn_ready (if _connect_success_callback s then on_connect c else Ok c))
    by (case_match; auto).
  destruct (if _connect_success_callback s then _ else _) as [c2 |]; [| done].
  pose proof (conn_begin_sound (user_callbacks s) c2 Hs2) as Hs3. simpl.
  destruct (conn_begin _ c2) as [c3 |]; [| done]. simpl.
  split; [| done]. split; [by split; simpl; rewrite ?Hd, ?Hpe, ?Hdf, ?Hw |].
  split; [simpl; lia |]. simpl. intros c' [= <-]. by rewrite Hu.
Qed.

Lemma deliver_core cbs (p p' : pre) s :
  nothing_dangles s -> failures s = 0%nat -> user_callbacks s = cbs ->
  _tcp_connect_socketfd_ptr s = None -> outcomes p = [] ->
  settled p' -> paced p' -> Preconnect.started p' = true ->
  match deliver on_connect p p' s with
  | Ok s' => core cbs s' /\ _is_started s' = _is_started s
  | Err e => e = Fatal
  end.
Proof.
  intros Hd Hf Hu Hc Ho Hset Hpa Hst. unfold deliver. rewrite Ho. simpl drop.
  destruct (outcomes p') as [| e l] eqn:Ho'.
  { split; [| done]. split; [done |]. simpl. split; [lia |]. by rewrite Hf. }
  destruct (settled_outcomes p' e l Hset Ho') as [-> _].
  pose proof (outcomes_are_outcomes p' e ltac:(rewrite Ho'; by left)) as He.
  destruct e; try done.
  - by apply (new_connection_core cbs fd p' (with_preconnect (Some p') s)).
  - split; [| done]. split; [done |]. simpl. rewrite Hf. by split; [lia |].
Qed.

(** A step of the preconnect object, taken by the event loop. *)
Lemma drive_invariant cbs o (p : pre) s :
  invariant cbs s -> _preconnect_socketfd_ptr s = Some p -> op_enabled o p = true ->
  (o = Cancel -> ~ stale p /\ outcomes p = []) ->
  invariant_or_fatal cbs (let* p' := run_op o p in deliver on_connect p p' s).
Proof.
  intros [(Hd & Hf1 & Hpre) Hun] Hp Hen Hstale. rewrite Hp in Hpre.
  destruct Hpre as (Hset & Hpa & Hst & Hc & Hu & Ho).
  pose proof (run_op_paced o p Hset Hpa Hen (fun E => proj1 (Hstale E))) as Hres.
  destruct (run_op o p) as [p' | e] eqn:E; [| done].
  assert (Hlive : outcomes p = []).
  { destruct (outcomes p) as [| e l] eqn:Eo; [done |].
    destruct (outcome_leaves_nothing p Hset) as [Hpe Hw]; [by rewrite Eo |].
    destruct o; simpl in Hen; rewrite ?Hst, ?Hpe, ?Hw in Hen; try done.
    destruct (Hstale eq_refl). congruence. }
  assert (Hf : failures s = 0%nat) by (rewrite Hlive in Ho; by destruct (failures s)).
  assert (Hset' : settled p') by eauto using settled_run_op.
  assert (Hst' : Preconnect.started p' = true) by eauto using run_op_started.
  pose proof (deliver_core cbs p p' s Hd Hf Hu Hc Hlive Hset' Hres Hst') as Hdel.
  destruct (deliver on_connect p p' s) as [s' |]; [| done]. destruct Hdel as [Hcore Hstarted].
  split; [done |]. rewrite Hstarted. intros Hns. destruct (Hun Hns). congruence.
Qed.

Lemma start_invariant cbs d r s :
  invariant cbs s -> client_op_ok (StartClient d r) s ->
  invariant_or_fatal cbs (start on_connect d r s).
Proof.
  intros Hinv [_ Hd]. unfold start. destruct (_is_started s) eqn:Hs; [done |].
  destruct Hinv as [(Hda & Hf1 & _) Hun].
  destruct (Hun Hs) as (Hpre & Hc & Hu & Hfail & Hf).
  case_match; [done |]. destruct d as [d |]; [| done]. destruct (Hd d eq_refl) as [Hr Hw].
  rewrite Hfail. set (p := new_PreconnectSocketfd _ true d).
  assert (Hset : settled p) by (split; [done |]; by exists Idle).
  assert (Hpa : paced p) by (split; [done |]; by exists 0%nat).
  pose proof (run_op_paced (Start r) p Hset Hpa eq_refl ltac:(done)) as Hres. simpl in Hres.
  destruct (Preconnect.start true r p) as [p' |] eqn:E; [| done].
  assert (Hset' : settled p') by (by eapply (settled_run_op (Start r) p)).
  assert (Hst' : Preconnect.started p' = true) by (by eapply (try_once_started r (Preconnect.with_started p))).
  pose proof (deliver_core cbs p p' (move_fail_callback s) Hda Hf Hu Hc eq_refl Hset' Hres Hst') as Hdel.
  destruct (deliver _ _ _ _) as [s' |]; [| done]. destruct Hdel as [Hcore _]. by split.
Qed.

Lemma with_connection_core cbs c c' s :
  core cbs s -> _tcp_connect_socketfd_ptr s = Some c -> conn_alive c' ->
  core cbs (with_connection (Some c') s).
Proof.
  intros (Hd & Hf & Hpre) Hc Ha. split; [done |]. split; [done |]. simpl.
  destruct (_preconnect_socketfd_ptr s) as [p |].
  - destruct Hpre as (_ & _ & _ & ? & _). congruence.
  - intros c'' [= <-]. destruct (Hpre c Hc) as (_ & ? & ?). done.
Qed.

Lemma drop_preconnect_core cbs s :
  core cbs s -> (forall p, _preconnect_socketfd_ptr s = Some p -> outcomes p <> []) ->
  core cbs (drop_preconnect s).
Proof.
  intros (Hd & Hf & Hpre) Ho. unfold drop_preconnect.
  destruct (_preconnect_socketfd_ptr s) as [p |] eqn:Hp; [| by split; [| split; [| rewrite Hp]]].
  destruct Hpre as (Hset & _ & _ & Hc & _).
  destruct (outcome_leaves_nothing p Hset (Ho p eq_refl)) as [Hpe Hw].
  destruct Hd as (Hd & Hdf & Hdc).
  split; [by split; simpl; rewrite ?Hd, ?Hpe, ?Hdf, ?Hw |]. split; [done |].
  simpl. intros c. by rewrite Hc.
Qed.

Lemma connection_is_alive cbs c s :
  core cbs s -> _tcp_connect_socketfd_ptr s = Some c -> conn_alive c.
Proof.
  intros (_ & _ & Hpre) Hc. destruct (_preconnect_socketfd_ptr s).
  - destruct Hpre as (_ & _ & _ & ? & _). congruence.
  - by apply Hpre.
Qed.

Lemma drop_connection_core cbs s :
  core cbs s ->
  match drop_connection false s with
  | Ok s' => core cbs s' /\ _is_started s' = _is_started s /\
      _preconnect_socketfd_ptr s' = _preconnect_socketfd_ptr s /\
      (unstarted cbs s -> unstarted cbs s')
  | Err e => e = Fatal
  end.
Proof.
  intros Hcore. unfold drop_connection. destruct (_tcp_connect_socketfd_ptr s) as [c |] eqn:Hc; [| done].
  pose proof (conn_delete_sound c (connection_is_alive _ _ _ Hcore Hc)) as Hs.
  destruct (conn_delete c) as [c' |]; [| done]. simpl in Hs.
  destruct Hcore as ((Hd & Hdf & Hdc) & Hf & Hpre). rewrite Hs, Hdc. split; [| split; [done |]].
  - split; [done |]. split; [done |]. simpl.
    destruct (_preconnect_socketfd_ptr s); [| done]. by destruct Hpre as (? & ? & ? & _ & ?).
  - split; [done |]. intros (_ & ? & _). congruence.
Qed.

Lemma cancel_after_outcome (p : pre) :
  settled p -> outcomes p <> [] -> ~ stale p -> cancel p = Ok p.
Proof.
  intros Hset Ho Hst. destruct (outcome_leaves_nothing p Hset Ho) as [Hp _]. unfold cancel.
  destruct (_timer_identifier_ptr p) as [id |] eqn:Et; [| done].
  destruct Hst. exists id. rewrite Hp. split; [done | apply not_elem_of_nil].
Qed.

Lemma with_preconnect_id (s : client) p :
  _preconnect_socketfd_ptr s = Some p -> with_preconnect (Some p) s = s.
Proof. intros <-. by destruct s. Qed.

Lemma stop_invariant cbs s :
  invariant cbs s -> client_op_ok (C := C) StopClient s -> invariant_or_fatal cbs (stop on_connect s).
Proof.
  intros Hinv (_ & Hst & Hstale). unfold stop. case_match; [done |]. rewrite Hst. cbn [negb].
  assert (Hcancel : invariant_or_fatal cbs
            match _preconnect_socketfd_ptr s with
            | None => Ok s | Some p => let* p' := cancel p in deliver on_connect p p' s end).
  { destruct (_preconnect_socketfd_ptr s) as [p |] eqn:Hp; [| done].
    pose proof Hinv as [(_ & _ & Hpre) _]. rewrite Hp in Hpre.
    destruct Hpre as (Hset & _ & Hps & _). specialize (Hstale p eq_refl).
    destruct (decide (outcomes p = [])) as [Ho | Ho].
    - apply (drive_invariant cbs Cancel); done.
    - rewrite cancel_after_outcome by done. unfold deliver. rewrite drop_all.
      by rewrite with_preconnect_id. }
  destruct (match _preconnect_socketfd_ptr s with Some _ => _ | None => _ end) as [s1 |]; [| done].
  destruct (_tcp_connect_socketfd_ptr s1) as [c |] eqn:Hc; [| by destruct Hcancel].
  destruct Hcancel as [Hcore Hun].
  pose proof (conn_shutdown_sound (connection_callbacks s1) c (connection_is_alive _ _ _ Hcore Hc)) as Hsh.
  destruct (conn_shutdown _ c) as [c' |]; [| done].
  split; [by eapply with_connection_core |]. simpl. intros Hns. destruct (Hun Hns) as (_ & ? & _).
  congruence.
Qed.

Lemma close_preconnect_invariant cbs s :
  invariant cbs s -> (forall p, _preconnect_socketfd_ptr s = Some p -> outcomes p <> []) ->
  invariant cbs (drop_preconnect s).
Proof.
  intros [Hcore Hun] Ho. split; [by apply drop_preconnect_core |]. unfold drop_preconnect.
  destruct (_preconnect_socketfd_ptr s) eqn:Hp; [| done].
  simpl. intros Hns. destruct (Hun Hns) as [? _]. congruence.
Qed.

Lemma delete_invariant cbs b s :
  invariant cbs s -> client_op_ok (C := C) (DestroyClient b) s ->
  invariant_or_fatal cbs (delete_TcpClient b s).
Proof.
  intros [Hcore Hun] (_ & -> & Ho). unfold delete_TcpClient.
  destruct (_is_started s) eqn:Hst; [| done]. simpl.
  pose proof (drop_connection_core cbs s Hcore) as Hdrop.
  destruct (drop_connection false s) as [s' |]; [| done]. destruct Hdrop as (Hc & Hst' & Hp & _).
  destruct (close_preconnect_invariant cbs s') as [Hc' Hun'].
  - split; [done | congruence].
  - by rewrite Hp.
  - by split.
Qed.

Lemma run_client_op_invariant cbs op s :
  invariant cbs s -> client_op_ok op s -> invariant_or_fatal cbs (run_client_op on_connect op s).
Proof.
  intros Hinv Hok. pose proof Hinv as [Hcore Hun]. pose proof Hcore as ((Hd & Hdf & Hdc) & _).
  unfold run_client_op.
  assert (by_user op && _is_destroyed s = false) as ->.
  { destruct Hok as [Hu _]. destruct (by_user op); [by rewrite Hu | done]. }
  destruct op as [d r | | id r | e | | b | b | f].
  - by apply start_invariant.
  - by apply stop_invariant.
  - rewrite Hd. rewrite bool_decide_eq_false_2 by apply not_elem_of_nil.
    destruct (_preconnect_socketfd_ptr s) as [p |] eqn:Hp; [| done].
    case_match eqn:Hen; [| done]. by apply (drive_invariant cbs (TimerExpires id r)).
  - rewrite Hdf. destruct (_preconnect_socketfd_ptr s) as [p |] eqn:Hp; [| done].
    case_match eqn:Hen; [| done]. by apply (drive_invariant cbs (WriteEvent e)).
  - by apply close_preconnect_invariant, Hok.
  - destruct Hok as [_ ->]. unfold close_tcp_connect_socketfd_ptr.
    pose proof (drop_connection_core cbs s Hcore) as Hdrop.
    destruct (drop_connection false s) as [s' |]; [| done].
    destruct Hdrop as (? & Hst & _ & Hun'). split; [done |]. rewrite Hst. auto.
  - by apply delete_invariant.
  - rewrite Hdc. destruct (_tcp_connect_socketfd_ptr s) as [c |] eqn:Hc; [| done].
    destruct Hok as [_ Hok].
    pose proof (Hok c (connection_is_alive _ _ _ Hcore Hc)) as Hf. destruct (f c) as [c' |]; [| done].
    split; [by eapply with_connection_core |]. simpl. intros Hns. destruct (Hun Hns) as (_ & ? & _).
    congruence.
Qed.

Lemma run_client_ops_invariant cbs ops s :
  invariant cbs s -> client_ops_ok on_connect ops s ->
  invariant_or_fatal cbs (run_client_ops on_connect ops s).
Proof.
  revert s. induction ops as [| op ops IH]; simpl; intros s Hinv; [done |]. intros [Hok Hops].
  pose proof (run_client_op_invariant cbs op s Hinv Hok) as H'.
  destruct (run_client_op on_connect op s) as [s' |]; [| done]. by apply IH; [| apply Hops].
Qed.


(** The identifier of a fired timer is not forgotten when the retry it started ends
    in an error that is not retried: [stop] then cancels a timer that is freed. *)
Theorem stop_after_failed_retry_undefined d cbs success r e
    (Hmsg : _message_callback cbs = true) (Hr : cd_ready d) (Hsp : cd_spare d)
    (Hretry : retryable r = true)
    (He : e ∈ [EALREADY; EISCONN; EACCES; EPERM; EAFNOSUPPORT; EBADF; EFAULT; ENOTSOCK; EPROTOTYPE]) :
  run_client_ops on_connect [StartClient (Some d) (Some r); TimerFires 0 (Some e); StopClient]
    (new_TcpClient cbs success true : client) = Err UndefinedBehaviour.
Proof.
  destruct (cd_spare_socket d Hr Hsp) as [[fd d1] E1].
  destruct (cd_socket_ok _ _ _ Hr E1) as (Hr1 & Hf & _).
  destruct (cd_reset_ok d1 fd Hr1 Hf) as (d2 & E2 & Hr2 & _).
  set (p0 := new_PreconnectSocketfd _MAX_NUMBER_OF_RETRIES true d).
  assert (E : exists p1, Preconnect.start true (Some r) p0 = Ok p1 /\
            outcomes p1 = [] /\ pending p1 = [0%nat] /\ _timer_identifier_ptr p1 = Some 0%nat /\
            Preconnect._connect_fail_callback p1 = true).
  { destruct r; try done; unfold Preconnect.start, _try_once, _schedule_retry; simpl;
      rewrite E1, E2; by eexists. }
  destruct E as (p1 & Ep & Ho & Hp & Ht & Hc).
  assert (E : exists p2, run_op (TimerExpires 0 (Some e)) p1 = Ok p2 /\
            outcomes p2 = [ConnectFailed] /\ pending p2 = [] /\ _timer_identifier_ptr p2 = Some 0%nat).
  { simpl. rewrite Hp, filter_ne_self. unfold _try_once, fail_callback.
    repeat (apply elem_of_cons in He as [-> | He]); try by apply not_elem_of_nil in He.
    all: simpl; rewrite Hc; eexists; split; [reflexivity |];
      rewrite !outcomes_emit; simpl; unfold outcomes in *; simpl; by rewrite Ho. }
  cbn [run_client_ops]. unfold run_client_op at 1, new_TcpClient.
  cbn [by_user _is_destroyed andb].
  unfold start. cbn [_is_started user_callbacks].
  rewrite Hmsg. cbn [negb].
  cbn [_connect_fail_callback].
  fold p0. rewrite Ep. unfold deliver at 1. rewrite Ho, drop_nil.
  cbn -[stop op_enabled run_op outcomes deliver]. 
  rewrite (bool_decide_eq_false_2 (0%nat ∈ [])) by apply not_elem_of_nil.
  unfold op_enabled. rewrite Hp, bool_decide_eq_true_2 by (by left).
  destruct E as (p2 & Ep2 & Ho2 & Hp2 & Ht2). rewrite Ep2.
  unfold deliver. rewrite Ho, Ho2. cbn -[stop].
  unfold stop. cbn. unfold cancel. rewrite Ht2, Hp2.
  rewrite bool_decide_eq_false_2 by apply not_elem_of_nil. done.
Qed.
End LifeCycle.


(** * The connections of the client *)
Section TcpConnection.
Set Default Proof Using "Type*".
Context {K X U : Type} `{Epoll K} `{!EpollLaws K} `{Socket K} `{!SocketLaws K}.
Context `{!SocketKernel K} `{!SocketKernelLaws K}.
Abbreviation conn := (TcpConnectSocketfd K X U).
Context (address : Z) (u : U) (cb : TcpConnectSocketfd.callbacks conn).

(** The user's callbacks, as far as they are set. *)
Definition set_callbacks (cbs : client_callbacks) : TcpConnectSocketfd.callbacks conn :=
  mkCallbacks
    (if _message_callback cbs then TcpConnectSocketfd._message_callback cb else None)
    (if _write_complete_callback cbs then TcpConnectSocketfd._write_complete_callback cb else None)
    (if _close_callback cbs then TcpConnectSocketfd._close_callback cb else None).

(** Attached to its loop and neither reset nor aborted. *)
Definition intact (c : conn) : Prop :=
  attached_ok c /\ _is_reset c = false /\ _is_abotrted c = false /\
  buffer_ok (_input_buffer c) /\ buffer_ok (_output_buffer c).

(** The interest list names the object under its descriptor. *)
Definition watched (c : conn) : bool :=
  match interest (kernel_of c) !! fd_of c with
  | Some ev => bool_decide (data_ptr ev = self (TcpConnectSocketfd._pollable_file_descriptor c))
  | None => false
  end.

#[export] Instance tcp_client_connection : ClientConnection (PollableFd * EventPoller K) conn := {
  conn_make fd s := new_TcpConnectSocketfd address fd s.2 u;
  conn_begin cbs := TcpConnectSocketfd.start (set_callbacks cbs);
  conn_shutdown cbs := shutdown_write (set_callbacks cbs);
  conn_delete := delete_TcpConnectSocketfd;
  conn_watched := watched;
  conn_ready := intact;
  conn_alive c := (_is_write_end_shutdown c = true \/ intact c) /\ closable c
}.

Hypothesis write_complete_passive : passive (TcpConnectSocketfd._write_complete_callback cb).
Hypothesis close_passive : passive (TcpConnectSocketfd._close_callback cb).

Lemma passive_if (b : bool) (f : option (conn -> result conn)) :
  passive f -> passive (if b then f else None).
Proof. by destruct b. Qed.

Lemma intact_closable c : intact c -> closable c.
Proof. intros (Ha & Hr & _). unfold closable. by rewrite Hr. Qed.

#[export] Instance tcp_client_connection_laws :
  ClientConnectionLaws (PollableFd * EventPoller K) conn.
Proof.
  split.
  - intros fd [d p] (Hm & Hok & _) Hdet ->. simpl in *. unfold new_TcpConnectSocketfd, new_PollableFd.
    destruct Hm as (Hu & _ & _ & _ & Hint). rewrite (proj2 (Z.ltb_ge _ _)) by (destruct Hu; lia).
    simpl. rewrite Hdet in Hint. split; [split; [| done] | split; [done | split; [done |]]].
    + split; [done |]. split; [by right |]. by split.
    + split; left; apply TcpBuffer.new_wf.
  - intros cbs c Hi. pose proof Hi as (Ha & Hre & _). simpl. unfold TcpConnectSocketfd.start.
    case_match; [by split; [right | apply intact_closable] |]. case_match; [| done].
    destruct (descriptor_command EnableRead c Ha) as (d & p & E & Ha' & _).
    change (run_command EnableRead) with (enable_read_event (K := K)) in E. rewrite E.
    assert (Hi' : intact (TcpConnectSocketfd.with_descriptor (d, p) c)) by (split; [done | apply Hi]).
    by split; [right | apply intact_closable].
  - intros cbs c Hal. simpl. destruct (_is_write_end_shutdown c) eqn:Hs.
    { unfold shutdown_write. by rewrite Hs. }
    destruct Hal as [[? | (Ha & Hr & Hb & Hin & Hout)] _]; [congruence |].
    destruct (shutdown_spec (set_callbacks cbs)) with (c := c) as (c' & -> & []); try done.
    1,2: by apply passive_if.
    by split; [left |].
  - intros c [_ Hc]. simpl. destruct (delete_connection_spec c Hc) as (c' & -> & Hfd & Hi).
    simpl. unfold watched. by rewrite Hfd, Hi.
Qed.
End TcpConnection.

(** * A client on a concrete kernel *)
#[export] Instance sample_socket_sockets : SocketKernel sample_socket := {
  sys_socket s :=
    match sys_socket (s_kernel s) with
    | Some (fd, k) => Some (fd, with_s_kernel s k)
    | None => None
    end;
  fd_limit := 16
}.

#[export] Instance sample_socket_sockets_laws : SocketKernelLaws sample_socket.
Proof.
  split; intros s fd; cbn -[sys_socket sample_sockets].
  - intros s' E. change (match @sys_socket sample_kernel _ _ (s_kernel s) with
                         | Some (fd, k) => Some (fd, with_s_kernel s k) | None => None end
                         = Some (fd, s')) in E.
    destruct (sys_socket (s_kernel s)) as [[fd' k] |] eqn:Es; [| done]. injection E as <- <-.
    exact (socket_opens _ _ _ Es).
  - intros Hr Hn. pose proof (socket_available (K := sample_kernel) (s_kernel s) fd Hr Hn) as [[fd' k] E].
    change (is_Some (match @sys_socket sample_kernel _ _ (s_kernel s) with
                     | Some (fd, k) => Some (fd, with_s_kernel s k) | None => None end)).
    rewrite E. by eexists.
Qed.

Abbreviation sample_connection := (TcpConnectSocketfd sample_socket nat unit).

Definition quiet_callbacks : TcpConnectSocketfd.callbacks sample_connection :=
  mkCallbacks (Some (fun _ c => Ok c)) None None.

#[local] Instance sample_client_connection :
  ClientConnection (PollableFd * EventPoller sample_socket) sample_connection :=
  tcp_client_connection 2000 tt quiet_callbacks.

#[local] Instance sample_client_connection_laws :
  ClientConnectionLaws (PollableFd * EventPoller sample_socket) sample_connection.
Proof. by apply tcp_client_connection_laws. Qed.

Definition client_descriptor : PollableFd * EventPoller sample_socket :=
  (fresh_fd, new_EventPoller (sample_socket_state 9 [] false ShutdownDone) 16).

Lemma client_descriptor_ready : cd_ready client_descriptor /\ cd_spare client_descriptor.
Proof.
  destruct sample_ready as [(((Hr & Ho) & Hm) & [Hl Hs] & Hio & Hlen) Hsp]. split; [| exact Hsp].
  split; [split; [split; [exact Hr | exact Ho] | exact Hm] |].
  split; [split; [exact Hl | exact Hs] |]. split; [exact Hio | exact Hlen].
Qed.

Definition all_callbacks : client_callbacks := mkClientCallbacks true true true.

(** Refused once, connected on the retry, stopped; the connection is closed, the
    client destroyed, and the loop goes on. *)
Definition sample_client_ops :
    list (client_op (D := PollableFd * EventPoller sample_socket) (C := sample_connection)) :=
  [StartClient (Some client_descriptor) (Some EINPROGRESS); Writable 111; TimerFires 0 None; StopClient].

Definition sample_last_ops :
    list (client_op (D := PollableFd * EventPoller sample_socket) (C := sample_connection)) :=
  [CloseConnection false; DestroyClient false; Writable 0; TimerFires 0 None].


Lemma stop_after_failed_retry_undefined_witness :
  run_client_ops (fun c : sample_connection => Ok c)
    [StartClient (Some client_descriptor) (Some ENETUNREACH); TimerFires 0 (Some EACCES); StopClient]
    (new_TcpClient all_callbacks true true) = Err UndefinedBehaviour.
Proof.
  apply (stop_after_failed_retry_undefined (fun c : sample_connection => Ok c) (fun c Hc => Hc));
    [reflexivity | apply client_descriptor_ready | apply client_descriptor_ready | reflexivity |].
  set_solver.
Defined.
