(* ===== verification/Any.v ===== *)
(** The type-erased value: [include/util/any.h].

    A connection keeps its context (the HTTP parser) in an [Any].  An [Any] owns a
    holder on the heap, which knows the type of its value; which constructor or
    assignment a call selects is the compiler's choice, and each has a definition
    here.  The variables of type [Any] have names, so that an object can be copied
    or moved to itself.  Temporaries are local. *)
From S2P Require Import Prelude.
From stdpp Require Import fin_maps.

(** [Holder<T>]; [holder_type] is [typeid(T)]. *)
Record holder (T V : Type) := mkHolder { holder_type : T; _value : V }.
Arguments mkHolder {T V} _ _.
Arguments holder_type {T V} _.
Arguments _value {T V} _.

(** [_holder_base]: [None] is the null pointer. *)
Definition Any : Type := option Z.

Record store (T V : Type) := mkStore { heap : gmap Z (holder T V); vars : gmap nat Any }.
Arguments mkStore {T V} _ _.
Arguments heap {T V} _.
Arguments vars {T V} _.

Section Any.
Context {T V : Type} `{EqDecision T}.
Abbreviation store := (store T V).
Abbreviation heap_t := (gmap Z (holder T V)).
(** The address [operator new] returns. *)
Context (new_address : heap_t -> Z).

Definition new_holder (h : holder T V) (m : heap_t) : Z * heap_t :=
  let p := new_address m in (p, <[p := h]> m).

(** [delete _holder_base] *)
Definition delete_holder (a : Any) (m : heap_t) : result heap_t :=
  match a with
  | None => Ok m
  | Some p => match m !! p with Some _ => Ok (delete p m) | None => Err UndefinedBehaviour end
  end.

(** [clone], through a pointer that must not be null. *)
Definition clone (a : Any) (m : heap_t) : result (Any * heap_t) :=
  match a with
  | None => Err UndefinedBehaviour
  | Some p =>
      match m !! p with
      | Some h => let '(q, m) := new_holder h m in Ok (Some q, m)
      | None => Err UndefinedBehaviour
      end
  end.

Definition get (x : nat) (s : store) : result Any := of_option UndefinedBehaviour (vars s !! x).
Definition set_var (x : nat) (a : Any) (s : store) : store := mkStore (heap s) (<[x := a]> (vars s)).
Definition with_heap (m : heap_t) (s : store) : store := mkStore m (vars s).

(** [swap] of a variable with a temporary, which is then destroyed. *)
Definition swap_temporary (x : nat) (temp : Any) (s : store) : result store :=
  let* a := get x s in
  let* m := delete_holder a (heap s) in
  Ok (set_var x temp (with_heap m s)).

(** ** The operations *)
Definition declare (x : nat) (s : store) : result store := Ok (set_var x None s).
Definition declare_copy (x other : nat) (s : store) : result store :=
  let* a := get other s in
  let* (a, m) := clone a (heap s) in Ok (set_var x a (with_heap m s)).
Definition declare_move (x other : nat) (s : store) : result store :=
  let* a := get other s in Ok (set_var other None (set_var x a s)).
(** The constructor from a value, and [make_any]. *)
Definition declare_value (x : nat) (h : holder T V) (s : store) : result store :=
  let '(p, m) := new_holder h (heap s) in Ok (set_var x (Some p) (with_heap m s)).
Definition assign_copy (x other : nat) (s : store) : result store :=
  let* a := get other s in
  let* (temp, m) := clone a (heap s) in swap_temporary x temp (with_heap m s).
Definition swap (x other : nat) (s : store) : result store :=
  let* a := get x s in
  let* b := get other s in
  Ok (set_var other a (set_var x b s)).
Definition assign_move (x other : nat) (s : store) : result store :=
  let* s := swap other x s in swap_temporary other None s.
Definition assign_value (x : nat) (h : holder T V) (s : store) : result store :=
  let '(p, m) := new_holder h (heap s) in swap_temporary x (Some p) (with_heap m s).
Definition clear (x : nat) (s : store) : result store := swap_temporary x None s.
Definition destroy (x : nat) (s : store) : result store :=
  let* a := get x s in
  let* m := delete_holder a (heap s) in
  Ok (mkStore m (delete x (vars s))).

Definition is_empty (x : nat) (s : store) : result bool :=
  let* a := get x s in Ok (match a with None => true | Some _ => false end).

(** [type]; [None] is [typeid(void)]. *)
Definition type (x : nat) (s : store) : result (option T) :=
  let* a := get x s in
  match a with
  | None => Ok None
  | Some p => let* h := of_option UndefinedBehaviour (heap s !! p) in Ok (Some (holder_type h))
  end.

(** [any_cast<T *>(&x)]: the address of the holder, [None] if the types differ. *)
Definition any_cast_pointer (t : T) (x : nat) (s : store) : result (option Z) :=
  let* t' := type x s in
  if decide (t' = Some t) then get x s else Ok None.

(** [any_cast<T &>(x)]: throws [bad_any_cast] if the types differ. *)
Definition any_cast (t : T) (x : nat) (s : store) : result V :=
  let* p := any_cast_pointer t x s in
  match p with
  | None => Err Uncaught
  | Some p => let* h := of_option UndefinedBehaviour (heap s !! p) in Ok (_value h)
  end.

(** Writing through [any_cast<T &>(x)]. *)
Definition write (t : T) (x : nat) (v : V) (s : store) : result store :=
  let* p := any_cast_pointer t x s in
  match p with
  | None => Err Uncaught
  | Some p => Ok (with_heap (<[p := mkHolder t v]> (heap s)) s)
  end.

Inductive any_op :=
| New (x : nat) | NewCopy (x other : nat) | NewMove (x other : nat)
| NewValue (x : nat) (h : holder T V)
| AssignCopy (x other : nat) | AssignMove (x other : nat) | AssignValue (x : nat) (h : holder T V)
| Swap (x other : nat) | Clear (x : nat) | Destroy (x : nat)
| Write (t : T) (x : nat) (v : V).

Definition run_op (op : any_op) (s : store) : result store :=
  match op with
  | New x => declare x s
  | NewCopy x y => declare_copy x y s
  | NewMove x y => declare_move x y s
  | NewValue x h => declare_value x h s
  | AssignCopy x y => assign_copy x y s
  | AssignMove x y => assign_move x y s
  | AssignValue x h => assign_value x h s
  | Swap x y => swap x y s
  | Clear x => clear x s
  | Destroy x => destroy x s
  | Write t x v => write t x v s
  end.

Fixpoint run_ops (ops : list any_op) (s : store) : result store :=
  match ops with [] => Ok s | op :: ops => let* s := run_op op s in run_ops ops s end.

(** * The specification: variables hold values *)
Abbreviation values := (gmap nat (option (holder T V))).

Definition spec_get (x : nat) (a : values) : result (option (holder T V)) :=
  of_option UndefinedBehaviour (a !! x).

(** A copy of an empty [Any] is undefined; everything else is what one expects of
    values, with an empty source after a move, also of an object to itself. *)
Definition spec_op (op : any_op) (a : values) : result values :=
  match op with
  | New x => Ok (<[x := None]> a)
  | NewCopy x y =>
      let* v := spec_get y a in
      let* h := of_option UndefinedBehaviour v in Ok (<[x := Some h]> a)
  | NewMove x y => let* v := spec_get y a in Ok (<[y := None]> (<[x := v]> a))
  | NewValue x h => Ok (<[x := Some h]> a)
  | AssignCopy x y =>
      let* v := spec_get y a in
      let* h := of_option UndefinedBehaviour v in
      let* _ := spec_get x a in Ok (<[x := Some h]> a)
  | AssignMove x y =>
      let* v := spec_get y a in
      let* _ := spec_get x a in Ok (<[y := None]> (<[x := v]> a))
  | AssignValue x h => let* _ := spec_get x a in Ok (<[x := Some h]> a)
  | Swap x y =>
      let* v := spec_get x a in
      let* w := spec_get y a in Ok (<[y := v]> (<[x := w]> a))
  | Clear x => let* _ := spec_get x a in Ok (<[x := None]> a)
  | Destroy x => let* _ := spec_get x a in Ok (delete x a)
  | Write t x v =>
      let* w := spec_get x a in
      match w with
      | Some h => if decide (holder_type h = t) then Ok (<[x := Some (mkHolder t v)]> a) else Err Uncaught
      | None => Err Uncaught
      end
  end.

Fixpoint spec_ops (ops : list any_op) (a : values) : result values :=
  match ops with [] => Ok a | op :: ops => let* a := spec_op op a in spec_ops ops a end.

(** A variable is declared once. *)
Definition op_ok (op : any_op) (a : values) : Prop :=
  match op with
  | New x | NewValue x _ | NewCopy x _ | NewMove x _ => a !! x = None
  | _ => True
  end.

Fixpoint ops_ok (ops : list any_op) (a : values) : Prop :=
  match ops with
  | [] => True
  | op :: ops => op_ok op a /\ match spec_op op a with Ok a' => ops_ok ops a' | Err _ => True end
  end.

(** The value of a variable. *)
Definition value_of (m : heap_t) (a : Any) : option (holder T V) := a ≫= (fun p => m !! p).
Definition values_of (s : store) : values := value_of (heap s) <$> vars s.

(** The addresses the variables hold. *)
Definition owned (v : gmap nat Any) : list Z := omap id (map_to_list v).*2.

(** [l] lists the holders on the heap, each once. *)
Definition tracked (l : list Z) (m : heap_t) : Prop := NoDup l /\ dom m = list_to_set l.

(** Every holder is owned by exactly one variable: nothing leaks, nothing dangles. *)
Definition owns (s : store) : Prop := tracked (owned (vars s)) (heap s).
End Any.

(** * Value semantics *)
Section Values.
Set Default Proof Using "Type*".
Context {T V : Type} `{EqDecision T} (new_address : gmap Z (holder T V) -> Z).
(** [operator new] returns the address of no other object. *)
Hypothesis new_address_fresh : forall m, new_address m ∉ dom m.
Abbreviation store := (store T V).

Lemma owned_insert x a (v : gmap nat Any) :
  owned (<[x := a]> v) ≡ₚ option_list a ++ owned (delete x v).
Proof.
  unfold owned. rewrite <- insert_delete_eq, map_to_list_insert by apply lookup_delete_eq.
  by destruct a.
Qed.

Lemma owned_lookup x a (v : gmap nat Any) :
  v !! x = Some a -> owned v ≡ₚ option_list a ++ owned (delete x v).
Proof. intros Hx. rewrite <- (insert_id v x a Hx) at 1. apply owned_insert. Qed.

Lemma owned_elem x p (v : gmap nat Any) : v !! x = Some (Some p) -> p ∈ owned v.
Proof. intros Hx. rewrite (owned_lookup x (Some p)) by done. by left. Qed.

#[local] Instance tracked_proper : Proper (Permutation ==> eq ==> iff) (tracked (T := T) (V := V)).
Proof.
  intros l l' Hl m _ <-. unfold tracked. by rewrite Hl.
Qed.

Lemma tracked_new l h (m : gmap Z (holder T V)) :
  tracked l m -> tracked (new_address m :: l) (<[new_address m := h]> m).
Proof.
  intros [Hnd Hd]. pose proof (new_address_fresh m) as Hf. split.
  - apply NoDup_cons. split; [| done]. rewrite Hd in Hf. by rewrite elem_of_list_to_set in Hf.
  - rewrite dom_insert_L, Hd. done.
Qed.

Lemma tracked_delete a l (m : gmap Z (holder T V)) :
  tracked (option_list a ++ l) m ->
  exists m', delete_holder a m = Ok m' /\ tracked l m' /\ forall p, p ∈ l -> m' !! p = m !! p.
Proof.
  destruct a as [p |]; simpl; [| by eauto]. intros [[Hp Hnd]%NoDup_cons Hd].
  assert (is_Some (m !! p)) as [h Hh] by (apply elem_of_dom; rewrite Hd; set_solver).
  rewrite Hh. eexists. split; [done |]. split; [split; [done |] |].
  - rewrite dom_delete_L, Hd. simpl.
    assert (p ∉ (list_to_set l : gset Z)) by (by rewrite elem_of_list_to_set). set_solver.
  - intros q Hq. apply lookup_delete_ne. by intros ->.
Qed.

Lemma values_agree (v : gmap nat Any) (m m' : gmap Z (holder T V)) :
  (forall p, p ∈ owned v -> m' !! p = m !! p) -> value_of m' <$> v = value_of m <$> v.
Proof.
  intros Hm. apply map_fmap_ext. intros x [p |] Hx; [| done]. apply Hm. by eapply owned_elem.
Qed.

Lemma values_lookup x (s : store) : values_of s !! x = value_of (heap s) <$> vars s !! x.
Proof. apply lookup_fmap. Qed.

Lemma values_set x a (s : store) :
  values_of (set_var x a s) = <[x := value_of (heap s) a]> (values_of s).
Proof. apply fmap_insert. Qed.

Lemma owned_value (s : store) x p :
  owns s -> vars s !! x = Some (Some p) -> exists h, heap s !! p = Some h.
Proof.
  intros [_ Hd] Hx. apply elem_of_dom. rewrite Hd. apply elem_of_list_to_set. by eapply owned_elem.
Qed.

(** ** The pieces the operations are made of *)
Lemma swap_temporary_ok x temp a (s : store) :
  tracked (option_list temp ++ owned (vars s)) (heap s) -> vars s !! x = Some a ->
  exists s', swap_temporary x temp s = Ok s' /\ owns s' /\ dom (vars s') = dom (vars s) /\
    values_of s' = <[x := value_of (heap s) temp]> (values_of s).
Proof.
  intros Ht Hx. unfold swap_temporary, get. rewrite Hx. cbn [of_option].
  rewrite (owned_lookup x a), Permutation_app_swap_app in Ht by done.
  destruct (tracked_delete a _ _ Ht) as (m & -> & Ht' & Hm). eexists. split; [done |].
  split; [unfold owns; simpl; by rewrite owned_insert |]. split; [simpl; rewrite dom_insert_L; apply elem_of_dom_2 in Hx; set_solver |].
  unfold values_of. simpl. rewrite (values_agree _ (heap s) m); [apply fmap_insert |].
  intros p Hp. apply Hm. by rewrite owned_insert in Hp.
Qed.

Lemma swap_temporary_undeclared x temp (s : store) :
  vars s !! x = None -> swap_temporary x temp s = Err UndefinedBehaviour.
Proof. intros Hx. unfold swap_temporary, get. by rewrite Hx. Qed.

Lemma allocated h (s : store) :
  owns s ->
  let p := new_address (heap s) in
  let m := <[p := h]> (heap s) in
  tracked (p :: owned (vars s)) m /\ value_of m <$> vars s = values_of s /\ value_of m (Some p) = Some h.
Proof.
  intros Ho p m. split; [by apply tracked_new |]. split; [| apply lookup_insert_eq].
  apply values_agree. intros q Hq. apply lookup_insert_ne. intros <-.
  apply (new_address_fresh (heap s)). destruct Ho as [_ ->]. by apply elem_of_list_to_set.
Qed.

Lemma owned_undeclared x a (v : gmap nat Any) :
  v !! x = None -> owned (<[x := a]> v) ≡ₚ option_list a ++ owned v.
Proof. intros Hx. rewrite owned_insert. by rewrite delete_id. Qed.

Lemma moved_owns x y a (s : store) :
  owns s -> vars s !! x = None -> vars s !! y = Some a -> owns (set_var y None (set_var x a s)).
Proof.
  intros Ho Hx Hy. unfold owns. simpl. rewrite owned_insert. simpl.
  rewrite delete_insert_ne by congruence.
  rewrite owned_undeclared by (rewrite lookup_delete_ne; congruence).
  by rewrite <- owned_lookup.
Qed.

Lemma swapped_owns x y a b (s : store) :
  owns s -> vars s !! x = Some a -> vars s !! y = Some b -> owns (set_var y a (set_var x b s)).
Proof.
  intros Ho Hx Hy. unfold owns. simpl. rewrite owned_insert. destruct (decide (x = y)) as [-> | Hne].
  - rewrite delete_insert_eq. assert (a = b) as <- by congruence. by rewrite <- owned_lookup.
  - rewrite delete_insert_ne by done. rewrite owned_insert, delete_delete.
    rewrite <- (owned_lookup y b (delete x (vars s))) by (by rewrite lookup_delete_ne).
    by rewrite <- owned_lookup.
Qed.

Lemma type_spec x (s : store) :
  owns s -> type x s = let* v := spec_get x (values_of s) in Ok (holder_type <$> v).
Proof.
  intros Ho. unfold type, get, spec_get. rewrite values_lookup.
  destruct (vars s !! x) as [[p |] |] eqn:Hx; [| done | done]. simpl.
  destruct (owned_value s x p Ho Hx) as [h Hh]. unfold value_of. simpl. by rewrite Hh.
Qed.

(** What [any_cast] finds. *)
Lemma any_cast_pointer_spec t x (s : store) :
  owns s ->
  match spec_get x (values_of s) with
  | Err e => any_cast_pointer t x s = Err e
  | Ok (Some h) =>
      if decide (holder_type h = t)
      then exists p, any_cast_pointer t x s = Ok (Some p) /\ vars s !! x = Some (Some p) /\ heap s !! p = Some h
      else any_cast_pointer t x s = Ok None
  | Ok None => any_cast_pointer t x s = Ok None
  end.
Proof.
  intros Ho. unfold any_cast_pointer. rewrite type_spec by done. unfold spec_get, get. rewrite values_lookup.
  destruct (vars s !! x) as [[p |] |] eqn:Hx; simpl; [| done | done].
  destruct (owned_value s x p Ho Hx) as [h Hh]. unfold value_of. simpl. rewrite Hh. simpl.
  destruct (decide (holder_type h = t)) as [<- | Hne].
  - rewrite decide_True by done. by exists p.
  - rewrite decide_False by congruence. done.
Qed.

Definition does (a : gmap nat (option (holder T V))) (r : result store) : Prop :=
  exists s', r = Ok s' /\ owns s' /\ values_of s' = a.

Lemma clone_spec y (s : store) :
  owns s ->
  match spec_get y (values_of s) with
  | Err _ => vars s !! y = None
  | Ok None => exists a : Any, a = None /\ vars s !! y = Some a
  | Ok (Some h) => exists a, vars s !! y = Some a /\
      clone new_address a (heap s) = Ok (Some (new_address (heap s)), <[new_address (heap s) := h]> (heap s))
  end.
Proof.
  intros Ho. unfold spec_get. rewrite values_lookup.
  destruct (vars s !! y) as [[p |] |] eqn:Hy; simpl; [| by eauto | done].
  destruct (owned_value s y p Ho Hy) as [h Hh]. unfold value_of. simpl. rewrite Hh.
  eexists. split; [done |]. simpl. by rewrite Hh.
Qed.

(** Putting a new holder into a variable. *)
Lemma construct_ok x h (s : store) :
  owns s -> values_of s !! x = None ->
  does (<[x := Some h]> (values_of s))
    (Ok (set_var x (Some (new_address (heap s))) (with_heap (<[new_address (heap s) := h]> (heap s)) s))).
Proof.
  intros Ho Hx. rewrite values_lookup in Hx. apply fmap_None in Hx.
  destruct (allocated h s Ho) as (Ht & Hv & Hp). eexists. split; [done |].
  split; [unfold owns; simpl; by rewrite owned_undeclared |].
  rewrite values_set. cbn [heap with_heap]. rewrite Hp. unfold values_of at 1. cbn [heap vars with_heap].
  by rewrite Hv.
Qed.

Lemma replace_ok x h (s : store) :
  owns s ->
  match spec_get x (values_of s) with
  | Ok _ => does (<[x := Some h]> (values_of s))
              (swap_temporary x (Some (new_address (heap s))) (with_heap (<[new_address (heap s) := h]> (heap s)) s))
  | Err e => swap_temporary x (Some (new_address (heap s))) (with_heap (<[new_address (heap s) := h]> (heap s)) s)
             = Err e
  end.
Proof.
  intros Ho. unfold spec_get. rewrite values_lookup. destruct (allocated h s Ho) as (Ht & Hv & Hp).
  set (s1 := with_heap _ s). destruct (vars s !! x) as [a |] eqn:Hx; simpl.
  - destruct (swap_temporary_ok x (Some (new_address (heap s))) a s1 Ht Hx) as (s' & E & Ho' & _ & Hv').
    exists s'. split; [done |]. split; [done |]. rewrite Hv'. unfold s1. cbn [heap with_heap].
    rewrite Hp. unfold values_of at 1. cbn [heap vars with_heap]. by rewrite Hv.
  - by apply swap_temporary_undeclared.
Qed.

Lemma clear_ok x (s : store) :
  owns s ->
  match spec_get x (values_of s) with
  | Ok _ => does (<[x := None]> (values_of s)) (swap_temporary x None s)
  | Err e => swap_temporary x None s = Err e
  end.
Proof.
  intros Ho. unfold spec_get. rewrite values_lookup. destruct (vars s !! x) as [a |] eqn:Hx; simpl.
  - destruct (swap_temporary_ok x None a s Ho Hx) as (s' & E & Ho' & _ & Hv'). by exists s'.
  - by apply swap_temporary_undeclared.
Qed.

Lemma swap_ok x y (s : store) :
  owns s ->
  match spec_op (Swap x y) (values_of s) with
  | Ok a => does a (swap x y s)
  | Err e => swap x y s = Err e
  end.
Proof.
  intros Ho. cbn [spec_op]. unfold swap, spec_get, get. rewrite !values_lookup.
  destruct (vars s !! x) as [a |] eqn:Hx; [| done]. destruct (vars s !! y) as [b |] eqn:Hy; [| done]. simpl.
  eexists. split; [done |]. split; [by apply swapped_owns |]. by rewrite !values_set.
Qed.

(** An operation does to the variables what it does to the values. *)
Definition implements (op : any_op) (s : store) : Prop :=
  match spec_op op (values_of s) with
  | Ok a => does a (run_op new_address op s)
  | Err e => run_op new_address op s = Err e
  end.

Lemma copy_ok x y (s : store) :
  owns s -> values_of s !! x = None -> implements (NewCopy x y) s.
Proof.
  intros Ho Hx. unfold implements. cbn [run_op spec_op]. unfold declare_copy, get.
  pose proof (clone_spec y s Ho) as Hc. destruct (spec_get y (values_of s)) as [[h |] | e] eqn:E; cbn [of_option].
  - destruct Hc as (a & -> & Ec). cbn [of_option]. rewrite Ec. by apply construct_ok.
  - by destruct Hc as (a & -> & ->).
  - rewrite Hc. unfold spec_get in E. by destruct (values_of s !! y); [| injection E as <-].
Qed.

Lemma assign_copy_ok x y (s : store) : owns s -> implements (AssignCopy x y) s.
Proof.
  intros Ho. unfold implements. cbn [run_op spec_op]. unfold assign_copy, get.
  pose proof (clone_spec y s Ho) as Hc. destruct (spec_get y (values_of s)) as [[h |] | e] eqn:E; cbn [of_option].
  - destruct Hc as (a & -> & Ec). cbn [of_option]. rewrite Ec.
    pose proof (replace_ok x h s Ho) as Hr. by destruct (spec_get x (values_of s)).
  - by destruct Hc as (a & -> & ->).
  - rewrite Hc. unfold spec_get in E. by destruct (values_of s !! y); [| injection E as <-].
Qed.

Lemma assign_move_ok x y (s : store) : owns s -> implements (AssignMove x y) s.
Proof.
  intros Ho. unfold implements. cbn [run_op spec_op]. unfold assign_move.
  pose proof (swap_ok y x s Ho) as Hs. cbn [spec_op] in Hs.
  destruct (spec_get y (values_of s)) as [v | e] eqn:Ey; [| by rewrite Hs].
  destruct (spec_get x (values_of s)) as [w | e] eqn:Ex; [| by rewrite Hs].
  destruct Hs as (s1 & -> & Ho1 & Hv1). pose proof (clear_ok y s1 Ho1) as Hc.
  assert (E : <[y := None]> (values_of s1) = <[y := None]> (<[x := v]> (values_of s))).
  { rewrite Hv1. destruct (decide (x = y)) as [-> | Hne]; [by rewrite !insert_insert_eq |].
    do 2 rewrite (insert_insert_ne _ y x None v) by done. by rewrite insert_insert_eq. }
  rewrite E in Hc. assert (exists u, spec_get y (values_of s1) = Ok u) as [u Hu].
  { rewrite Hv1. unfold spec_get. destruct (decide (x = y)) as [-> |]; [by rewrite lookup_insert_eq; eauto |].
    rewrite lookup_insert_ne, lookup_insert_eq by done. by eauto. }
  by rewrite Hu in Hc.
Qed.

Lemma move_ok x y (s : store) :
  owns s -> values_of s !! x = None -> implements (NewMove x y) s.
Proof.
  intros Ho Hx. unfold implements. cbn [run_op spec_op]. unfold declare_move, spec_get, get.
  rewrite values_lookup in Hx. apply fmap_None in Hx. rewrite values_lookup.
  destruct (vars s !! y) as [a |] eqn:Hy; [| done]. eexists. split; [done |].
  split; [by apply moved_owns |]. by rewrite !values_set.
Qed.

Lemma any_destroy_ok x (s : store) : owns s -> implements (Destroy x) s.
Proof.
  intros Ho. unfold implements. cbn [run_op spec_op]. unfold destroy, spec_get, get. rewrite values_lookup.
  destruct (vars s !! x) as [a |] eqn:Hx; [| done]. cbn [of_option fmap option_fmap option_map].
  unfold owns in Ho. rewrite (owned_lookup x a) in Ho by done.
  destruct (tracked_delete a _ _ Ho) as (m & -> & Ht & Hm). eexists. split; [done |]. split; [done |].
  unfold values_of. simpl. rewrite <- fmap_delete. by apply values_agree.
Qed.

Lemma any_write_ok t x v (s : store) : owns s -> implements (Write t x v) s.
Proof.
  intros Ho. unfold implements. cbn [run_op spec_op]. unfold write.
  pose proof (any_cast_pointer_spec t x s Ho) as Hp.
  destruct (spec_get x (values_of s)) as [[h |] | e] eqn:Ex; [| by rewrite Hp | by rewrite Hp].
  destruct (decide (holder_type h = t)); [| by rewrite Hp]. destruct Hp as (p & -> & Hx & Hh).
  eexists. split; [done |]. pose proof Ho as [Hnd Hd]. split.
  - split; [done |]. simpl. rewrite dom_insert_L, Hd.
    assert (p ∈ (list_to_set (owned (vars s)) : gset Z)); [| set_solver].
    apply elem_of_list_to_set. by eapply owned_elem.
  - unfold values_of. simpl. rewrite <- (insert_delete_id (vars s) x (Some p) Hx) at 1.
    rewrite fmap_insert, (values_agree (delete x (vars s)) (heap s)).
    + unfold value_of at 1. simpl. by rewrite lookup_insert_eq, fmap_delete, insert_delete_eq.
    + intros q Hq. apply lookup_insert_ne. intros ->. rewrite (owned_lookup x (Some q)) in Hnd by done.
      by apply NoDup_cons in Hnd as [? _].
Qed.

Lemma any_run_op_ok op (s : store) : owns s -> op_ok op (values_of s) -> implements op s.
Proof.
  intros Ho Hop. destruct op as [x | x y | x y | x h | x y | x y | x h | x y | x | x | t x v]; cbn [op_ok] in Hop.
  - rewrite values_lookup in Hop. apply fmap_None in Hop. eexists. split; [done |].
    split; [unfold owns; simpl; by rewrite owned_undeclared | apply values_set].
  - by apply copy_ok.
  - by apply move_ok.
  - by apply construct_ok.
  - by apply assign_copy_ok.
  - by apply assign_move_ok.
  - pose proof (replace_ok x h s Ho) as Hr. unfold implements. simpl. unfold assign_value.
    by destruct (spec_get x (values_of s)).
  - by apply swap_ok.
  - pose proof (clear_ok x s Ho) as Hr. unfold implements. simpl. unfold clear.
    by destruct (spec_get x (values_of s)).
  - by apply any_destroy_ok.
  - by apply any_write_ok.
Qed.

(** C37: An [Any] behaves like a value: after any operations on variables of that type,
    also of an object on itself, each variable holds what the specification says,
    and the process fails exactly where it does (a copy of an empty [Any], a cast to
    another type).  Every holder belongs to exactly one variable at every moment, so
    none leaks and none is deleted twice; and [any_cast] gives the value if the type
    is the value's and throws otherwise. *)
Theorem any_refines_values ops (s : store) (Ho : owns s) (Hops : ops_ok ops (values_of s)) :
  match spec_ops ops (values_of s) with
  | Err e => Any.run_ops new_address ops s = Err e
  | Ok a =>
      exists s', Any.run_ops new_address ops s = Ok s' /\ owns s' /\ values_of s' = a /\
        forall t x, any_cast t x s'
                    = let* v := spec_get x a in
                      match v with
                      | Some h => if decide (holder_type h = t) then Ok (_value h) else Err Uncaught
                      | None => Err Uncaught
                      end
  end.
Proof.
  revert s Ho Hops. induction ops as [| op ops IH]; intros s Ho Hops; cbn [spec_ops Any.run_ops].
  - exists s. split; [done |]. split; [done |]. split; [done |]. intros t x. unfold any_cast.
    pose proof (any_cast_pointer_spec t x s Ho) as Hp.
    destruct (spec_get x (values_of s)) as [[h |] | e]; [| by rewrite Hp | by rewrite Hp].
    destruct (decide (holder_type h = t)); [| by rewrite Hp]. destruct Hp as (p & -> & _ & ->). done.
  - destruct Hops as [Hop Hops]. pose proof (any_run_op_ok op s Ho Hop) as Hr. unfold implements in Hr.
    destruct (spec_op op (values_of s)) as [a | e]; [| by rewrite Hr].
    destruct Hr as (s' & -> & Ho' & <-). by apply IH.
Qed.
End Values.

(** * Concrete variables *)
Definition sample_new_address (m : gmap Z (holder nat nat)) : Z := fresh (dom m : gset Z).

Lemma sample_new_address_fresh m : sample_new_address m ∉ dom m.
Proof. apply (is_fresh (dom m : gset Z)). Qed.

(** Two variables, a copy that is changed, and a move of an object to itself. *)
Definition sample_any_ops : list (any_op (T := nat) (V := nat)) :=
  [NewValue 0 (mkHolder 3 7); NewCopy 1 0; Write 3 1 8; AssignMove 0 0; New 2; AssignMove 2 1].

Lemma any_refines_values_witness :
  exists s, Any.run_ops sample_new_address sample_any_ops (mkStore ∅ ∅) = Ok s /\
    size (heap s) = 1 /\ any_cast 3 2 s = Ok 8 /\ any_cast 4 2 s = Err Uncaught /\
    any_cast 3 0 s = Err Uncaught /\
    Any.run_ops sample_new_address (sample_any_ops ++ [NewCopy 3 0]) (mkStore ∅ ∅) = Err UndefinedBehaviour.
Proof.
  assert (Ho : owns (mkStore (T := nat) (V := nat) ∅ ∅)) by (split; [constructor | reflexivity]).
  pose proof (any_refines_values sample_new_address sample_new_address_fresh sample_any_ops
                (mkStore ∅ ∅) Ho ltac:(vm_compute; repeat split)) as H1.
  pose proof (any_refines_values sample_new_address sample_new_address_fresh (sample_any_ops ++ [NewCopy 3 0])
                (mkStore ∅ ∅) Ho ltac:(vm_compute; repeat split)) as H2.
  destruct (spec_ops sample_any_ops _) as [a |] eqn:E; [| vm_compute in E; discriminate E].
  destruct H1 as (s & Hs & (Hnd & Hd) & Hv & Hc). exists s. split; [exact Hs |].
  split; [clear - Hs; vm_compute in Hs; injection Hs as <-; reflexivity |].
  rewrite !Hc. clear - E H2. vm_compute in E. injection E as <-.
  split; [vm_compute; reflexivity |]. split; [vm_compute; reflexivity |]. split; [vm_compute; reflexivity |].
  destruct (spec_ops (sample_any_ops ++ [NewCopy 3 0]) _) as [a |] eqn:E; vm_compute in E; [discriminate E |].
  by injection E as <-.
Defined.
