(* ===== verification/SlabMemory.v ===== *)
(** The memory of the slab allocators ([include/util/slab_allocator.h]): chunks
    cut into slabs, and free lists threaded through the slabs.

    The memory maps the address of every slab to its first word, which is the
    [next] pointer of a [LinkedListNode] while the slab is free and the client's
    data while it is not.  The null pointer is 0.  [aligned_alloc] is a parameter:
    it returns a region away from everything allocated before. *)
From S2P Require Import Prelude.
From stdpp Require Import fin_maps functions sorting.
Open Scope Z_scope.

Abbreviation memory := (gmap Z Z).

Definition _NUMBER_OF_SLABS_PER_CHUNK : nat := Z.to_nat 4000.

Lemma slabs_per_chunk_bound : (2 < _NUMBER_OF_SLABS_PER_CHUNK)%nat.
Proof. unfold _NUMBER_OF_SLABS_PER_CHUNK. lia. Qed.
#[global] Opaque _NUMBER_OF_SLABS_PER_CHUNK.

(** [node->next], and the assignment to it. *)
Definition load_next (m : memory) (p : Z) : result Z := of_option UndefinedBehaviour (m !! p).
Definition store_next (p next : Z) (m : memory) : result memory :=
  match m !! p with Some _ => Ok (<[p := next]> m) | None => Err UndefinedBehaviour end.

Section Memory.
Context (width : Z) (aalloc : memory -> Z).

Definition separate (a b : Z) : Prop := a + width <= b \/ b + width <= a.

(** The addresses of [n] slabs from [base] on. *)
Definition slab_nodes (base : Z) (n : nat) : list Z :=
  (fun i => base + Z.of_nat i * width) <$> seq 0 n.

Record aalloc_law : Prop := {
  width_pos : 0 < width;
  aalloc_pos m : 0 < aalloc m;
  aalloc_fresh m a i : a ∈ dom m -> (i < _NUMBER_OF_SLABS_PER_CHUNK)%nat ->
    separate a (aalloc m + Z.of_nat i * width)
}.

(** The loop of [_allocate_one_chunk]: every slab is pushed on the free list. *)
Fixpoint carve (n : nat) (current_node free : Z) (m : memory) : memory * Z :=
  match n with
  | O => (m, free)
  | S n => carve n (current_node + width) current_node (<[current_node := free]> m)
  end.

(** The free list that starts at [p]. *)
Fixpoint chain (m : memory) (p : Z) (l : list Z) : Prop :=
  match l with
  | [] => p = 0
  | x :: l => p = x /\ x <> 0 /\ exists next, m !! x = Some next /\ chain m next l
  end.

Lemma chain_frame m x v p l : x ∉ l -> chain m p l -> chain (<[x := v]> m) p l.
Proof.
  revert p. induction l as [| y l IH]; simpl; intros p Hx; [done |].
  apply not_elem_of_cons in Hx as [Hne Hx]. intros (-> & H0 & next & Hm & Hc).
  split; [done |]. split; [done |]. exists next. rewrite lookup_insert_ne by done. auto.
Qed.

Lemma chain_dom m p l x : chain m p l -> x ∈ l -> x ∈ dom m.
Proof.
  revert p. induction l as [| y l IH]; simpl; intros p; [by intros _ ?%elem_of_nil |].
  intros (-> & _ & next & Hm & Hc) [-> | Hx]%elem_of_cons; [by eapply elem_of_dom_2 | by eapply IH].
Qed.

Lemma chain_push m x p l :
  x <> 0 -> x ∉ l -> chain m p l -> chain (<[x := p]> m) x (x :: l).
Proof.
  intros Hx Hin Hc. split; [done |]. split; [done |]. exists p. rewrite lookup_insert_eq.
  split; [done |]. by apply chain_frame.
Qed.

Lemma chain_mono m m' p l :
  (forall x, x ∈ l -> m' !! x = m !! x) -> chain m p l -> chain m' p l.
Proof.
  revert p. induction l as [| y l IH]; simpl; intros p Hm; [done |].
  intros (-> & H0 & next & Hy & Hc). split; [done |]. split; [done |]. exists next.
  rewrite Hm by left. split; [done |]. apply IH; [| done]. intros x Hx. apply Hm. by right.
Qed.

Lemma chain_app m p l l' :
  chain m p (l ++ l') <-> exists q, (forall m', (forall x, x ∈ l -> m' !! x = m !! x) ->
      forall l'', chain m' q l'' -> chain m' p (l ++ l'')) /\ chain m q l'.
Proof.
  revert p. induction l as [| y l IH]; intros p; simpl.
  - split; [intros H; exists p; split; [by intros ? _ ? | done] |].
    intros (q & H & Hc). by apply H.
  - split.
    + intros (-> & H0 & next & Hm & Hc). apply IH in Hc as (q & Hq & Hc). exists q. split; [| done].
      intros m' Hm' l'' Hl''. split; [done |]. split; [done |]. exists next.
      rewrite Hm' by left. split; [done |]. apply Hq; [| done]. intros x Hx. apply Hm'. by right.
    + intros (q & Hq & Hc). by apply Hq.
Qed.

Lemma chain_last m p l x : chain m p l -> last l = Some x -> m !! x = Some 0.
Proof.
  revert p. induction l as [| y [| z l] IH]; intros p; [done | |].
  - intros (_ & _ & next & Hm & Hc) [= <-]. simpl in Hc. by subst next.
  - intros (_ & _ & next & Hm & Hc) Hl. by eapply IH.
Qed.

Lemma chain_head m p l : chain m p l -> l <> [] -> p <> 0 /\ p ∈ l.
Proof. destruct l; [done |]. intros (-> & H0 & _) _. split; [done | by left]. Qed.

(** Cutting a list after its [n]th element. *)
Lemma chain_cut m p l n x :
  NoDup l -> chain m p l -> l !! n = Some x ->
  exists r, m !! x = Some r /\ chain m r (drop (S n) l) /\ chain (<[x := 0]> m) p (take (S n) l).
Proof.
  revert p n. induction l as [| y l IH]; intros p n Hnd; [done |].
  apply NoDup_cons in Hnd as [Hy Hnd]. intros (-> & H0 & next & Hm & Hc).
  destruct n as [| n]; simpl.
  - intros [= ->]. exists next. split; [done |]. split; [done |]. split; [done |]. split; [done |].
    exists 0. by rewrite lookup_insert_eq.
  - intros Hx. destruct (IH next n Hnd Hc Hx) as (r & Hr & Hd & Ht). exists r.
    split; [done |]. split; [done |]. split; [done |]. split; [done |]. exists next.
    rewrite lookup_insert_ne; [done |]. intros ->. by apply Hy, (list_elem_of_lookup_2 _ n).
Qed.

Lemma slab_nodes_S base n : slab_nodes base (S n) = base :: slab_nodes (base + width) n.
Proof.
  unfold slab_nodes. simpl. f_equal; [lia |]. rewrite <- (fmap_S_seq 0 n), <- list_fmap_compose.
  apply list_fmap_ext. intros ? i _. simpl. lia.
Qed.

Lemma length_slab_nodes base n : length (slab_nodes base n) = n.
Proof. unfold slab_nodes. by rewrite length_fmap, length_seq. Qed.

Lemma elem_of_slab_nodes base n x :
  x ∈ slab_nodes base n <-> exists i, x = base + Z.of_nat i * width /\ (i < n)%nat.
Proof.
  unfold slab_nodes. rewrite list_elem_of_fmap. split; intros (i & -> & Hi); exists i.
  - apply elem_of_seq in Hi. split; [done | lia].
  - split; [done |]. apply elem_of_seq. lia.
Qed.

Lemma NoDup_slab_nodes base n : 0 < width -> NoDup (slab_nodes base n).
Proof.
  intros Hw. apply NoDup_fmap_2; [| apply NoDup_seq]. intros i j E.
  assert (Z.of_nat i * width = Z.of_nat j * width) as E' by lia.
  apply Z.mul_reg_r in E'; lia.
Qed.

(** Carving pushes the slabs of the chunk, and touches nothing else. *)
Lemma carve_spec n base free m l :
  0 < width -> 0 < base -> (forall x, x ∈ slab_nodes base n -> x ∉ l) -> chain m free l ->
  exists m' p, carve n base free m = (m', p) /\
    chain m' p (reverse (slab_nodes base n) ++ l) /\
    dom m' = list_to_set (slab_nodes base n) ∪ dom m /\
    (forall x, x ∉ slab_nodes base n -> m' !! x = m !! x) /\
    ((0 < n)%nat -> p = base + Z.of_nat (n - 1) * width).
Proof.
  intros Hw. revert base free m l. induction n as [| n IH]; intros base free m l Hb Hl Hc; cbn [carve].
  { exists m, free. split; [done |]. split; [done |].
    split; [symmetry; apply (left_id_L ∅ (∪)) |]. split; [done | lia]. }
  rewrite slab_nodes_S in *.
  destruct (IH (base + width) base (<[base := free]> m) (base :: l)) as (m' & p & -> & Hc' & Hd & Ho & Hp).
  - lia.
  - intros x Hx. apply not_elem_of_cons. split.
    + apply elem_of_slab_nodes in Hx as (i & -> & _).
      pose proof (Z.mul_nonneg_nonneg (Z.of_nat i) width ltac:(lia) ltac:(lia)). lia.
    + apply Hl. by right.
  - apply chain_push; [lia | apply Hl; by left | done].
  - exists m', p. split; [done |]. rewrite reverse_cons, <- app_assoc. split; [exact Hc' |].
    split; [rewrite Hd, dom_insert_L; cbn [list_to_set];
      rewrite !(assoc_L (∪)); f_equal; apply (comm_L (∪)) |]. split.
    + intros x Hx. apply not_elem_of_cons in Hx as [Hx1 Hx2]. rewrite Ho by done.
      by rewrite lookup_insert_ne.
    + intros _. destruct n as [| n]; [| rewrite Hp by lia; lia].
      simpl in Hc'. destruct Hc' as [-> _]. lia.
Qed.

(** The addresses of a carved chunk, next to what was there. *)
Definition spaced (m : memory) : Prop :=
  forall a b, a ∈ dom m -> b ∈ dom m -> a <> b -> separate a b.

Lemma spaced_chunk m m' :
  aalloc_law -> spaced m ->
  dom m' = list_to_set (slab_nodes (aalloc m) _NUMBER_OF_SLABS_PER_CHUNK) ∪ dom m -> spaced m'.
Proof.
  intros [Hw _ Hf] Hs Hd a b. rewrite Hd, !elem_of_union, !elem_of_list_to_set, !elem_of_slab_nodes.
  unfold separate in *.
  intros [(i & -> & Hi) | Ha] [(j & -> & Hj) | Hb] Hne.
  - assert (i <> j) by (intros ->; by apply Hne). destruct (decide (i < j)%nat).
    + pose proof (Z.mul_le_mono_nonneg_r (Z.of_nat i + 1) (Z.of_nat j) width ltac:(lia) ltac:(lia)). lia.
    + pose proof (Z.mul_le_mono_nonneg_r (Z.of_nat j + 1) (Z.of_nat i) width ltac:(lia) ltac:(lia)). lia.
  - destruct (Hf _ _ _ Hb Hi); lia.
  - destruct (Hf _ _ _ Ha Hj); lia.
  - by apply Hs.
Qed.

Lemma chunk_fresh m x :
  aalloc_law -> x ∈ slab_nodes (aalloc m) _NUMBER_OF_SLABS_PER_CHUNK -> (x ∉ dom m) /\ x <> 0.
Proof.
  intros [Hw Hp Hf] (i & -> & Hi)%elem_of_slab_nodes. split.
  - intros Hx. specialize (Hf m _ i Hx Hi). unfold separate in Hf. lia.
  - specialize (Hp m). pose proof (Z.mul_nonneg_nonneg (Z.of_nat i) width ltac:(lia) ltac:(lia)). lia.
Qed.
End Memory.
