(* ===== verification/Alignment.v ===== *)
(** The wrappers of [src/util/alignment.cc]: aligned memory, and two sizes of the
    system.  Each ends the process instead of returning a failure. *)
From S2P Require Import Prelude SlabMemory.
Open Scope Z_scope.

Section Wrappers.
Context {H : Type}.
(** [aligned_alloc] on the state of the heap: [None] is the null pointer.  [sysconf] with
    [errno] before and after. *)
Context (aligned_alloc : Z -> Z -> H -> option Z * H).
Context (sysconf : Z -> Z -> Z * Z).

Definition aalloc (alignment size : Z) (h : H) : result (Z * H) :=
  let '(ptr, h) := aligned_alloc alignment size h in
  match ptr with
  | None => Err Fatal
  | Some ptr => Ok (ptr, h)
  end.

Definition _SC_PAGESIZE : Z := 30.
Definition _SC_LEVEL1_DCACHE_LINESIZE : Z := 190.

Definition get_level_1_data_cache_line_size : result Z :=
  let '(level_1_data_cache_line_size, errno) := sysconf _SC_LEVEL1_DCACHE_LINESIZE 0 in
  if level_1_data_cache_line_size =? -1
  then if errno =? 0 then Err Fatal   (* the limit is indeterminate *) else Err Fatal
  else Ok (u64 level_1_data_cache_line_size).

Definition get_page_size : result Z :=
  let '(page_size, errno) := sysconf _SC_PAGESIZE 0 in
  if page_size =? -1
  then if errno =? 0 then Err Fatal   (* the limit is indeterminate *) else Err Fatal
  else Ok (u64 page_size).

(** [_allocate_one_chunk] of the allocators asks for [n] slabs of [width] bytes at the
    alignment of the slab, which divides its width. *)
Definition new_chunk (alignment width : Z) (n : nat) (h : H) : result (Z * H) :=
  aalloc alignment (width * Z.of_nat n) h.

(** Documented behaviour: memory is aligned as asked for, and not at the null address. *)
Hypothesis aligned_alloc_law : forall alignment size h ptr h',
  aligned_alloc alignment size h = (Some ptr, h') -> 0 < ptr /\ (alignment | ptr).

(** Every slab of a chunk is a pointer, aligned for its type. *)
Theorem slabs_aligned alignment width n h base h' x
    (Hw : 0 <= width) (Ha : (alignment | width)) (Hc : new_chunk alignment width n h = Ok (base, h'))
    (Hx : x ∈ slab_nodes width base n) :
  0 < x /\ (alignment | x) /\ base <= x < base + Z.max 1 (width * Z.of_nat n).
Proof using aligned_alloc_law.
  unfold new_chunk, aalloc in Hc.
  destruct (aligned_alloc _ _ h) as [[ptr |] h1] eqn:E; [| done]. injection Hc as -> ->.
  apply aligned_alloc_law in E as [Hp Hd]. apply elem_of_slab_nodes in Hx as (i & -> & Hi).
  assert (0 <= Z.of_nat i * width) by (apply Z.mul_nonneg_nonneg; lia).
  split; [lia |]. split; [apply Z.divide_add_r; [done | by apply Z.divide_mul_r] |].
  split; [lia |]. nia.
Qed.
End Wrappers.

(** A heap that grows: the next multiple of the alignment. *)
Definition sample_aligned_alloc (alignment size h : Z) : option Z * Z :=
  if (0 <? alignment) && (0 <=? size) && (0 <=? h)
  then (Some ((h / alignment + 1) * alignment), (h / alignment + 1) * alignment + size) else (None, h).

Lemma slabs_aligned_witness :
  exists base h, new_chunk sample_aligned_alloc 64 192 4000 100 = Ok (base, h) /\
    (64 | base + 3999 * 192) /\ base = 128.
Proof.
  pose proof (slabs_aligned sample_aligned_alloc) as Hs. exists 128, (128 + 192 * 4000).
  split; [reflexivity |]. split; [| reflexivity].
  apply (fun law => Hs law 64 192 4000%nat 100 128 (128 + 192 * 4000) (128 + 3999 * 192)); try reflexivity.
  - intros a size h ptr h'. unfold sample_aligned_alloc. destruct (_ && _) eqn:E; [| discriminate].
    apply andb_true_iff in E as [E Eh%Z.leb_le]. apply andb_true_iff in E as [Ea%Z.ltb_lt _].
    intros [= <- <-]. pose proof (Z.div_pos h a Eh Ea). split; [nia | apply Z.divide_factor_r].
  - lia.
  - exists 3. reflexivity.
  - apply elem_of_slab_nodes. exists 3999%nat. split; [reflexivity | lia].
Defined.
