(* ===== verification/SlabAllocator.v ===== *)
(** The single-threaded slab allocators ([include/util/slab_allocator.h]): one free
    list of slabs, refilled a chunk at a time. *)
From S2P Require Import Prelude SlabMemory.
From stdpp Require Import fin_maps functions sorting.
Open Scope Z_scope.

(** * [SimpleSlabAllocator], and [StaticSimpleSlabAllocator], whose members are
      static but whose code is the same *)
Record SimpleSlabAllocator := mkSimple {
  simple_memory : memory;
  _linked_list_of_free_slabs : Z;
  _allocated_chunks : list Z
}.

Definition new_SimpleSlabAllocator : SimpleSlabAllocator := mkSimple ∅ 0 [].

Section Simple.
Context (width : Z) (aalloc : memory -> Z).

Definition _allocate_one_chunk (s : SimpleSlabAllocator) : SimpleSlabAllocator :=
  let new_chunk := aalloc (simple_memory s) in
  let '(m, free) := carve width _NUMBER_OF_SLABS_PER_CHUNK new_chunk
                      (_linked_list_of_free_slabs s) (simple_memory s) in
  mkSimple m free (_allocated_chunks s ++ [new_chunk]).

Definition allocate (n : Z) (s : SimpleSlabAllocator) : result (Z * SimpleSlabAllocator) :=
  if negb (n =? 1) then Err Uncaught
  else
    let s := if _linked_list_of_free_slabs s =? 0 then _allocate_one_chunk s else s in
    let chosen_slab := _linked_list_of_free_slabs s in
    let* next := load_next (simple_memory s) chosen_slab in
    Ok (chosen_slab, mkSimple (simple_memory s) next (_allocated_chunks s)).

Definition deallocate (slab n : Z) (s : SimpleSlabAllocator) : result SimpleSlabAllocator :=
  if negb (n =? 1) then Err Fatal
  else
    let* m := store_next slab (_linked_list_of_free_slabs s) (simple_memory s) in
    Ok (mkSimple m slab (_allocated_chunks s)).

(** The static variant. *)
Definition static_allocate_one_chunk : SimpleSlabAllocator -> SimpleSlabAllocator :=
  _allocate_one_chunk.
Definition static_allocate : Z -> SimpleSlabAllocator -> result (Z * SimpleSlabAllocator) := allocate.
Definition static_deallocate : Z -> Z -> SimpleSlabAllocator -> result SimpleSlabAllocator := deallocate.

(** ** Clients: they write to the slabs they hold, and give them back *)
Inductive client_op := Allocate | Deallocate (slab : Z) | WriteSlab (slab v : Z).

Definition run_client (op : client_op) (s : SimpleSlabAllocator) (held : list Z)
    : result (SimpleSlabAllocator * list Z) :=
  match op with
  | Allocate => let* (x, s) := allocate 1 s in Ok (s, x :: held)
  | Deallocate slab =>
      let* s := deallocate slab 1 s in Ok (s, filter (fun x => x <> slab) held)
  | WriteSlab slab v =>
      let* m := store_next slab v (simple_memory s) in
      Ok (mkSimple m (_linked_list_of_free_slabs s) (_allocated_chunks s), held)
  end.

Definition client_ok (op : client_op) (held : list Z) : Prop :=
  match op with Allocate => True | Deallocate slab | WriteSlab slab _ => slab ∈ held end.

Fixpoint run_clients (ops : list client_op) (s : SimpleSlabAllocator) (held : list Z)
    : result (SimpleSlabAllocator * list Z) :=
  match ops with
  | [] => Ok (s, held)
  | op :: ops => let* (s, held) := run_client op s held in run_clients ops s held
  end.

Fixpoint clients_ok (ops : list client_op) (s : SimpleSlabAllocator) (held : list Z) : Prop :=
  match ops with
  | [] => True
  | op :: ops => client_ok op held /\
      forall s' held', run_client op s held = Ok (s', held') -> clients_ok ops s' held'
  end.

(** The free list and the slabs held by clients partition the memory. *)
Record simple_inv (s : SimpleSlabAllocator) (held free : list Z) : Prop := {
  si_chain : chain (simple_memory s) (_linked_list_of_free_slabs s) free;
  si_nodup : NoDup (free ++ held);
  si_dom x : x ∈ dom (simple_memory s) <-> x ∈ free ++ held;
  si_spaced : spaced width (simple_memory s);
  si_nonnull : Forall (fun x => x <> 0) held
}.

Context (Haalloc : aalloc_law width aalloc).
Set Default Proof Using "All".

Lemma simple_chunk s held :
  simple_inv s held [] -> exists free, simple_inv (_allocate_one_chunk s) held free /\ free <> [].
Proof.
  intros [Hc Hnd Hd Hs Hn]. pose proof Haalloc as [Hw Hp _]. simpl in Hc.
  pose proof (fun x => chunk_fresh width aalloc (simple_memory s) x Haalloc) as Hfresh.
  unfold _allocate_one_chunk. set (nodes := slab_nodes width (aalloc (simple_memory s)) _NUMBER_OF_SLABS_PER_CHUNK) in *.
  destruct (carve_spec width _NUMBER_OF_SLABS_PER_CHUNK (aalloc (simple_memory s))
              (_linked_list_of_free_slabs s) (simple_memory s) [] Hw (Hp _) (fun x _ => not_elem_of_nil x) Hc)
    as (m & p & E & Hc' & Hd' & Ho & _).
  rewrite E. fold nodes in Hc', Hd', Ho. rewrite app_nil_r in Hc'.
  assert (Hsp : spaced width m) by (by eapply spaced_chunk).
  assert (Hnn : NoDup nodes) by by apply NoDup_slab_nodes.
  assert (Hlen : (0 < length nodes)%nat).
  { unfold nodes. rewrite length_slab_nodes. pose proof slabs_per_chunk_bound. lia. }
  clearbody nodes. exists (reverse nodes). split.
  - split; cbn [simple_memory _linked_list_of_free_slabs]; [done | | | done | done].
    + apply NoDup_app. split; [by rewrite (reverse_Permutation nodes) |]. split; [| done].
      intros x Hx Hh. rewrite elem_of_reverse in Hx. destruct (Hfresh x Hx) as [Hx' _]. by apply Hx', Hd.
    + intros x. rewrite Hd', elem_of_union, elem_of_list_to_set, Hd, !elem_of_app, elem_of_reverse,
        elem_of_nil. tauto.
  - intros Hnil. apply (f_equal length) in Hnil. rewrite length_reverse in Hnil. simpl in Hnil. lia.
Qed.

Lemma simple_pop s held free :
  simple_inv s held free -> free <> [] ->
  exists x free', free = x :: free' /\ load_next (simple_memory s) (_linked_list_of_free_slabs s)
      = Ok (match simple_memory s !! x with Some n => n | None => 0 end) /\
    _linked_list_of_free_slabs s = x /\
    simple_inv (mkSimple (simple_memory s) (match simple_memory s !! x with Some n => n | None => 0 end)
                  (_allocated_chunks s)) (x :: held) free'.
Proof.
  intros [Hc Hnd Hd Hs Hn] Hne. destruct free as [| x free]; [done |]. simpl in Hc.
  destruct Hc as (Hp & H0 & next & Hm & Hc). exists x, free. split; [done |]. rewrite Hp, Hm.
  unfold load_next. rewrite Hm. split; [done |]. split; [done |].
  split; cbn [simple_memory _linked_list_of_free_slabs]; [done | | | done | by constructor].
  - rewrite <- Permutation_middle. exact Hnd.
  - intros y. rewrite Hd. by rewrite <- Permutation_middle.
Qed.

Lemma run_client_ok op s held free :
  simple_inv s held free -> client_ok op held ->
  exists s' held' free', run_client op s held = Ok (s', held') /\ simple_inv s' held' free'.
Proof.
  intros Hi Hop. destruct op as [| slab | slab v]; simpl in *.
  - unfold allocate. cbn [Z.eqb negb Pos.eqb].
    assert (H1 : exists s1 free1, (if _linked_list_of_free_slabs s =? 0 then _allocate_one_chunk s else s) = s1
              /\ simple_inv s1 held free1 /\ free1 <> []).
    { destruct free as [| x free].
      - pose proof (si_chain _ _ _ Hi) as Hc. simpl in Hc. rewrite Hc. simpl.
        destruct (simple_chunk s held Hi) as (free1 & H1 & H2). eauto.
      - pose proof (si_chain _ _ _ Hi) as (Hp & H0 & _). rewrite (proj2 (Z.eqb_neq _ _)) by congruence.
        eauto. }
    destruct H1 as (s1 & free1 & -> & Hi1 & Hne).
    destruct (simple_pop s1 held free1 Hi1 Hne) as (x & free' & -> & E & Hp & Hi'). rewrite E, Hp.
    do 3 eexists. split; [done |]. exact Hi'.
  - destruct Hi as [Hc Hnd Hd Hs Hn].
    assert (Hin : slab ∈ dom (simple_memory s)) by (apply Hd, elem_of_app; by right).
    pose proof Hin as [v Hv]%elem_of_dom. unfold deallocate, store_next. cbn [Z.eqb negb Pos.eqb].
    rewrite Hv. apply NoDup_app in Hnd as (Hnd1 & Hdis & Hnd2).
    assert (Hnf : slab ∉ free) by (intros Hf; by apply (Hdis _ Hf)).
    do 2 eexists. exists (slab :: free). split; [done |].
    split; cbn [simple_memory _linked_list_of_free_slabs].
    + apply chain_push; [| done | done]. rewrite Forall_forall in Hn. by apply Hn.
    + simpl. constructor.
      * rewrite elem_of_app, list_elem_of_filter. naive_solver.
      * apply NoDup_app. split; [done |]. split; [| by apply NoDup_filter].
        intros x Hx. rewrite list_elem_of_filter. intros [_ Hh]. by apply (Hdis x).
    + intros x. rewrite dom_insert_L, elem_of_union, elem_of_singleton, Hd. simpl.
      rewrite elem_of_cons, !elem_of_app, list_elem_of_filter.
      destruct (decide (x = slab)); naive_solver.
    + intros a b. rewrite !dom_insert_lookup_L by (by exists v). apply Hs.
    + apply Forall_forall. intros x. rewrite list_elem_of_filter. intros [_ Hx].
      rewrite Forall_forall in Hn. by apply Hn.
  - destruct Hi as [Hc Hnd Hd Hs Hn].
    assert (Hin : slab ∈ dom (simple_memory s)) by (apply Hd, elem_of_app; by right).
    apply elem_of_dom in Hin as [w Hw]. unfold store_next. rewrite Hw.
    do 2 eexists. exists free. split; [done |].
    split; cbn [simple_memory _linked_list_of_free_slabs]; try done.
    + apply chain_frame; [| done]. apply NoDup_app in Hnd as (_ & Hdis & _).
      intros Hf. by apply (Hdis _ Hf).
    + intros x. by rewrite dom_insert_lookup_L by (by exists w).
    + intros a b. rewrite !dom_insert_lookup_L by (by exists w). apply Hs.
Qed.

Lemma new_simple_inv : simple_inv new_SimpleSlabAllocator [] [].
Proof.
  split; cbn [new_SimpleSlabAllocator simple_memory _linked_list_of_free_slabs app].
  - done.
  - apply NoDup_nil_2.
  - intros x. rewrite dom_empty_L, elem_of_nil. apply elem_of_empty.
  - intros a b Ha. rewrite dom_empty_L in Ha. by apply elem_of_empty in Ha.
  - by apply Forall_nil.
Qed.

Lemma run_clients_ok ops s held free :
  simple_inv s held free -> clients_ok ops s held ->
  exists s' held' free', run_clients ops s held = Ok (s', held') /\ simple_inv s' held' free'.
Proof.
  revert s held free. induction ops as [| op ops IH]; simpl; intros s held free Hi; [eauto |].
  intros [Hop Hops]. destruct (run_client_ok op s held free Hi Hop) as (s' & held' & free' & E & Hi').
  rewrite E. eauto.
Qed.

Lemma simple_runs ops :
  clients_ok ops new_SimpleSlabAllocator [] ->
  exists s held, run_clients ops new_SimpleSlabAllocator [] = Ok (s, held).
Proof.
  intros Hops. destruct (run_clients_ok ops _ _ _ new_simple_inv Hops) as (s & held & _ & E & _). eauto.
Qed.

(** Whatever its clients do with the slabs they hold (writing over them, giving
    them back once each), the allocator never touches memory it does not own, never
    hands out a slab that a client still holds, and the slabs held at any time do
    not overlap. *)
Theorem simple_slab_allocator_safe ops (Hops : clients_ok ops new_SimpleSlabAllocator []) :
  exists s held, run_clients ops new_SimpleSlabAllocator [] = Ok (s, held) /\ NoDup held /\
    (forall x y, x ∈ held -> y ∈ held -> x <> y -> separate width x y) /\
    (forall x, x ∈ held -> x <> 0 /\ x ∈ dom (simple_memory s)).
Proof.
  destruct (run_clients_ok ops _ _ _ new_simple_inv Hops) as (s & held & free & E & []).
  exists s, held. split; [done |]. apply NoDup_app in si_nodup0 as (_ & _ & Hnd). split; [done |].
  assert (Hin : forall x, x ∈ held -> x ∈ dom (simple_memory s)).
  { intros x Hx. apply si_dom0, elem_of_app. by right. }
  split; [intros x y Hx Hy; apply si_spaced0; by apply Hin |].
  intros x Hx. split; [rewrite Forall_forall in si_nonnull0; by apply si_nonnull0 | by apply Hin].
Qed.
End Simple.

(** A concrete [aligned_alloc]: past everything allocated so far. *)
Definition sample_aalloc (m : memory) : Z := foldr Z.max 0 (elements (dom m)) + 16.

Lemma sample_aalloc_law : aalloc_law 16 sample_aalloc.
Proof.
  assert (Hmax : forall l : list Z, 0 <= foldr Z.max 0 l /\ forall a, a ∈ l -> a <= foldr Z.max 0 l).
  { induction l as [| b l [IH1 IH2]]; simpl; [split; [lia | by intros a ?%elem_of_nil] |].
    split; [lia |]. intros a [-> | Ha]%elem_of_cons; [lia |]. specialize (IH2 a Ha). lia. }
  split; [lia | |]; unfold sample_aalloc.
  - intros m. pose proof (proj1 (Hmax (elements (dom m)))). lia.
  - intros m a i Ha _. left. apply elem_of_elements in Ha.
    pose proof (proj2 (Hmax _) a Ha). lia.
Qed.

Lemma simple_slab_allocator_safe_witness :
  exists s held, run_clients 16 sample_aalloc [Allocate; Allocate] new_SimpleSlabAllocator []
    = Ok (s, held) /\ NoDup held.
Proof.
  destruct (simple_slab_allocator_safe 16 sample_aalloc sample_aalloc_law [Allocate; Allocate])
    as (s & held & E & H & _); [by split; [| intros; split; [| intros]] |].
  exists s, held. exact (conj E H).
Defined.
