(* ===== verification/ThreadLocalSlabAllocator.v ===== *)
(** The thread-local slab allocator ([include/util/slab_allocator.h]): a free list
    per thread, and a central pool of whole chunks shared by the threads. *)
From S2P Require Import Prelude SlabMemory SlabAllocator.
From stdpp Require Import fin_maps functions sorting.
Open Scope Z_scope.

Lemma Forall2_impl_elem_r {A B} (P Q : A -> B -> Prop) l k :
  Forall2 P l k -> (forall x y, y ∈ k -> P x y -> Q x y) -> Forall2 Q l k.
Proof.
  induction 1 as [| x y l k Hp H IH]; intros Hq; constructor; [apply Hq; [by left | done] |].
  apply IH. intros ? z Hz. apply Hq. by right.
Qed.

Lemma elem_of_concat {A} (x : A) c l : x ∈ c -> c ∈ l -> x ∈ concat l.
Proof. rewrite !list_elem_of_In, in_concat. eauto. Qed.

(** * [StaticThreadLocalSlabAllocator]

    Every thread has a free list, its length and a threshold above which it cuts a
    whole chunk off the list for the central pool, which is shared under a mutex
    (so each operation is atomic here).  A slab may be given back by another
    thread than the one that took it. *)
Record FreeChunkNode := mkFreeChunk { chunk_head : Z; chunk_tail : Z }.

Record local_pool := mkLocal {
  tl_free : Z;
  _number_of_free_slabs : nat;
  _cut_off_threshold : nat;
  local_chunks : list Z
}.

Record StaticThreadLocalSlabAllocator := mkTL {
  tl_memory : memory;
  locals : nat -> local_pool;
  _free_chunks : list FreeChunkNode
}.

Definition new_local : local_pool := mkLocal 0 0 _NUMBER_OF_SLABS_PER_CHUNK [].
Definition new_StaticThreadLocalSlabAllocator : StaticThreadLocalSlabAllocator :=
  mkTL ∅ (fun _ => new_local) [].

(** [for (i < n) p = p->next] *)
Fixpoint walk (n : nat) (m : memory) (p : Z) : result Z :=
  match n with
  | O => Ok p
  | S n => let* next := load_next m p in walk n m next
  end.

Definition unsnoc {A} (l : list A) : option (list A * A) :=
  match reverse l with [] => None | x :: r => Some (reverse r, x) end.

Section ThreadLocal.
Context (width : Z) (aalloc : memory -> Z).
Abbreviation N := _NUMBER_OF_SLABS_PER_CHUNK.

Definition tl_allocate_one_chunk (l : local_pool) (m : memory) : memory * local_pool :=
  let new_chunk := aalloc m in
  let '(m, free) := carve width N new_chunk (tl_free l) m in
  (m, mkLocal free (_number_of_free_slabs l) (_cut_off_threshold l) (local_chunks l ++ [new_chunk])).

(** The part of [allocate] that refills an empty free list. *)
Definition refill (t : nat) (s : StaticThreadLocalSlabAllocator)
    : result StaticThreadLocalSlabAllocator :=
  let l := locals s t in
  if negb (_number_of_free_slabs l =? 0)%nat then Ok s
  else
    let '(node, free_chunks) :=
      match unsnoc (_free_chunks s) with
      | Some (rest, node) => (node, rest)
      | None => (mkFreeChunk 0 0, _free_chunks s)
      end in
    let* (m, l) :=
      if negb (chunk_head node =? 0) then
        let* m := store_next (chunk_tail node) (tl_free l) (tl_memory s) in
        Ok (m, mkLocal (chunk_head node) (_number_of_free_slabs l) (_cut_off_threshold l) (local_chunks l))
      else
        let '(m, l) := tl_allocate_one_chunk l (tl_memory s) in
        Ok (m, mkLocal (tl_free l) (_number_of_free_slabs l) (_cut_off_threshold l + N) (local_chunks l)) in
    Ok (mkTL m (<[t := mkLocal (tl_free l) (_number_of_free_slabs l + N) (_cut_off_threshold l) (local_chunks l)]>
                  (locals s)) free_chunks).

Definition tl_allocate (t : nat) (n : Z) (s : StaticThreadLocalSlabAllocator)
    : result (Z * StaticThreadLocalSlabAllocator) :=
  if negb (n =? 1) then Err Uncaught
  else
    let* s := refill t s in
    let l := locals s t in
    let chosen_slab := tl_free l in
    let* next := load_next (tl_memory s) chosen_slab in
    Ok (chosen_slab,
        mkTL (tl_memory s)
          (<[t := mkLocal next (_number_of_free_slabs l - 1) (_cut_off_threshold l) (local_chunks l)]> (locals s))
          (_free_chunks s)).

(** The part of [deallocate] that moves a chunk to the central pool. *)
Definition cut_off (t : nat) (s : StaticThreadLocalSlabAllocator)
    : result StaticThreadLocalSlabAllocator :=
  let l := locals s t in
  if (_number_of_free_slabs l <? _cut_off_threshold l)%nat then Ok s
  else
    let head := tl_free l in
    let* tail := walk (N - 1) (tl_memory s) head in
    let* rest := load_next (tl_memory s) tail in
    let* m := store_next tail 0 (tl_memory s) in
    Ok (mkTL m
          (<[t := mkLocal rest (_number_of_free_slabs l - N) (_cut_off_threshold l) (local_chunks l)]> (locals s))
          (_free_chunks s ++ [mkFreeChunk head tail])).

Definition tl_deallocate (t : nat) (slab n : Z) (s : StaticThreadLocalSlabAllocator)
    : result StaticThreadLocalSlabAllocator :=
  if negb (n =? 1) then Err Fatal
  else
    let l := locals s t in
    let* m := store_next slab (tl_free l) (tl_memory s) in
    cut_off t
      (mkTL m (<[t := mkLocal slab (_number_of_free_slabs l + 1) (_cut_off_threshold l) (local_chunks l)]> (locals s))
         (_free_chunks s)).

(** ** Clients in several threads *)
Inductive tl_op := TlAllocate (t : nat) | TlDeallocate (t : nat) (slab : Z) | TlWrite (slab v : Z).

Definition run_tl (op : tl_op) (s : StaticThreadLocalSlabAllocator) (held : list Z)
    : result (StaticThreadLocalSlabAllocator * list Z) :=
  match op with
  | TlAllocate t => let* (x, s) := tl_allocate t 1 s in Ok (s, x :: held)
  | TlDeallocate t slab =>
      let* s := tl_deallocate t slab 1 s in Ok (s, filter (fun x => x <> slab) held)
  | TlWrite slab v =>
      let* m := store_next slab v (tl_memory s) in Ok (mkTL m (locals s) (_free_chunks s), held)
  end.

Definition tl_op_ok (op : tl_op) (held : list Z) : Prop :=
  match op with TlAllocate _ => True | TlDeallocate _ slab | TlWrite slab _ => slab ∈ held end.

Fixpoint run_tls (ops : list tl_op) (s : StaticThreadLocalSlabAllocator) (held : list Z)
    : result (StaticThreadLocalSlabAllocator * list Z) :=
  match ops with
  | [] => Ok (s, held)
  | op :: ops => let* (s, held) := run_tl op s held in run_tls ops s held
  end.

Fixpoint tls_ok (ops : list tl_op) (s : StaticThreadLocalSlabAllocator) (held : list Z) : Prop :=
  match ops with
  | [] => True
  | op :: ops => tl_op_ok op held /\
      forall s' held', run_tl op s held = Ok (s', held') -> tls_ok ops s' held'
  end.

(** [frees t] is the free list of thread [t], [central] the chunks of the central
    pool. *)
Record tl_inv (s : StaticThreadLocalSlabAllocator) (held : list Z) (frees : nat -> list Z)
    (central : list (list Z)) : Prop := {
  tl_chain t : chain (tl_memory s) (tl_free (locals s t)) (frees t);
  tl_number t : _number_of_free_slabs (locals s t) = length (frees t);
  tl_threshold t : (N <= _cut_off_threshold (locals s t))%nat;
  tl_central : Forall2 (fun node c => chain (tl_memory s) (chunk_head node) c /\
                  last c = Some (chunk_tail node) /\ length c = N) (_free_chunks s) central;
  tl_nodup : NoDup (held ++ concat central);
  tl_nodup_free t : NoDup (frees t);
  tl_disjoint t x : x ∈ frees t -> x ∉ held ++ concat central;
  tl_disjoint' t t' x : t <> t' -> x ∈ frees t -> x ∉ frees t';
  tl_dom x : x ∈ held ++ concat central -> x ∈ dom (tl_memory s);
  tl_nonnull x : x ∈ held -> x <> 0;
  tl_spaced : spaced width (tl_memory s)
}.

Context (Haalloc : aalloc_law width aalloc).
Set Default Proof Using "All".

Definition strict_except (t : nat) (s : StaticThreadLocalSlabAllocator) : Prop :=
  forall t', t' <> t ->
    (_number_of_free_slabs (locals s t') < _cut_off_threshold (locals s t'))%nat.

Definition strict (s : StaticThreadLocalSlabAllocator) : Prop :=
  forall t, (_number_of_free_slabs (locals s t) < _cut_off_threshold (locals s t))%nat.

Lemma walk_spec m p l n x : chain m p l -> l !! n = Some x -> walk n m p = Ok x.
Proof.
  revert p l. induction n as [| n IH]; intros p [| y l]; try done; simpl.
  - by intros (-> & _) [= ->].
  - intros (-> & _ & next & Hm & Hc) Hx. unfold load_next. rewrite Hm. simpl. by eapply IH.
Qed.

(** The invariant when only the local pool of [t] changes, besides the words of
    slabs in nobody else's list. *)
Lemma tl_inv_update t l m s held frees central lt chunks held' central' :
  tl_inv s held frees central ->
  chain m (tl_free l) lt -> _number_of_free_slabs l = length lt ->
  (N <= _cut_off_threshold l)%nat -> NoDup lt ->
  (forall t' x, t' <> t -> x ∈ frees t' -> m !! x = tl_memory s !! x) ->
  (forall t' x, t' <> t -> x ∈ frees t' -> x ∉ lt) ->
  (forall t' x, t' <> t -> x ∈ frees t' -> x ∉ held' ++ concat central') ->
  Forall2 (fun node c => chain m (chunk_head node) c /\ last c = Some (chunk_tail node) /\
             length c = N) chunks central' ->
  NoDup (held' ++ concat central') -> (forall x, x ∈ lt -> x ∉ held' ++ concat central') ->
  (forall x, x ∈ held' ++ concat central' -> x ∈ dom m) -> (forall x, x ∈ held' -> x <> 0) ->
  spaced width m ->
  tl_inv (mkTL m (<[t := l]> (locals s)) chunks) held' (<[t := lt]> frees) central'.
Proof.
  intros Hi Hc Hn Ht Hnd Hm Hd1 Hd2 Hcen Hnd2 Hd3 Hdom Hnn Hsp.
  split; cbn [tl_memory locals _free_chunks]; try done; intros t';
    (destruct (decide (t' = t)) as [-> | Hne];
     [rewrite ?fn_lookup_insert | rewrite ?(fn_lookup_insert_ne _ t t') by done]); try done.
  - apply (chain_mono (tl_memory s)); [by intros x Hx; eapply Hm | apply Hi].
  - apply Hi.
  - apply Hi.
  - apply Hi.
  - intros x Hx. by apply (Hd2 t').
  - intros t2 x Hne Hx. rewrite fn_lookup_insert_ne by done. intros Hx2. by apply (Hd1 t2 x).
  - intros t2 x Hne2. destruct (decide (t2 = t)) as [-> | Hne3].
    + rewrite fn_lookup_insert. intros Hx. by apply (Hd1 t').
    + rewrite fn_lookup_insert_ne by done. by apply Hi.
Qed.

Lemma unsnoc_Some {A} (l rest : list A) x : unsnoc l = Some (rest, x) -> l = rest ++ [x].
Proof using.
  unfold unsnoc. destruct (reverse l) as [| y r] eqn:E; [done |]. intros [= <- <-].
  rewrite <- (reverse_involutive l), E. by rewrite reverse_cons.
Qed.

Lemma unsnoc_None {A} (l : list A) : unsnoc l = None -> l = [].
Proof using.
  unfold unsnoc. destruct (reverse l) as [| y r] eqn:E; [| done]. intros _.
  by rewrite <- (reverse_involutive l), E.
Qed.

Definition refilled (t : nat) (held : list Z) (r : result StaticThreadLocalSlabAllocator) : Prop :=
  exists s frees central, r = Ok s /\ tl_inv s held frees central /\ frees t <> [] /\
    strict_except t s /\ (_number_of_free_slabs (locals s t) <= _cut_off_threshold (locals s t))%nat.

Lemma strict_except_update t l m chunks s :
  strict s -> strict_except t (mkTL m (<[t := l]> (locals s)) chunks).
Proof. intros Hs t' Hne. cbn. rewrite fn_lookup_insert_ne by done. apply Hs. Qed.

(** An empty pool takes a fresh chunk when the central pool has none. *)
Lemma refill_carve t s held frees central :
  tl_inv s held frees central -> strict s -> frees t = [] -> _free_chunks s = [] ->
  refilled t held (refill t s).
Proof.
  intros Hi Hst Hf Hch. pose proof Haalloc as [Hw Hp _].
  pose proof (tl_chain _ _ _ _ Hi t) as Hc. pose proof (tl_number _ _ _ _ Hi t) as Hn.
  pose proof (tl_threshold _ _ _ _ Hi t) as Ht. rewrite Hf in Hc, Hn. simpl in Hc, Hn.
  unfold refilled, refill. rewrite Hn, Hch. cbn [Nat.eqb negb unsnoc reverse rev_append chunk_head Z.eqb].
  unfold tl_allocate_one_chunk.
  pose proof (fun x => chunk_fresh width aalloc (tl_memory s) x Haalloc) as Hfresh.
  set (nodes := slab_nodes width (aalloc (tl_memory s)) N) in *.
  destruct (carve_spec width N (aalloc (tl_memory s)) (tl_free (locals s t)) (tl_memory s) [] Hw
              (Hp _) (fun x _ => not_elem_of_nil x) Hc) as (m & p & E & Hc' & Hd' & Ho & _).
  rewrite E. fold nodes in Hc', Hd', Ho. rewrite app_nil_r in Hc'.
  assert (Hsp : spaced width m) by (eapply spaced_chunk; [exact Haalloc | apply Hi | exact Hd']).
  assert (Hnn : NoDup nodes) by by apply NoDup_slab_nodes.
  assert (Hlen : length nodes = N) by apply length_slab_nodes.
  pose proof slabs_per_chunk_bound as Hb. clearbody nodes.
  assert (Hhc : central = []) by (pose proof (tl_central _ _ _ _ Hi) as H; rewrite Hch in H; by inversion H).
  subst central. assert (Hold : forall t' x, x ∈ frees t' -> x ∉ nodes).
  { intros t' x Hx Hin. apply (proj1 (Hfresh x Hin)). eapply chain_dom; [apply Hi | exact Hx]. }
  cbn [tl_free _number_of_free_slabs _cut_off_threshold].
  do 3 eexists. split; [reflexivity |]. split.
  { apply (tl_inv_update t _ _ _ _ _ _ (reverse nodes) [] held [] Hi).
    - exact Hc'.
    - cbn. rewrite length_reverse. lia.
    - cbn. lia.
    - by rewrite (reverse_Permutation nodes).
    - intros t' x _ Hx. apply Ho. by eapply Hold.
    - intros t' x _ Hx. rewrite elem_of_reverse. by eapply Hold.
    - intros t' x _ Hx. by eapply (tl_disjoint _ _ _ _ Hi).
    - constructor.
    - apply Hi.
    - intros x Hx Hh. rewrite elem_of_reverse in Hx. apply (proj1 (Hfresh x Hx)). by apply Hi.
    - intros x Hx. rewrite Hd', elem_of_union. right. by apply Hi.
    - apply Hi.
    - exact Hsp. }
  rewrite fn_lookup_insert. split.
  { intros Hnil. apply (f_equal length) in Hnil. rewrite length_reverse in Hnil. simpl in Hnil. lia. }
  split; [by apply strict_except_update |]. cbn. rewrite fn_lookup_insert. cbn. lia.
Qed.

(** An empty pool takes the last chunk of the central pool. *)
Lemma refill_central t s held frees central rest node :
  tl_inv s held frees central -> strict s -> frees t = [] -> _free_chunks s = rest ++ [node] ->
  refilled t held (refill t s).
Proof.
  intros Hi Hst Hf Hch. pose proof (tl_chain _ _ _ _ Hi t) as Hc.
  pose proof (tl_number _ _ _ _ Hi t) as Hn. pose proof (tl_threshold _ _ _ _ Hi t) as Ht.
  rewrite Hf in Hc, Hn. simpl in Hc, Hn.
  unfold refilled, refill. rewrite Hn.
  assert (Hu : unsnoc (_free_chunks s) = Some (rest, node)).
  { rewrite Hch. unfold unsnoc. rewrite reverse_snoc. by rewrite reverse_involutive. }
  rewrite Hu. cbn [Nat.eqb negb]. pose proof (tl_central _ _ _ _ Hi) as Hcen. rewrite Hch in Hcen.
  apply Forall2_app_inv_l in Hcen as (cs & c' & Hcs & Hnode & ->).
  inversion Hnode as [| ? c ? ? (Hchain & Hlast & Hlen) Hnil]; subst. inversion Hnil; subst.
  pose proof slabs_per_chunk_bound as Hb.
  assert (Hne : c <> []) by (intros ->; simpl in Hlen; lia).
  destruct (chain_head _ _ _ Hchain Hne) as [H0 _]. rewrite (proj2 (Z.eqb_neq _ _)) by done.
  cbn [negb]. unfold store_next. pose proof (chain_last _ _ _ _ Hchain Hlast) as Hm. rewrite Hm, Hc.
  rewrite (insert_id _ _ _ Hm). cbn [tl_free _number_of_free_slabs _cut_off_threshold].
  pose proof (tl_nodup _ _ _ _ Hi) as Hnd. rewrite concat_app, concat_cons, concat_nil, app_nil_r in Hnd.
  assert (Hin : forall x, x ∈ c -> x ∈ held ++ concat (cs ++ [c])).
  { intros x Hx. rewrite concat_app, concat_cons, concat_nil, app_nil_r, !elem_of_app. auto. }
  assert (Hsub : forall x, x ∈ held ++ concat cs -> x ∈ held ++ concat (cs ++ [c])).
  { intros x. rewrite concat_app, !elem_of_app. tauto. }
  rewrite app_assoc in Hnd. apply NoDup_app in Hnd as (Hnd1 & Hdis & Hnd2).
  do 3 eexists. split; [reflexivity |]. split.
  { apply (tl_inv_update t _ _ _ _ _ _ c rest held cs Hi); cbn.
    - done.
    - lia.
    - lia.
    - done.
    - done.
    - intros t' x _ Hx Hxc. by apply (tl_disjoint _ _ _ _ Hi t' x Hx), Hin.
    - intros t' x _ Hx Hxc. by apply (tl_disjoint _ _ _ _ Hi t' x Hx), Hsub.
    - done.
    - done.
    - intros x Hx Hh. by apply (Hdis x Hh).
    - intros x Hx. by apply (tl_dom _ _ _ _ Hi), Hsub.
    - apply Hi.
    - apply Hi. }
  rewrite fn_lookup_insert. split; [done |]. split; [by apply strict_except_update |].
  cbn. rewrite fn_lookup_insert. cbn. lia.
Qed.

Lemma refill_ok t s held frees central :
  tl_inv s held frees central -> strict s -> refilled t held (refill t s).
Proof.
  intros Hi Hst. destruct (frees t) as [| x l] eqn:Hf.
  - destruct (unsnoc (_free_chunks s)) as [[rest node] |] eqn:Hu.
    + eapply refill_central; [done.. | by apply unsnoc_Some].
    + eapply refill_carve; [done.. | by apply unsnoc_None].
  - pose proof (tl_number _ _ _ _ Hi t) as Hn. rewrite Hf in Hn. unfold refill. rewrite Hn. cbn.
    exists s, frees, central. split; [done |]. split; [done |]. rewrite Hf. split; [done |].
    split; [intros t' _; apply Hst | specialize (Hst t); lia].
Qed.

Lemma tl_allocate_ok t s held frees central :
  tl_inv s held frees central -> strict s ->
  exists x s' frees' central', tl_allocate t 1 s = Ok (x, s') /\
    tl_inv s' (x :: held) frees' central' /\ strict s'.
Proof.
  intros Hi Hst. destruct (refill_ok t s held frees central Hi Hst)
    as (s1 & fr & cen & E & Hi1 & Hne & Hse & Hle).
  unfold tl_allocate. cbn [Z.eqb negb Pos.eqb]. rewrite E. destruct (fr t) as [| x l] eqn:Hf; [done |].
  pose proof (tl_chain _ _ _ _ Hi1 t) as Hc. pose proof (tl_number _ _ _ _ Hi1 t) as Hn.
  pose proof (tl_nodup_free _ _ _ _ Hi1 t) as Hnd. pose proof (tl_disjoint _ _ _ _ Hi1 t) as Hdj.
  rewrite Hf in Hc, Hn, Hnd, Hdj. pose proof Hc as Hc0. apply NoDup_cons in Hnd as [Hx Hnd].
  destruct Hc as (-> & H0 & next & Hm & Hc). unfold load_next. rewrite Hm. cbn [of_option].
  assert (Hxt : x ∈ fr t) by (rewrite Hf; by left).
  do 4 eexists. split; [reflexivity |]. split.
  { apply (tl_inv_update t _ _ _ _ _ _ l _ (x :: held) cen Hi1); cbn.
    - done.
    - rewrite Hn. simpl. lia.
    - apply Hi1.
    - done.
    - done.
    - intros t' y Hne' Hy Hl. apply (tl_disjoint' _ _ _ _ Hi1 t' t y Hne' Hy). rewrite Hf. by right.
    - intros t' y Hne' Hy [-> | Hl]%elem_of_cons.
      + by apply (tl_disjoint' _ _ _ _ Hi1 t' t x Hne' Hy).
      + by apply (tl_disjoint _ _ _ _ Hi1 t' y Hy).
    - apply Hi1.
    - constructor; [apply Hdj; by left | apply Hi1].
    - intros y Hy [-> | Hl]%elem_of_cons; [done |]. apply (Hdj y); [by right | done].
    - intros y [-> | Hl]%elem_of_cons; [by eapply elem_of_dom_2 | by apply Hi1].
    - intros y [-> | Hl]%elem_of_cons; [done | by apply (tl_nonnull _ _ _ _ Hi1)].
    - apply Hi1. }
  intros t'. cbn. destruct (decide (t' = t)) as [-> | Hne']; [| rewrite fn_lookup_insert_ne by done; by apply Hse].
  rewrite fn_lookup_insert. cbn. simpl in Hn. lia.
Qed.

Lemma held_central_snoc (held : list Z) central c :
  held ++ concat (central ++ [c]) = (held ++ concat central) ++ c.
Proof using. by rewrite concat_app, concat_cons, concat_nil, app_nil_r, app_assoc. Qed.

(** The front [a] of a free list, whose last slab is [x], becomes a chunk of the
    central pool. *)
Lemma cut_inv t s held frees central a b x r th cs :
  tl_inv s held frees central -> frees t = a ++ b -> last a = Some x -> length a = N ->
  is_Some (tl_memory s !! x) -> chain (tl_memory s) r b ->
  chain (<[x := 0]> (tl_memory s)) (tl_free (locals s t)) a -> (N <= th)%nat ->
  tl_inv (mkTL (<[x := 0]> (tl_memory s)) (<[t := mkLocal r (length b) th cs]> (locals s))
            (_free_chunks s ++ [mkFreeChunk (tl_free (locals s t)) x]))
    held (<[t := b]> frees) (central ++ [a]).
Proof.
  intros Hi Hab Hxa Hla Hx Hb Ha Hth. pose proof (tl_nodup_free _ _ _ _ Hi t) as Hnd.
  rewrite Hab in Hnd. apply NoDup_app in Hnd as (Hnda & Hdis & Hndb).
  assert (Hin : forall y, y ∈ frees t <-> y ∈ a \/ y ∈ b) by (intros y; by rewrite Hab, elem_of_app).
  assert (Hxin : x ∈ a) by (by apply last_Some_elem_of in Hxa).
  assert (Hfree : forall y, y ∈ a \/ y ∈ b -> y ∉ held ++ concat central).
  { intros y Hy. by apply (tl_disjoint _ _ _ _ Hi t y), Hin. }
  apply (tl_inv_update t _ _ _ _ _ _ b _ held (central ++ [a]) Hi); cbn; rewrite ?held_central_snoc;
    [| done | done | done | | | | | | | | apply (tl_nonnull _ _ _ _ Hi) |].
  - apply chain_frame; [by apply Hdis | done].
  - intros t' y Hne Hy. rewrite lookup_insert_ne; [done |]. intros <-.
    apply (tl_disjoint' _ _ _ _ Hi t' t x Hne Hy), Hin. by left.
  - intros t' y Hne Hy Hyb. apply (tl_disjoint' _ _ _ _ Hi t' t y Hne Hy), Hin. by right.
  - intros t' y Hne Hy. rewrite elem_of_app. intros [Hh | Hya]; [by apply (tl_disjoint _ _ _ _ Hi t' y Hy) |].
    apply (tl_disjoint' _ _ _ _ Hi t' t y Hne Hy), Hin. by left.
  - apply Forall2_app; [| by repeat constructor].
    eapply Forall2_impl_elem_r; [apply (tl_central _ _ _ _ Hi) |].
    intros node c Hcin (H1 & H2 & H3). split; [| done]. apply chain_frame; [| done].
    intros Hxc. apply (Hfree x ltac:(by left)), elem_of_app. right. by eapply elem_of_concat.
  - apply NoDup_app. split; [apply Hi |]. split; [| done]. intros y Hy Hya. by apply (Hfree y ltac:(by left)).
  - intros y Hy. rewrite elem_of_app. intros [Hh | Hya]; [by apply (Hfree y ltac:(by right)) | by apply (Hdis y)].
  - intros y. rewrite elem_of_app, dom_insert_lookup_L by done. intros [Hh | Hya]; [by apply Hi |].
    eapply chain_dom; [apply Hi |]. apply Hin. by left.
  - intros y z. rewrite !dom_insert_lookup_L by done. apply Hi.
Qed.

Lemma cut_off_ok t s held frees central :
  tl_inv s held frees central -> strict_except t s ->
  (_number_of_free_slabs (locals s t) <= _cut_off_threshold (locals s t))%nat ->
  exists s' frees' central', cut_off t s = Ok s' /\ tl_inv s' held frees' central' /\ strict s'.
Proof.
  intros Hi Hse Hle. unfold cut_off.
  pose proof (tl_threshold _ _ _ _ Hi t) as Ht. pose proof (tl_number _ _ _ _ Hi t) as Hn.
  pose proof (tl_chain _ _ _ _ Hi t) as Hc. pose proof (tl_nodup_free _ _ _ _ Hi t) as Hnd.
  destruct (Nat.ltb_spec (_number_of_free_slabs (locals s t)) (_cut_off_threshold (locals s t))) as [Hlt | Hge].
  { do 3 eexists. split; [done |]. split; [done |]. intros t'.
    destruct (decide (t' = t)) as [-> | Hne']; [done | by apply Hse]. }
  pose proof slabs_per_chunk_bound as Hb.
  destruct (lookup_lt_is_Some_2 (frees t) (N - 1)) as [x Hx]; [lia |].
  rewrite (walk_spec _ _ _ _ _ Hc Hx).
  destruct (chain_cut _ _ _ _ _ Hnd Hc Hx) as (r & Hr & Hd & Htk).
  unfold load_next, store_next. rewrite Hr. cbn [of_option].
  replace (S (N - 1)) with N in Hd, Htk by lia.
  assert (Hxa : last (take N (frees t)) = Some x).
  { rewrite last_lookup, length_take, lookup_take_lt by lia.
    by replace (pred (N `min` length (frees t))) with (N - 1)%nat by lia. }
  replace (_number_of_free_slabs (locals s t) - N)%nat with (length (drop N (frees t)))
    by (rewrite length_drop; lia).
  do 3 eexists. split; [reflexivity |]. split.
  { apply (cut_inv t s held frees central (take N (frees t))); try done;
      [by rewrite take_drop | rewrite length_take; lia]. }
  intros t'. cbn. destruct (decide (t' = t)) as [-> | Hne']; [| rewrite fn_lookup_insert_ne by done; by apply Hse].
  rewrite fn_lookup_insert. cbn. rewrite length_drop. lia.
Qed.

Lemma NoDup_filter_app slab (held l : list Z) :
  NoDup (held ++ l) -> NoDup (filter (fun x => x <> slab) held ++ l).
Proof using.
  intros (H1 & H2 & H3)%NoDup_app. apply NoDup_app. split; [by apply NoDup_filter |].
  split; [| done]. intros x [_ Hx]%list_elem_of_filter. by apply H2.
Qed.

Lemma tl_deallocate_ok t slab s held frees central :
  tl_inv s held frees central -> strict s -> slab ∈ held ->
  exists s' frees' central', tl_deallocate t slab 1 s = Ok s' /\
    tl_inv s' (filter (fun x => x <> slab) held) frees' central' /\ strict s'.
Proof.
  intros Hi Hst Hh. unfold tl_deallocate. cbn [Z.eqb negb Pos.eqb].
  assert (Hin : slab ∈ held ++ concat central) by (apply elem_of_app; by left).
  pose proof (tl_dom _ _ _ _ Hi _ Hin) as [v Hv]%elem_of_dom.
  pose proof (tl_nodup _ _ _ _ Hi) as Hnd.
  assert (Hnf : forall t', slab ∉ frees t').
  { intros t' Hf. by apply (tl_disjoint _ _ _ _ Hi t' slab). }
  assert (Hsub : forall x, x ∈ filter (fun x => x <> slab) held ++ concat central ->
            x ∈ held ++ concat central /\ x <> slab).
  { intros x. rewrite !elem_of_app, list_elem_of_filter. intros [[? ?] | Hx]; [tauto |].
    split; [tauto |]. intros ->. apply NoDup_app in Hnd as (_ & Hdis & _). by apply (Hdis slab). }
  unfold store_next. rewrite Hv.
  eapply (cut_off_ok t _ _ (<[t := slab :: frees t]> frees) central).
  - apply (tl_inv_update t _ _ _ _ _ _ (slab :: frees t) _ (filter (fun x => x <> slab) held) central Hi);
      cbn [tl_free _number_of_free_slabs _cut_off_threshold].
    + apply chain_push; [by apply (tl_nonnull _ _ _ _ Hi) | done | apply Hi].
    + rewrite (tl_number _ _ _ _ Hi). simpl. lia.
    + apply Hi.
    + constructor; [done | apply Hi].
    + intros t' y Hne Hy. rewrite lookup_insert_ne; [done |]. intros <-. by apply (Hnf t').
    + intros t' y Hne Hy [-> | Hf]%elem_of_cons; [by apply (Hnf t') |].
      by apply (tl_disjoint' _ _ _ _ Hi t' t y Hne Hy).
    + intros t' y Hne Hy [Hx _]%Hsub. by apply (tl_disjoint _ _ _ _ Hi t' y Hy).
    + eapply Forall2_impl_elem_r; [apply (tl_central _ _ _ _ Hi) |].
      intros node c Hc (H1 & H2 & H3). split; [| done]. apply chain_frame; [| done].
      intros Hx. apply NoDup_app in Hnd as (_ & Hdis & _). apply (Hdis slab Hh). by eapply elem_of_concat.
    + by apply NoDup_filter_app.
    + intros x Hx [Hx1 Hx2]%Hsub. apply elem_of_cons in Hx as [-> | Hf]; [done |].
      by apply (tl_disjoint _ _ _ _ Hi t x Hf).
    + intros x [Hx _]%Hsub. rewrite dom_insert_lookup_L by by eexists. by apply Hi.
    + intros x [_ Hx]%list_elem_of_filter. by apply (tl_nonnull _ _ _ _ Hi).
    + intros y z. rewrite !dom_insert_lookup_L by by eexists. apply Hi.
  - by apply strict_except_update.
  - cbn. rewrite fn_lookup_insert. cbn. specialize (Hst t). lia.
Qed.

Lemma tl_write_ok slab v s held frees central :
  tl_inv s held frees central -> slab ∈ held ->
  exists m, store_next slab v (tl_memory s) = Ok m /\
    tl_inv (mkTL m (locals s) (_free_chunks s)) held frees central.
Proof.
  intros Hi Hh. assert (Hin : slab ∈ held ++ concat central) by (apply elem_of_app; by left).
  pose proof (tl_dom _ _ _ _ Hi _ Hin) as [w Hw]%elem_of_dom. unfold store_next. rewrite Hw.
  eexists. split; [done |]. destruct Hi as [H1 H2 H3 H4 H5 H6 H7 H8 H9 H10 H11].
  split; cbn [tl_memory locals _free_chunks]; try done.
  - intros t. apply chain_frame; [| done]. intros Hx. by apply (H7 t slab).
  - eapply Forall2_impl_elem_r; [exact H4 |]. intros node c Hc (Hch & Hr). split; [| done].
    apply chain_frame; [| done]. intros Hx. apply NoDup_app in H5 as (_ & Hdis & _).
    apply (Hdis slab Hh). by eapply elem_of_concat.
  - intros x Hx. rewrite dom_insert_lookup_L by by eexists. by apply H9.
  - intros y z. rewrite !dom_insert_lookup_L by by eexists. apply H11.
Qed.

Lemma run_tl_ok op s held frees central :
  tl_inv s held frees central -> strict s -> tl_op_ok op held ->
  exists s' held' frees' central', run_tl op s held = Ok (s', held') /\
    tl_inv s' held' frees' central' /\ strict s'.
Proof.
  intros Hi Hst Hop. destruct op as [t | t slab | slab v]; cbn [run_tl tl_op_ok] in *.
  - destruct (tl_allocate_ok t s held frees central Hi Hst) as (x & s' & fr & cen & -> & Hi' & Hst'). eauto 10.
  - destruct (tl_deallocate_ok t slab s held frees central Hi Hst Hop) as (s' & fr & cen & -> & Hi' & Hst').
    eauto 10.
  - destruct (tl_write_ok slab v s held frees central Hi Hop) as (m & -> & Hi'). eauto 10.
Qed.

Lemma new_tl_inv : tl_inv new_StaticThreadLocalSlabAllocator [] (fun _ => []) [].
Proof.
  split; cbn [new_StaticThreadLocalSlabAllocator tl_memory locals _free_chunks new_local tl_free
    _number_of_free_slabs _cut_off_threshold app concat].
  11: { intros a b Ha. exfalso. revert Ha. apply not_elem_of_dom_2, lookup_empty. }
  all: try done; try (intros; by apply NoDup_nil_2); try (intros * []%elem_of_nil).
  - intros _ x Hx. by apply elem_of_nil in Hx.
  - intros t t' x _ Hx. by apply elem_of_nil in Hx.
Qed.

Lemma run_tls_ok ops s held frees central :
  tl_inv s held frees central -> strict s -> tls_ok ops s held ->
  exists s' held' frees' central', run_tls ops s held = Ok (s', held') /\
    tl_inv s' held' frees' central' /\ strict s'.
Proof.
  revert s held frees central.
  induction ops as [| op ops IH]; cbn [run_tls tls_ok]; intros s held frees central Hi Hst; [eauto 10 |].
  intros [Hop Hops]. destruct (run_tl_ok op s held frees central Hi Hst Hop)
    as (s' & held' & fr & cen & E & Hi' & Hst').
  rewrite E. eauto.
Qed.

Lemma tl_runs ops :
  tls_ok ops new_StaticThreadLocalSlabAllocator [] ->
  exists s held frees central, run_tls ops new_StaticThreadLocalSlabAllocator [] = Ok (s, held) /\
    tl_inv s held frees central /\ strict s.
Proof.
  apply (run_tls_ok ops _ _ _ _ new_tl_inv). intros t. cbn. pose proof slabs_per_chunk_bound. lia.
Qed.

(** C30: Whatever threads allocate, whichever thread gives a slab back, and whatever
    clients write to the slabs they hold: the thread-local allocator never touches
    memory it does not own, never hands out a slab that is still held (by any
    thread), the slabs held do not overlap, and the free list of every thread has
    the length its counter says, below its cut-off threshold. *)
Theorem thread_local_slab_allocator_safe ops
    (Hops : tls_ok ops new_StaticThreadLocalSlabAllocator []) :
  exists s held, run_tls ops new_StaticThreadLocalSlabAllocator [] = Ok (s, held) /\ NoDup held /\
    (forall x y, x ∈ held -> y ∈ held -> x <> y -> separate width x y) /\
    (forall t, exists free, chain (tl_memory s) (tl_free (locals s t)) free /\
       _number_of_free_slabs (locals s t) = length free /\
       (length free < _cut_off_threshold (locals s t))%nat /\ (forall x, x ∈ held -> x ∉ free)).
Proof.
  destruct (tl_runs ops Hops) as (s & held & fr & cen & E & Hi & Hst).
  exists s, held. split; [done |]. pose proof (tl_nodup _ _ _ _ Hi) as (Hnd & _ & _)%NoDup_app.
  split; [done |]. assert (Hin : forall x, x ∈ held -> x ∈ held ++ concat cen).
  { intros x Hx. apply elem_of_app. by left. }
  split; [intros x y Hx Hy; apply Hi; by apply Hi, Hin |].
  intros t. exists (fr t). split; [apply Hi |]. split; [apply Hi |].
  rewrite <- (tl_number _ _ _ _ Hi). split; [apply Hst |].
  intros x Hx Hf. by apply (tl_disjoint _ _ _ _ Hi t x Hf), Hin.
Qed.
End ThreadLocal.

Lemma thread_local_slab_allocator_safe_witness :
  exists s held, run_tls 16 sample_aalloc [TlAllocate 0; TlAllocate 1; TlAllocate 0]
    new_StaticThreadLocalSlabAllocator [] = Ok (s, held) /\ NoDup held.
Proof.
  destruct (thread_local_slab_allocator_safe 16 sample_aalloc sample_aalloc_law
              [TlAllocate 0; TlAllocate 1; TlAllocate 0])
    as (s & held & E & H & _); [split; [done |]; intros; split; [done |]; intros; by split |].
  exists s, held. exact (conj E H).
Defined.
