(* ===== verification/StringSlabAllocator.v ===== *)
(** The allocator of small string buffers ([src/util/slab_allocator.cc]): twelve
    free lists, one per power of two, and [alignment::get_next_power_of_2]
    ([include/util/alignment.h]), which chooses among them. *)
From S2P Require Import Prelude SlabMemory TcpBuffer.
From stdpp Require Import fin_maps functions sorting.
Open Scope Z_scope.

(** [__builtin_clzll], undefined at 0. *)
Definition clzll (x : Z) : result Z :=
  if x =? 0 then Err UndefinedBehaviour else Ok (63 - Z.log2 x).

(** [return 32 - __builtin_clzll(n - 1)], converted to [size_t]. *)
Definition get_next_power_of_2 (n : Z) : result Z :=
  let* zeros := clzll (u64 (n - 1)) in
  Ok (u64 (32 - zeros)).

Record StaticSimpleThreadLocalStringSlabAllocator := mkString {
  string_memory : memory;
  _linked_lists_of_free_slabs : list Z;
  string_chunks : list Z
}.

Definition new_StaticSimpleThreadLocalStringSlabAllocator : StaticSimpleThreadLocalStringSlabAllocator :=
  mkString ∅ (replicate 12 0) [].

(** [array[i]] of the array of twelve lists, read and written. *)
Definition list_at (s : StaticSimpleThreadLocalStringSlabAllocator) (i : Z) : result Z :=
  if (0 <=? i) && (i <? 12)
  then of_option UndefinedBehaviour (_linked_lists_of_free_slabs s !! Z.to_nat i)
  else Err UndefinedBehaviour.
Definition set_list (s : StaticSimpleThreadLocalStringSlabAllocator) (i p : Z)
    : result StaticSimpleThreadLocalStringSlabAllocator :=
  if (0 <=? i) && (i <? 12)
  then Ok (mkString (string_memory s) (<[Z.to_nat i := p]> (_linked_lists_of_free_slabs s)) (string_chunks s))
  else Err UndefinedBehaviour.

(** [aligned_alloc] and [malloc] are parameters. *)
Section StringAllocator.
Context (aalloc : memory -> Z) (malloc : memory -> Z -> Z).

(** A page is cut into slabs of [2 ^ power_of_2] bytes. *)
Definition string_allocate_one_chunk (power_of_2 : Z) (s : StaticSimpleThreadLocalStringSlabAllocator)
    : Z * StaticSimpleThreadLocalStringSlabAllocator :=
  let slab_size := Z.shiftl 1 power_of_2 in
  let number_of_slabs := Z.shiftr 4096 power_of_2 in
  let new_chunk := aalloc (string_memory s) in
  let '(m, current_node) := carve slab_size (Z.to_nat number_of_slabs) new_chunk 0 (string_memory s) in
  (current_node, mkString m (_linked_lists_of_free_slabs s) (string_chunks s ++ [new_chunk])).

Definition string_allocate (n : Z) (s : StaticSimpleThreadLocalStringSlabAllocator)
    : result (Z * StaticSimpleThreadLocalStringSlabAllocator) :=
  if n =? 0 then Err Uncaught
  else if 2048 <? n then Ok (malloc (string_memory s) n, s)
  else
    let* power_of_2 := get_next_power_of_2 (Z.max n 32) in
    let* chosen_slab := list_at s power_of_2 in
    let '(chosen_slab, s) :=
      if chosen_slab =? 0 then string_allocate_one_chunk power_of_2 s else (chosen_slab, s) in
    let* next := load_next (string_memory s) chosen_slab in
    let* s := set_list s power_of_2 next in
    Ok (chosen_slab, s).

Definition string_deallocate (slab n : Z) (s : StaticSimpleThreadLocalStringSlabAllocator)
    : result StaticSimpleThreadLocalStringSlabAllocator :=
  if n =? 0 then Err Fatal
  else if 2048 <? n then Ok s
  else
    let* power_of_2 := get_next_power_of_2 (Z.max n 32) in
    let* free := list_at s power_of_2 in
    let* m := store_next slab free (string_memory s) in
    set_list (mkString m (_linked_lists_of_free_slabs s) (string_chunks s)) power_of_2 slab.

(** For the sizes the free lists are meant for, [32 - clzll(n - 1)] is negative:
    as a [size_t] it is within 27 of [2 ^ 64]. *)
Lemma get_next_power_of_2_wraps n :
  32 <= n <= 2048 -> exists i, get_next_power_of_2 n = Ok i /\ 2 ^ 64 - 27 <= i <= 2 ^ 64 - 21.
Proof using.
  intros Hn. unfold get_next_power_of_2, clzll. rewrite (u64_small (n - 1)) by lia.
  rewrite (proj2 (Z.eqb_neq _ _)) by lia. eexists. split; [done |].
  assert (4 <= Z.log2 (n - 1)) by (apply (Z.log2_le_mono 16); lia).
  assert (Z.log2 (n - 1) <= 10) by (change 10 with (Z.log2 2047); apply Z.log2_le_mono; lia).
  unfold u64. rewrite <- (Z.mod_add _ 1) by lia. rewrite Z.mod_small by lia. lia.
Qed.

Lemma list_at_wrapped s i : 12 <= i -> list_at s i = Err UndefinedBehaviour.
Proof using. intros Hi. unfold list_at. by rewrite (proj2 (Z.ltb_ge _ _)), andb_false_r by lia. Qed.

(** What a chunk of a legitimate exponent looks like: [2 ^ (12 - e)] slabs of
    [2 ^ e] bytes that fill the page exactly, all on the returned list. *)
Lemma string_chunk_tiles e s :
  5 <= e <= 11 -> 0 < aalloc (string_memory s) ->
  exists s' p, string_allocate_one_chunk e s = (p, s') /\
    chain (string_memory s') p (reverse (slab_nodes (2 ^ e) (aalloc (string_memory s)) (Z.to_nat (2 ^ (12 - e))))) /\
    2 ^ e * 2 ^ (12 - e) = 4096.
Proof using.
  intros He Ha. unfold string_allocate_one_chunk.
  assert (Hs : Z.shiftl 1 e = 2 ^ e) by (rewrite Z.shiftl_mul_pow2 by lia; lia).
  assert (Hd : Z.shiftr 4096 e = 2 ^ (12 - e)).
  { rewrite Z.shiftr_div_pow2 by lia. change 4096 with (2 ^ 12). rewrite <- Z.pow_sub_r by lia. done. }
  rewrite Hs, Hd. assert (0 < 2 ^ e) by (apply Z.pow_pos_nonneg; lia).
  destruct (carve_spec (2 ^ e) (Z.to_nat (2 ^ (12 - e))) (aalloc (string_memory s)) 0
              (string_memory s) [] ltac:(done) Ha (fun x _ => not_elem_of_nil x) eq_refl)
    as (m & p & -> & Hc & _).
  do 2 eexists. split; [done |]. split; [by rewrite app_nil_r in Hc |].
  rewrite <- Z.pow_add_r by lia. by replace (e + (12 - e)) with 12 by lia.
Qed.

(** What [allocate] and [deallocate] do for every size: zero is refused, large
    buffers go to [malloc], and every size from 1 to 2048 - all the sizes the free
    lists exist for - indexes the array of twelve lists out of range, because the
    exponent is computed from 32 instead of 64 bits. *)
Theorem string_allocator_small_sizes_undefined n slab s :
  0 <= n < 2 ^ 64 ->
  string_allocate n s =
    (if n =? 0 then Err Uncaught
     else if 2048 <? n then Ok (malloc (string_memory s) n, s) else Err UndefinedBehaviour) /\
  string_deallocate slab n s =
    (if n =? 0 then Err Fatal else if 2048 <? n then Ok s else Err UndefinedBehaviour).
Proof using.
  intros Hn. unfold string_allocate, string_deallocate.
  destruct (Z.eqb_spec n 0); [done |]. destruct (Z.ltb_spec 2048 n); [done |].
  destruct (get_next_power_of_2_wraps (Z.max n 32)) as (i & -> & Hi); [lia |].
  by rewrite list_at_wrapped by lia.
Qed.

(** What the buffers ([TcpBuffer.slab_strings]) take this allocator for. *)
Lemma slab_strings_allocate n s :
  0 < n < 2 ^ 64 ->
  allocates (StringAllocator := slab_strings) (Z.to_nat n) = true <->
  exists r, string_allocate n s = Ok r.
Proof using.
  intros Hn. destruct (string_allocator_small_sizes_undefined n 0 s ltac:(lia)) as [-> _].
  rewrite (proj2 (Z.eqb_neq _ _)) by lia. cbn [allocates slab_strings]. rewrite Nat.ltb_lt.
  destruct (Z.ltb_spec 2048 n).
  - split; [by eexists | intros _; lia].
  - split; [intros ?; lia | by intros [r Hr]].
Qed.
End StringAllocator.

Lemma string_allocator_small_sizes_undefined_witness :
  string_allocate (fun _ => 4096) (fun _ _ => 64) 100 new_StaticSimpleThreadLocalStringSlabAllocator
  = Err UndefinedBehaviour.
Proof.
  exact (proj1 (string_allocator_small_sizes_undefined (fun _ => 4096) (fun _ _ => 64) 100 0
    new_StaticSimpleThreadLocalStringSlabAllocator ltac:(lia))).
Defined.
