(* ===== verification/SemiLockFreeSlabAllocator.v ===== *)
(** The semi lock-free slab allocator ([include/util/slab_allocator.h]): one free
    list shared by all threads, popped and pushed by compare-and-swap on a pointer
    tagged with a counter.

    A thread is a small machine whose steps are the shared accesses of [allocate],
    [deallocate] and [_allocate_one_chunk]; a schedule interleaves the steps of the
    threads in any order, with spurious failures of [compare_exchange_weak]. *)
From S2P Require Import Prelude SlabMemory SlabAllocator.
From stdpp Require Import fin_maps functions sorting.
Open Scope Z_scope.

Record TaggedLinkedListNodePtr := mkTagged { node_ptr : Z; tag : Z }.

#[export] Instance tagged_eq_dec : EqDecision TaggedLinkedListNodePtr.
Proof. solve_decision. Defined.

(** Where a thread is, with the local variables that matter there. *)
Inductive thread_state :=
| Idle
| AllocateLoaded (old_head : TaggedLinkedListNodePtr)
| AllocateRead (old_head : TaggedLinkedListNodePtr) (next : Z)
| ChunkCarved (tail : Z)
| ChunkLoaded (tail : Z) (old_head : TaggedLinkedListNodePtr)
| ChunkLinked (tail : Z) (old_head : TaggedLinkedListNodePtr)
| DeallocateLoaded (slab : Z) (old_head : TaggedLinkedListNodePtr)
| DeallocateLinked (slab : Z) (old_head : TaggedLinkedListNodePtr).

#[export] Instance thread_state_eq_dec : EqDecision thread_state.
Proof. solve_decision. Defined.

(** [held] are the slabs clients own. *)
Record SemiLockFreeSlabAllocator := mkSemi {
  semi_memory : memory;
  semi_free : TaggedLinkedListNodePtr;
  semi_chunks : list Z;
  threads : nat -> thread_state;
  held : list Z
}.

Definition new_SemiLockFreeSlabAllocator : SemiLockFreeSlabAllocator :=
  mkSemi ∅ (mkTagged 0 0) [] (fun _ => Idle) [].

(** [compare_exchange_weak]: whether it succeeded, the value stored afterwards. *)
Definition compare_exchange_weak (spurious : bool) (current expected desired : TaggedLinkedListNodePtr)
    : bool * TaggedLinkedListNodePtr :=
  if negb spurious && bool_decide (current = expected) then (true, desired) else (false, current).

Inductive action :=
| CallAllocate (n : Z)
| CallDeallocate (slab n : Z)
| WriteHeld (slab v : Z)
| Continue (spurious : bool).

Section SemiLockFree.
Context (width : Z) (aalloc : memory -> Z) (junk : Z -> Z).
Abbreviation N := _NUMBER_OF_SLABS_PER_CHUNK.

(** [new_head.node_ptr] of [_allocate_one_chunk], and the slab it returns. *)
Definition chunk_top (tail : Z) : Z := tail + Z.of_nat (N - 2) * width.
Definition preserved_slab (tail : Z) : Z := chunk_top tail + width.

(** The part of [_allocate_one_chunk] before the shared accesses: the chunk is
    allocated (with whatever it contains), and every slab but the first, which is
    the tail, and the last, which is preserved for the caller, is linked. *)
Definition carve_chunk (m : memory) : memory * Z :=
  let new_chunk := aalloc m in
  let m := <[new_chunk := junk new_chunk]>
             (<[preserved_slab new_chunk := junk (preserved_slab new_chunk)]> m) in
  let '(m, _) := carve width (N - 2) (new_chunk + width) new_chunk m in
  (m, new_chunk).

Definition set_thread (t : nat) (st : thread_state) (s : SemiLockFreeSlabAllocator) : SemiLockFreeSlabAllocator :=
  mkSemi (semi_memory s) (semi_free s) (semi_chunks s) (<[t := st]> (threads s)) (held s).
Definition set_memory (m : memory) (s : SemiLockFreeSlabAllocator) : SemiLockFreeSlabAllocator :=
  mkSemi m (semi_free s) (semi_chunks s) (threads s) (held s).

(** The next shared access of [allocate]. *)
Definition allocate_step (t : nat) (spurious : bool) (st : thread_state) (s : SemiLockFreeSlabAllocator)
    : result SemiLockFreeSlabAllocator :=
  match st with
  | AllocateLoaded old_head =>
      if node_ptr old_head =? 0 then
        let '(m, new_chunk) := carve_chunk (semi_memory s) in
        Ok (mkSemi m (semi_free s) (semi_chunks s ++ [new_chunk])
              (<[t := ChunkCarved new_chunk]> (threads s)) (held s))
      else
        let* next := load_next (semi_memory s) (node_ptr old_head) in
        Ok (set_thread t (AllocateRead old_head next) s)
  | AllocateRead old_head next =>
      let '(success, current) :=
        compare_exchange_weak spurious (semi_free s) old_head (mkTagged next (u64 (tag old_head + 1))) in
      if success
      then Ok (mkSemi (semi_memory s) current (semi_chunks s) (<[t := Idle]> (threads s))
                 (node_ptr old_head :: held s))
      else Ok (set_thread t (AllocateLoaded current) s)
  | _ => Ok s
  end.

(** The next shared access of [_allocate_one_chunk]. *)
Definition chunk_step (t : nat) (spurious : bool) (st : thread_state) (s : SemiLockFreeSlabAllocator)
    : result SemiLockFreeSlabAllocator :=
  match st with
  | ChunkCarved tail => Ok (set_thread t (ChunkLoaded tail (semi_free s)) s)
  | ChunkLoaded tail old_head =>
      let* m := store_next tail (node_ptr old_head) (semi_memory s) in
      Ok (set_thread t (ChunkLinked tail old_head) (set_memory m s))
  | ChunkLinked tail old_head =>
      let '(success, current) :=
        compare_exchange_weak spurious (semi_free s) old_head
          (mkTagged (chunk_top tail) (u64 (tag old_head + 1))) in
      if success
      then Ok (mkSemi (semi_memory s) current (semi_chunks s) (<[t := Idle]> (threads s))
                 (preserved_slab tail :: held s))
      else Ok (set_thread t (ChunkLoaded tail current) s)
  | _ => Ok s
  end.

(** The next shared access of [deallocate]. *)
Definition deallocate_step (t : nat) (spurious : bool) (st : thread_state) (s : SemiLockFreeSlabAllocator)
    : result SemiLockFreeSlabAllocator :=
  match st with
  | DeallocateLoaded slab old_head =>
      let* m := store_next slab (node_ptr old_head) (semi_memory s) in
      Ok (set_thread t (DeallocateLinked slab old_head) (set_memory m s))
  | DeallocateLinked slab old_head =>
      let '(success, current) :=
        compare_exchange_weak spurious (semi_free s) old_head (mkTagged slab (u64 (tag old_head + 1))) in
      if success
      then Ok (mkSemi (semi_memory s) current (semi_chunks s) (<[t := Idle]> (threads s)) (held s))
      else Ok (set_thread t (DeallocateLoaded slab current) s)
  | _ => Ok s
  end.

(** The calls start by loading the head of the list. *)
Definition semi_step (t : nat) (a : action) (s : SemiLockFreeSlabAllocator)
    : result SemiLockFreeSlabAllocator :=
  match a with
  | CallAllocate n =>
      if negb (n =? 1) then Err Uncaught
      else Ok (set_thread t (AllocateLoaded (semi_free s)) s)
  | CallDeallocate slab n =>
      if negb (n =? 1) then Err Fatal
      else Ok (mkSemi (semi_memory s) (semi_free s) (semi_chunks s)
            (<[t := DeallocateLoaded slab (semi_free s)]> (threads s))
            (filter (fun x => x <> slab) (held s)))
  | WriteHeld slab v =>
      let* m := store_next slab v (semi_memory s) in Ok (set_memory m s)
  | Continue spurious =>
      match threads s t with
      | Idle => Ok s
      | AllocateLoaded _ | AllocateRead _ _ => allocate_step t spurious (threads s t) s
      | ChunkCarved _ | ChunkLoaded _ _ | ChunkLinked _ _ => chunk_step t spurious (threads s t) s
      | DeallocateLoaded _ _ | DeallocateLinked _ _ => deallocate_step t spurious (threads s t) s
      end
  end.

(** [StaticSemiLockFreeSlabAllocator]: the same code over static members. *)
Definition static_semi_step := semi_step.
Definition static_allocate_step := allocate_step.
Definition static_deallocate_step := deallocate_step.
Definition static_carve_chunk := carve_chunk.
Definition static_chunk_step := chunk_step.

(** A thread calls when it is not inside a call, for one slab at a time; clients
    give back and write to slabs they hold. *)
Definition action_enabled (t : nat) (a : action) (s : SemiLockFreeSlabAllocator) : bool :=
  match a with
  | CallAllocate n => (n =? 1) && bool_decide (threads s t = Idle)
  | CallDeallocate slab n =>
      (n =? 1) && bool_decide (threads s t = Idle) && bool_decide (slab ∈ held s)
  | WriteHeld slab _ => bool_decide (slab ∈ held s)
  | Continue _ => true
  end.

Fixpoint run_schedule (schedule : list (nat * action)) (s : SemiLockFreeSlabAllocator)
    : result SemiLockFreeSlabAllocator :=
  match schedule with
  | [] => Ok s
  | (t, a) :: schedule =>
      if action_enabled t a s then let* s := semi_step t a s in run_schedule schedule s
      else run_schedule schedule s
  end.

(** ** The invariant *)

(** The slabs a thread is working on: nobody else's. *)
Definition own (st : thread_state) : list Z :=
  match st with
  | Idle | AllocateLoaded _ | AllocateRead _ _ => []
  | ChunkCarved tail | ChunkLoaded tail _ | ChunkLinked tail _ => slab_nodes width tail N
  | DeallocateLoaded slab _ | DeallocateLinked slab _ => [slab]
  end.

(** A loaded head is older than the current one, or is the current one. *)
Definition loaded (head old : TaggedLinkedListNodePtr) : Prop :=
  tag old <= tag head /\ (tag old = tag head -> old = head).

(** The slabs of a carved chunk, from its top to its tail, whose link is open. *)
Definition segment (m : memory) (tail : Z) : Prop :=
  chain (<[tail := 0]> m) (chunk_top tail) (reverse (slab_nodes width tail (N - 1))).

Definition thread_ok (m : memory) (head : TaggedLinkedListNodePtr) (st : thread_state) : Prop :=
  match st with
  | Idle => True
  | AllocateLoaded old => loaded head old /\ (node_ptr old <> 0 -> node_ptr old ∈ dom m)
  | AllocateRead old next => loaded head old /\ node_ptr old <> 0 /\
      (tag old = tag head -> m !! node_ptr old = Some next)
  | ChunkCarved tail => segment m tail
  | ChunkLoaded tail old => segment m tail /\ loaded head old
  | ChunkLinked tail old => segment m tail /\ loaded head old /\ m !! tail = Some (node_ptr old)
  | DeallocateLoaded _ old => loaded head old
  | DeallocateLinked slab old => loaded head old /\ m !! slab = Some (node_ptr old)
  end.

Record semi_inv (s : SemiLockFreeSlabAllocator) (free : list Z) (k : Z) : Prop := {
  i_chain : chain (semi_memory s) (node_ptr (semi_free s)) free;
  i_nodup t : NoDup (own (threads s t) ++ held s ++ free);
  i_valid t x : x ∈ own (threads s t) ++ held s ++ free -> x ∈ dom (semi_memory s) /\ x <> 0;
  i_disjoint t t' x : t <> t' -> x ∈ own (threads s t) -> x ∉ own (threads s t');
  i_spaced : spaced width (semi_memory s);
  i_tag : 0 <= tag (semi_free s) <= k;
  i_threads t : thread_ok (semi_memory s) (semi_free s) (threads s t)
}.

Lemma loaded_refl head : loaded head head.
Proof using. split; [lia | done]. Qed.

Lemma loaded_advance head head' old :
  loaded head old -> head' = head \/ tag head' = tag head + 1 -> loaded head' old.
Proof using. intros [H1 H2] [-> | H]; [done |]. split; [lia |]. intros. lia. Qed.

Lemma slab_nodes_last base n :
  slab_nodes width base (S n) = slab_nodes width base n ++ [base + Z.of_nat n * width].
Proof using. unfold slab_nodes. by rewrite seq_S, fmap_app. Qed.

Lemma chunk_nodes_split base :
  slab_nodes width base N = slab_nodes width base (N - 1) ++ [preserved_slab base].
Proof using.
  pose proof slabs_per_chunk_bound. replace N with (S (N - 1)) at 1 by lia. rewrite slab_nodes_last.
  unfold preserved_slab, chunk_top. do 2 f_equal. replace (N - 1)%nat with (S (N - 2)) by lia. lia.
Qed.

Lemma chunk_nodes_tail base :
  slab_nodes width base (N - 1) = base :: slab_nodes width (base + width) (N - 2).
Proof using.
  pose proof slabs_per_chunk_bound. replace (N - 1)%nat with (S (N - 2)) by lia. apply slab_nodes_S.
Qed.

Lemma chunk_tail_own base : base ∈ slab_nodes width base N.
Proof using. rewrite chunk_nodes_split, chunk_nodes_tail. by left. Qed.

Lemma segment_frame m m' tail :
  (forall x, x ∈ slab_nodes width tail N -> m' !! x = m !! x) -> segment m tail -> segment m' tail.
Proof using.
  intros Hm. apply chain_mono. intros x Hx. rewrite elem_of_reverse in Hx.
  destruct (decide (x = tail)) as [-> | Hne]; [by rewrite !lookup_insert_eq |].
  rewrite !lookup_insert_ne by done. apply Hm. rewrite chunk_nodes_split. apply elem_of_app. by left.
Qed.

(** What a thread knows survives the steps of the others. *)
Lemma thread_ok_frame m m' head head' st :
  thread_ok m head st -> (forall x, x ∈ own st -> m' !! x = m !! x) ->
  (node_ptr head <> 0 -> m' !! node_ptr head = m !! node_ptr head) ->
  dom m ⊆ dom m' -> head' = head \/ tag head' = tag head + 1 -> thread_ok m' head' st.
Proof using.
  intros Hok Hown Hhead Hdom Hadv. destruct st as [| old | old next | tail | tail old | tail old | slab old | slab old];
    cbn [thread_ok own] in *.
  - done.
  - destruct Hok as [Hl Hd]. split; [by eapply loaded_advance |]. intros H0. by apply Hdom, Hd.
  - destruct Hok as (Hl & H0 & Hn). split; [by eapply loaded_advance |]. split; [done |].
    destruct Hadv as [-> | Hadv]; [| intros E; destruct Hl; lia].
    intros E. destruct Hl as [_ Hl]. pose proof (Hl E) as ->. rewrite Hhead by done. auto.
  - by eapply segment_frame.
  - destruct Hok as [Hs Hl]. split; [by eapply segment_frame | by eapply loaded_advance].
  - destruct Hok as (Hs & Hl & Ht). split; [by eapply segment_frame |].
    split; [by eapply loaded_advance |]. rewrite Hown; [done | apply chunk_tail_own].
  - by eapply loaded_advance.
  - destruct Hok as [Hl Hs]. split; [by eapply loaded_advance |]. rewrite Hown; [done | by left].
Qed.

(** One thread takes a step: its slabs, the held ones and the free ones are
    redistributed, with fresh ones added. *)
Lemma semi_update t st s free k m head chunks held' free' k' :
  semi_inv s free k -> chain m (node_ptr head) free' ->
  NoDup (own st ++ held' ++ free') ->
  (forall x, x ∈ own st ++ held' ++ free' ->
     (x ∈ own (threads s t) ++ held s ++ free \/ x ∉ dom (semi_memory s)) /\ x ∈ dom m /\ x <> 0) ->
  spaced width m -> dom (semi_memory s) ⊆ dom m ->
  (forall x, x ∈ dom (semi_memory s) -> x ∉ own (threads s t) -> x ∉ held s ->
     m !! x = semi_memory s !! x) ->
  head = semi_free s \/ tag head = tag (semi_free s) + 1 -> tag head <= k' ->
  thread_ok m head st ->
  semi_inv (mkSemi m head chunks (<[t := st]> (threads s)) held') free' k'.
Proof using.
  intros Hi Hc Hnd Hres Hsp Hdom Hfr Hadv Hk Hok.
  assert (Hout : forall t' x, t' <> t -> x ∈ own (threads s t') -> x ∉ own st ++ held' ++ free').
  { intros t' x Hne Hx Hin. pose proof (i_nodup _ _ _ Hi t') as (_ & Hd & _)%NoDup_app.
    destruct (Hres x Hin) as [[[Ho | Hhf]%elem_of_app | Hnd'] _].
    - by apply (i_disjoint _ _ _ Hi t' t x Hne Hx).
    - by apply (Hd x Hx).
    - apply Hnd', (i_valid _ _ _ Hi t'), elem_of_app. by left. }
  assert (Hkeep : forall t' x, t' <> t -> x ∈ own (threads s t') -> m !! x = semi_memory s !! x).
  { intros t' x Hne Hx. pose proof (i_nodup _ _ _ Hi t') as (_ & Hd & _)%NoDup_app. apply Hfr.
    - apply (i_valid _ _ _ Hi t'), elem_of_app. by left.
    - intros Ho. by apply (i_disjoint _ _ _ Hi t' t x Hne Hx).
    - intros Hh. apply (Hd x Hx), elem_of_app. by left. }
  split; cbn [semi_memory semi_free threads held]; try done;
    try (intros t'; destruct (decide (t' = t)) as [-> | Hne];
     [rewrite ?fn_lookup_insert | rewrite ?(fn_lookup_insert_ne _ t t') by done]).
  - done.
  - pose proof (i_nodup _ _ _ Hi t') as (Hn & _)%NoDup_app. apply NoDup_app. split; [done |].
    apply NoDup_app in Hnd as (_ & _ & Hnd). split; [| done].
    intros x Hx Hin. apply (Hout t' x Hne Hx), elem_of_app. by right.
  - intros x Hx. by apply Hres.
  - intros x [Hx | Hx]%elem_of_app; [| apply Hres, elem_of_app; by right].
    destruct (i_valid _ _ _ Hi t' x) as [Hv H0]; [apply elem_of_app; by left |]. split; [by apply Hdom | done].
  - intros t2 x Hne Hx. rewrite fn_lookup_insert_ne by done. intros Hx2.
    apply (Hout t2 x); [done | done |]. apply elem_of_app. by left.
  - intros t2 x Hne2. destruct (decide (t2 = t)) as [-> | Hne3].
    + rewrite fn_lookup_insert. intros Hx Hx2. apply (Hout t' x Hne Hx), elem_of_app. by left.
    + rewrite fn_lookup_insert_ne by done. by apply Hi.
  - pose proof (i_tag _ _ _ Hi). destruct Hadv as [-> | Hadv]; lia.
  - done.
  - eapply thread_ok_frame; [apply (i_threads _ _ _ Hi) | by eauto | | done | done].
    intros H0. pose proof (i_chain _ _ _ Hi) as Hch. destruct free as [| y free]; [done |].
    destruct (chain_head _ _ _ Hch ltac:(done)) as [_ Hin].
    pose proof (i_nodup _ _ _ Hi t) as (_ & Hd & (_ & Hd2 & _)%NoDup_app)%NoDup_app. apply Hfr.
    + by eapply chain_dom.
    + intros Ho. apply (Hd _ Ho), elem_of_app. by right.
    + intros Hh. by apply (Hd2 _ Hh).
Qed.

(** A step that only changes where the thread is. *)
Lemma semi_set_thread t st s free k :
  semi_inv s free k -> own st = own (threads s t) -> thread_ok (semi_memory s) (semi_free s) st ->
  semi_inv (set_thread t st s) free k.
Proof using.
  intros Hi Ho Hok. apply (semi_update t st s free k); try done; try apply Hi.
  - rewrite Ho. apply Hi.
  - rewrite Ho. intros x Hx. split; [by left |]. by apply (i_valid _ _ _ Hi t).
  - by left.
Qed.

(** A step that writes one word of a slab of the thread. *)
Lemma semi_store t st s free k x v :
  semi_inv s free k -> x ∈ own (threads s t) -> own st = own (threads s t) ->
  thread_ok (<[x := v]> (semi_memory s)) (semi_free s) st ->
  exists m, store_next x v (semi_memory s) = Ok m /\ semi_inv (set_thread t st (set_memory m s)) free k.
Proof using.
  intros Hi Hx Ho Hok. destruct (i_valid _ _ _ Hi t x) as [Hd H0]; [apply elem_of_app; by left |].
  pose proof Hd as [w Hw]%elem_of_dom. unfold store_next. rewrite Hw. eexists. split; [done |].
  assert (Hdom : dom (<[x := v]> (semi_memory s)) = dom (semi_memory s)) by by rewrite dom_insert_lookup_L by by eexists.
  pose proof (i_nodup _ _ _ Hi t) as (_ & Hdis & _)%NoDup_app.
  apply (semi_update t st s free k); try done; cbn [set_memory semi_memory semi_free semi_chunks held threads];
    rewrite ?Hdom.
  - apply chain_frame; [| apply Hi]. intros Hf. apply (Hdis x Hx), elem_of_app. by right.
  - rewrite Ho. apply Hi.
  - rewrite Ho. intros y Hy. split; [by left |]. by apply (i_valid _ _ _ Hi t).
  - intros a b. rewrite Hdom. apply Hi.
  - done.
  - intros y _ Hy _. rewrite lookup_insert_ne; [done |]. by intros <-.
  - by left.
  - apply Hi.
Qed.

(** A client writes to a slab it holds. *)
Lemma semi_write s free k x v :
  semi_inv s free k -> x ∈ held s ->
  exists m, store_next x v (semi_memory s) = Ok m /\ semi_inv (set_memory m s) free k.
Proof using.
  intros Hi Hx. assert (Hall : forall t, x ∈ own (threads s t) ++ held s ++ free).
  { intros t. rewrite !elem_of_app. auto. }
  destruct (i_valid _ _ _ Hi 0%nat x (Hall _)) as [Hd H0].
  pose proof Hd as [w Hw]%elem_of_dom. unfold store_next. rewrite Hw. eexists. split; [done |].
  assert (Hdom : dom (<[x := v]> (semi_memory s)) = dom (semi_memory s)) by by rewrite dom_insert_lookup_L by by eexists.
  assert (Hxf : x ∉ free).
  { intros Hf. pose proof (i_nodup _ _ _ Hi 0%nat) as (_ & _ & (_ & Hd2 & _)%NoDup_app)%NoDup_app.
    by apply (Hd2 x). }
  split; cbn [set_memory semi_memory semi_free threads held]; rewrite ?Hdom; try apply Hi.
  - apply chain_frame; [done | apply Hi].
  - intros a b. rewrite Hdom. apply Hi.
  - intros t. eapply thread_ok_frame; [apply (i_threads _ _ _ Hi t) | | | by rewrite Hdom | by left].
    + intros y Hy. apply lookup_insert_ne. intros <-.
      pose proof (i_nodup _ _ _ Hi t) as (_ & Hd1 & _)%NoDup_app. apply (Hd1 x Hy), elem_of_app. by left.
    + intros Hp. apply lookup_insert_ne. intros ->. apply Hxf.
      pose proof (i_chain _ _ _ Hi) as Hch. destruct free as [| y free]; [done |].
      by apply (chain_head _ _ _ Hch).
Qed.

Lemma compare_exchange_cases spurious current expected desired :
  (compare_exchange_weak spurious current expected desired = (true, desired) /\ expected = current) \/
  compare_exchange_weak spurious current expected desired = (false, current).
Proof using.
  unfold compare_exchange_weak. destruct spurious; [by right |]. simpl.
  destruct (bool_decide_reflect (current = expected)); [by left | by right].
Qed.

(** ** The successful exchanges *)
Lemma pop_success t s free k next chunks :
  semi_inv s free k -> k < 2 ^ 64 - 1 -> threads s t = AllocateRead (semi_free s) next ->
  exists free', semi_inv
    (mkSemi (semi_memory s) (mkTagged next (u64 (tag (semi_free s) + 1))) chunks
       (<[t := Idle]> (threads s)) (node_ptr (semi_free s) :: held s)) free' (k + 1).
Proof using.
  intros Hi Hk Hst. pose proof (i_threads _ _ _ Hi t) as Hok. rewrite Hst in Hok.
  destruct Hok as (_ & H0 & Hn). specialize (Hn eq_refl). pose proof (i_tag _ _ _ Hi) as Htag.
  pose proof (i_chain _ _ _ Hi) as Hc. destruct free as [| x free]; [done |].
  destruct Hc as (E & _ & next' & Hm & Hc). rewrite E in *. rewrite Hn in Hm. injection Hm as <-.
  rewrite u64_small by lia. exists free.
  assert (Hperm : own (threads s t) ++ held s ++ x :: free ≡ₚ own Idle ++ (x :: held s) ++ free).
  { rewrite Hst. simpl. by rewrite <- Permutation_middle. }
  apply (semi_update t Idle s (x :: free) k); try done; try apply Hi; cbn [node_ptr tag].
  - by rewrite <- Hperm; apply Hi.
  - intros y Hy. rewrite <- Hperm in Hy. split; [by left |]. by apply (i_valid _ _ _ Hi t).
  - by right.
  - lia.
Qed.

Lemma push_success t s free k slab chunks :
  semi_inv s free k -> k < 2 ^ 64 - 1 -> threads s t = DeallocateLinked slab (semi_free s) ->
  exists free', semi_inv
    (mkSemi (semi_memory s) (mkTagged slab (u64 (tag (semi_free s) + 1))) chunks
       (<[t := Idle]> (threads s)) (held s)) free' (k + 1).
Proof using.
  intros Hi Hk Hst. pose proof (i_threads _ _ _ Hi t) as Hok. pose proof (i_tag _ _ _ Hi) as Htag.
  pose proof (i_nodup _ _ _ Hi t) as Hnd. pose proof (i_valid _ _ _ Hi t) as Hv.
  rewrite Hst in Hok, Hnd, Hv. destruct Hok as (_ & Hn). cbn [own app] in Hnd, Hv.
  destruct (Hv slab ltac:(by left)) as [_ H0].
  rewrite u64_small by lia. exists (slab :: free).
  assert (Hperm : slab :: held s ++ free ≡ₚ own Idle ++ held s ++ slab :: free).
  { simpl. by rewrite <- Permutation_middle. }
  apply (semi_update t Idle s free k); try done; try apply Hi; cbn [node_ptr tag].
  - split; [done |]. split; [done |]. eexists. split; [exact Hn | apply Hi].
  - by rewrite <- Hperm.
  - intros y Hy. rewrite <- Hperm in Hy. split; [left; by rewrite Hst |]. by apply Hv.
  - by right.
  - lia.
Qed.

Lemma segment_join m tail p free :
  0 < width -> segment m tail -> m !! tail = Some p -> chain m p free ->
  chain m (chunk_top tail) (reverse (slab_nodes width tail (N - 1)) ++ free).
Proof using.
  intros Hw Hs Hm Hc. unfold segment in Hs. pose proof (NoDup_slab_nodes width tail (N - 1) Hw) as Hnd.
  rewrite chunk_nodes_tail in Hs, Hnd |- *. set (rest := slab_nodes width (tail + width) (N - 2)) in *.
  clearbody rest. generalize dependent (chunk_top tail). intros top Hs.
  rewrite reverse_cons in Hs |- *. apply NoDup_cons in Hnd as [Hnt _].
  apply chain_app in Hs as (q & Hq & (-> & H0 & _)). rewrite <- app_assoc. apply Hq.
  - intros x Hx. rewrite elem_of_reverse in Hx. rewrite lookup_insert_ne; [done |]. by intros <-.
  - split; [done |]. split; [done |]. by exists p.
Qed.

Lemma chunk_success t s free k tail chunks :
  0 < width ->
  semi_inv s free k -> k < 2 ^ 64 - 1 -> threads s t = ChunkLinked tail (semi_free s) ->
  exists free', semi_inv
    (mkSemi (semi_memory s) (mkTagged (chunk_top tail) (u64 (tag (semi_free s) + 1))) chunks
       (<[t := Idle]> (threads s)) (preserved_slab tail :: held s)) free' (k + 1).
Proof using.
  intros Hw Hi Hk Hst. pose proof (i_threads _ _ _ Hi t) as Hok. pose proof (i_tag _ _ _ Hi) as Htag.
  pose proof (i_nodup _ _ _ Hi t) as Hnd. pose proof (i_valid _ _ _ Hi t) as Hv.
  rewrite Hst in Hok, Hnd, Hv. destruct Hok as (Hs & _ & Hn). cbn [own app] in Hnd, Hv.
  pose proof (segment_join _ _ _ _ Hw Hs Hn (i_chain _ _ _ Hi)) as Hc.
  assert (Hown : own (threads s t) = slab_nodes width tail (N - 1) ++ [preserved_slab tail])
    by (rewrite Hst; apply chunk_nodes_split).
  rewrite chunk_nodes_split in Hnd, Hv.
  set (nodes := slab_nodes width tail (N - 1)) in *. clearbody nodes.
  rewrite u64_small by lia. exists (reverse nodes ++ free).
  assert (Hperm : (nodes ++ [preserved_slab tail]) ++ held s ++ free
            ≡ₚ own Idle ++ (preserved_slab tail :: held s) ++ reverse nodes ++ free).
  { cbn [own app]. rewrite (reverse_Permutation nodes). rewrite <- app_assoc. cbn [app].
    rewrite <- Permutation_middle. constructor. rewrite !app_assoc.
    by rewrite (Permutation_app_comm nodes (held s)). }
  apply (semi_update t Idle s free k); cbn [node_ptr tag]; [exact Hi | exact Hc | | | apply Hi | reflexivity
    | reflexivity | by right | lia | exact I].
  - by rewrite <- Hperm.
  - intros y Hy. rewrite <- Hperm in Hy. split; [left; by rewrite Hown | by apply Hv].
Qed.

(** ** A fresh chunk *)
Lemma carve_frame n c f m m' p x :
  carve width n c f m = (m', p) -> x ∉ slab_nodes width c n -> m' !! x = m !! x.
Proof using.
  revert c f m. induction n as [| n IH]; intros c f m; cbn [carve]; [by intros [= -> ->] |].
  rewrite slab_nodes_S. intros E [Hne Hx]%not_elem_of_cons.
  rewrite (IH _ _ _ E Hx). by rewrite lookup_insert_ne.
Qed.

Lemma carve_insert n c f m m' p b v :
  carve width n c f m = (m', p) -> b ∉ slab_nodes width c n ->
  carve width n c f (<[b := v]> m) = (<[b := v]> m', p).
Proof using.
  revert c f m. induction n as [| n IH]; intros c f m; cbn [carve]; [by intros [= -> ->] |].
  rewrite slab_nodes_S. intros E [Hne Hx]%not_elem_of_cons.
  rewrite insert_insert_ne by done. by apply IH.
Qed.

(** Stated for any number [n] of linked slabs above the tail. *)
Lemma carve_segment n base m m' p :
  0 < width -> 0 < base -> (0 < n)%nat -> base ∈ dom m ->
  carve width n (base + width) base m = (m', p) ->
  p = base + Z.of_nat n * width /\
  chain (<[base := 0]> m') p (reverse (base :: slab_nodes width (base + width) n)) /\
  dom m' = list_to_set (slab_nodes width (base + width) n) ∪ dom m.
Proof using.
  intros Hw Hb Hn Hin E. pose proof (NoDup_slab_nodes width base (S n) Hw) as Hnd.
  rewrite slab_nodes_S in Hnd. apply NoDup_cons in Hnd as [Hnb _].
  destruct (carve_spec width n (base + width) base (<[base := 0]> m) [base]) as (m2 & p2 & E2 & Hc & Hd & _ & Hp).
  - done.
  - lia.
  - intros x Hx ->%list_elem_of_singleton. done.
  - split; [done |]. split; [lia |]. exists 0. by rewrite lookup_insert_eq.
  - rewrite (carve_insert _ _ _ _ _ _ _ _ E Hnb) in E2. injection E2 as <- <-.
    specialize (Hp Hn). split; [rewrite Hp; replace (Z.of_nat n) with (Z.of_nat (n - 1) + 1) by lia; lia |]. split; [by rewrite reverse_cons |].
    assert (Hbm : base ∈ dom m') by by (apply elem_of_dom; rewrite (carve_frame _ _ _ _ _ _ _ E Hnb); by apply elem_of_dom).
    by rewrite !dom_insert_lookup_L in Hd by by apply elem_of_dom.
Qed.

Lemma carve_chunk_spec m m' base :
  aalloc_law width aalloc -> carve_chunk m = (m', base) ->
  base = aalloc m /\ dom m' = list_to_set (slab_nodes width base N) ∪ dom m /\
  (forall x, x ∉ slab_nodes width base N -> m' !! x = m !! x) /\ segment m' base.
Proof using.
  intros [Hw Hp _] E. unfold carve_chunk in E. pose proof slabs_per_chunk_bound as Hb.
  destruct (carve width (N - 2) _ _ _) as [m2 p] eqn:E2 in E. injection E as <- <-.
  specialize (Hp m). set (base := aalloc m) in *. split; [done |].
  pose proof (fun H1 H2 => carve_segment _ base _ _ _ Hw Hp H1 H2 E2) as H.
  destruct H as (Hp2 & Hc & Hd); [lia | apply elem_of_dom; eexists; apply lookup_insert_eq |].
  pose proof (fun x => carve_frame _ _ _ _ _ _ x E2) as Hf.
  rewrite <- chunk_nodes_tail in Hc. rewrite chunk_nodes_split, chunk_nodes_tail.
  set (rest := slab_nodes width (base + width) (N - 2)) in *. unfold segment.
  replace (chunk_top base) with p by (rewrite Hp2; reflexivity).
  split; [| split; [| exact Hc]].
  - clear Hc. clearbody rest. rewrite Hd, !dom_insert_L, list_to_set_app_L. cbn [list_to_set].
    generalize (list_to_set rest : gset Z) (preserved_slab base) (dom m : gset Z) base. clear. set_solver.
  - clear Hc. clearbody rest. intros x Hx. apply not_elem_of_app in Hx as [Hx Hx3].
    apply not_elem_of_cons in Hx as [Hx1 Hx2]. rewrite Hf by assumption.
    assert (x <> preserved_slab base) by (intros ->; apply Hx3; left).
    by rewrite !lookup_insert_ne by congruence.
Qed.

(** ** Every step preserves the invariant *)
Definition stepped (k : Z) (r : result SemiLockFreeSlabAllocator) : Prop :=
  exists s free, r = Ok s /\ semi_inv s free k.

Lemma semi_inv_mono s free k : semi_inv s free k -> semi_inv s free (k + 1).
Proof using. intros []. split; try assumption. lia. Qed.

Lemma chunk_carved_ok t s free k old :
  aalloc_law width aalloc -> semi_inv s free k -> threads s t = AllocateLoaded old ->
  forall m base chunks, carve_chunk (semi_memory s) = (m, base) ->
  semi_inv (mkSemi m (semi_free s) chunks (<[t := ChunkCarved base]> (threads s)) (held s)) free k.
Proof using.
  intros Hal Hi Hst m base chunks E.
  destruct (carve_chunk_spec _ _ _ Hal E) as (-> & Hd & Hf & Hs).
  pose proof (fun x => chunk_fresh width aalloc (semi_memory s) x Hal) as Hfresh.
  pose proof (NoDup_slab_nodes width (aalloc (semi_memory s)) N (width_pos _ _ Hal)) as Hnd.
  pose proof (spaced_chunk width aalloc _ m Hal (i_spaced _ _ _ Hi) Hd) as Hsp.
  pose proof (i_nodup _ _ _ Hi t) as Hn. pose proof (i_valid _ _ _ Hi t) as Hv.
  rewrite Hst in Hn, Hv. cbn [own app] in Hn, Hv.
  assert (Hown : own (ChunkCarved (aalloc (semi_memory s))) = slab_nodes width (aalloc (semi_memory s)) N)
    by reflexivity.
  assert (Hown' : own (threads s t) = []) by by rewrite Hst.
  set (nodes := slab_nodes width (aalloc (semi_memory s)) N) in *.
  assert (Hold : forall x, x ∈ held s ++ free -> x ∉ nodes).
  { intros x Hx Hin. apply (proj1 (Hfresh x Hin)). by apply Hv. }
  set (b := aalloc (semi_memory s)) in *.
  apply (semi_update t (ChunkCarved b) s free k);
    [exact Hi | | rewrite Hown | rewrite Hown | exact Hsp | rewrite Hd | | by left | apply Hi | exact Hs];
    clear Hs Hown; clearbody nodes.
  - apply (chain_mono (semi_memory s)); [| apply Hi]. intros x Hx. apply Hf, Hold, elem_of_app. by right.
  - apply NoDup_app. split; [done |]. split; [| done]. intros x Hx Hin. by apply (Hold x).
  - intros x [Hx | Hx]%elem_of_app.
    + destruct (Hfresh x Hx) as [H1 H2]. split; [by right |]. split; [| done].
      rewrite Hd. apply elem_of_union_l. by apply elem_of_list_to_set.
    + destruct (Hv x Hx) as [H1 H2]. split; [left; by rewrite Hown' |]. split; [| done].
      rewrite Hd. by apply elem_of_union_r.
  - apply union_subseteq_r.
  - intros x Hx _ _. apply Hf. intros Hin. by apply (proj1 (Hfresh x Hin)).
Qed.

Lemma allocate_step_ok t spurious s free k :
  aalloc_law width aalloc -> semi_inv s free k -> k < 2 ^ 64 - 1 ->
  stepped (k + 1) (allocate_step t spurious (threads s t) s).
Proof using.
  intros Hal Hi Hk. pose proof (i_threads _ _ _ Hi t) as Hok.
  destruct (threads s t) as [| old | old next | | | | |] eqn:Hst; cbn [allocate_step thread_ok] in *;
    try (exists s, free; by auto using semi_inv_mono).
  - destruct Hok as [Hl Hd]. destruct (Z.eqb_spec (node_ptr old) 0) as [H0 | H0].
    + destruct (carve_chunk (semi_memory s)) as [m base] eqn:E.
      eexists _, free. split; [reflexivity |]. apply semi_inv_mono.
      by eapply (chunk_carved_ok t s free k old).
    + specialize (Hd H0). apply elem_of_dom in Hd as [next Hn]. unfold load_next. rewrite Hn. cbn [of_option].
      eexists _, free. split; [reflexivity |]. apply semi_inv_mono, semi_set_thread; [done | by rewrite Hst |].
      split; [done |]. by split.
  - destruct Hok as (Hl & H0 & Hn).
    destruct (compare_exchange_cases spurious (semi_free s) old (mkTagged next (u64 (tag old + 1))))
      as [[-> ->] | ->].
    + destruct (pop_success t s free k next (semi_chunks s) Hi Hk Hst) as (free' & Hi').
      by exists (mkSemi (semi_memory s) (mkTagged next (u64 (tag (semi_free s) + 1))) (semi_chunks s)
                (<[t := Idle]> (threads s)) (node_ptr (semi_free s) :: held s)), free'.
    + eexists _, free. split; [reflexivity |]. apply semi_inv_mono, semi_set_thread; [done | by rewrite Hst |].
      split; [apply loaded_refl |]. intros Hp. pose proof (i_chain _ _ _ Hi) as Hc.
      destruct free as [| y free]; [done |]. eapply chain_dom; [exact Hc |].
      by apply (chain_head _ _ _ Hc).
Qed.

Lemma chunk_step_ok t spurious s free k :
  0 < width -> semi_inv s free k -> k < 2 ^ 64 - 1 ->
  stepped (k + 1) (chunk_step t spurious (threads s t) s).
Proof using.
  intros Hw Hi Hk. pose proof (i_threads _ _ _ Hi t) as Hok.
  destruct (threads s t) as [| | | tail | tail old | tail old | |] eqn:Hst; cbn [chunk_step thread_ok] in *.
  1-3, 7-8: exists s, free; split; [reflexivity | apply semi_inv_mono; exact Hi].
  - eexists _, free. split; [reflexivity |]. apply semi_inv_mono, semi_set_thread;
      [exact Hi | rewrite Hst; reflexivity |]. split; [exact Hok | apply loaded_refl].
  - destruct Hok as [Hs Hl].
    destruct (semi_store t (ChunkLinked tail old) s free k tail (node_ptr old) Hi) as (m & -> & Hi').
    + rewrite Hst. apply chunk_tail_own.
    + rewrite Hst. reflexivity.
    + split; [unfold segment; rewrite insert_insert_eq; exact Hs |]. split; [exact Hl | apply lookup_insert_eq].
    + eexists _, free. split; [reflexivity |]. apply semi_inv_mono. exact Hi'.
  - destruct Hok as (Hs & Hl & Ht).
    destruct (compare_exchange_cases spurious (semi_free s) old
                (mkTagged (chunk_top tail) (u64 (tag old + 1)))) as [[-> ->] | ->].
    + destruct (chunk_success t s free k tail (semi_chunks s) Hw Hi Hk Hst) as (free' & Hi').
      eexists _, free'. split; [reflexivity | exact Hi'].
    + eexists _, free. split; [reflexivity |]. apply semi_inv_mono, semi_set_thread;
        [exact Hi | rewrite Hst; reflexivity |]. split; [exact Hs | apply loaded_refl].
Qed.

Lemma deallocate_step_ok t spurious s free k :
  semi_inv s free k -> k < 2 ^ 64 - 1 ->
  stepped (k + 1) (deallocate_step t spurious (threads s t) s).
Proof using.
  intros Hi Hk. pose proof (i_threads _ _ _ Hi t) as Hok.
  destruct (threads s t) as [| | | | | | slab old | slab old] eqn:Hst; cbn [deallocate_step thread_ok] in *;
    try (exists s, free; by auto using semi_inv_mono).
  - destruct (semi_store t (DeallocateLinked slab old) s free k slab (node_ptr old) Hi) as (m & -> & Hi').
    + rewrite Hst. by left.
    + by rewrite Hst.
    + split; [done | apply lookup_insert_eq].
    + eexists _, free. split; [reflexivity |]. by apply semi_inv_mono.
  - destruct Hok as [Hl Ht].
    destruct (compare_exchange_cases spurious (semi_free s) old (mkTagged slab (u64 (tag old + 1))))
      as [[-> ->] | ->].
    + destruct (push_success t s free k slab (semi_chunks s) Hi Hk Hst) as (free' & Hi').
      eexists _, free'. split; [reflexivity | exact Hi'].
    + eexists _, free. split; [reflexivity |]. apply semi_inv_mono, semi_set_thread; [done | by rewrite Hst |].
      apply loaded_refl.
Qed.

Lemma semi_step_ok t a s free k :
  aalloc_law width aalloc -> semi_inv s free k -> k < 2 ^ 64 - 1 -> action_enabled t a s = true ->
  stepped (k + 1) (semi_step t a s).
Proof using.
  intros Hal Hi Hk Ha. destruct a as [n | slab n | slab v | spurious]; cbn [semi_step action_enabled] in *.
  - apply andb_prop in Ha as [-> Ha]. apply bool_decide_eq_true in Ha. cbn [negb].
    eexists _, free. split; [reflexivity |]. apply semi_inv_mono, semi_set_thread; [done | by rewrite Ha |].
    split; [apply loaded_refl |]. intros Hp. pose proof (i_chain _ _ _ Hi) as Hc.
    destruct free as [| y free]; [done |]. eapply chain_dom; [exact Hc |]. by apply (chain_head _ _ _ Hc).
  - apply andb_prop in Ha as [[-> Ht]%andb_prop Hh].
    apply bool_decide_eq_true in Ht, Hh. cbn [negb].
    eexists _, free. split; [reflexivity |]. apply semi_inv_mono.
    pose proof (i_nodup _ _ _ Hi t) as Hnd. pose proof (i_valid _ _ _ Hi t) as Hv.
    rewrite Ht in Hnd, Hv. cbn [own app] in Hnd, Hv. apply NoDup_app in Hnd as (Hnh & Hdis & Hnf).
    assert (Hsub : forall x, x ∈ [slab] ++ filter (fun x => x <> slab) (held s) ++ free -> x ∈ held s ++ free).
    { intros x. rewrite !elem_of_app, list_elem_of_singleton, list_elem_of_filter. naive_solver. }
    apply (semi_update t (DeallocateLoaded slab (semi_free s)) s free k); try done; try apply Hi.
    + cbn [own app]. constructor.
      * rewrite elem_of_app, list_elem_of_filter. intros [[? ?] | Hf]; [done | by apply (Hdis slab)].
      * apply NoDup_app. split; [by apply NoDup_filter |]. split; [| done].
        intros x [_ Hx]%list_elem_of_filter. by apply Hdis.
    + intros x Hx%Hsub. rewrite Ht. split; [by left | by apply Hv].
    + by left.
  - apply bool_decide_eq_true in Ha. destruct (semi_write s free k slab v Hi Ha) as (m & -> & Hi').
    eexists _, free. split; [reflexivity |]. by apply semi_inv_mono.
  - destruct (threads s t) eqn:Hst; [exists s, free; split; [done | by apply semi_inv_mono] | ..];
      rewrite <- Hst.
    1-2: by apply (allocate_step_ok t spurious s free).
    1-3: by apply (chunk_step_ok t spurious s free); [apply Hal | |].
    all: by apply (deallocate_step_ok t spurious s free).
Qed.

Lemma new_semi_inv : semi_inv new_SemiLockFreeSlabAllocator [] 0.
Proof using.
  split; cbn [new_SemiLockFreeSlabAllocator semi_memory semi_free threads held own app node_ptr tag].
  - done.
  - intros _. apply NoDup_nil_2.
  - intros _ x Hx. by apply elem_of_nil in Hx.
  - intros t t' x _ Hx. by apply elem_of_nil in Hx.
  - intros a b Ha. exfalso. revert Ha. apply not_elem_of_dom_2, lookup_empty.
  - done.
  - done.
Qed.

Lemma run_schedule_ok schedule s free k :
  aalloc_law width aalloc -> semi_inv s free k -> k + Z.of_nat (length schedule) < 2 ^ 64 ->
  exists k', 0 <= k' <= k + Z.of_nat (length schedule) /\ stepped k' (run_schedule schedule s).
Proof using.
  intros Hal. revert s free k. induction schedule as [| [t a] schedule IH]; intros s free k Hi Hlen;
    cbn [run_schedule length] in *.
  - exists k. split; [pose proof (i_tag _ _ _ Hi); lia | by exists s, free].
  - destruct (action_enabled t a s) eqn:Ha.
    + destruct (semi_step_ok t a s free k Hal Hi ltac:(lia) Ha) as (s1 & free1 & -> & Hi1).
      destruct (IH s1 free1 (k + 1) Hi1 ltac:(lia)) as (k' & Hk' & Hs). exists k'. split; [lia | done].
    + destruct (IH s free k Hi ltac:(lia)) as (k' & Hk' & Hs). exists k'. split; [lia | done].
Qed.

(** C11: Under every interleaving of any number of threads (fewer than [2 ^ 64] steps,
    so that the tag does not come around), with spurious failures and with clients
    writing what they like into the slabs they hold: no thread ever touches memory
    the allocator does not own, no slab is handed out twice, the slabs held do not
    overlap, and none of them is on the free list or in the hands of another
    thread.  In particular a stale head (the ABA problem) never gets installed. *)
Theorem semi_lock_free_slab_allocator_safe schedule
    (Hal : aalloc_law width aalloc) (Hlen : Z.of_nat (length schedule) < 2 ^ 64) :
  exists s, run_schedule schedule new_SemiLockFreeSlabAllocator = Ok s /\ NoDup (held s) /\
    (forall x y, x ∈ held s -> y ∈ held s -> x <> y -> separate width x y) /\
    (forall t x, x ∈ own (threads s t) -> x ∉ held s) /\
    exists free, chain (semi_memory s) (node_ptr (semi_free s)) free /\ NoDup free /\
      (forall x, x ∈ held s -> x ∉ free).
Proof using.
  destruct (run_schedule_ok schedule _ _ _ Hal new_semi_inv ltac:(lia)) as (k & Hk & s & free & E & Hi).
  exists s. split; [done |]. pose proof (i_nodup _ _ _ Hi) as Hnd.
  pose proof (Hnd 0%nat) as (_ & _ & (Hnh & Hdis & Hnf)%NoDup_app)%NoDup_app. split; [done |].
  assert (Hin : forall x, x ∈ held s -> x ∈ dom (semi_memory s)).
  { intros x Hx. apply (i_valid _ _ _ Hi 0%nat). rewrite !elem_of_app. auto. }
  split; [intros x y Hx Hy; apply Hi; by apply Hin |]. split.
  - intros t x Hx Hh. pose proof (Hnd t) as (_ & Hd & _)%NoDup_app. apply (Hd x Hx), elem_of_app. by left.
  - exists free. split; [apply Hi |]. by split.
Qed.

(** ** A call that runs alone returns *)
Fixpoint run_alone (fuel : nat) (t : nat) (s : SemiLockFreeSlabAllocator) : result SemiLockFreeSlabAllocator :=
  if bool_decide (threads s t = Idle) then Ok s
  else
    match fuel with
    | O => Err OutOfFuel
    | S fuel => let* s := semi_step t (Continue false) s in run_alone fuel t s
    end.

(** How many steps a thread is away from returning, when the others are stopped. *)
Definition rank (head : TaggedLinkedListNodePtr) (st : thread_state) : nat :=
  match st with
  | Idle => 0
  | AllocateLoaded old =>
      if (node_ptr old =? 0)%Z then 4 else if bool_decide (head = old) then 2 else 6
  | AllocateRead old _ => if bool_decide (head = old) then 1 else 5
  | ChunkCarved _ => 3
  | ChunkLoaded _ old | DeallocateLoaded _ old => if bool_decide (head = old) then 2 else 4
  | ChunkLinked _ old | DeallocateLinked _ old => if bool_decide (head = old) then 1 else 3
  end%nat.

Lemma rank_loaded_head head : (rank head (AllocateLoaded head) <= 4)%nat.
Proof using. cbn [rank]. destruct (node_ptr head =? 0); [lia |]. rewrite bool_decide_eq_true_2 by done. lia. Qed.

(** A step towards the exchange, and the exchange: it succeeds or reloads. *)
Lemma rank_set t st s s' :
  s' = set_thread t st s \/ (exists m, s' = set_thread t st (set_memory m s)) ->
  rank (semi_free s') (threads s' t) = rank (semi_free s) st.
Proof using.
  intros [-> | [m ->]]; cbn [set_thread set_memory semi_free threads]; by rewrite fn_lookup_insert.
Qed.

Lemma rank_idle t m head chunks s h :
  rank head (threads (mkSemi m head chunks (<[t := Idle]> (threads s)) h) t) = 0%nat.
Proof using. cbn [threads]. by rewrite fn_lookup_insert. Qed.

Lemma rank_decreases t s s' :
  threads s t <> Idle -> semi_step t (Continue false) s = Ok s' ->
  (rank (semi_free s') (threads s' t) < rank (semi_free s) (threads s t))%nat.
Proof using.
  intros Hne E. cbn [semi_step] in E.
  destruct (threads s t) as [| old | old next | tail | tail old | tail old | slab old | slab old];
    cbn [allocate_step chunk_step deallocate_step] in E; unfold compare_exchange_weak in E; cbn [negb andb] in E.
  - done.
  - cbn [rank]. destruct (node_ptr old =? 0) eqn:H0.
    + destruct (carve_chunk (semi_memory s)) as [m base]. injection E as <-. cbn [threads semi_free].
      rewrite fn_lookup_insert. cbn [rank]. lia.
    + destruct (load_next (semi_memory s) (node_ptr old)) as [next |]; [| done]. injection E as <-.
      rewrite (rank_set t (AllocateRead old next) s) by by left. cbn [rank]. case_bool_decide; lia.
  - cbn [rank]. destruct (bool_decide (semi_free s = old)) eqn:Hb; injection E as <-.
    + rewrite rank_idle. lia.
    + rewrite (rank_set t (AllocateLoaded (semi_free s)) s) by by left.
      pose proof (rank_loaded_head (semi_free s)). lia.
  - injection E as <-. rewrite (rank_set t (ChunkLoaded tail (semi_free s)) s) by by left. cbn [rank].
    rewrite bool_decide_eq_true_2 by reflexivity. lia.
  - destruct (store_next tail (node_ptr old) (semi_memory s)) as [m |]; [| done]. injection E as <-.
    rewrite (rank_set t (ChunkLinked tail old) s) by (right; by exists m). cbn [rank]. case_bool_decide; lia.
  - cbn [rank]. destruct (bool_decide (semi_free s = old)) eqn:Hb; injection E as <-.
    + rewrite rank_idle. lia.
    + rewrite (rank_set t (ChunkLoaded tail (semi_free s)) s) by by left. cbn [rank].
      rewrite bool_decide_eq_true_2 by reflexivity. lia.
  - destruct (store_next slab (node_ptr old) (semi_memory s)) as [m |]; [| done]. injection E as <-.
    rewrite (rank_set t (DeallocateLinked slab old) s) by (right; by exists m). cbn [rank]. case_bool_decide; lia.
  - cbn [rank]. destruct (bool_decide (semi_free s = old)) eqn:Hb; injection E as <-.
    + rewrite rank_idle. lia.
    + rewrite (rank_set t (DeallocateLoaded slab (semi_free s)) s) by by left. cbn [rank].
      rewrite bool_decide_eq_true_2 by reflexivity. lia.
Qed.

Lemma run_alone_ok fuel t s free k :
  aalloc_law width aalloc -> semi_inv s free k -> k + Z.of_nat fuel < 2 ^ 64 ->
  (rank (semi_free s) (threads s t) <= fuel)%nat ->
  exists s', run_alone fuel t s = Ok s' /\ threads s' t = Idle.
Proof using.
  intros Hal. revert s free k. induction fuel as [| fuel IH]; intros s free k Hi Hk Hr; cbn [run_alone];
    destruct (bool_decide_reflect (threads s t = Idle)) as [Ht | Ht]; try (by exists s).
  - exfalso. destruct (threads s t); cbn [rank] in Hr; repeat case_match; try lia. done.
  - destruct (semi_step_ok t (Continue false) s free k Hal Hi ltac:(lia) eq_refl) as (s1 & free1 & E & Hi1).
    rewrite E. pose proof (rank_decreases t s s1 Ht E). apply (IH s1 free1 (k + 1) Hi1); lia.
Qed.

(** C39: Obstruction freedom: at any point of any schedule, a thread inside [allocate]
    or [deallocate] returns within six shared accesses of its own once the other
    threads are stopped, wherever they are, and its exchanges do not fail
    spuriously. *)
Theorem semi_lock_free_completes_alone schedule t
    (Hal : aalloc_law width aalloc) (Hlen : Z.of_nat (length schedule) < 2 ^ 64 - 6) :
  exists s s', run_schedule schedule new_SemiLockFreeSlabAllocator = Ok s /\
    run_alone 6 t s = Ok s' /\ threads s' t = Idle.
Proof using.
  destruct (run_schedule_ok schedule _ _ _ Hal new_semi_inv ltac:(lia)) as (k & Hk & s & free & E & Hi).
  exists s. destruct (run_alone_ok 6 t s free k Hal Hi) as (s' & E' & Hs'); [lia | | by exists s'].
  destruct (threads s t); cbn [rank]; repeat case_match; lia.
Qed.
End SemiLockFree.

(** Two threads race for the first chunk: both carve one. *)
Definition sample_schedule : list (nat * action) :=
  [(0%nat, CallAllocate 1); (1%nat, CallAllocate 1); (0%nat, Continue false); (1%nat, Continue false)].

Lemma semi_lock_free_slab_allocator_safe_witness :
  exists s, run_schedule 16 sample_aalloc (fun _ => 7) sample_schedule new_SemiLockFreeSlabAllocator = Ok s /\
    NoDup (held s).
Proof.
  destruct (semi_lock_free_slab_allocator_safe 16 sample_aalloc (fun _ => 7) sample_schedule
              sample_aalloc_law ltac:(simpl; lia)) as (s & E & H & _).
  exists s. exact (conj E H).
Defined.

Lemma semi_lock_free_completes_alone_witness :
  exists s s', run_schedule 16 sample_aalloc (fun _ => 7) sample_schedule new_SemiLockFreeSlabAllocator = Ok s /\
    run_alone 16 sample_aalloc (fun _ => 7) 6 1 s = Ok s' /\ threads s' 1%nat = Idle.
Proof.
  exact (semi_lock_free_completes_alone 16 sample_aalloc (fun _ => 7) sample_schedule 1
           sample_aalloc_law ltac:(simpl; lia)).
Defined.
