(* ===== verification/SlabLifetime.v ===== *)
(** The end of the slab allocators ([include/util/slab_allocator.h]): the destructors
    that give the chunks back, of an allocator or of the chunk manager that a thread
    has.

    The slabs of a chunk leave the memory when it is freed; freeing a chunk whose slabs
    are not all there is undefined. *)
From S2P Require Import Prelude SlabMemory SlabAllocator ThreadLocalSlabAllocator SemiLockFreeSlabAllocator.
From stdpp Require Import fin_maps functions sorting.
Open Scope Z_scope.

Lemma in_concat_fmap {A B} (f : A -> list B) l x : x ∈ concat (f <$> l) <-> exists a, a ∈ l /\ x ∈ f a.
Proof.
  induction l as [| b l IH]; cbn [concat fmap list_fmap].
  - split; [by intros ?%elem_of_nil | by intros (a & ?%elem_of_nil & _)].
  - rewrite elem_of_app. setoid_rewrite elem_of_cons. fold (f <$> l). rewrite IH. naive_solver.
Qed.

Section Lifetime.
Context (width : Z).
Abbreviation N := _NUMBER_OF_SLABS_PER_CHUNK.
Abbreviation nodes c := (slab_nodes width c N).

(** [::free(chunk)] *)
Definition free_chunk (chunk : Z) (m : memory) : result memory :=
  if decide (Forall (fun x => x ∈ dom m) (nodes chunk))
  then Ok (foldr delete m (nodes chunk)) else Err UndefinedBehaviour.

(** The loop of the destructors, and of [~ChunkManager]. *)
Fixpoint free_chunks (chunks : list Z) (m : memory) : result memory :=
  match chunks with
  | [] => Ok m
  | chunk :: chunks => let* m := free_chunk chunk m in free_chunks chunks m
  end.

Definition delete_SimpleSlabAllocator (s : SimpleSlabAllocator) : result memory :=
  free_chunks (_allocated_chunks s) (simple_memory s).

(** The destructor of [SemiLockFreeSlabAllocator], with no operation under way. *)
Definition delete_SemiLockFreeSlabAllocator (s : SemiLockFreeSlabAllocator) : result memory :=
  if decide (semi_chunks s = []) then Ok (semi_memory s) else free_chunks (semi_chunks s) (semi_memory s).

(** The chunk managers of the static allocators, destroyed when the program ends. *)
Definition delete_static_simple : SimpleSlabAllocator -> result memory := delete_SimpleSlabAllocator.
Definition delete_static_semi (s : SemiLockFreeSlabAllocator) : result memory :=
  free_chunks (semi_chunks s) (semi_memory s).

(** The end of a thread: its chunk manager is destroyed, its other thread-local
    members are gone. *)
Definition tl_thread_exit (t : nat) (s : StaticThreadLocalSlabAllocator)
    : result StaticThreadLocalSlabAllocator :=
  let* m := free_chunks (local_chunks (locals s t)) (tl_memory s) in
  Ok (mkTL m (<[t := new_local]> (locals s)) (_free_chunks s)).

Fixpoint tl_threads_exit (ts : list nat) (s : StaticThreadLocalSlabAllocator)
    : result StaticThreadLocalSlabAllocator :=
  match ts with
  | [] => Ok s
  | t :: ts => let* s := tl_thread_exit t s in tl_threads_exit ts s
  end.

(** * The chunks that make up a memory *)
Definition slabs_of (chunks : list Z) : list Z := concat ((fun c => nodes c) <$> chunks).

Record made_of (m : memory) (chunks : list Z) : Prop := {
  mo_nodup : NoDup (slabs_of chunks);
  mo_dom x : x ∈ dom m <-> x ∈ slabs_of chunks
}.

Lemma slabs_of_app cs cs' : slabs_of (cs ++ cs') = slabs_of cs ++ slabs_of cs'.
Proof. unfold slabs_of. by rewrite fmap_app, concat_app. Qed.

Lemma slabs_of_cons c cs : slabs_of (c :: cs) = nodes c ++ slabs_of cs.
Proof. done. Qed.

#[global] Instance slabs_of_perm : Proper ((≡ₚ) ==> (≡ₚ)) slabs_of.
Proof.
  intros cs cs' Hp. unfold slabs_of. induction Hp; simpl; [done | by f_equiv | | by etrans].
  rewrite !app_assoc. f_equiv. apply Permutation_app_comm.
Qed.

#[global] Instance made_of_perm m : Proper ((≡ₚ) ==> iff) (made_of m).
Proof.
  intros cs cs' Hp. split; intros [H1 H2]; split.
  - by rewrite <- Hp.
  - intros x. by rewrite H2, Hp.
  - by rewrite Hp.
  - intros x. by rewrite H2, Hp.
Qed.

Lemma made_of_empty : made_of ∅ [].
Proof. split; [constructor |]. intros x. rewrite dom_empty_L. set_solver. Qed.

Lemma made_of_nil m : made_of m [] -> m = ∅.
Proof.
  intros [_ Hd]. apply dom_empty_inv_L, set_eq. intros x. rewrite Hd. set_solver.
Qed.

Lemma made_of_dom m m' cs : dom m' = dom m -> made_of m cs -> made_of m' cs.
Proof. intros Hd [H1 H2]. split; [done |]. by rewrite Hd. Qed.

Lemma carve_dom n base free (m : memory) :
  dom (carve width n base free m).1 = list_to_set (slab_nodes width base n) ∪ dom m.
Proof.
  revert base free m. induction n as [| n IH]; intros base free m; cbn [carve].
  - cbn. set_solver.
  - rewrite IH, slab_nodes_S, dom_insert_L. cbn [list_to_set]. set_solver.
Qed.

Lemma store_next_dom p v (m m' : memory) : store_next p v m = Ok m' -> dom m' = dom m.
Proof.
  unfold store_next. destruct (m !! p) eqn:E; [| done]. intros [= <-].
  apply dom_insert_lookup_L. by eexists.
Qed.

(** A fresh chunk. *)
Lemma made_of_chunk aalloc m m' cs :
  aalloc_law width aalloc -> made_of m cs ->
  dom m' = list_to_set (nodes (aalloc m)) ∪ dom m -> made_of m' (cs ++ [aalloc m]).
Proof.
  intros Hal [H1 H2] Hd. pose proof Hal as [Hw _ _].
  split; rewrite slabs_of_app, slabs_of_cons; unfold slabs_of at 2; simpl; rewrite app_nil_r.
  - apply NoDup_app. split; [done |]. split; [| by apply NoDup_slab_nodes].
    intros x Hx Hn. apply (proj1 (chunk_fresh width aalloc m x Hal Hn)). by apply H2.
  - intros x. rewrite Hd, elem_of_union, elem_of_list_to_set, elem_of_app, H2. tauto.
Qed.

Lemma foldr_delete_lookup (l : list Z) (m : memory) x :
  foldr delete m l !! x = if decide (x ∈ l) then None else m !! x.
Proof.
  induction l as [| y l IH]; cbn [foldr]; [done |].
  destruct (decide (x = y)) as [-> | Hne].
  - rewrite lookup_delete_eq, decide_True by (by left). done.
  - rewrite lookup_delete_ne, IH by done.
    destruct (decide (x ∈ l)) as [Hx | Hx]; [by rewrite decide_True by (by right) |].
    rewrite decide_False; [done |]. rewrite elem_of_cons. by intros [?|?].
Qed.

(** Freeing some of the chunks: exactly their slabs go. *)
Lemma free_chunks_spec cs rest m :
  made_of m (cs ++ rest) ->
  exists m', free_chunks cs m = Ok m' /\ made_of m' rest /\
    forall x, m' !! x = if decide (x ∈ slabs_of cs) then None else m !! x.
Proof.
  revert m. induction cs as [| c cs IH]; intros m Hm; cbn [free_chunks app].
  { exists m. split; [done |]. split; [done |]. intros x. by rewrite decide_False by apply not_elem_of_nil. }
  destruct Hm as [Hnd Hd]. cbn [app] in Hnd, Hd. rewrite slabs_of_cons in Hnd, Hd.
  unfold free_chunk. rewrite decide_True.
  2: { apply Forall_forall. intros x Hx. apply Hd, elem_of_app. by left. }
  apply NoDup_app in Hnd as (_ & Hdis & Hnd).
  destruct (IH (foldr delete m (nodes c))) as (m' & E & Hm' & Hl).
  { split; [done |]. intros x. rewrite elem_of_dom, foldr_delete_lookup.
    destruct (decide (x ∈ nodes c)) as [Hx | Hx].
    - split; [by intros [? ?] |]. intros Hr. by destruct (Hdis x Hx).
    - rewrite <- elem_of_dom, Hd, elem_of_app. tauto. }
  exists m'. split; [exact E |]. split; [done |]. intros x. rewrite Hl, foldr_delete_lookup.
  rewrite slabs_of_cons, (decide_ext _ _ _ _ (elem_of_app (nodes c) (slabs_of cs) x)).
  repeat case_decide; tauto.
Qed.

(** * The simple allocator *)
Section SimpleLife.
Context (aalloc : memory -> Z) (Haalloc : aalloc_law width aalloc).
Set Default Proof Using "All".

Lemma simple_made_of op s held s' held' :
  made_of (simple_memory s) (_allocated_chunks s) -> run_client width aalloc op s held = Ok (s', held') ->
  made_of (simple_memory s') (_allocated_chunks s').
Proof.
  intros Hm. destruct op as [| slab | slab v]; cbn [run_client].
  - unfold allocate. cbn [negb Z.eqb Pos.eqb].
    assert (Hc : made_of (simple_memory (_allocate_one_chunk width aalloc s))
                   (_allocated_chunks (_allocate_one_chunk width aalloc s))).
    { unfold _allocate_one_chunk.
      pose proof (carve_dom N (aalloc (simple_memory s)) (_linked_list_of_free_slabs s) (simple_memory s)) as Hd.
      destruct (carve _ _ _ _ _) as [m free]. by eapply made_of_chunk. }
    set (s1 := if _ =? 0 then _ else s).
    assert (Hs1 : made_of (simple_memory s1) (_allocated_chunks s1)) by (unfold s1; by destruct (_ =? 0)).
    clearbody s1. clear Hc Hm. destruct (load_next _ _) as [next |]; [| done]. by intros [= <- <-].
  - unfold deallocate. cbn [negb Z.eqb Pos.eqb].
    destruct (store_next _ _ _) as [m |] eqn:E; [| done]. intros [= <- <-].
    eapply made_of_dom; [by eapply store_next_dom | done].
  - destruct (store_next _ _ _) as [m |] eqn:E; [| done]. intros [= <- <-].
    eapply made_of_dom; [by eapply store_next_dom | done].
Qed.

(** Whatever the clients of the allocator have done, its destructor gives back exactly
    the chunks it has taken, each once: nothing of its memory is left. *)
Theorem simple_slab_allocator_returns_all ops (Hops : clients_ok width aalloc ops new_SimpleSlabAllocator []) :
  exists s held, run_clients width aalloc ops new_SimpleSlabAllocator [] = Ok (s, held) /\
    delete_SimpleSlabAllocator s = Ok ∅.
Proof.
  destruct (simple_runs width aalloc Haalloc ops Hops) as (s & held & E). exists s, held. split; [done |].
  assert (Hm : made_of (simple_memory s) (_allocated_chunks s)).
  { cut (forall s0 held0, made_of (simple_memory s0) (_allocated_chunks s0) ->
           run_clients width aalloc ops s0 held0 = Ok (s, held) -> made_of (simple_memory s) (_allocated_chunks s)).
    { intros Hcut. by apply (Hcut new_SimpleSlabAllocator []); [apply made_of_empty |]. }
    clear E Hops. induction ops as [| op ops IH]; cbn [run_clients]; intros s0 held0 Hm; [by intros [= <- <-] |].
    destruct (run_client _ _ _ _ _) as [[s1 held1] |] eqn:E1; [| done].
    apply IH. by eapply simple_made_of. }
  unfold delete_SimpleSlabAllocator.
  destruct (free_chunks_spec (_allocated_chunks s) [] (simple_memory s)) as (m & -> & Hnil & _).
  { by rewrite app_nil_r. }
  by rewrite (made_of_nil _ Hnil).
Qed.
End SimpleLife.

(** * The semi lock-free allocator *)
Section SemiLife.
Context (aalloc : memory -> Z) (junk : Z -> Z) (Haalloc : aalloc_law width aalloc).
Set Default Proof Using "All".

Lemma semi_made_of t a s s' :
  made_of (semi_memory s) (semi_chunks s) -> semi_step width aalloc junk t a s = Ok s' ->
  made_of (semi_memory s') (semi_chunks s').
Proof.
  assert (Hstore : forall p v m, made_of (semi_memory s) (semi_chunks s) ->
    store_next p v (semi_memory s) = Ok m -> made_of m (semi_chunks s)).
  { intros p v m Hm E. eapply made_of_dom; [by eapply store_next_dom | done]. }
  intros Hm. unfold semi_step, allocate_step, chunk_step, deallocate_step.
  destruct a as [n | slab n | slab v | spurious].
  - destruct (negb _); [done |]. by intros [= <-].
  - destruct (negb _); [done |]. by intros [= <-].
  - destruct (store_next _ _ _) eqn:E; [| done]. intros [= <-]. by eapply Hstore.
  - destruct (threads s t) as [| old | old next | tail | tail old | tail old | slab old | slab old].
    + by intros [= <-].
    + destruct (_ =? 0).
      * destruct (carve_chunk width aalloc junk (semi_memory s)) as [m c] eqn:E. intros [= <-].
        destruct (carve_chunk_spec width aalloc junk (semi_memory s) m c Haalloc E) as (-> & Hd & _).
        by eapply made_of_chunk.
      * destruct (load_next _ _); [| done]. by intros [= <-].
    + destruct (compare_exchange_weak _ _ _ _) as [[] ?]; by intros [= <-].
    + by intros [= <-].
    + destruct (store_next _ _ _) eqn:E; [| done]. intros [= <-]. by eapply Hstore.
    + destruct (compare_exchange_weak _ _ _ _) as [[] ?]; by intros [= <-].
    + destruct (store_next _ _ _) eqn:E; [| done]. intros [= <-]. by eapply Hstore.
    + destruct (compare_exchange_weak _ _ _ _) as [[] ?]; by intros [= <-].
Qed.

Lemma schedule_made_of schedule s s' :
  made_of (semi_memory s) (semi_chunks s) -> run_schedule width aalloc junk schedule s = Ok s' ->
  made_of (semi_memory s') (semi_chunks s').
Proof.
  revert s. induction schedule as [| [t a] schedule IH]; intros s Hm; cbn [run_schedule]; [by intros [= <-] |].
  destruct (action_enabled t a s); [| by apply IH].
  destruct (semi_step _ _ _ _ _ _) eqn:E; [| done]. apply IH. by eapply semi_made_of.
Qed.

(** Whatever the interleaving of the threads has been, the destructor gives back exactly
    the chunks taken, by whichever thread, each once. *)
Theorem semi_lock_free_slab_allocator_returns_all schedule (Hlen : Z.of_nat (length schedule) < 2 ^ 64) :
  exists s, run_schedule width aalloc junk schedule new_SemiLockFreeSlabAllocator = Ok s /\
    delete_SemiLockFreeSlabAllocator s = Ok ∅ /\ delete_static_semi s = Ok ∅.
Proof.
  destruct (run_schedule_ok width aalloc junk schedule _ _ 0 Haalloc (new_semi_inv width) ltac:(lia))
    as (k & _ & s & free & E & _).
  exists s. split; [done |].
  pose proof (schedule_made_of schedule new_SemiLockFreeSlabAllocator s made_of_empty E) as Hm.
  assert (Hd : delete_static_semi s = Ok ∅).
  { unfold delete_static_semi. destruct (free_chunks_spec (semi_chunks s) [] (semi_memory s)) as (m & -> & Hnil & _).
    { by rewrite app_nil_r. }
    by rewrite (made_of_nil _ Hnil). }
  split; [| done]. unfold delete_SemiLockFreeSlabAllocator. case_decide as Hc; [| done].
  rewrite Hc in Hm. by rewrite (made_of_nil _ Hm).
Qed.
End SemiLife.

(** * Threads that end *)
Section ThreadLife.
Context (aalloc : memory -> Z) (Haalloc : aalloc_law width aalloc).

(** The chunks that the threads below [n] have taken. *)
Definition chunks_of (ts : list nat) (s : StaticThreadLocalSlabAllocator) : list Z :=
  concat ((fun t => local_chunks (locals s t)) <$> ts).
Definition threads_made_of (n : nat) (s : StaticThreadLocalSlabAllocator) : Prop :=
  made_of (tl_memory s) (chunks_of (seq 0 n) s).
Definition thread_below (n : nat) (op : tl_op) : Prop :=
  match op with TlAllocate t | TlDeallocate t _ => (t < n)%nat | TlWrite _ _ => True end.

Set Default Proof Using "All".

Lemma chunks_of_others ts t l m chunks s :
  t ∉ ts -> chunks_of ts (mkTL m (<[t := l]> (locals s)) chunks) = chunks_of ts s.
Proof.
  intros Ht. unfold chunks_of. cbn [locals]. f_equal. apply list_fmap_ext. intros i t' Hi.
  rewrite fn_lookup_insert_ne; [done |]. intros ->. by apply Ht, (list_elem_of_lookup_2 _ i).
Qed.

Lemma threads_split n t :
  (t < n)%nat -> exists ts, t ∉ ts /\ (forall s, chunks_of (seq 0 n) s ≡ₚ local_chunks (locals s t) ++ chunks_of ts s).
Proof.
  intros Ht. exists (seq 0 t ++ seq (S t) (n - S t)). split.
  { rewrite elem_of_app, !elem_of_seq. lia. }
  intros s'. replace n with (t + S (n - S t))%nat at 1 by lia. rewrite seq_app. cbn [seq Nat.add].
  unfold chunks_of. rewrite !fmap_app, !concat_app, fmap_cons, concat_cons, !app_assoc. f_equiv.
  apply Permutation_app_comm.
Qed.

(** A step of thread [t] that takes the chunks [cs]. *)
Lemma threads_step n t cs m l chunks s :
  (t < n)%nat -> local_chunks l = local_chunks (locals s t) ++ cs ->
  made_of m (chunks_of (seq 0 n) s ++ cs) ->
  threads_made_of n (mkTL m (<[t := l]> (locals s)) chunks).
Proof.
  intros Ht Hl Hm. destruct (threads_split n t Ht) as (ts & Hts & Hp). unfold threads_made_of. cbn [tl_memory].
  rewrite Hp in Hm |- *. rewrite chunks_of_others by done. cbn [locals]. rewrite fn_lookup_insert, Hl.
  rewrite <- app_assoc in Hm |- *. by rewrite (Permutation_app_comm cs).
Qed.

Lemma threads_same n t m l chunks s :
  (t < n)%nat -> local_chunks l = local_chunks (locals s t) -> dom m = dom (tl_memory s) ->
  threads_made_of n s -> threads_made_of n (mkTL m (<[t := l]> (locals s)) chunks).
Proof.
  intros Ht Hl Hd Hm. apply (threads_step n t []); [done | by rewrite app_nil_r |].
  rewrite app_nil_r. by eapply made_of_dom.
Qed.

Lemma refill_made_of n t s s' :
  (t < n)%nat -> threads_made_of n s -> refill width aalloc t s = Ok s' -> threads_made_of n s'.
Proof.
  intros Ht Hm. unfold refill. destruct (negb (_ =? 0)%nat); [by intros [= <-] |].
  destruct (match unsnoc _ with Some _ => _ | None => _ end) as [node free].
  destruct (negb (_ =? 0)).
  - destruct (store_next _ _ _) as [m |] eqn:E; [| done]. intros [= <-].
    apply threads_same; try done. by eapply store_next_dom.
  - unfold tl_allocate_one_chunk.
    pose proof (carve_dom N (aalloc (tl_memory s)) (tl_free (locals s t)) (tl_memory s)) as Hd.
    destruct (carve _ _ _ _ _) as [m p]. intros [= <-].
    apply (threads_step n t [aalloc (tl_memory s)]); [done | done |]. by eapply made_of_chunk.
Qed.

Lemma tl_made_of n op s held s' held' :
  thread_below n op -> threads_made_of n s -> run_tl width aalloc op s held = Ok (s', held') ->
  threads_made_of n s'.
Proof.
  intros Hop Hm. destruct op as [t | t slab | slab v]; cbn [run_tl thread_below] in *.
  - unfold tl_allocate. cbn [negb Z.eqb Pos.eqb].
    destruct (refill _ _ _ _) as [s1 |] eqn:E; [| done].
    pose proof (refill_made_of n t s s1 Hop Hm E) as Hm1. clear E.
    destruct (load_next _ _); [| done]. intros [= <- <-]. by apply threads_same.
  - unfold tl_deallocate. cbn [negb Z.eqb Pos.eqb].
    destruct (store_next _ _ _) as [m |] eqn:E; [| done]. apply store_next_dom in E.
    pose proof (threads_same n t m _ (_free_chunks s) s Hop
      (eq_refl : local_chunks (mkLocal slab (_number_of_free_slabs (locals s t) + 1)
         (_cut_off_threshold (locals s t)) (local_chunks (locals s t))) = _) E Hm) as Hm1.
    set (s1 := mkTL m _ _) in *. clearbody s1. unfold cut_off.
    destruct (_ <? _)%nat; [by intros [= <- <-] |].
    destruct (walk _ _ _) as [tail |]; [| done]. destruct (load_next _ _); [| done].
    destruct (store_next tail _ _) as [m' |] eqn:E'; [| done]. apply store_next_dom in E'.
    intros [= <- <-]. by apply threads_same.
  - destruct (store_next _ _ _) as [m |] eqn:E; [| done]. intros [= <- <-].
    eapply made_of_dom; [by eapply store_next_dom | done].
Qed.

Lemma tl_runs_made_of n ops s held s' held' :
  Forall (thread_below n) ops -> threads_made_of n s -> run_tls width aalloc ops s held = Ok (s', held') ->
  threads_made_of n s'.
Proof.
  intros Hops. revert s held. induction Hops as [| op ops Hop _ IH]; cbn [run_tls]; intros s held Hm;
    [by intros [= <- <-] |].
  destruct (run_tl _ _ _ _ _) as [[s1 held1] |] eqn:E; [| done]. apply IH. by eapply tl_made_of.
Qed.

Lemma new_threads_made_of n : threads_made_of n new_StaticThreadLocalSlabAllocator.
Proof.
  unfold threads_made_of. replace (chunks_of _ _) with (@nil Z); [apply made_of_empty |].
  unfold chunks_of. by induction (seq 0 n) as [| t ts IH].
Qed.

Lemma thread_exit_spec t rest s :
  made_of (tl_memory s) (local_chunks (locals s t) ++ rest) ->
  exists s', tl_thread_exit t s = Ok s' /\ made_of (tl_memory s') rest /\
    (exists m, s' = mkTL m (<[t := new_local]> (locals s)) (_free_chunks s)) /\
    forall x, tl_memory s' !! x
      = if decide (x ∈ slabs_of (local_chunks (locals s t))) then None else tl_memory s !! x.
Proof.
  intros Hm. unfold tl_thread_exit. destruct (free_chunks_spec _ _ _ Hm) as (m & -> & Hm' & Hl).
  eexists. split; [done |]. split; [done |]. split; [by eexists | done].
Qed.

Lemma threads_exit_spec ts s :
  NoDup ts -> made_of (tl_memory s) (chunks_of ts s) ->
  exists s', tl_threads_exit ts s = Ok s' /\ tl_memory s' = ∅.
Proof.
  intros Hnd. revert s. induction Hnd as [| t ts Ht _ IH]; intros s Hm; cbn [tl_threads_exit].
  { exists s. split; [done |]. by apply made_of_nil. }
  destruct (thread_exit_spec t (chunks_of ts s) s Hm) as (s' & -> & Hm' & (m & ->) & _).
  apply IH. by rewrite chunks_of_others.
Qed.

(** Whatever the threads below [n] have done, giving slabs back to whichever thread:
    when all of them have ended, the chunks have been given back, each once. *)
Theorem threads_return_all n ops
    (Hops : tls_ok width aalloc ops new_StaticThreadLocalSlabAllocator []) (Hn : Forall (thread_below n) ops) :
  exists s held s', run_tls width aalloc ops new_StaticThreadLocalSlabAllocator [] = Ok (s, held) /\
    tl_threads_exit (seq 0 n) s = Ok s' /\ tl_memory s' = ∅.
Proof.
  destruct (tl_runs width aalloc Haalloc ops Hops) as (s & held & fr & cen & E & _).
  pose proof (tl_runs_made_of n ops _ _ s held Hn (new_threads_made_of n) E) as Hm.
  destruct (threads_exit_spec (seq 0 n) s (NoDup_seq 0 n) Hm) as (s' & E' & Hs'). eauto 10.
Qed.

(** C36: A thread that ends takes the chunks it has taken with it, wherever their slabs are
    by then: a slab that is still held but comes from a chunk of the thread is no
    longer memory, writing to it and giving it back are undefined; every other slab is
    as it was. *)
Theorem thread_exit_takes_its_chunks n ops t
    (Hops : tls_ok width aalloc ops new_StaticThreadLocalSlabAllocator []) (Hn : Forall (thread_below n) ops)
    (Ht : (t < n)%nat) :
  exists s held s', run_tls width aalloc ops new_StaticThreadLocalSlabAllocator [] = Ok (s, held) /\
    tl_thread_exit t s = Ok s' /\
    forall x, x ∈ held ->
      (exists t', (t' < n)%nat /\ x ∈ slabs_of (local_chunks (locals s t'))) /\
      (x ∈ slabs_of (local_chunks (locals s t)) ->
         (forall v, run_tl width aalloc (TlWrite x v) s' held = Err UndefinedBehaviour) /\
         (forall t', run_tl width aalloc (TlDeallocate t' x) s' held = Err UndefinedBehaviour)) /\
      (x ∉ slabs_of (local_chunks (locals s t)) ->
         x ∈ dom (tl_memory s') /\ tl_memory s' !! x = tl_memory s !! x).
Proof.
  destruct (tl_runs width aalloc Haalloc ops Hops) as (s & held & fr & cen & E & Hi & _).
  pose proof (tl_runs_made_of n ops _ _ s held Hn (new_threads_made_of n) E) as Hm.
  destruct (threads_split n t Ht) as (ts & _ & Hp). pose proof Hm as Hm'. unfold threads_made_of in Hm'.
  rewrite Hp in Hm'. destruct (thread_exit_spec t _ s Hm') as (s' & E' & _ & _ & Hl).
  exists s, held, s'. split; [done |]. split; [done |]. intros x Hx.
  assert (Hd : x ∈ dom (tl_memory s)) by (apply (tl_dom _ _ _ _ _ Hi), elem_of_app; by left).
  specialize (Hl x). split; [| split].
  - apply (mo_dom _ _ Hm) in Hd. unfold slabs_of in Hd.
    apply in_concat_fmap in Hd as (c & Hc & Hx'). apply in_concat_fmap in Hc as (t' & Ht' & Hc).
    exists t'. apply elem_of_seq in Ht'. split; [lia |]. apply in_concat_fmap. eauto.
  - intros Hin. rewrite decide_True in Hl by done. cbn [run_tl]. unfold tl_deallocate, store_next.
    cbn [negb Z.eqb Pos.eqb]. rewrite Hl. by split.
  - intros Hin. rewrite decide_False in Hl by done. split; [| done].
    apply elem_of_dom. rewrite Hl. by apply elem_of_dom.
Qed.
End ThreadLife.
End Lifetime.

Lemma simple_slab_allocator_returns_all_witness :
  exists s held, run_clients 16 sample_aalloc [Allocate; Allocate] new_SimpleSlabAllocator [] = Ok (s, held) /\
    delete_SimpleSlabAllocator 16 s = Ok ∅.
Proof.
  apply (simple_slab_allocator_returns_all 16 sample_aalloc sample_aalloc_law [Allocate; Allocate]).
  by split; [| intros; split; [| intros]].
Defined.

Lemma threads_return_all_witness :
  exists s held s', run_tls 16 sample_aalloc [TlAllocate 0; TlAllocate 1] new_StaticThreadLocalSlabAllocator []
    = Ok (s, held) /\ tl_threads_exit 16 [0%nat; 1%nat] s = Ok s' /\ tl_memory s' = ∅.
Proof.
  apply (threads_return_all 16 sample_aalloc sample_aalloc_law 2 [TlAllocate 0; TlAllocate 1]).
  - split; [done |]. intros. by split.
  - repeat constructor.
Defined.

(** A thread takes a slab, hands it to another thread, and ends. *)
Lemma thread_exit_takes_its_chunks_witness :
  exists x s s', run_tls 16 sample_aalloc [TlAllocate 0] new_StaticThreadLocalSlabAllocator [] = Ok (s, [x]) /\
    tl_thread_exit 16 0 s = Ok s' /\
    run_tl 16 sample_aalloc (TlWrite x 7) s' [x] = Err UndefinedBehaviour /\
    run_tl 16 sample_aalloc (TlDeallocate 1 x) s' [x] = Err UndefinedBehaviour.
Proof.
  destruct (thread_exit_takes_its_chunks 16 sample_aalloc sample_aalloc_law 1 [TlAllocate 0] 0)
    as (s & held & s' & E & E' & H); [by split | by repeat constructor | lia |].
  assert (Hx : exists x, held = [x]).
  { cbn [run_tls run_tl] in E. destruct (tl_allocate 16 sample_aalloc 0 1 _) as [[x s1] |]; [| discriminate].
    exists x. injection E as _ <-. reflexivity. }
  destruct Hx as [x ->]. destruct (H x ltac:(by left)) as ((t' & Ht' & Hin) & Hbad & _).
  assert (t' = 0%nat) as -> by lia. destruct (Hbad Hin) as [H1 H2].
  exists x, s, s'. split; [exact E |]. split; [exact E' |]. split; [apply H1 | apply H2].
Defined.

Lemma semi_lock_free_slab_allocator_returns_all_witness :
  exists s, run_schedule 16 sample_aalloc (fun x => x)
      [(0%nat, CallAllocate 1); (1%nat, CallAllocate 1); (0%nat, Continue false); (1%nat, Continue true)]
      new_SemiLockFreeSlabAllocator = Ok s /\
    delete_SemiLockFreeSlabAllocator 16 s = Ok ∅ /\ delete_static_semi 16 s = Ok ∅.
Proof.
  apply (semi_lock_free_slab_allocator_returns_all 16 sample_aalloc (fun x => x) sample_aalloc_law). simpl. lia.
Defined.
