(* ===== verification/Format.v ===== *)
(** Numbers, pointers and path names as text ([include/util/format.h]).

    A buffer that a function fills is the list of the bytes it leaves there before
    the terminating NUL. *)
From S2P Require Import Prelude.
Open Scope Z_scope.

(** * The eight integer types *)
Inductive integer_type := Short | Int | Long | LongLong | UShort | UInt | ULong | ULongLong.

Definition width_of (T : integer_type) : Z :=
  match T with Short | UShort => 16 | Int | UInt => 32 | Long | LongLong | ULong | ULongLong => 64 end.
Definition is_signed (T : integer_type) : bool :=
  match T with Short | Int | Long | LongLong => true | _ => false end.
Definition max_of (T : integer_type) : Z :=
  if is_signed T then 2 ^ (width_of T - 1) - 1 else 2 ^ width_of T - 1.
Definition min_of (T : integer_type) : Z := if is_signed T then - 2 ^ (width_of T - 1) else 0.
Definition in_type (T : integer_type) (v : Z) : Prop := min_of T <= v <= max_of T.

(** Conversion to a signed type, modulo its width. *)
Definition convert_signed (T : integer_type) (v : Z) : Z :=
  (v + 2 ^ (width_of T - 1)) mod 2 ^ width_of T - 2 ^ (width_of T - 1).

(** [-v]: a [short] is promoted to [int] and converted back; the negation of the
    least [int] or [long] overflows. *)
Definition negate (T : integer_type) (v : Z) : result Z :=
  match T with
  | Short => Ok (convert_signed Short (- v))
  | _ => if - v <=? max_of T then Ok (- v) else Err UndefinedBehaviour
  end.

(** [_log10_floor], a constant expression, and the sizes computed from it. *)
Fixpoint _log10_floor (fuel : nat) (integer_value : Z) : result nat :=
  match fuel with
  | O => Err OutOfFuel
  | S fuel =>
      if integer_value <? 10 then Ok 0%nat
      else let* n := _log10_floor fuel (Z.quot integer_value 10) in Ok (S n)
  end.

Definition get_max_number_of_decimal_digits_of_integer_type (T : integer_type) : nat :=
  match _log10_floor 20 (max_of T) with Ok n => (n + 1 + 1)%nat | Err _ => 0%nat end.

Definition get_min_number_of_chars_required_to_represent_value_of_type : integer_type -> nat :=
  get_max_number_of_decimal_digits_of_integer_type.
Definition chars_of_pointer : nat := 8 * 2 + 2.
Definition chars_of_double : nat := 19.

(** * Integers in decimal *)

(** [static_cast<char>('0' + n)] *)
Definition char_from_zero (n : Z) : ascii := ascii_of_nat (Z.to_nat ((48 + n) mod 256)).

(** The [do]/[while] loop: the digits, the least significant first. *)
Fixpoint digit_loop (fuel : nat) (input_value : Z) : result bytes :=
  match fuel with
  | O => Err OutOfFuel
  | S fuel =>
      let digit := char_from_zero (Z.rem input_value 10) in
      let input_value := Z.quot input_value 10 in
      if 0 <? input_value
      then let* digits := digit_loop fuel input_value in Ok (digit :: digits)
      else Ok [digit]
  end.

Definition MINUS : ascii := ascii_of_nat 45.

Definition convert_integer_to_decimal_string (T : integer_type) (input_value : Z) : result bytes :=
  let is_negative := is_signed T && (input_value <? 0) in
  let* input_value := if is_negative then negate T input_value else Ok input_value in
  let* digits := digit_loop 20 input_value in
  Ok (reverse (if is_negative then digits ++ [MINUS] else digits)).

(** * Pointers in hexadecimal *)
Definition _HEX_ALPHABET_TABLE : bytes := str "0123456789abcdef".
Definition _NUMBER_OF_LETTERS_OF_POINTER_IN_HEX : nat := 8 * 2.

Fixpoint nibble_loop (n : nat) (value : Z) : bytes :=
  match n with
  | O => []
  | S n =>
      let nibble := Z.land value 15 in
      default NUL (_HEX_ALPHABET_TABLE !! Z.to_nat nibble) :: nibble_loop n (Z.shiftr value 4)
  end.

Definition convert_pointer_to_hex_string (pointer : Z) : bytes :=
  str "0x" ++ reverse (nibble_loop _NUMBER_OF_LETTERS_OF_POINTER_IN_HEX pointer).

(** * Base names

    A path is a NUL-terminated array, a pointer into it an offset. *)
Definition SLASH : ascii := ascii_of_nat 47.

Fixpoint _get_base_name_of_path (path : bytes) (current_offset : nat) : nat :=
  match current_offset with
  | O => O
  | S previous =>
      if bool_decide (path !! previous = Some SLASH) then current_offset
      else _get_base_name_of_path path previous
  end.

Fixpoint _get_base_name_length_of_path (path : bytes) (current_offset total_length : nat) : nat :=
  match current_offset with
  | O => total_length
  | S previous =>
      if bool_decide (path !! previous = Some SLASH) then (total_length - current_offset)%nat
      else _get_base_name_length_of_path path previous total_length
  end.

Definition get_base_name_of_path (path : bytes) : nat := _get_base_name_of_path path (length path).
Definition get_base_name_length_of_path (path : bytes) : nat :=
  _get_base_name_length_of_path path (length path) (length path).
Definition get_length_of_constexpr_char_array (a : bytes) : nat := length a.

(** * What the texts mean *)
Definition digit_value (c : ascii) : Z := Z.of_nat (nat_of_ascii c) - 48.

(** A string of decimal digits, the most significant first. *)
Definition read_digits (s : bytes) : option Z :=
  if forallb isdigit s && negb (bool_decide (s = []))
  then Some (fold_left (fun acc c => 10 * acc + digit_value c) s 0) else None.

Definition read_decimal (s : bytes) : option Z :=
  match s with
  | c :: r => if bool_decide (c = MINUS) then Z.opp <$> read_digits r else read_digits s
  | [] => None
  end.

(** No leading zero, no minus zero. *)
Definition canonical (s : bytes) : Prop :=
  match s with
  | c :: r => if bool_decide (c = MINUS) then r <> [] /\ head r <> Some (char_from_zero 0)
              else c = char_from_zero 0 -> r = []
  | [] => False
  end.

Definition hex_value (c : ascii) : Z :=
  let n := Z.of_nat (nat_of_ascii c) in if n <? 58 then n - 48 else n - 87.
Definition read_hex (s : bytes) : Z := fold_left (fun acc c => 16 * acc + hex_value c) s 0.

(** A decidable fact about the numbers below a bound holds when it evaluates so. *)
Lemma decide_below (k : nat) (f : Z -> bool) n :
  forallb (fun i => f (Z.of_nat i)) (seq 0 k) = true -> 0 <= n < Z.of_nat k -> f n = true.
Proof.
  intros Hf Hn. rewrite forallb_forall in Hf. rewrite <- (Z2Nat.id n) by lia.
  apply Hf, in_seq. lia.
Qed.

(** * Decimal digits *)
Lemma char_from_zero_digit n : 0 <= n <= 9 ->
  isdigit (char_from_zero n) = true /\ digit_value (char_from_zero n) = n.
Proof.
  intros Hn. rewrite <- Z.eqb_eq, <- andb_true_iff.
  apply (decide_below 10
           (fun n => isdigit (char_from_zero n) && (digit_value (char_from_zero n) =? n))); [done | lia].
Qed.

Lemma char_from_zero_inj n m : 0 <= n <= 9 -> 0 <= m <= 9 ->
  char_from_zero n = char_from_zero m -> n = m.
Proof.
  intros Hn Hm E. rewrite <- (proj2 (char_from_zero_digit n Hn)), E. by apply char_from_zero_digit.
Qed.

(** The number whose digits are [l], the least significant first. *)
Definition value_of (l : bytes) : Z := foldr (fun c acc => 10 * acc + digit_value c) 0 l.

Lemma digit_loop_spec fuel v :
  0 <= v < 10 ^ Z.of_nat fuel ->
  (0 < fuel)%nat ->
  exists l, digit_loop fuel v = Ok l /\ value_of l = v /\ forallb isdigit l = true /\ l <> [] /\
    (last l = Some (char_from_zero 0) -> l = [char_from_zero 0]) /\
    (forall k, v < 10 ^ Z.of_nat k -> (0 < k)%nat -> (length l <= k)%nat).
Proof.
  revert v. induction fuel as [| fuel IH]; intros v Hv Hf; [lia |]. cbn [digit_loop].
  rewrite Z.rem_mod_nonneg, Z.quot_div_nonneg by lia.
  pose proof (Z.mod_pos_bound v 10 ltac:(lia)) as Hr. pose proof (Z.div_mod v 10 ltac:(lia)) as Hdm.
  destruct (char_from_zero_digit (v mod 10)) as [Hd Hdv]; [lia |].
  destruct (Z.ltb_spec 0 (v / 10)) as [Hq | Hq].
  - assert (Hpow : 10 ^ Z.of_nat (S fuel) = 10 * 10 ^ Z.of_nat fuel).
    { rewrite Nat2Z.inj_succ, Z.pow_succ_r by lia. done. }
    assert (0 < fuel)%nat by (destruct fuel; [simpl in *; lia | lia]).
    destruct (IH (v / 10)) as (l & -> & Hval & Hdig & Hne & Hlast & Hlen); [lia | done |].
    eexists. split; [done |]. split; [cbn [value_of foldr]; fold (value_of l); lia |].
    split; [cbn [forallb]; by rewrite Hd |]. split; [done |]. split.
    + intros Hl. rewrite last_cons in Hl. destruct (last l) as [c |] eqn:E.
      * injection Hl as ->. rewrite (Hlast eq_refl) in Hval.
        change (value_of [char_from_zero 0]) with 0 in Hval. lia.
      * by apply last_None in E.
    + intros k Hk Hk0. destruct k as [| k]; [lia |]. cbn [length]. apply le_n_S.
      apply Hlen.
      * rewrite Nat2Z.inj_succ, Z.pow_succ_r in Hk by lia. lia.
      * destruct k; [simpl in Hk; lia | lia].
  - eexists. split; [done |]. cbn [value_of foldr forallb]. rewrite Hd, Hdv.
    split; [lia |]. split; [done |]. split; [done |]. split; [intros E; cbn [last] in E; congruence |].
    intros k _ Hk. cbn [length]. lia.
Qed.

Lemma read_digits_reverse l :
  forallb isdigit l = true -> l <> [] -> read_digits (reverse l) = Some (value_of l).
Proof.
  intros Hd Hne. unfold read_digits.
  assert (Hr : forallb isdigit (reverse l) = true).
  { rewrite forallb_forall in *. intros x Hx. apply Hd. rewrite <- list_elem_of_In in *.
    by rewrite elem_of_reverse in Hx. }
  rewrite Hr, bool_decide_eq_false_2; [| intros E; apply Hne; by rewrite <- (reverse_involutive l), E].
  cbn [negb andb]. f_equal. unfold reverse. rewrite <- rev_alt, <- fold_left_rev_right, rev_involutive. done.
Qed.

Lemma digits_fit T : max_of T < 10 ^ Z.of_nat (get_min_number_of_chars_required_to_represent_value_of_type T - 1).
Proof. destruct T; vm_compute; done. Qed.

Lemma max_of_bound T : max_of T < 10 ^ Z.of_nat 20.
Proof. destruct T; vm_compute; done. Qed.

Lemma min_max T : is_signed T = true -> min_of T = - max_of T - 1.
Proof. destruct T; try done; intros _; reflexivity. Qed.

Lemma negate_ok T v : is_signed T = true -> - max_of T <= v < 0 -> negate T v = Ok (- v).
Proof.
  intros HT Hv. destruct T; try done; unfold negate; try (rewrite (proj2 (Z.leb_le _ _)) by lia; done).
  unfold max_of, is_signed, width_of in Hv. unfold convert_signed, width_of. rewrite Z.mod_small by lia.
  f_equal. lia.
Qed.

Lemma last_reverse {A} (l : list A) : last (reverse l) = head l.
Proof. destruct l as [| x l]; [done |]. by rewrite reverse_cons, last_snoc. Qed.

Lemma convert_ok T v :
  in_type T v -> (is_signed T = true -> v <> min_of T) ->
  exists l, digit_loop 20 (Z.abs v) = Ok l /\
    convert_integer_to_decimal_string T v = Ok (reverse (if v <? 0 then l ++ [MINUS] else l)) /\
    read_digits (reverse l) = Some (Z.abs v) /\ l <> [] /\ forallb isdigit l = true /\
    (last l = Some (char_from_zero 0) -> l = [char_from_zero 0]) /\
    (length l < get_min_number_of_chars_required_to_represent_value_of_type T)%nat /\
    (v < 0 -> is_signed T = true).
Proof.
  intros [Hmin Hmax] Hne. unfold convert_integer_to_decimal_string.
  pose proof (digits_fit T) as Hfit. pose proof (max_of_bound T) as H20.
  set (chars := get_min_number_of_chars_required_to_represent_value_of_type T) in *.
  assert (Hc : (1 < chars)%nat) by (subst chars; destruct T; vm_compute; lia). clearbody chars.
  assert (Hs : v < 0 -> is_signed T = true).
  { intros Hv. destruct (is_signed T) eqn:HT; [done |]. unfold min_of in Hmin. rewrite HT in Hmin. lia. }
  assert (Habs : 0 <= Z.abs v <= max_of T).
  { split; [lia |]. destruct (Z.ltb_spec v 0) as [Hv | Hv]; [| lia].
    pose proof (min_max T (Hs Hv)). specialize (Hne (Hs Hv)). lia. }
  destruct (digit_loop_spec 20 (Z.abs v)) as (l & E & Hv & Hd & Hl & Hz & Hk); [lia | lia |].
  exists l. split; [done |]. rewrite read_digits_reverse, Hv by done. split.
  - destruct (Z.ltb_spec v 0) as [Hneg | Hneg].
    + rewrite (Hs Hneg). cbn [andb]. rewrite negate_ok; [| by apply Hs | lia].
      replace (- v) with (Z.abs v) by lia. by rewrite E.
    + rewrite andb_false_r. replace v with (Z.abs v) at 1 by lia. by rewrite E.
  - do 4 (split; [done |]). split; [| done]. specialize (Hk (chars - 1)%nat). lia.
Qed.

Lemma integer_text_length T v :
  in_type T v -> (is_signed T = true -> v <> min_of T) ->
  exists s, convert_integer_to_decimal_string T v = Ok s /\
    (length s <= get_min_number_of_chars_required_to_represent_value_of_type T)%nat.
Proof.
  intros Hin Hne. destruct (convert_ok T v Hin Hne) as (l & _ & -> & _ & _ & _ & _ & Hk & _).
  eexists. split; [done |]. rewrite length_reverse. destruct (v <? 0); rewrite ?length_app; simpl; lia.
Qed.

(** The text of a number: read back it gives the number, it has no leading zeros,
    and it fits the space the callers make sure of. *)
Theorem integer_text_spec T v :
  in_type T v -> (is_signed T = true -> v <> min_of T) ->
  exists s, convert_integer_to_decimal_string T v = Ok s /\ read_decimal s = Some v /\ canonical s /\
    (length s <= get_min_number_of_chars_required_to_represent_value_of_type T)%nat.
Proof.
  intros Hin Hne. destruct (integer_text_length T v Hin Hne) as (s & E' & Hk).
  destruct (convert_ok T v Hin Hne) as (l & _ & E & Hr & Hl & Hd & Hz & _ & _).
  exists s. split; [done |]. rewrite E in E'. injection E' as <-. clear E.
  assert (Hrl : reverse l <> []) by (intros E; by rewrite <- (reverse_involutive l), E in Hl).
  pose proof (last_reverse (reverse l)) as Hh. rewrite reverse_involutive in Hh.
  destruct (Z.ltb_spec v 0) as [Hv | Hv].
  - rewrite reverse_snoc in *. cbn [read_decimal canonical].
    rewrite !bool_decide_eq_true_2 by done. rewrite Hr. cbn [fmap option_fmap option_map].
    split; [f_equal; lia |]. split; [| done]. split; [done |]. rewrite <- Hh. intros E. rewrite (Hz E) in Hr.
    change (read_digits (reverse [char_from_zero 0])) with (Some 0) in Hr. injection Hr as Hr. lia.
  - assert (Hm : forall c, c ∈ reverse l -> c <> MINUS).
    { intros c Hc ->. rewrite elem_of_reverse in Hc. apply list_elem_of_In in Hc.
      rewrite forallb_forall in Hd. specialize (Hd _ Hc). by cbn in Hd. }
    destruct (reverse l) as [| c r] eqn:E; [done |]. cbn [read_decimal canonical].
    rewrite !bool_decide_eq_false_2 by (apply Hm; by left). rewrite Hr.
    split; [f_equal; lia |]. split; [| done]. intros ->. apply Hz in Hh. rewrite Hh in E. by injection E as <-.
Qed.

Lemma integer_text_spec_witness :
  convert_integer_to_decimal_string Int (-120) = Ok (str "-120") /\
  exists s, convert_integer_to_decimal_string Int (-120) = Ok s /\ read_decimal s = Some (-120).
Proof.
  split; [vm_compute; reflexivity |].
  destruct (integer_text_spec Int (-120)) as (s & E & Hr & _);
    [split; vm_compute; discriminate | intros _; vm_compute; discriminate |].
  exists s. exact (conj E Hr).
Defined.

(** The least value of a signed type, which the code leaves out on purpose: a
    [short] is printed as two symbols, the others overflow. *)
Lemma integer_text_least :
  convert_integer_to_decimal_string Short (min_of Short) = Ok (str "-(") /\
  forall T, is_signed T = true -> T <> Short ->
    convert_integer_to_decimal_string T (min_of T) = Err UndefinedBehaviour.
Proof. split; [by vm_compute |]. intros []; try done; intros _ _; by vm_compute. Qed.

(** * Hexadecimal digits *)
Lemma hex_digit n : 0 <= n < 16 -> hex_value (default NUL (_HEX_ALPHABET_TABLE !! Z.to_nat n)) = n.
Proof.
  intros Hn. rewrite <- Z.eqb_eq.
  by apply (decide_below 16 (fun n => hex_value (default NUL (_HEX_ALPHABET_TABLE !! Z.to_nat n)) =? n)).
Qed.

Lemma nibble_loop_spec n v :
  0 <= v < 16 ^ Z.of_nat n ->
  foldr (fun c acc => 16 * acc + hex_value c) 0 (nibble_loop n v) = v /\ length (nibble_loop n v) = n.
Proof.
  revert v. induction n as [| n IH]; intros v Hv; [simpl in *; lia |]. cbn [nibble_loop foldr length].
  rewrite Nat2Z.inj_succ, Z.pow_succ_r in Hv by lia.
  change 15 with (Z.ones 4). rewrite Z.land_ones, Z.shiftr_div_pow2 by lia. change (2 ^ 4) with 16.
  pose proof (Z.mod_pos_bound v 16 ltac:(lia)). pose proof (Z.div_mod v 16 ltac:(lia)).
  destruct (IH (v / 16)) as [IH1 IH2]; [lia |]. rewrite IH1, IH2, hex_digit by lia. lia.
Qed.

Lemma length_pointer_text p : length (convert_pointer_to_hex_string p) = chars_of_pointer.
Proof.
  assert (Hl : forall n v, length (nibble_loop n v) = n) by (induction n as [| n IH]; intros v; simpl; auto).
  unfold convert_pointer_to_hex_string. by rewrite length_app, length_reverse, Hl.
Qed.

(** A pointer is printed as [0x] and its sixteen hexadecimal digits. *)
Theorem pointer_text_spec p : 0 <= p < 2 ^ 64 ->
  exists digits, convert_pointer_to_hex_string p = str "0x" ++ digits /\ read_hex digits = p /\
    length (convert_pointer_to_hex_string p) = chars_of_pointer.
Proof.
  intros Hp. destruct (nibble_loop_spec _NUMBER_OF_LETTERS_OF_POINTER_IN_HEX p) as [Hv Hl]; [done |].
  unfold convert_pointer_to_hex_string. eexists. split; [done |].
  split; [unfold read_hex, reverse; rewrite <- rev_alt, <- fold_left_rev_right, rev_involutive; exact Hv |].
  apply length_pointer_text.
Qed.

Lemma pointer_text_spec_witness :
  exists digits, convert_pointer_to_hex_string 48879 = str "0x" ++ digits /\ read_hex digits = 48879.
Proof.
  destruct (pointer_text_spec 48879 ltac:(lia)) as (digits & E & Hr & _). exists digits. exact (conj E Hr).
Defined.

(** * Base names *)
Lemma base_name_offset path n : (n <= length path)%nat ->
  (_get_base_name_of_path path n <= n)%nat /\
  (forall i, (_get_base_name_of_path path n <= i < n)%nat -> path !! i <> Some SLASH) /\
  (_get_base_name_of_path path n = 0%nat \/
   exists i, _get_base_name_of_path path n = S i /\ path !! i = Some SLASH) /\
  forall total, (n <= total)%nat ->
    _get_base_name_length_of_path path n total = (total - _get_base_name_of_path path n)%nat.
Proof.
  induction n as [| n IH]; intros Hn; cbn [_get_base_name_of_path _get_base_name_length_of_path].
  - split; [done |]. split; [lia |]. split; [by left | intros; lia].
  - destruct (bool_decide_reflect (path !! n = Some SLASH)) as [Hs | Hs].
    + split; [done |]. split; [lia |]. split; [right; by exists n | done].
    + destruct IH as (H1 & H2 & H3 & H4); [lia |]. split; [lia |]. split.
      * intros i Hi. destruct (decide (i = n)) as [-> | Hne]; [done | apply H2; lia].
      * split; [done |]. intros total Ht. apply H4. lia.
Qed.

Lemma base_name_length path :
  get_base_name_length_of_path path = length (drop (get_base_name_of_path path) path).
Proof.
  destruct (base_name_offset path (length path) (le_n _)) as (_ & _ & _ & H4).
  rewrite length_drop. by apply H4.
Qed.

Lemma base_name_no_slash path : SLASH ∉ drop (get_base_name_of_path path) path.
Proof.
  destruct (base_name_offset path (length path) (le_n _)) as (H1 & H2 & _).
  intros [i Hi]%list_elem_of_lookup. rewrite lookup_drop in Hi.
  apply (H2 (get_base_name_of_path path + i)%nat); [| done].
  apply lookup_lt_Some in Hi. unfold get_base_name_of_path in *. lia.
Qed.

(** The base name starts after the last slash, or at the beginning of a path
    without one, and the two functions agree on where. *)
Theorem base_name_spec path :
  (get_base_name_of_path path <= length path)%nat /\
  SLASH ∉ drop (get_base_name_of_path path) path /\
  (get_base_name_of_path path = 0%nat \/
   exists i, get_base_name_of_path path = S i /\ path !! i = Some SLASH) /\
  get_base_name_length_of_path path = length (drop (get_base_name_of_path path) path).
Proof.
  destruct (base_name_offset path (length path) (le_n _)) as (H1 & _ & H3 & _).
  split; [done |]. split; [apply base_name_no_slash |]. split; [done | apply base_name_length].
Qed.
