(* ===== verification/Sockets.v ===== *)
(** Sockets that are not connected yet: [src/socketfd.cc], the static functions of
    [src/listen_socketfd.cc], and socket addresses, [src/inet_address.cc] and
    [include/inet_address.h].

    An address is the memory of the union, octet by octet; [None] is an octet
    nothing was written to.  [inet_pton] and [inet_ntop] are parameters. *)
From S2P Require Import Prelude Format.
Open Scope Z_scope.

(** * Memory *)
Abbreviation memory := (list (option ascii)).

Definition store (offset : nat) (b u : memory) : memory :=
  take offset u ++ b ++ drop (offset + length b) u.

(** Reading octets that were never written is undefined. *)
Definition load (offset n : nat) (u : memory) : result bytes :=
  of_option UndefinedBehaviour (mapM id (slice u offset (offset + n))).

Definition octet (z : Z) : ascii := ascii_of_N (Z.to_N (z mod 256)).
Definition of_octet (c : ascii) : Z := Z.of_N (N_of_ascii c).

(** Two octets in the machine's order, and in the network's. *)
Definition host_u16 (z : Z) : bytes := [octet z; octet (z / 256)].
Definition network_u16 (z : Z) : bytes := [octet (z / 256); octet z].
Definition read_host_u16 (b : bytes) : Z :=
  match b with [a; b] => of_octet a + 256 * of_octet b | _ => 0 end.
Definition read_network_u16 (b : bytes) : Z :=
  match b with [a; b] => 256 * of_octet a + of_octet b | _ => 0 end.

(** * The layout of the union *)
Definition AF_INET : Z := 2.
Definition AF_INET6 : Z := 10.
Definition sizeof_sockaddr_in : nat := 16.
Definition sizeof_sockaddr_in6 : nat := 28.
Definition sizeof_sockaddr_universal_t : nat := 128.

Inductive InetAddressType := IPv4 | IPv6.
Inductive InetAddressDirection := LOCAL | PEER.

#[export] Instance InetAddressType_eq_dec : EqDecision InetAddressType.
Proof. solve_decision. Defined.

Definition family_of (type : InetAddressType) : Z :=
  match type with IPv4 => AF_INET | IPv6 => AF_INET6 end.
(** [sin_addr] and [sin6_addr]; [sin_port] and [sin6_port] are at 2 in both. *)
Definition addr_offset (type : InetAddressType) : nat := match type with IPv4 => 4 | IPv6 => 8 end.
Definition addr_size (type : InetAddressType) : nat := match type with IPv4 => 4 | IPv6 => 16 end.
Definition strlen_limit (type : InetAddressType) : nat := match type with IPv4 => 16 | IPv6 => 46 end.

(** * System calls *)
Class Sockets (K : Type) := {
  sys_socket : K -> Z * K;
  getsockopt_so_error : Z -> K -> option Z * K;
  setsockopt_tcp_nodelay : Z -> K -> option K;
  setsockopt_so_reuseaddr : Z -> K -> option K;
  sys_bind : Z -> memory -> K -> option K;
  sys_listen : Z -> Z -> K -> option K;
  getsockname : Z -> K -> option bytes;
  getpeername : Z -> K -> option bytes;
  sys_connect : Z -> memory -> K -> option K;   (* up to the established connection *)
  sys_accept : Z -> K -> option (Z * bytes * K) (* with the address of the peer *)
}.

Section Operations.
Context {K : Type} `{Sockets K}.
Context (inet_pton : Z -> bytes -> option bytes) (inet_ntop : Z -> bytes -> bytes).

(** ** Addresses *)
Definition InetAddress : Type := memory.
Definition uninitialized : InetAddress := replicate sizeof_sockaddr_universal_t None.

Definition _get_ip_protocol (a : InetAddress) : result Z :=
  let* b := load 0 2 a in Ok (read_host_u16 b).

Definition _check_validity (a : InetAddress) : result unit :=
  let* protocol := _get_ip_protocol a in
  if negb (protocol =? AF_INET) && negb (protocol =? AF_INET6) then Err Fatal else Ok tt.

(** From an address in text. *)
Definition new_InetAddress (ip : bytes) (port : Z) (type : InetAddressType)
    : result InetAddress :=
  let a := store 0 (Some <$> host_u16 (family_of type)) uninitialized in
  let* addr := of_option Fatal (inet_pton (family_of type) (c_str ip)) in
  let a := store (addr_offset type) (Some <$> addr) a in
  Ok (store 2 (Some <$> network_u16 port) a).

(** From what the kernel wrote: [memcpy], then the check of the family. *)
Definition InetAddress_of_sockaddr (address : memory) (address_length : nat)
    : result InetAddress :=
  if (length address <? address_length)%nat || (sizeof_sockaddr_universal_t <? address_length)%nat
  then Err UndefinedBehaviour
  else
    let a := store 0 (take address_length address) uninitialized in
    let* _ := _check_validity a in Ok a.

Definition InetAddress_of_socket (connect_socketfd : Z) (direction : InetAddressDirection) (k : K)
    : result InetAddress :=
  let name := match direction with
              | LOCAL => getsockname connect_socketfd k
              | PEER => getpeername connect_socketfd k
              end in
  let* name := of_option Fatal name in
  let a := store 0 (Some <$> take sizeof_sockaddr_universal_t name) uninitialized in
  let* _ := _check_validity a in Ok a.

(** [accept4] writes into a [sockaddr_storage] full of zeros. *)
Definition accept_new_connection (listen_socketfd : Z) (k : K)
    : result (option (Z * InetAddress * K)) :=
  match sys_accept listen_socketfd k with
  | None => Ok None
  | Some (connect_socketfd, name, k) =>
      let peer_address_temp :=
        store 0 (Some <$> name) (replicate sizeof_sockaddr_universal_t (Some NUL)) in
      let* peer_address := InetAddress_of_sockaddr peer_address_temp (length name) in
      Ok (Some (connect_socketfd, peer_address, k))
  end.

Definition is_ipv4 (a : InetAddress) : result bool :=
  let* protocol := _get_ip_protocol a in Ok (protocol =? AF_INET).

Definition get_address (a : InetAddress) : memory := a.

Definition get_address_length (a : InetAddress) : result nat :=
  let* v4 := is_ipv4 a in Ok (if (v4 : bool) then sizeof_sockaddr_in else sizeof_sockaddr_in6).

(** [inet_ntop] writes nothing when the text does not fit. *)
Definition get_ip (a : InetAddress) : result bytes :=
  let* v4 := is_ipv4 a in
  let type := if (v4 : bool) then IPv4 else IPv6 in
  let* addr := load (addr_offset type) (addr_size type) a in
  let text := inet_ntop (family_of type) addr in
  Ok (if (length text <? strlen_limit type)%nat then c_str text else []).

Definition get_port (a : InetAddress) : result Z :=
  let* _ := is_ipv4 a in
  let* b := load 2 2 a in Ok (read_network_u16 b).

Definition address_to_string (a : InetAddress) : result bytes :=
  let* ip := get_ip a in
  let* port := get_port a in
  let* digits := digit_loop 20 port in
  Ok (ip ++ str ":" ++ reverse digits).

(** ** Sockets *)
Definition create_socketfd (k : K) : result (Z * K) :=
  let '(socketfd, k) := sys_socket k in
  if socketfd =? -1 then Err Fatal else Ok (socketfd, k).

Definition get_socketfd_errno (socketfd : Z) (k : K) : result (Z * K) :=
  match getsockopt_so_error socketfd k with
  | (None, _) => Err Fatal
  | (Some saved_errno, k) => Ok (saved_errno, k)
  end.

(** A failure is logged only. *)
Definition disable_socketfd_nagle_algorithm (socketfd : Z) (k : K) : K :=
  default k (setsockopt_tcp_nodelay socketfd k).

Definition set_socketfd_as_address_reusable (socketfd : Z) (k : K) : result K :=
  of_option Fatal (setsockopt_so_reuseaddr socketfd k).

Definition bind (socketfd : Z) (local_address : InetAddress) (k : K) : result K :=
  let* n := get_address_length local_address in
  of_option Fatal (sys_bind socketfd (take n (get_address local_address)) k).

Definition _connect_to_server (socketfd : Z) (server_address : InetAddress) (k : K)
    : result (option K) :=
  let* n := get_address_length server_address in
  Ok (sys_connect socketfd (take n (get_address server_address)) k).

Definition SOMAXCONN : Z := 4096.

Definition listen (socketfd : Z) (k : K) : result K :=
  of_option Fatal (sys_listen socketfd SOMAXCONN k).

(** What [TcpServer::start] does before it constructs the listening descriptor. *)
Definition open_listen_socketfd (local_address : InetAddress) (k : K) : result (Z * K) :=
  let* (listen_socketfd, k) := create_socketfd k in
  let* k := set_socketfd_as_address_reusable listen_socketfd k in
  let* k := bind listen_socketfd local_address k in
  let* k := listen listen_socketfd k in
  Ok (listen_socketfd, k).
End Operations.

(** * What an address holds *)
Definition picture (type : InetAddressType) (port : Z) (addr : bytes) : memory :=
  (Some <$> host_u16 (family_of type)) ++ (Some <$> network_u16 port) ++
  match type with
  | IPv4 => (Some <$> addr) ++ replicate 120 None
  | IPv6 => replicate 4 None ++ (Some <$> addr) ++ replicate 104 None
  end.

Definition size_of (type : InetAddressType) : nat :=
  match type with IPv4 => sizeof_sockaddr_in | IPv6 => sizeof_sockaddr_in6 end.

Lemma of_octet_octet z : of_octet (octet z) = z mod 256.
Proof.
  unfold of_octet, octet. pose proof (Z.mod_pos_bound z 256 ltac:(lia)).
  rewrite N_ascii_embedding by lia. lia.
Qed.

Lemma network_u16_spec port : read_network_u16 (network_u16 port) = port mod 65536.
Proof.
  unfold network_u16, read_network_u16. rewrite !of_octet_octet.
  pose proof (Z.rem_mul_r port 256 256 ltac:(lia) ltac:(lia)) as Hr.
  change (256 * 256) with 65536 in Hr. lia.
Qed.

(** A list whose length is a numeral, element by element. *)
Ltac explode b :=
  match goal with
  | Hb : length b = S _ |- _ =>
      let x := fresh "c" in
      destruct b as [| x b]; [discriminate Hb |]; simpl in Hb; injection Hb as Hb; explode b
  | Hb : length b = O |- _ => destruct b as [|]; [| discriminate Hb]
  end.

Section Laws.
Context (inet_pton : Z -> bytes -> option bytes) (inet_ntop : Z -> bytes -> bytes).

(** What the manual pages promise. *)
Record presentation : Prop := {
  pton_size type text addr :
    inet_pton (family_of type) text = Some addr -> length addr = addr_size type;
  pton_ntop type addr :
    length addr = addr_size type ->
    inet_pton (family_of type) (inet_ntop (family_of type) addr) = Some addr;
  ntop_size type addr : (length (inet_ntop (family_of type) addr) < strlen_limit type)%nat;
  ntop_text type addr : NUL ∉ inet_ntop (family_of type) addr
}.

Context (HP : presentation).

Lemma new_picture ip port type :
  new_InetAddress inet_pton ip port type
  = match inet_pton (family_of type) (c_str ip) with
    | Some addr => Ok (picture type port addr)
    | None => Err Fatal
    end.
Proof using HP.
  unfold new_InetAddress. destruct (inet_pton _ _) as [b |] eqn:E; [| done]. simpl. f_equal.
  pose proof (pton_size HP _ _ _ E) as Hb.
  destruct type; unfold addr_size in Hb; explode b; reflexivity.
Qed.

Lemma picture_reads type port addr :
  length addr = addr_size type ->
  is_ipv4 (picture type port addr) = Ok (bool_decide (type = IPv4)) /\
  get_port (picture type port addr) = Ok (port mod 65536) /\
  load (addr_offset type) (addr_size type) (picture type port addr) = Ok addr /\
  get_address_length (picture type port addr) = Ok (size_of type) /\
  _check_validity (picture type port addr) = Ok tt /\
  store 0 (take (size_of type) (picture type port addr)) uninitialized = picture type port addr.
Proof using Type.
  intros Hb. rewrite <- (network_u16_spec port).
  destruct type; unfold addr_size in Hb; explode addr; repeat split; reflexivity.
Qed.

(** What the accessors read of an address. *)
Definition reads (a : memory) (type : InetAddressType) (port : Z) (addr : bytes) : Prop :=
  is_ipv4 a = Ok (bool_decide (type = IPv4)) /\ get_port a = Ok (port mod 65536) /\
  load (addr_offset type) (addr_size type) a = Ok addr.

(** The address is that of the text and the port. *)
Definition names (a : memory) (ip : bytes) (port : Z) (type : InetAddressType) : Prop :=
  is_ipv4 a = Ok (bool_decide (type = IPv4)) /\
  get_address_length a = Ok (size_of type) /\
  get_port a = Ok (port mod 65536) /\
  exists text digits, get_ip inet_ntop a = Ok text /\
    inet_pton (family_of type) text = inet_pton (family_of type) (c_str ip) /\
    address_to_string inet_ntop a = Ok (text ++ str ":" ++ digits) /\
    read_digits digits = Some (port mod 65536).

Lemma reads_names a ip port type addr :
  inet_pton (family_of type) (c_str ip) = Some addr -> reads a type port addr -> names a ip port type.
Proof using HP.
  intros E (H4 & Hp & Hl). pose proof (pton_size HP _ _ _ E) as Hb.
  pose proof (ntop_size HP type addr) as Hs. pose proof (ntop_text HP type addr) as Ht.
  pose proof (Z.mod_pos_bound port 65536 ltac:(lia)) as Hr.
  destruct (digit_loop_spec 20 (port mod 65536)) as (l & El & Hval & Hd & Hne & _); [lia | lia |].
  assert (Hip : get_ip inet_ntop a = Ok (inet_ntop (family_of type) addr)).
  { unfold get_ip. rewrite H4.
    destruct type; [rewrite bool_decide_true by done | rewrite bool_decide_false by done];
      cbn -[load Nat.ltb] in *; rewrite Hl; cbn -[Nat.ltb];
      by rewrite (proj2 (Nat.ltb_lt _ _) Hs), c_str_id by done. }
  split; [done |]. split; [unfold get_address_length; rewrite H4; by destruct type |]. split; [done |].
  exists (inet_ntop (family_of type) addr), (reverse l).
  split; [done |]. split; [by rewrite (pton_ntop HP) |]. split.
  - unfold address_to_string. rewrite Hip. cbn -[get_port digit_loop]. rewrite Hp.
    cbn -[digit_loop]. by rewrite El.
  - rewrite read_digits_reverse by done. by rewrite Hval.
Qed.
End Laws.

(** An address the kernel wrote: it is taken if its family is one of the two, a
    length that does not cover the family or does not fit is undefined, and any
    other family ends the process. *)
Theorem sockaddr_checked address n
    (Hn : (n <= length address)%nat) :
  InetAddress_of_sockaddr (Some <$> address) n =
  if (n <? 2)%nat || (sizeof_sockaddr_universal_t <? n)%nat then Err UndefinedBehaviour
  else
    let protocol := read_host_u16 (take 2 address) in
    if bool_decide (protocol = AF_INET \/ protocol = AF_INET6)
    then Ok ((Some <$> take n address) ++ replicate (sizeof_sockaddr_universal_t - n) None)
    else Err Fatal.
Proof.
  unfold InetAddress_of_sockaddr. rewrite length_fmap, (proj2 (Nat.ltb_ge _ _) Hn). cbn [orb].
  destruct (Nat.ltb_spec sizeof_sockaddr_universal_t n) as [Hb | Hb]; [by rewrite orb_true_r |].
  rewrite orb_false_r.
  assert (Est : store 0 (take n (Some <$> address)) uninitialized
                = (Some <$> take n address) ++ replicate (sizeof_sockaddr_universal_t - n) None).
  { unfold store, uninitialized. rewrite take_0, app_nil_l, Nat.add_0_l, length_take, length_fmap.
    rewrite Nat.min_l by done. by rewrite drop_replicate, fmap_take. }
  rewrite Est. unfold _check_validity, _get_ip_protocol, load, slice. rewrite drop_0.
  destruct address as [| a [| b address]]; destruct n as [| [| n]]; simpl in Hn |- *; try lia;
    [done .. |].
  destruct (Z.eqb_spec (of_octet a + 256 * of_octet b) AF_INET) as [H4 | H4];
    [by rewrite bool_decide_true by auto |].
  destruct (Z.eqb_spec (of_octet a + 256 * of_octet b) AF_INET6) as [H6 | H6];
    [by rewrite bool_decide_true by auto | by rewrite bool_decide_false by tauto].
Qed.

(** * The names the kernel has for a socket *)

(** An endpoint as the kernel writes it: family, port, address; the octets that
    [sin_zero], the flow label and the scope take can be anything. *)
Definition is_name (type : InetAddressType) (port : Z) (addr name : bytes) : Prop :=
  length addr = addr_size type /\
  exists a b, length a = (match type with IPv4 => 8 | IPv6 => 4 end)%nat /\
    length b = (match type with IPv4 => 0 | IPv6 => 4 end)%nat /\
    name = host_u16 (family_of type) ++ network_u16 port ++
           match type with IPv4 => addr ++ a | IPv6 => a ++ addr end ++ b.

(** The manual pages: the local name of a socket is the one it was bound to, a port
    that is not zero; its peer's is the one it was connected to, an address that is
    not the wildcard; [accept] tells the name of the peer. *)
Class SocketNames (K : Type) `{Sockets K} : Prop := {
  bind_name type port addr fd k k' :
    length addr = addr_size type -> 0 < port mod 65536 ->
    sys_bind fd (take (size_of type) (picture type port addr)) k = Some k' ->
    exists name, getsockname fd k' = Some name /\ is_name type port addr name;
  connect_name type port addr fd k k' :
    length addr = addr_size type -> addr <> replicate (addr_size type) NUL ->
    sys_connect fd (take (size_of type) (picture type port addr)) k = Some k' ->
    exists name, getpeername fd k' = Some name /\ is_name type port addr name;
  accept_name fd fd' name k k' :
    sys_accept fd k = Some (fd', name, k') ->
    getpeername fd' k' = Some name /\ exists type port addr, is_name type port addr name
}.

(** A name in the memory of an address, the rest of which holds anything. *)
Lemma name_reads type port addr name rest :
  is_name type port addr name -> (length rest = sizeof_sockaddr_universal_t - size_of type)%nat ->
  let a := (Some <$> name) ++ rest in
  reads a type port addr /\ _check_validity a = Ok tt /\ length name = size_of type /\
  store 0 (Some <$> name) uninitialized = (Some <$> name) ++ replicate (128 - size_of type) None.
Proof.
  intros (Hb & a & b & Ha & Hbb & ->) _. unfold reads. rewrite <- (network_u16_spec port).
  destruct type; unfold addr_size in Hb; explode addr; explode a; explode b; by repeat split.
Qed.

Lemma name_address type port addr name :
  is_name type port addr name ->
  exists a, reads a type port addr /\ _check_validity a = Ok tt /\ (length name <= 128)%nat /\
    store 0 (Some <$> name) uninitialized = a.
Proof.
  intros Hn. destruct (name_reads _ _ _ _ (replicate (128 - size_of type) None) Hn) as (Hr & Hv & Hl & Hs);
    [by destruct type |].
  eexists. split; [exact Hr |]. split; [exact Hv |]. split; [rewrite Hl; destruct type; apply Nat.leb_le; done | exact Hs].
Qed.

Section Names.
Context {K : Type} `{SocketNames K}.
Context (inet_pton : Z -> bytes -> option bytes) (inet_ntop : Z -> bytes -> bytes).
Context (HP : presentation inet_pton inet_ntop).

Lemma address_of_name direction type port addr fd name (k : K) :
  is_name type port addr name ->
  match direction with LOCAL => getsockname fd k | PEER => getpeername fd k end = Some name ->
  exists a, InetAddress_of_socket fd direction k = Ok a /\ reads a type port addr /\
    a = store 0 (Some <$> name) uninitialized.
Proof using Type.
  intros Hn E. destruct (name_address _ _ _ _ Hn) as (a & Hr & Hv & Hl & Hs).
  exists a. split; [| done]. unfold InetAddress_of_socket. rewrite E.
  cbv beta iota delta [of_option].
  rewrite take_ge, Hs, Hv by exact Hl. done.
Qed.

(** C18: An address given as text and a port names what was given: the family, the
    octets the text means, and the port modulo [2 ^ 16].  So does what the kernel
    tells about the sockets that use it: the local address of a socket bound to it
    (for a port that is not zero), and the peer's address of a socket connected to
    it (for an address that is not the wildcard).  The address that [accept] hands to
    the server is, memory for memory, the peer's address of the new socket. *)
Theorem address_round_trip ip port type a
    (Hn : new_InetAddress inet_pton ip port type = Ok a) :
  names inet_pton inet_ntop a ip port type /\
  (forall fd k k', 0 < port mod 65536 -> bind fd a k = Ok k' ->
     exists a', InetAddress_of_socket fd LOCAL k' = Ok a' /\
       names inet_pton inet_ntop a' ip port type) /\
  (forall fd k k',
     inet_pton (family_of type) (c_str ip) <> Some (replicate (addr_size type) NUL) ->
     _connect_to_server fd a k = Ok (Some k') ->
     exists a', InetAddress_of_socket fd PEER k' = Ok a' /\
       names inet_pton inet_ntop a' ip port type) /\
  (forall fd fd' k name k', sys_accept fd k = Some (fd', name, k') ->
     exists a', accept_new_connection fd k = Ok (Some (fd', a', k')) /\
       InetAddress_of_socket fd' PEER k' = Ok a').
Proof using Type* HP.
  rewrite (new_picture _ _ HP) in Hn.
  destruct (inet_pton _ (c_str ip)) as [addr |] eqn:E; [| done].
  injection Hn as <-. pose proof (pton_size _ _ HP _ _ _ E) as Hb.
  destruct (picture_reads type port addr Hb) as (H4 & Hp & Hl & Hlen & _).
  assert (Hnames : forall m, reads m type port addr -> names inet_pton inet_ntop m ip port type)
    by (intros m; by apply reads_names).
  split; [by apply Hnames |]. split; [| split].
  - intros fd k k' Hport. unfold bind. rewrite Hlen. cbn -[picture take].
    destruct (sys_bind _ _ _) as [k1 |] eqn:Eb; [| done]. intros [= <-].
    destruct (bind_name _ _ _ _ _ _ Hb Hport Eb) as (name & En & Hname).
    destruct (address_of_name LOCAL _ _ _ fd name k1 Hname En) as (a' & ? & ? & _). eauto.
  - intros fd k k' Hw. unfold _connect_to_server. rewrite Hlen. cbn -[picture take].
    intros [= Ec].
    destruct (connect_name _ _ _ _ _ _ Hb ltac:(congruence) Ec) as (name & En & Hname).
    destruct (address_of_name PEER _ _ _ fd name k' Hname En) as (a' & ? & ? & _). eauto.
  - intros fd fd' k name k' Ea. destruct (accept_name _ _ _ _ _ Ea) as (En & t & p & ad & Hname).
    destruct (address_of_name PEER _ _ _ fd' name k' Hname En) as (a' & Ha & _ & Hst).
    destruct (name_address _ _ _ _ Hname) as (a2 & _ & Hv & Hle & Hs).
    exists a'. split; [| done]. unfold accept_new_connection. rewrite Ea.
    unfold InetAddress_of_sockaddr.
    assert (Ht : take (length name)
              (store 0 (Some <$> name) (replicate sizeof_sockaddr_universal_t (Some NUL)))
            = Some <$> name).
    { unfold store. rewrite take_0. simpl. apply take_app_length'. by rewrite length_fmap. }
    rewrite Hs in Hst. subst a'. rewrite Ht, Hs, Hv. unfold store.
    rewrite !length_app, length_fmap, length_drop, length_replicate, length_take.
    rewrite (proj2 (Nat.ltb_ge _ _)) by lia. rewrite (proj2 (Nat.ltb_ge _ _)) by exact Hle. done.
Qed.
End Names.

Section Listening.
Context {K : Type} `{Sockets K}.
Context (inet_pton : Z -> bytes -> option bytes) (inet_ntop : Z -> bytes -> bytes).
Context (HP : presentation inet_pton inet_ntop).

(** A server that starts listening has bound its socket to the family, the port
    modulo [2 ^ 16] in network order and the octets of the text; but what else the
    kernel reads was never written: eight octets that do not matter for IPv4, and
    the flow label and the scope identifier for IPv6. *)
Theorem listen_address_octets ip port type a socketfd k k'
    (Hn : new_InetAddress inet_pton ip port type = Ok a)
    (Hl : open_listen_socketfd a k = Ok (socketfd, k')) :
  exists addr k1 k2, inet_pton (family_of type) (c_str ip) = Some addr /\ socketfd <> -1 /\
    sys_bind socketfd
      ((Some <$> host_u16 (family_of type)) ++ (Some <$> network_u16 port) ++
       match type with
       | IPv4 => (Some <$> addr) ++ replicate 8 None
       | IPv6 => replicate 4 None ++ (Some <$> addr) ++ replicate 4 None
       end) k1 = Some k2 /\
    sys_listen socketfd SOMAXCONN k2 = Some k'.
Proof using HP.
  rewrite (new_picture _ _ HP) in Hn.
  destruct (inet_pton _ (c_str ip)) as [addr |] eqn:E; [| done].
  injection Hn as <-. pose proof (pton_size _ _ HP _ _ _ E) as Hb.
  destruct (picture_reads type port addr Hb) as (_ & _ & _ & Hlen & _).
  unfold open_listen_socketfd, create_socketfd, set_socketfd_as_address_reusable, bind, listen in Hl.
  destruct (sys_socket k) as [fd k0]. destruct (Z.eqb_spec fd (-1)) as [| Hne]; [done |].
  cbn -[get_address_length picture size_of] in Hl.
  destruct (setsockopt_so_reuseaddr fd k0) as [k1 |]; [| done].
  cbn -[get_address_length picture size_of] in Hl. rewrite Hlen in Hl.
  cbn -[picture size_of] in Hl.
  destruct (sys_bind _ _ _) as [k2 |] eqn:Eb; [| done]. cbn in Hl.
  destruct (sys_listen _ _ _) as [k3 |] eqn:El; [| done]. injection Hl as <- <-.
  exists addr, k1, k2. split; [done |]. split; [done |]. split; [| done].
  rewrite <- Eb. f_equal. clear -Hb.
  destruct type; unfold addr_size in Hb; explode addr; reflexivity.
Qed.
End Listening.

(** * A presentation: two hexadecimal digits for every octet *)
Definition hex_char (n : Z) : ascii := default NUL (_HEX_ALPHABET_TABLE !! Z.to_nat n).

Fixpoint hex (addr : bytes) : bytes :=
  match addr with
  | [] => []
  | c :: addr => hex_char (of_octet c / 16) :: hex_char (of_octet c mod 16) :: hex addr
  end.

Fixpoint unhex (text : bytes) : bytes :=
  match text with
  | a :: b :: text => octet (16 * hex_value a + hex_value b) :: unhex text
  | _ => []
  end.

Definition hex_pton (family : Z) (text : bytes) : option bytes :=
  if bool_decide (length text = if family =? AF_INET then 8%nat else 32%nat)
  then Some (unhex text) else None.
Definition hex_ntop (family : Z) (addr : bytes) : bytes :=
  take (if family =? AF_INET then 8 else 32) (hex addr).

Lemma octet_of_octet c : octet (of_octet c) = c.
Proof.
  unfold octet, of_octet. pose proof (N_ascii_bounded c).
  rewrite Z.mod_small by lia. rewrite N2Z.id. apply ascii_N_embedding.
Qed.

Lemma octet_nibbles c : 0 <= of_octet c / 16 < 16 /\ 0 <= of_octet c mod 16 < 16.
Proof.
  assert (0 <= of_octet c < 256) by (unfold of_octet; pose proof (N_ascii_bounded c); lia).
  split; [| by apply Z.mod_pos_bound]. split; [apply Z.div_pos; lia | apply Z.div_lt_upper_bound; lia].
Qed.

Lemma unhex_hex addr : unhex (hex addr) = addr /\ length (hex addr) = (2 * length addr)%nat.
Proof.
  induction addr as [| c addr [IH1 IH2]]; [done |]. cbn [hex unhex length].
  destruct (octet_nibbles c). unfold hex_char. rewrite !hex_digit by lia.
  rewrite <- Z.div_mod, octet_of_octet, IH1 by done. split; [done | lia].
Qed.

Lemma length_unhex n text : length text = (2 * n)%nat -> length (unhex text) = n.
Proof.
  revert text. induction n as [| n IH]; intros [| a [| b text]]; simpl; try done; try lia.
  intros E. f_equal. apply IH. lia.
Qed.

Lemma hex_no_nul addr : NUL ∉ hex addr.
Proof.
  induction addr as [| c addr IH]; [apply not_elem_of_nil |].
  assert (Hc : forall n, 0 <= n < 16 -> NUL <> hex_char n).
  { intros n Hn E.
    apply (decide_below 16 (fun n => negb (of_octet (hex_char n) =? 0)) n eq_refl) in Hn.
    by rewrite <- E in Hn. }
  destruct (octet_nibbles c). cbn [hex]. rewrite !not_elem_of_cons. auto.
Qed.

Lemma hex_presentation : presentation hex_pton hex_ntop.
Proof.
  constructor.
  - intros type text addr. unfold hex_pton. case_bool_decide as Hl; [| done].
    intros [= <-]. destruct type; simpl in Hl |- *; by apply length_unhex.
  - intros type addr Hl. destruct (unhex_hex addr) as [Hu Hn]. unfold hex_pton, hex_ntop.
    destruct type; simpl in Hl |- *;
      (rewrite take_ge by lia); by rewrite bool_decide_true, Hu by lia.
  - intros type addr. unfold hex_ntop. rewrite length_take.
    eapply Nat.le_lt_trans; [apply Nat.le_min_l |].
    apply Nat.ltb_lt. by destruct type.
  - intros type addr (i & Hi & _)%elem_of_take. apply (hex_no_nul addr).
    by apply list_elem_of_lookup_2 in Hi.
Qed.

(** [127.0.0.1], in that presentation. *)
Definition loopback : bytes := str "7f000001".
Definition loopback6 : bytes := str "00000000000000000000000000000001".

Example loopback_address :
  (let* a := new_InetAddress hex_pton loopback 8080 IPv4 in address_to_string hex_ntop a)
  = Ok (str "7f000001:8080").
Proof. vm_compute. reflexivity. Qed.

Lemma sockaddr_checked_witness :
  InetAddress_of_sockaddr (Some <$> str "no address") 10 = Err Fatal.
Proof.
  rewrite (sockaddr_checked (str "no address") 10); [vm_compute; reflexivity |].
  apply Nat.leb_le. vm_compute. reflexivity.
Defined.

(** A kernel that remembers the sockets it made, their local names and their peers',
    and the clients that wait to be accepted, a port and four octets each. *)
Record socket_kernel := mkSockets {
  next_socket : Z;
  local_names : gmap Z bytes;
  peer_names : gmap Z bytes;
  waiting_clients : list (Z * (ascii * ascii * ascii * ascii))
}.

Definition written (m : memory) : bytes := default NUL <$> m.

Definition client_name (c : Z * (ascii * ascii * ascii * ascii)) : bytes :=
  let '(port, (w, x, y, z)) := c in
  host_u16 AF_INET ++ network_u16 port ++ [w; x; y; z] ++ replicate 8 NUL.

#[export] Instance sample_sockets : Sockets socket_kernel := {|
  sys_socket k :=
    (next_socket k, mkSockets (next_socket k + 1) (local_names k) (peer_names k) (waiting_clients k));
  getsockopt_so_error _ k := (Some 0, k);
  setsockopt_tcp_nodelay _ k := Some k;
  setsockopt_so_reuseaddr _ k := Some k;
  sys_bind fd m k :=
    Some (mkSockets (next_socket k) (<[fd := written m]> (local_names k)) (peer_names k)
            (waiting_clients k));
  sys_listen fd _ k := Some k;
  getsockname fd k := local_names k !! fd;
  getpeername fd k := peer_names k !! fd;
  sys_connect fd m k :=
    Some (mkSockets (next_socket k) (local_names k) (<[fd := written m]> (peer_names k))
            (waiting_clients k));
  sys_accept _ k :=
    match waiting_clients k with
    | c :: l =>
        Some (next_socket k, client_name c,
              mkSockets (next_socket k + 1) (local_names k)
                (<[next_socket k := client_name c]> (peer_names k)) l)
    | [] => None
    end
|}.

Lemma written_name type port addr :
  length addr = addr_size type ->
  is_name type port addr (written (take (size_of type) (picture type port addr))).
Proof.
  intros Hb. split; [done |].
  destruct type; unfold addr_size in Hb; explode addr.
  - by exists (replicate 8 NUL), [].
  - by exists (replicate 4 NUL), (replicate 4 NUL).
Qed.

#[export] Instance sample_socket_names : SocketNames socket_kernel.
Proof.
  split.
  - intros type port addr fd k k' Hb _ [= <-]. eexists. split; [apply lookup_insert_eq |].
    by apply written_name.
  - intros type port addr fd k k' Hb _ [= <-]. eexists. split; [apply lookup_insert_eq |].
    by apply written_name.
  - intros fd fd' name k k'. simpl. destruct (waiting_clients k) as [| [port [[[w x] y] z]] l]; [done |].
    intros [= <- <- <-]. split; [apply lookup_insert_eq |].
    exists IPv4, port, [w; x; y; z]. split; [done |]. by exists (replicate 8 NUL), [].
Qed.

Definition fresh_sockets : socket_kernel := mkSockets 3 ∅ ∅ [(4000, ("010", "000", "000", "001")%char)].

Lemma address_round_trip_witness :
  exists a k1 k2 a1 a2,
    new_InetAddress hex_pton loopback6 65616 IPv6 = Ok a /\ get_port a = Ok 80 /\
    bind 3 a fresh_sockets = Ok k1 /\ InetAddress_of_socket 3 LOCAL k1 = Ok a1 /\ get_port a1 = Ok 80 /\
    _connect_to_server 4 a fresh_sockets = Ok (Some k2) /\
    InetAddress_of_socket 4 PEER k2 = Ok a2 /\ get_port a2 = Ok 80.
Proof.
  destruct (new_InetAddress hex_pton loopback6 65616 IPv6) as [a | e] eqn:E;
    [| vm_compute in E; discriminate E].
  destruct (address_round_trip (K := socket_kernel) hex_pton hex_ntop hex_presentation _ _ _ _ E)
    as ((_ & _ & Hp & _) & Hb & Hc & _).
  assert (Eb : exists k1, bind 3 a fresh_sockets = Ok k1).
  { vm_compute in E. injection E as <-. eexists. reflexivity. }
  assert (Ec : exists k2, _connect_to_server 4 a fresh_sockets = Ok (Some k2)).
  { vm_compute in E. injection E as <-. eexists. reflexivity. }
  destruct Eb as (k1 & Eb), Ec as (k2 & Ec).
  destruct (Hb _ _ _ eq_refl Eb) as (a1 & E1 & (_ & _ & P1 & _)).
  destruct (Hc 4 fresh_sockets k2) as (a2 & E2 & (_ & _ & P2 & _)); [| exact Ec |].
  { intros Hx. vm_compute in Hx. discriminate Hx. }
  exists a, k1, k2, a1, a2. split; [reflexivity |].
  exact (conj Hp (conj Eb (conj E1 (conj P1 (conj Ec (conj E2 P2)))))).
Defined.

Example accepted_client :
  exists a k, accept_new_connection 3 fresh_sockets = Ok (Some (3, a, k)) /\ get_port a = Ok 4000.
Proof. do 2 eexists. split; vm_compute; reflexivity. Qed.

Lemma listen_address_octets_witness :
  exists a k', new_InetAddress hex_pton loopback 8080 IPv4 = Ok a /\
    open_listen_socketfd a fresh_sockets = Ok (3, k').
Proof.
  destruct (new_InetAddress hex_pton loopback 8080 IPv4) as [a | e] eqn:E;
    [| vm_compute in E; discriminate E].
  assert (Hl : exists k', open_listen_socketfd a fresh_sockets = Ok (3, k')).
  { vm_compute in E. injection E as <-. eexists. vm_compute. reflexivity. }
  destruct Hl as (k' & Hl). exists a, k'.
  destruct (listen_address_octets hex_pton hex_ntop hex_presentation _ _ _ _ _ _ _ E Hl)
    as (addr & k1 & k2 & _).
  split; [reflexivity | exact Hl].
Defined.
