(* ===== verification/ThisThread.v ===== *)
(** What a thread keeps for itself: the date of the last second, cached by
    [TimePoint::get_datetime_string] ([src/util/time_point.cc]), and the thread's
    number, its text and its name ([src/util/this_thread.cc]); and [sleep_for].

    [localtime_r] with [strftime], [gettid] and [nanosleep] are parameters. *)
From S2P Require Import Prelude TimePoint Format.
Open Scope Z_scope.

(** * Text in a fixed array *)
Definition ARRAY_SIZE : nat := 32.

(** [snprintf] of [text] at [offset] of an array, whose size it is told to be
    [ARRAY_SIZE] whatever the offset. *)
Definition print_at (offset : nat) (text : bytes) (array : bytes) : result bytes :=
  let stored := take (ARRAY_SIZE - 1) text ++ [NUL] in
  if (offset + length stored <=? length array)%nat
  then Ok (take offset array ++ stored ++ drop (offset + length stored) array)
  else Err UndefinedBehaviour.

(** [%0wd] and [%wd] of a number of at most twenty digits. *)
Definition decimal (n : Z) : bytes := match digit_loop 20 n with Ok l => reverse l | Err _ => [] end.
Definition pad (c : ascii) (width : nat) (s : bytes) : bytes := replicate (width - length s) c ++ s.
Definition zero_padded (width : nat) (n : Z) : bytes :=
  if n <? 0 then str "-" ++ pad (char_from_zero 0) (width - 1) (decimal (- n))
  else pad (char_from_zero 0) width (decimal n).
Definition space_padded (width : nat) (n : Z) : bytes :=
  pad SP width (if n <? 0 then str "-" ++ decimal (- n) else decimal n).

(** * The cached date *)
Inductive Purpose := RENAMING | PRINTING.

#[export] Instance Purpose_eq_dec : EqDecision Purpose.
Proof. solve_decision. Defined.

(** The text of the seconds in its array, and its length, for either purpose. *)
Record datetime_cache := mkCache {
  _seconds_from_epoch_cache : Z;
  _datetime_string_for_renaming_cache : bytes;
  _length_of_datetime_string_for_renaming_cache : nat;
  _datetime_string_for_printing_cache : bytes;
  _length_of_datetime_string_for_printing_cache : nat
}.

Definition new_cache : datetime_cache :=
  mkCache 0 (replicate ARRAY_SIZE NUL) 0 (replicate ARRAY_SIZE NUL) 0.

Definition array_of (p : Purpose) (c : datetime_cache) : bytes :=
  match p with
  | RENAMING => _datetime_string_for_renaming_cache c
  | PRINTING => _datetime_string_for_printing_cache c
  end.
Definition length_of (p : Purpose) (c : datetime_cache) : nat :=
  match p with
  | RENAMING => _length_of_datetime_string_for_renaming_cache c
  | PRINTING => _length_of_datetime_string_for_printing_cache c
  end.
Definition set_array (p : Purpose) (a : bytes) (c : datetime_cache) : datetime_cache :=
  match p with
  | RENAMING => mkCache (_seconds_from_epoch_cache c) a (_length_of_datetime_string_for_renaming_cache c)
                  (_datetime_string_for_printing_cache c) (_length_of_datetime_string_for_printing_cache c)
  | PRINTING => mkCache (_seconds_from_epoch_cache c) (_datetime_string_for_renaming_cache c)
                  (_length_of_datetime_string_for_renaming_cache c) a (_length_of_datetime_string_for_printing_cache c)
  end.

Section Datetime.
(** The text of a second in local time, in the format of a purpose. *)
Context (format : Purpose -> Z -> bytes).

(** [strftime] into an array of [ARRAY_SIZE]: the length stored without the NUL, or 0
    with the array in an unspecified state ([garbage]) when the text does not fit. *)
Context (garbage : bytes).
Definition strftime (text : bytes) (array : bytes) : bytes * nat :=
  if (length text <? ARRAY_SIZE)%nat
  then (text ++ [NUL] ++ drop (S (length text)) array, length text) else (garbage, 0%nat).

Definition update_cache (seconds : Z) (c : datetime_cache) : datetime_cache :=
  if _seconds_from_epoch_cache c =? seconds then c
  else
    let '(renaming, n) := strftime (format RENAMING seconds) (_datetime_string_for_renaming_cache c) in
    let '(printing, m) := strftime (format PRINTING seconds) (_datetime_string_for_printing_cache c) in
    mkCache seconds renaming n printing m.

(** The string and the cache afterwards. *)
Definition get_datetime_string (nanoseconds_from_epoch : Z) (p : Purpose) (c : datetime_cache)
    : result (bytes * datetime_cache) :=
  let time_specification := TimePoint.get_timespec nanoseconds_from_epoch in
  let c := update_cache (tv_sec time_specification) c in
  let text := str "." ++ zero_padded 9 (tv_nsec time_specification) in
  let* array := print_at (length_of p c) text (array_of p c) in
  Ok (take (length_of p c + length text) array, set_array p array c).

Fixpoint datetime_strings (calls : list (Z * Purpose)) (c : datetime_cache)
    : result (list bytes * datetime_cache) :=
  match calls with
  | [] => Ok ([], c)
  | (ns, p) :: calls =>
      let* (s, c) := get_datetime_string ns p c in
      let* (l, c) := datetime_strings calls c in Ok (s :: l, c)
  end.
End Datetime.

(** * The thread's number and name *)
Record this_thread := mkThisThread {
  _tid : Z;
  _tid_string : bytes;
  _tid_string_length : nat;
  _thread_name : bytes
}.

Definition new_this_thread : this_thread := mkThisThread 0 (replicate ARRAY_SIZE NUL) 0 (str "unknown").

Section Thread.
Context (gettid : Z).

Definition _cache_tid (t : this_thread) : result this_thread :=
  let text := space_padded 5 gettid in
  let* array := print_at 0 text (_tid_string t) in
  Ok (mkThisThread gettid array (length text) (_thread_name t)).

Definition cached (t : this_thread) : result this_thread := if _tid t =? 0 then _cache_tid t else Ok t.
Definition get_tid (t : this_thread) : result (Z * this_thread) := let* t := cached t in Ok (_tid t, t).
Definition get_tid_string (t : this_thread) : result (bytes * this_thread) :=
  let* t := cached t in Ok (_tid_string t, t).
Definition get_tid_string_length (t : this_thread) : result (nat * this_thread) :=
  let* t := cached t in Ok (_tid_string_length t, t).
End Thread.

Definition set_thread_name (thread_name : bytes) (t : this_thread) : this_thread :=
  mkThisThread (_tid t) (_tid_string t) (_tid_string_length t) thread_name.
Definition get_thread_name (t : this_thread) : bytes := _thread_name t.

(** * Sleeping *)

(** What [nanosleep] answers: it slept for the time asked for, a signal interrupted it
    with some time remaining, or it failed otherwise. *)
Inductive sleep_result := Slept | Interrupted (remaining : timespec) | SleepError.

(** The loop of [sleep_for]: [answers] are those of [nanosleep], one per round; the
    result is the list of requests made.  [None]: more rounds are needed. *)
Fixpoint sleep_loop (request : timespec) (answers : list sleep_result) : option (result (list timespec)) :=
  match answers with
  | [] => None
  | Slept :: _ => Some (Ok [request])
  | Interrupted remaining :: answers =>
      match sleep_loop remaining answers with
      | Some (Ok l) => Some (Ok (request :: l))
      | r => r
      end
  | SleepError :: _ => Some (Err Fatal)
  end.

Definition sleep_for (duration : TimeInterval.t) (answers : list sleep_result)
    : option (result (list timespec)) := sleep_loop (TimeInterval.to_timespec duration) answers.

(** * The texts of numbers *)
Lemma decimal_spec n k :
  0 <= n < 10 ^ Z.of_nat k -> (0 < k <= 20)%nat ->
  forallb isdigit (decimal n) = true /\ decimal n <> [] /\ read_digits (decimal n) = Some n /\
  (length (decimal n) <= k)%nat.
Proof.
  intros Hn Hk. unfold decimal.
  assert (10 ^ Z.of_nat k <= 10 ^ Z.of_nat 20) by (apply Z.pow_le_mono_r; lia).
  destruct (digit_loop_spec 20 n) as (l & -> & Hv & Hd & Hne & _ & Hl); [lia | lia |].
  pose proof (read_digits_reverse l Hd Hne) as Hr. split.
  - unfold read_digits in Hr. by destruct (forallb isdigit (reverse l)).
  - split; [by intros E%(f_equal reverse); rewrite reverse_involutive in E |].
    split; [by rewrite Hr, Hv | rewrite length_reverse; apply Hl; lia].
Qed.

Lemma length_pad c w s : (length s <= w)%nat -> length (pad c w s) = w.
Proof. intros H. unfold pad. rewrite length_app, length_replicate. lia. Qed.

Lemma zero_padded_length n : - 10 ^ 9 < n < 10 ^ 9 -> (length (zero_padded 9 n) <= 10)%nat.
Proof.
  intros Hn. unfold zero_padded. destruct (Z.ltb_spec n 0).
  - destruct (decimal_spec (- n) 9) as (_ & _ & _ & Hl); [lia | lia |].
    unfold pad. rewrite !length_app, length_replicate. simpl. lia.
  - destruct (decimal_spec n 9) as (_ & _ & _ & Hl); [lia | lia |]. rewrite length_pad; lia.
Qed.

(** * The cache gives what formatting anew would give *)
Lemma take_print offset text array a :
  print_at offset text array = Ok a -> (length text < ARRAY_SIZE)%nat ->
  take (offset + length text) a = take offset array ++ text /\ length a = length array /\
  take offset a = take offset array.
Proof.
  unfold print_at, ARRAY_SIZE. intros E Ht. rewrite (take_ge text) in E by lia. revert E.
  rewrite length_app. simpl. destruct (Nat.leb_spec (offset + (length text + 1)) (length array)); [| done].
  intros [= <-]. assert (Ho : length (take offset array) = offset) by (rewrite length_take; lia).
  rewrite <- !app_assoc. split; [| split].
  - rewrite app_assoc, take_app_length'; [done | rewrite length_app; lia].
  - rewrite !length_app, length_drop, Ho. simpl. lia.
  - by rewrite take_app_length'.
Qed.

Section DatetimeSpec.
Set Default Proof Using "Type*".
Context (format : Purpose -> Z -> bytes) (garbage : bytes).
(** Years have four digits as long as a time point can be represented. *)
Hypothesis format_short : forall p s, (length (format p s) <= 20)%nat.

(** The arrays are there, and hold the text of the cached second, or have never been
    written. *)
Definition holds (fresh : bool) (c : datetime_cache) : Prop :=
  (forall p, length (array_of p c) = ARRAY_SIZE) /\
  if fresh then _seconds_from_epoch_cache c = 0 /\ (forall p, length_of p c = 0%nat)
  else forall p, take (length_of p c) (array_of p c) = format p (_seconds_from_epoch_cache c) /\
                 length_of p c = length (format p (_seconds_from_epoch_cache c)).

(** The reference. *)
Definition suffix (ns : Z) : bytes := str "." ++ zero_padded 9 (tv_nsec (TimePoint.get_timespec ns)).

Fixpoint dates (fresh : bool) (calls : list (Z * Purpose)) : list bytes :=
  match calls with
  | [] => []
  | (ns, p) :: calls =>
      let s := tv_sec (TimePoint.get_timespec ns) in
      if fresh && (s =? 0) then suffix ns :: dates true calls
      else (format p s ++ suffix ns) :: dates false calls
  end.

Lemma suffix_length ns : (length (suffix ns) <= 11)%nat.
Proof.
  unfold suffix. rewrite length_app.
  assert (- 10 ^ 9 < tv_nsec (TimePoint.get_timespec ns) < 10 ^ 9) as Hn.
  { change (- (1000 * 1000 * 1000) < Z.rem ns (1000 * 1000 * 1000) < 1000 * 1000 * 1000).
    pose proof (Z.rem_bound_abs ns (1000 * 1000 * 1000) ltac:(lia)). lia. }
  pose proof (zero_padded_length _ Hn). simpl length at 1. lia.
Qed.

Lemma strftime_ok s array :
  (length s <= 20)%nat -> length array = ARRAY_SIZE ->
  exists a, strftime garbage s array = (a, length s) /\ take (length s) a = s /\ length a = ARRAY_SIZE.
Proof.
  unfold strftime, ARRAY_SIZE. intros Hs Ha. rewrite (proj2 (Nat.ltb_lt _ _)) by lia.
  eexists. split; [done |]. split; [apply take_app_length |].
  rewrite !length_app, length_drop. simpl. lia.
Qed.

Lemma update_holds fresh seconds c :
  holds fresh c ->
  holds (fresh && (seconds =? 0)) (update_cache format garbage seconds c) /\
  _seconds_from_epoch_cache (update_cache format garbage seconds c) = seconds.
Proof.
  intros [Ha Hc]. unfold update_cache. destruct (Z.eqb_spec (_seconds_from_epoch_cache c) seconds) as [<- | Hne].
  - split; [| done]. destruct fresh; [| done]. destruct Hc as [Hs Hl]. rewrite Hs. by split.
  - destruct (strftime_ok (format RENAMING seconds) (_datetime_string_for_renaming_cache c))
      as (a & -> & Ht & Hla); [done | apply (Ha RENAMING) |].
    destruct (strftime_ok (format PRINTING seconds) (_datetime_string_for_printing_cache c))
      as (b & -> & Htb & Hlb); [done | apply (Ha PRINTING) |].
    split; [| done].
    assert (fresh && (seconds =? 0) = false) as ->.
    { destruct fresh; [| done]. destruct Hc as [Hs _]. apply Z.eqb_neq. congruence. }
    by split; intros [].
Qed.

Lemma array_set p q a c :
  array_of p (set_array q a c) = if decide (p = q) then a else array_of p c.
Proof. by destruct p, q. Qed.

Lemma length_set p q a c : length_of p (set_array q a c) = length_of p c.
Proof. by destruct p, q. Qed.

Lemma get_datetime_holds fresh ns p c :
  holds fresh c ->
  let s := tv_sec (TimePoint.get_timespec ns) in
  exists c', get_datetime_string format garbage ns p c
             = Ok (if fresh && (s =? 0) then suffix ns else format p s ++ suffix ns, c') /\
    holds (fresh && (s =? 0)) c'.
Proof.
  intros Hc s. destruct (update_holds fresh s c Hc) as [Hu Hs]. unfold get_datetime_string.
  fold s. fold (suffix ns). set (c1 := update_cache format garbage s c) in *.
  destruct Hu as [Ha Hu]. pose proof (suffix_length ns) as Hl.
  assert (Hlen : (length_of p c1 <= 20)%nat).
  { destruct (fresh && _); [destruct Hu as [_ ->]; lia | destruct (Hu p) as [_ ->]; done]. }
  destruct (print_at (length_of p c1) (suffix ns) (array_of p c1)) as [a | e] eqn:E.
  2: { exfalso. unfold print_at in E. rewrite (take_ge (suffix ns)), length_app in E by (unfold ARRAY_SIZE; lia).
       rewrite (proj2 (Nat.leb_le _ _)) in E; [done |]. rewrite (Ha p). unfold ARRAY_SIZE.
       change (length [NUL]) with 1%nat. lia. }
  destruct (take_print _ _ _ _ E) as (H1 & H2 & H3); [unfold ARRAY_SIZE; lia |].
  eexists. split; [rewrite H1 |].
  - do 2 f_equal. destruct (fresh && _); [destruct Hu as [_ ->]; by rewrite take_0 |].
    destruct (Hu p) as [-> _]. by rewrite Hs.
  - split.
    + intros q. rewrite array_set. destruct (decide (q = p)) as [-> | _]; [by rewrite H2 | done].
    + assert (Hsec : _seconds_from_epoch_cache (set_array p a c1) = _seconds_from_epoch_cache c1) by by destruct p.
      rewrite Hsec. destruct (fresh && _).
      * split; [apply Hu |]. intros q. rewrite length_set. apply Hu.
      * intros q. rewrite length_set, array_set. destruct (Hu q) as [Hq1 Hq2]. split; [| done].
        destruct (decide (q = p)) as [-> | _]; [by rewrite H3 | done].
Qed.

Lemma datetime_strings_holds fresh calls c :
  holds fresh c -> exists c', datetime_strings format garbage calls c = Ok (dates fresh calls, c').
Proof.
  revert fresh c. induction calls as [| [ns p] calls IH]; intros fresh c Hc; simpl; [by eauto |].
  destruct (get_datetime_holds fresh ns p c Hc) as (c1 & -> & Hc1).
  destruct (IH _ _ Hc1) as (c2 & ->). eexists. by destruct (fresh && _).
Qed.

(** However a thread asks for dates, each one is the text of its second, formatted for
    its purpose, and the nanoseconds; the arrays are never overrun.  The one exception
    is the first second of the epoch, which an empty cache is taken to hold: until
    another second has been asked for, its date is missing. *)
Theorem datetime_cache_spec calls :
  exists c, datetime_strings format garbage calls new_cache = Ok (dates true calls, c).
Proof. apply datetime_strings_holds. by split; [intros [] | split; [| intros []]]. Qed.
End DatetimeSpec.

Lemma datetime_cache_spec_witness :
  exists c, datetime_strings (fun p s => decimal s) [] [(5, PRINTING); (1000000007, RENAMING); (8, PRINTING)] new_cache
  = Ok ([str ".000000005"; str "1.000000007"; str "0.000000008"], c).
Proof.
  assert (Hf : forall (p : Purpose) s, (length (decimal s) <= 20)%nat).
  { intros _ s. unfold decimal. destruct (digit_loop 20 s) as [l |] eqn:E; [| simpl; lia]. rewrite length_reverse.
    revert s l E. generalize 20%nat as k. induction k as [| k IH]; intros s l; simpl; [done |].
    destruct (0 <? _); [| intros [= <-]; simpl; lia].
    destruct (digit_loop k _) as [l' |] eqn:E; [| done]. intros [= <-]. simpl. apply IH in E. lia. }
  destruct (datetime_cache_spec (fun _ s => decimal s) [] Hf
              [(5, PRINTING); (1000000007, RENAMING); (8, PRINTING)]) as [c E].
  exists c. rewrite E. vm_compute. reflexivity.
Defined.

(** * The thread's number *)

(** The number of the thread is asked for once, and its text is the number,
    right-aligned in five columns, which prints to the number again. *)
Theorem tid_cached gettid gettid' t name (Htid : 0 < gettid < 2 ^ 31) :
  let t0 := set_thread_name name new_this_thread in
  get_tid gettid t0 = Ok (gettid, t) ->
  get_tid gettid' t = Ok (gettid, t) /\ get_thread_name t = name /\
  exists s n, get_tid_string gettid' t = Ok (s, t) /\ get_tid_string_length gettid' t = Ok (n, t) /\
    take n s = space_padded 5 gettid /\ (5 <= n)%nat /\
    read_digits (drop (n - length (decimal gettid)) (take n s)) = Some gettid.
Proof.
  intros t0. unfold get_tid, cached. cbn [_tid t0 set_thread_name new_this_thread]. rewrite Z.eqb_refl.
  unfold _cache_tid. destruct (decimal_spec gettid 10) as (_ & Hne & Hr & Hl); [lia | lia |].
  assert (Hp : space_padded 5 gettid = replicate (5 - length (decimal gettid)) SP ++ decimal gettid).
  { unfold space_padded, pad. by rewrite (proj2 (Z.ltb_ge _ _)) by lia. }
  assert (Hlen : (length (space_padded 5 gettid) <= 10)%nat /\ (5 <= length (space_padded 5 gettid))%nat).
  { rewrite Hp, length_app, length_replicate. lia. }
  destruct (print_at _ _ _) as [a | e] eqn:E; [| done]. intros [= <-]. cbn [_tid _thread_name].
  rewrite (proj2 (Z.eqb_neq _ _)) by lia. split; [done |]. split; [done |].
  unfold get_tid_string, get_tid_string_length, cached. cbn [_tid _tid_string _tid_string_length].
  rewrite (proj2 (Z.eqb_neq _ _)) by lia. do 2 eexists. split; [done |]. split; [done |].
  destruct (take_print _ _ _ _ E) as (Ht & _); [unfold ARRAY_SIZE; lia |]. rewrite take_0, Nat.add_0_l, app_nil_l in Ht.
  cbn [_tid_string _tid_string_length]. rewrite Ht. split; [done |]. split; [lia |].
  rewrite Hp, length_app, length_replicate, drop_app_length'; [done | rewrite length_replicate; lia].
Qed.

Lemma tid_cached_witness :
  exists t, get_tid 421 (set_thread_name (str "worker") new_this_thread) = Ok (421, t) /\
    get_tid 500 t = Ok (421, t) /\ get_thread_name t = str "worker".
Proof.
  eexists. split; [reflexivity |].
  destruct (tid_cached 421 500 _ (str "worker") ltac:(lia) eq_refl) as (H1 & H2 & _). by split.
Defined.

(** * Sleeping *)
Definition nanoseconds_of (t : timespec) : Z := tv_sec t * TimeInterval.SECOND + tv_nsec t.

(** What the kernel did: with the time slept in every round.  An interrupted sleep
    leaves at least what is missing of the time asked for. *)
Fixpoint kept_promise (request : timespec) (answers : list sleep_result) (slept : list Z) : Prop :=
  match answers, slept with
  | Slept :: _, s :: _ => nanoseconds_of request <= s
  | Interrupted remaining :: answers, s :: slept =>
      nanoseconds_of request <= s + nanoseconds_of remaining /\ kept_promise remaining answers slept
  | _, _ => True
  end.

(** [sleep_for] returns only after the whole time has passed, however often it is
    interrupted. *)
Theorem sleep_for_long_enough d answers slept requests
    (Hk : kept_promise (TimeInterval.to_timespec d) answers slept)
    (Hlen : length slept = length answers)
    (Hret : sleep_for d answers = Some (Ok requests)) :
  TimeInterval.nanoseconds d <= foldr Z.add 0 (take (length requests) slept).
Proof.
  assert (E : TimeInterval.nanoseconds d = nanoseconds_of (TimeInterval.to_timespec d)).
  { apply TimePoint.quot_rem_second. }
  rewrite E. unfold sleep_for in Hret. revert Hk Hlen Hret. generalize (TimeInterval.to_timespec d). clear E d.
  revert slept requests. induction answers as [| a answers IH]; intros [| s slept] requests t Hk Hlen; try done.
  injection Hlen as Hlen. destruct a as [| remaining |]; simpl in Hk |- *; [| | done].
  - intros [= <-]. simpl. lia.
  - destruct Hk as [H1 H2]. destruct (sleep_loop remaining answers) as [[l | e] |] eqn:El; [| done | done].
    intros [= <-]. simpl. specialize (IH slept l remaining H2 Hlen El). lia.
Qed.

Lemma sleep_for_long_enough_witness :
  TimeInterval.nanoseconds (TimeInterval.mk 1500000000)
  <= foldr Z.add 0 (take 2 [600000000; 900000000]).
Proof.
  apply (sleep_for_long_enough (TimeInterval.mk 1500000000) [Interrupted (mkTimespec 0 900000000); Slept]
           [600000000; 900000000] [mkTimespec 1 500000000; mkTimespec 0 900000000]).
  - split; vm_compute; discriminate.
  - reflexivity.
  - reflexivity.
Defined.
