(* ===== verification/LogBuilder.v ===== *)
(** Building one log entry ([include/log_buffer.h], [include/log_builder.h],
    [src/log_builder.cc]). *)
From S2P Require Import Prelude Format.
Open Scope nat_scope.

(** * [FixedSizeLogBuffer]: the bytes before [_start_address_of_spare] *)
Record FixedSizeLogBuffer := mkBuffer {
  _MAX_BUFFER_SIZE : nat;
  content : bytes
}.

Definition LOG_ENTRY_BUFFER_SIZE : nat := 4 * 1000.

Definition new_FixedSizeLogBuffer (size : nat) : FixedSizeLogBuffer := mkBuffer size [].
Definition buffer_length (b : FixedSizeLogBuffer) : nat := length (content b).
Definition length_of_spare (b : FixedSizeLogBuffer) : nat := _MAX_BUFFER_SIZE b - 1 - buffer_length b.
Definition reset (b : FixedSizeLogBuffer) : FixedSizeLogBuffer := mkBuffer (_MAX_BUFFER_SIZE b) [].

(** [append(data, data_size)]: all or nothing; [data] is the readable memory at the
    pointer. *)
Definition append (data : bytes) (data_size : nat) (b : FixedSizeLogBuffer) : result FixedSizeLogBuffer :=
  if length_of_spare b <? data_size then Ok b
  else if length data <? data_size then Err UndefinedBehaviour
  else Ok (mkBuffer (_MAX_BUFFER_SIZE b) (content b ++ take data_size data)).

(** A conversion that writes [text] and a NUL from [_start_address_of_spare] on,
    then [increment_length]. *)
Definition fill_spare (text : bytes) (b : FixedSizeLogBuffer) : result FixedSizeLogBuffer :=
  if _MAX_BUFFER_SIZE b <? buffer_length b + length text + 1 then Err UndefinedBehaviour
  else Ok (mkBuffer (_MAX_BUFFER_SIZE b) (content b ++ text)).

(** * [LogBuilder] *)
Inductive LogLevel := TRACE | DEBUG | INFO | WARN | ERROR | FATAL.

#[export] Instance log_level_eq_dec : EqDecision LogLevel.
Proof. solve_decision. Defined.

Definition level_index (l : LogLevel) : nat :=
  match l with TRACE => 0 | DEBUG => 1 | INFO => 2 | WARN => 3 | ERROR => 4 | FATAL => 5 end.

Definition _LOG_LEVEL_STRINGS (l : LogLevel) : bytes :=
  match l with
  | TRACE => str "TRACE" | DEBUG => str "DEBUG" | INFO => str "INFO "
  | WARN => str "WARN " | ERROR => str "ERROR" | FATAL => str "FATAL"
  end.
Definition _LENGTH_OF_LOG_LEVEL_STRINGS : nat := 5.

(** The value of [_log_level_mask] when the process starts. *)
Definition initial_log_level_mask : LogLevel := INFO.

Record LogBuilder := mkBuilder {
  _log_level : LogLevel;
  _entry_buffer : FixedSizeLogBuffer;
  _source_file_base_name : option bytes;
  _source_file_base_name_length : nat;
  _line_number : Z;
  _function_name : option bytes;
  _function_name_length : nat;
  _saved_errno : Z
}.

Definition with_entry (b : FixedSizeLogBuffer) (l : LogBuilder) : LogBuilder :=
  mkBuilder (_log_level l) b (_source_file_base_name l) (_source_file_base_name_length l)
    (_line_number l) (_function_name l) (_function_name_length l) (_saved_errno l).

(** A literal, whose length is written out by hand at the call. *)
Definition append_literal (s : string) (b : FixedSizeLogBuffer) : result FixedSizeLogBuffer :=
  append (str s) (length (str s)) b.

(** The constructor; the date, the thread's id and the message of an error number
    are arguments. *)
Definition new_LogBuilder (datetime_string tid_string : bytes) (log_level : LogLevel)
    (source_file_base_name : option bytes) (source_file_base_name_length : nat) (line_number : Z)
    (function_name : option bytes) (function_name_length : nat) (saved_errno : Z) : result LogBuilder :=
  let b := new_FixedSizeLogBuffer LOG_ENTRY_BUFFER_SIZE in
  let* b := append datetime_string (length datetime_string) b in
  let* b := append_literal " | " b in
  let* b := append tid_string (length tid_string) b in
  let* b := append_literal " | " b in
  let* b := append (_LOG_LEVEL_STRINGS log_level) _LENGTH_OF_LOG_LEVEL_STRINGS b in
  let* b := append_literal " | " b in
  Ok (mkBuilder log_level b source_file_base_name source_file_base_name_length line_number
        function_name function_name_length saved_errno).

(** What is streamed into a builder: one constructor per overload of
    [operator<<]. *)
Inductive log_item :=
| PutInteger (T : integer_type) (v : Z)
| PutDouble (text : bytes)
| PutBool (v : bool)
| PutPointer (p : Z)
| PutChar (c : ascii)
| PutCString (s : option bytes)
| PutString (s : bytes).

Definition put_integer (T : integer_type) (v : Z) (b : FixedSizeLogBuffer) : result FixedSizeLogBuffer :=
  if get_min_number_of_chars_required_to_represent_value_of_type T <? length_of_spare b
  then let* text := convert_integer_to_decimal_string T v in fill_spare text b
  else Ok b.

(** [snprintf] with a size of 19 stores at most 18 characters and a NUL, and
    returns the length of the whole text; [text] is the output of [%.12g]. *)
Definition put_double (text : bytes) (b : FixedSizeLogBuffer) : result FixedSizeLogBuffer :=
  if chars_of_double <? length_of_spare b
  then
    if chars_of_double <? length text then Err UndefinedBehaviour
    else fill_spare (take (chars_of_double - 1) text ++ replicate (length text - (chars_of_double - 1)) NUL) b
  else Ok b.

Definition put_pointer (p : Z) (b : FixedSizeLogBuffer) : result FixedSizeLogBuffer :=
  if chars_of_pointer <? length_of_spare b
  then fill_spare (convert_pointer_to_hex_string p) b
  else Ok b.

Definition put_bool (v : bool) (b : FixedSizeLogBuffer) : result FixedSizeLogBuffer :=
  append (if v then str "true " else str "false") 5 b.
Definition put_char (c : ascii) (b : FixedSizeLogBuffer) : result FixedSizeLogBuffer := append [c] 1 b.
Definition put_c_string (s : option bytes) (b : FixedSizeLogBuffer) : result FixedSizeLogBuffer :=
  match s with Some s => append s (length s) b | None => Ok b end.
Definition put_string (s : bytes) (b : FixedSizeLogBuffer) : result FixedSizeLogBuffer :=
  if 0 <? length s then append s (length s) b else Ok b.

Definition put (i : log_item) (b : FixedSizeLogBuffer) : result FixedSizeLogBuffer :=
  match i with
  | PutInteger T v => put_integer T v b
  | PutDouble text => put_double text b
  | PutBool v => put_bool v b
  | PutPointer p => put_pointer p b
  | PutChar c => put_char c b
  | PutCString s => put_c_string s b
  | PutString s => put_string s b
  end.

Fixpoint put_all (items : list log_item) (b : FixedSizeLogBuffer) : result FixedSizeLogBuffer :=
  match items with [] => Ok b | i :: items => let* b := put i b in put_all items b end.

Section Destructor.
Context (strerror_tl : Z -> bytes).

(** The destructor: the entry it hands to the collector, and whether the collector
    is then asked to abort. *)
Definition delete_LogBuilder (l : LogBuilder) : result (bytes * bool) :=
  let b := _entry_buffer l in
  let* b := match _source_file_base_name l with
            | None => Ok b
            | Some name =>
                let* b := append_literal " | " b in
                let* b := append name (_source_file_base_name_length l) b in
                let* b := append_literal ":" b in
                put_integer Int (_line_number l) b
            end in
  let* b := match _function_name l with
            | None => Ok b
            | Some name =>
                let* b := append_literal " | " b in append name (_function_name_length l) b
            end in
  let* b := if (_saved_errno l =? 0)%Z then Ok b
            else
              let* b := append_literal " | " b in
              let* b := put_string (strerror_tl (_saved_errno l)) b in
              let* b := append_literal " (errno=" b in
              let* b := put_integer Int (_saved_errno l) b in
              append_literal ")" b in
  let* b := append [LF] 1 b in
  Ok (content b, match _log_level l with FATAL => true | _ => false end).

(** ** The macros: a statement at [path:line] in [function] *)
Definition enabled (mask level : LogLevel) : bool := level_index mask <=? level_index level.

Definition log_statement (datetime_string tid_string : bytes) (mask level : LogLevel) (saved_errno : Z)
    (path : bytes) (line : Z) (function : bytes) (items : list log_item) : result (option (bytes * bool)) :=
  if negb (match level with FATAL => true | _ => enabled mask level end) then Ok None
  else
    let base_name := drop (get_base_name_of_path path) path in
    let '(function_name, function_name_length) :=
      match level with
      | TRACE | DEBUG => (Some function, get_length_of_constexpr_char_array function)
      | _ => (None, 0)
      end in
    let* l := new_LogBuilder datetime_string tid_string level (Some base_name)
                (get_base_name_length_of_path path) line function_name function_name_length saved_errno in
    let* b := put_all items (_entry_buffer l) in
    let* r := delete_LogBuilder (with_entry b l) in
    Ok (Some r).
End Destructor.

(** * The entry *)
Definition buffer_ok (b : FixedSizeLogBuffer) : Prop :=
  _MAX_BUFFER_SIZE b = LOG_ENTRY_BUFFER_SIZE /\ buffer_length b < LOG_ENTRY_BUFFER_SIZE.

(** A value of its type whose conversion is undefined: the absolute value of the
    least [int], [long] or [long long] is not one ([util/format.h]). *)
Definition overflowing (T : integer_type) (v : Z) : bool :=
  match T with Int | Long | LongLong => (v =? min_of T)%Z | _ => false end.

Definition integer_ok (T : integer_type) (v : Z) : Prop := in_type T v /\ overflowing T v = false.

(** A value of its type; [%.12g] prints a [double] with 19 characters at most. *)
Definition typed (i : log_item) : Prop :=
  match i with
  | PutInteger T v => in_type T v
  | PutDouble text => length text <= chars_of_double
  | PutPointer p => (0 <= p < 2 ^ 64)%Z
  | _ => True
  end.

Definition overflows (i : log_item) : bool :=
  match i with PutInteger T v => overflowing T v | _ => false end.

(** A statement some number of which cannot be converted. *)
Definition unprintable (line e : Z) (items : list log_item) : bool :=
  existsb overflows items || overflowing Int line || overflowing Int e.

Definition extend (t : bytes) (b : FixedSizeLogBuffer) : FixedSizeLogBuffer :=
  mkBuffer (_MAX_BUFFER_SIZE b) (content b ++ t).

Lemma length_of_spare_extend t b : length_of_spare (extend t b) = length_of_spare b - length t.
Proof. unfold length_of_spare, buffer_length. cbn. rewrite length_app. lia. Qed.

Lemma extend_extend t u b : extend u (extend t b) = extend (t ++ u) b.
Proof. unfold extend. cbn. by rewrite app_assoc. Qed.

Lemma extend_nil b : extend [] b = b.
Proof. unfold extend. rewrite app_nil_r. by destruct b. Qed.

Lemma append_fits data b : length data <= length_of_spare b -> append data (length data) b = Ok (extend data b).
Proof.
  intros H. unfold append. rewrite (proj2 (Nat.ltb_ge _ _)) by done. rewrite Nat.ltb_irrefl.
  by rewrite take_ge.
Qed.

Lemma append_drops data n b : length_of_spare b < n -> append data n b = Ok b.
Proof. intros H. unfold append. by rewrite (proj2 (Nat.ltb_lt _ _)). Qed.

Lemma append_preserves data b : buffer_ok b ->
  exists b', append data (length data) b = Ok b' /\ buffer_ok b'.
Proof.
  intros [Hs Hl]. destruct (decide (length data <= length_of_spare b)) as [Hd | Hd].
  - rewrite append_fits by done. eexists. split; [done |]. split; [done |].
    unfold length_of_spare, buffer_length, extend in *. rewrite Hs in Hd. cbn [content]. rewrite length_app. lia.
  - rewrite append_drops by lia. by exists b.
Qed.

Lemma fill_spare_ok text b :
  buffer_ok b -> length text < length_of_spare b ->
  fill_spare text b = Ok (extend text b) /\ buffer_ok (extend text b).
Proof.
  intros [Hs Hl] Ht. unfold fill_spare, length_of_spare, buffer_ok, buffer_length, extend in *.
  cbn [content _MAX_BUFFER_SIZE]. rewrite Hs in *. rewrite (proj2 (Nat.ltb_ge _ _)) by lia. rewrite length_app. split; [done | lia].
Qed.

Definition integer_text (T : integer_type) (v : Z) : bytes :=
  match convert_integer_to_decimal_string T v with Ok s => s | Err _ => [] end.

Lemma integer_text_ok T v : integer_ok T v ->
  convert_integer_to_decimal_string T v = Ok (integer_text T v) /\
  length (integer_text T v) <= get_min_number_of_chars_required_to_represent_value_of_type T.
Proof.
  intros [Hin Hne]. enough (H : exists s, convert_integer_to_decimal_string T v = Ok s /\
    length s <= get_min_number_of_chars_required_to_represent_value_of_type T).
  { unfold integer_text. by destruct H as (s & -> & Hl). }
  destruct (decide (v = min_of T)) as [-> | Hv]; [| by apply integer_text_length].
  destruct T; try (by apply integer_text_length); try (unfold overflowing in Hne; by rewrite Z.eqb_refl in Hne).
  exists (str "-("). split; [by vm_compute | apply Nat.leb_le; by vm_compute].
Qed.

Lemma integer_overflows T v : overflowing T v = true ->
  convert_integer_to_decimal_string T v = Err UndefinedBehaviour /\ integer_text T v = [].
Proof.
  intros H. assert (E : convert_integer_to_decimal_string T v = Err UndefinedBehaviour).
  { destruct T; try done; apply Z.eqb_eq in H as ->; by apply integer_text_least. }
  split; [done |]. unfold integer_text. by rewrite E.
Qed.

(** A step of a statement: the buffer stays good, or [P] explains why the step is
    undefined. *)
Definition kept (P : Prop) (r : result FixedSizeLogBuffer) : Prop :=
  match r with Ok b => buffer_ok b | Err f => f = UndefinedBehaviour /\ P end.

Lemma kept_bind P r k : kept P r -> (forall b, buffer_ok b -> kept P (k b)) ->
  kept P (let* b := r in k b).
Proof. destruct r; cbn; auto. Qed.

Lemma kept_weaken (P Q : Prop) r : (P -> Q) -> kept P r -> kept Q r.
Proof. destruct r; cbn; naive_solver. Qed.

Lemma append_kept P data n b : n = length data -> buffer_ok b -> kept P (append data n b).
Proof. intros -> Hb. by destruct (append_preserves data b Hb) as (b' & -> & Hb'). Qed.

Lemma append_literal_kept P s b : buffer_ok b -> kept P (append_literal s b).
Proof. by apply append_kept. Qed.

Lemma fill_spare_kept P text b : buffer_ok b -> length text < length_of_spare b -> kept P (fill_spare text b).
Proof. intros Hb Hl. by destruct (fill_spare_ok text b Hb Hl) as [-> Hb']. Qed.

Lemma put_integer_kept T v b : buffer_ok b -> in_type T v -> kept (overflowing T v = true) (put_integer T v b).
Proof.
  intros Hb Hv. unfold put_integer.
  destruct (Nat.ltb_spec (get_min_number_of_chars_required_to_represent_value_of_type T) (length_of_spare b)) as [Hs | Hs];
    [| done].
  destruct (overflowing T v) eqn:Ho; [by rewrite (proj1 (integer_overflows T v Ho)) |].
  destruct (integer_text_ok T v (conj Hv Ho)) as [-> Hl]. apply fill_spare_kept; [done | lia].
Qed.

Lemma put_string_kept P s b : buffer_ok b -> kept P (put_string s b).
Proof. intros Hb. unfold put_string. destruct (0 <? length s); [by apply append_kept | done]. Qed.

Lemma put_kept i b : buffer_ok b -> typed i -> kept (overflows i = true) (put i b).
Proof.
  intros Hb Hi. destruct i as [T v | text | v | p | c | [s |] | s]; cbn [put typed overflows] in *.
  - by apply put_integer_kept.
  - unfold put_double. destruct (Nat.ltb_spec chars_of_double (length_of_spare b)) as [Hs | Hs]; [| done].
    rewrite (proj2 (Nat.ltb_ge _ _)) by done. apply fill_spare_kept; [done |].
    rewrite length_app, length_take, length_replicate. unfold chars_of_double in *. lia.
  - destruct v; by apply append_kept.
  - unfold put_pointer. destruct (Nat.ltb_spec chars_of_pointer (length_of_spare b)) as [Hs | Hs]; [| done].
    apply fill_spare_kept; [done | by rewrite length_pointer_text].
  - by apply append_kept.
  - by apply append_kept.
  - done.
  - by apply put_string_kept.
Qed.

Lemma put_all_kept items b : buffer_ok b -> Forall typed items ->
  kept (existsb overflows items = true) (put_all items b).
Proof.
  intros Hb Hi. revert b Hb. induction Hi as [| i items Hi _ IH]; intros b Hb; [done |].
  cbn [put_all existsb]. apply kept_bind.
  - apply (kept_weaken (overflows i = true)); [by intros -> | by apply put_kept].
  - intros b1 Hb1. apply (kept_weaken (existsb overflows items = true)); [| by apply IH].
    intros ->. apply orb_true_r.
Qed.

Lemma level_string_length l : length (_LOG_LEVEL_STRINGS l) = _LENGTH_OF_LOG_LEVEL_STRINGS.
Proof. by destruct l. Qed.

(** Runs the next [append] of a goal on a good buffer. *)
Ltac run_append :=
  match goal with
  | |- context [append_literal ?s ?b] => unfold append_literal at 1
  | Hb : buffer_ok ?b |- context [append ?d (length ?d) ?b] =>
      let b' := fresh "b" in let Hb' := fresh "Hb" in
      destruct (append_preserves d b Hb) as (b' & -> & Hb')
  end.

Lemma new_LogBuilder_ok date tid level name n line function m e :
  exists b, new_LogBuilder date tid level name n line function m e
    = Ok (mkBuilder level b name n line function m e) /\ buffer_ok b.
Proof.
  unfold new_LogBuilder. rewrite <- (level_string_length level).
  assert (Hb : buffer_ok (new_FixedSizeLogBuffer LOG_ENTRY_BUFFER_SIZE)).
  { split; [done |]. unfold LOG_ENTRY_BUFFER_SIZE, buffer_length. simpl. lia. }
  repeat run_append. by eexists.
Qed.

Section Entry.
Context (strerror_tl : Z -> bytes).

Definition named (name : option bytes) (n : nat) : Prop :=
  match name with Some s => n = length s | None => True end.

(** Takes a chain of appends apart, step by step. *)
Ltac keep_step :=
  match goal with
  | |- forall _, _ => intros ? ?
  | |- kept _ (match _ with Ok _ => _ | Err _ => _ end) => apply kept_bind
  | |- kept _ (Ok _) => done
  | |- kept _ (append_literal _ _) => by apply append_literal_kept
  | |- kept _ (append _ _ _) => by apply append_kept
  | |- kept _ (put_string _ _) => by apply put_string_kept
  | |- kept _ (put_integer ?T ?v _) =>
      apply (kept_weaken (overflowing T v = true)); [tauto | by apply put_integer_kept]
  | |- kept _ (if ?c then _ else _) => destruct c
  | |- kept _ (match ?o with None => _ | Some _ => _ end) => destruct o
  end.

Lemma delete_LogBuilder_kept l :
  buffer_ok (_entry_buffer l) -> named (_source_file_base_name l) (_source_file_base_name_length l) ->
  named (_function_name l) (_function_name_length l) ->
  in_type Int (_line_number l) -> in_type Int (_saved_errno l) ->
  match delete_LogBuilder strerror_tl l with
  | Ok (entry, abort) =>
      length entry < LOG_ENTRY_BUFFER_SIZE /\ abort = match _log_level l with FATAL => true | _ => false end
  | Err f => f = UndefinedBehaviour /\
      (overflowing Int (_line_number l) = true \/ overflowing Int (_saved_errno l) = true)
  end.
Proof.
  destruct l as [level b name n line function m e]. unfold delete_LogBuilder.
  cbn [_entry_buffer _source_file_base_name _source_file_base_name_length _function_name
    _function_name_length _line_number _saved_errno _log_level].
  intros Hb Hn Hm Hline He. set (P := overflowing Int line = true \/ overflowing Int e = true).
  enough (H : kept P (let* b := match name with None => Ok b | Some name =>
        let* b := append_literal " | " b in let* b := append name n b in
        let* b := append_literal ":" b in put_integer Int line b end in
      let* b := match function with None => Ok b | Some name =>
        let* b := append_literal " | " b in append name m b end in
      let* b := (if (e =? 0)%Z then Ok b else
        let* b := append_literal " | " b in let* b := put_string (strerror_tl e) b in
        let* b := append_literal " (errno=" b in let* b := put_integer Int e b in
        append_literal ")" b) in append [LF] 1 b)).
  { repeat (case_match; simplify_eq; cbn [kept] in H; try done). all: split; [apply H | done]. }
  destruct name as [name |], function as [function |]; cbn in Hn, Hm; subst P; repeat keep_step.
Qed.

(** C40: Whatever values of their types are streamed into it, a log statement never
    writes outside its buffer nor reads past the names it is given: it is either
    disabled, or it hands the collector one entry shorter than the buffer and asks
    it to abort exactly when its level is FATAL, or its behaviour is undefined, and
    that happens only when one of its numbers (streamed, or its line or its errno)
    is the least [int], [long] or [long long]. *)
Theorem log_statement_safe date tid mask level e path line function items
    (Hitems : Forall typed items) (Hline : in_type Int line) (He : in_type Int e) :
  match log_statement strerror_tl date tid mask level e path line function items with
  | Ok (Some (entry, abort)) =>
      bool_decide (level = FATAL) || enabled mask level = true /\
      length entry < LOG_ENTRY_BUFFER_SIZE /\ abort = bool_decide (level = FATAL)
  | Ok None => bool_decide (level = FATAL) || enabled mask level = false
  | Err f =>
      bool_decide (level = FATAL) || enabled mask level = true /\
      f = UndefinedBehaviour /\ unprintable line e items = true
  end.
Proof.
  unfold log_statement.
  assert (Hen : match level with FATAL => true | _ => enabled mask level end
                = bool_decide (level = FATAL) || enabled mask level) by by destruct level.
  rewrite Hen. destruct (bool_decide (level = FATAL) || enabled mask level); [| done]. cbn [negb].
  assert (Hf : exists fn m, (match level with
      | TRACE | DEBUG => (Some function, get_length_of_constexpr_char_array function)
      | _ => (None, 0) end) = (fn, m) /\ named fn m) by (destruct level; by do 2 eexists).
  destruct Hf as (fn & m & -> & Hm).
  destruct (new_LogBuilder_ok date tid level (Some (drop (get_base_name_of_path path) path))
              (get_base_name_length_of_path path) line fn m e) as (b & -> & Hb).
  cbn [_entry_buffer]. pose proof (put_all_kept items b Hb Hitems) as Hk. unfold unprintable.
  destruct (put_all items b) as [b1 |]; [| destruct Hk as [-> ->]; done]. cbn [kept] in Hk.
  set (l := with_entry b1 _).
  pose proof (delete_LogBuilder_kept l Hk (base_name_length path) Hm Hline He) as Hd.
  destruct (delete_LogBuilder strerror_tl l) as [[entry abort] | f].
  - destruct Hd as [Hl ->]. split; [done |]. split; [done |]. by destruct level.
  - destruct Hd as [-> Ho]. split; [done |]. split; [done |]. subst l. cbn [with_entry _line_number _saved_errno] in Ho.
    destruct Ho as [-> | ->]; rewrite ?orb_true_r; done.
Qed.

(** ** The entry when it fits *)
Definition item_text (i : log_item) : bytes :=
  match i with
  | PutInteger T v => integer_text T v
  | PutDouble text =>
      take (chars_of_double - 1) text ++ replicate (length text - (chars_of_double - 1)) NUL
  | PutBool v => if v then str "true " else str "false"
  | PutPointer p => convert_pointer_to_hex_string p
  | PutChar c => [c]
  | PutCString s => default [] s
  | PutString s => s
  end.

(** More than any conversion asks for. *)
Definition slack : nat := 22.

Definition log_line (date tid : bytes) (level : LogLevel) (e : Z) (path : bytes) (line : Z) (function : bytes)
    (items : list log_item) : bytes :=
  date ++ str " | " ++ tid ++ str " | " ++ _LOG_LEVEL_STRINGS level ++ str " | " ++
  concat (item_text <$> items) ++
  str " | " ++ drop (get_base_name_of_path path) path ++ str ":" ++ integer_text Int line ++
  (match level with TRACE | DEBUG => str " | " ++ function | _ => [] end) ++
  (if (e =? 0)%Z then [] else str " | " ++ strerror_tl e ++ str " (errno=" ++ integer_text Int e ++ str ")") ++
  [LF].

Lemma chars_slack T : get_min_number_of_chars_required_to_represent_value_of_type T < slack.
Proof. destruct T; vm_compute; lia. Qed.

Lemma put_integer_fits T v b : buffer_ok b -> in_type T v -> slack <= length_of_spare b ->
  put_integer T v b
  = if overflowing T v then Err UndefinedBehaviour else Ok (extend (integer_text T v) b).
Proof.
  intros Hb Hv Hs. pose proof (chars_slack T). unfold put_integer.
  rewrite (proj2 (Nat.ltb_lt _ _)) by lia. destruct (overflowing T v) eqn:Ho.
  - by rewrite (proj1 (integer_overflows T v Ho)).
  - destruct (integer_text_ok T v (conj Hv Ho)) as [-> Hl]. apply fill_spare_ok; [done | lia].
Qed.

Lemma put_fits i b : buffer_ok b -> typed i -> length (item_text i) + slack <= length_of_spare b ->
  put i b = if overflows i then Err UndefinedBehaviour else Ok (extend (item_text i) b).
Proof.
  intros Hb Hi Hs. destruct i as [T v | text | v | p | c | [s |] | s]; cbn [put typed item_text overflows] in *.
  - apply put_integer_fits; [done | done | lia].
  - unfold put_double. set (cut := take _ text ++ _) in *. unfold chars_of_double, slack in *.
    rewrite (proj2 (Nat.ltb_lt 19 _)), (proj2 (Nat.ltb_ge 19 _)) by lia.
    by apply fill_spare_ok; [| lia].
  - destruct v; [apply (append_fits (str "true ")) | apply (append_fits (str "false"))]; cbn in *; lia.
  - unfold put_pointer, slack in *. rewrite length_pointer_text in Hs. rewrite (proj2 (Nat.ltb_lt _ _)) by lia.
    apply fill_spare_ok; [done |]. rewrite length_pointer_text. lia.
  - apply (append_fits [c]). cbn in *. lia.
  - apply append_fits. cbn in *. lia.
  - by rewrite extend_nil.
  - unfold put_string. destruct (Nat.ltb_spec 0 (length s)) as [Hl | Hl]; [apply append_fits; lia |].
    destruct s; [by rewrite extend_nil | simpl in Hl; lia].
Qed.

Lemma extend_ok t b : buffer_ok b -> length t <= length_of_spare b -> buffer_ok (extend t b).
Proof.
  intros [Hs Hl] Ht. split; [done |]. unfold length_of_spare, buffer_length, extend in *. rewrite Hs in Ht.
  cbn [content]. rewrite length_app. lia.
Qed.

Lemma put_all_fits items b : buffer_ok b -> Forall typed items ->
  length (concat (item_text <$> items)) + slack <= length_of_spare b ->
  put_all items b
  = if existsb overflows items then Err UndefinedBehaviour
    else Ok (extend (concat (item_text <$> items)) b).
Proof.
  intros Hb Hi. revert b Hb. induction Hi as [| i items Hi _ IH]; intros b Hb Hs;
    cbn [put_all fmap list_fmap concat existsb] in *.
  - by rewrite extend_nil.
  - rewrite length_app in Hs. rewrite put_fits by (done || lia). destruct (overflows i); [done |]. cbn [orb].
    rewrite IH, extend_extend; [done | apply extend_ok; [done | lia] |].
    rewrite length_of_spare_extend. lia.
Qed.

(** A buffer that holds [t]. *)
Definition holding (t : bytes) : FixedSizeLogBuffer := mkBuffer LOG_ENTRY_BUFFER_SIZE t.

Lemma append_holding t d : length t + length d < LOG_ENTRY_BUFFER_SIZE ->
  append d (length d) (holding t) = Ok (holding (t ++ d)).
Proof. intros H. apply append_fits. unfold length_of_spare, buffer_length. cbn [holding content _MAX_BUFFER_SIZE]. lia. Qed.

Lemma put_integer_holding t T v : in_type T v -> length t + slack < LOG_ENTRY_BUFFER_SIZE ->
  put_integer T v (holding t)
  = if overflowing T v then Err UndefinedBehaviour else Ok (holding (t ++ integer_text T v)).
Proof.
  intros Hv H. apply put_integer_fits; [| done |].
  - split; [done |]. unfold buffer_length, slack in *. cbn [holding content]. lia.
  - unfold length_of_spare, buffer_length, slack in *. cbn [holding content _MAX_BUFFER_SIZE]. lia.
Qed.

Lemma put_string_holding t d : length t + length d + slack < LOG_ENTRY_BUFFER_SIZE ->
  put_string d (holding t) = Ok (holding (t ++ d)).
Proof.
  intros H. apply (put_fits (PutString d)); [| done |].
  - split; [done |]. unfold buffer_length. cbn [holding content]. lia.
  - unfold length_of_spare, buffer_length. cbn [item_text holding content _MAX_BUFFER_SIZE]. lia.
Qed.

Lemma put_all_holding t items : Forall typed items ->
  length t + length (concat (item_text <$> items)) + slack < LOG_ENTRY_BUFFER_SIZE ->
  put_all items (holding t)
  = if existsb overflows items then Err UndefinedBehaviour
    else Ok (holding (t ++ concat (item_text <$> items))).
Proof.
  intros Hi H. apply put_all_fits; [| done |].
  - split; [done |]. unfold buffer_length. cbn [holding content]. lia.
  - unfold length_of_spare, buffer_length. cbn [holding content _MAX_BUFFER_SIZE]. lia.
Qed.

(** Runs the next step of a goal on a buffer with enough space. *)
Ltac room := rewrite ?length_app; cbn [length] in *; unfold slack in *; lia.
Ltac run_holding :=
  first [ rewrite append_holding by room
        | rewrite put_integer_holding by (done || room)
        | rewrite put_string_holding by room
        | rewrite put_all_holding by (done || room) ].

Lemma new_LogBuilder_holding date tid level name n line function m e :
  length (date ++ str " | " ++ tid ++ str " | " ++ _LOG_LEVEL_STRINGS level ++ str " | ") < LOG_ENTRY_BUFFER_SIZE ->
  new_LogBuilder date tid level name n line function m e
  = Ok (mkBuilder level (holding (date ++ str " | " ++ tid ++ str " | " ++ _LOG_LEVEL_STRINGS level ++ str " | "))
          name n line function m e).
Proof.
  rewrite !length_app. intros H. unfold new_LogBuilder, append_literal. rewrite <- (level_string_length level).
  change (new_FixedSizeLogBuffer LOG_ENTRY_BUFFER_SIZE) with (holding []).
  repeat run_holding. by rewrite <- !app_assoc.
Qed.

(** C35: A statement whose line fits the entry buffer (with room to spare for the
    largest number) logs exactly: date, thread, level, every value streamed, file
    and line, the function of a TRACE or DEBUG statement, the error of a SYS one,
    and a newline, where a [double] that [%.12g] prints with 19 characters has its
    last one replaced by a NUL and the least [short] prints as two symbols; and its
    behaviour is undefined exactly when one of its numbers (streamed, or its line
    or its errno) is the least [int], [long] or [long long]. *)
Theorem log_statement_format date tid mask level e path line function items
    (Hitems : Forall typed items) (Hline : in_type Int line) (He : in_type Int e)
    (Hen : bool_decide (level = FATAL) || enabled mask level = true)
    (Hlen : length (log_line date tid level e path line function items) + slack < LOG_ENTRY_BUFFER_SIZE) :
  log_statement strerror_tl date tid mask level e path line function items
  = if unprintable line e items then Err UndefinedBehaviour
    else Ok (Some (log_line date tid level e path line function items, bool_decide (level = FATAL))).
Proof.
  unfold log_statement.
  replace (match level with FATAL => true | _ => enabled mask level end) with true by by destruct level.
  cbn [negb]. unfold log_line in Hlen. rewrite !length_app in Hlen. rewrite base_name_length.
  assert (Hf : exists fn m, (match level with
      | TRACE | DEBUG => (Some function, get_length_of_constexpr_char_array function)
      | _ => (None, 0) end) = (fn, m) /\
      (match level with TRACE | DEBUG => str " | " ++ function | _ => [] end)
      = match fn with Some f => str " | " ++ f | None => [] end /\
      named fn m) by (destruct level; by do 2 eexists).
  unfold log_line. destruct Hf as (fn & m & -> & E & Hm). rewrite E in Hlen |- *.
  rewrite new_LogBuilder_holding by room. cbn [_entry_buffer]. run_holding. unfold unprintable.
  destruct (existsb overflows items); [done |]. cbn [orb].
  unfold delete_LogBuilder, append_literal. cbn [with_entry _entry_buffer _source_file_base_name
    _source_file_base_name_length _function_name _function_name_length _line_number _saved_errno _log_level].
  change (append [LF] 1) with (append [LF] (length [LF])).
  destruct fn as [f |]; [cbn in Hm; subst m |]; (destruct (Z.eqb_spec e 0) as [-> | He0]); rewrite ?length_app in Hlen;
    repeat run_holding; (destruct (overflowing Int line); [done |]; cbn [orb]);
    repeat run_holding; try change (overflowing Int 0) with false;
    try (destruct (overflowing Int e); [done |]); repeat run_holding;
    cbn [holding content]; rewrite <- !app_assoc; cbn [app]; by destruct level.
Qed.
End Entry.

(** A line of every kind of value, among them a [double] whose text [snprintf] cuts
    (a NUL byte gets into the log) and the least [short]. *)
Definition sample_items : list log_item :=
  [PutCString (Some (str "peer ")); PutInteger Int 42; PutBool false;
   PutDouble (str "-1.23456789012e+308"); PutInteger Short (-32768); PutChar SLASH; PutString []].

Lemma in_type_17 : in_type Int 17.
Proof. split; vm_compute; discriminate. Qed.

Lemma sample_items_typed : Forall typed sample_items.
Proof.
  repeat (apply Forall_cons; split; [| try constructor]); cbn [typed];
    first [exact I | split; vm_compute; discriminate | apply Nat.leb_le; by vm_compute].
Qed.

Lemma log_statement_safe_witness :
  (exists entry, log_statement (fun _ => []) (str "2024-01-01") (str "  123") INFO WARN 17 (str "src/a.cc") 17 []
     sample_items = Ok (Some (entry, false)) /\ length entry < LOG_ENTRY_BUFFER_SIZE) /\
  log_statement (fun _ => []) (str "2024-01-01") (str "  123") INFO FATAL 0 (str "src/a.cc") 17 []
    [PutInteger Int (min_of Int)] = Err UndefinedBehaviour.
Proof.
  pose proof (log_statement_safe (fun _ => []) (str "2024-01-01") (str "  123") INFO WARN 17 (str "src/a.cc") 17 []
    sample_items sample_items_typed in_type_17 in_type_17) as H.
  split; [| by vm_compute].
  destruct (log_statement _ _ _ _ _ _ _ _ _ _) as [[[entry abort] |] | f].
  - destruct H as (_ & Hl & ->). exists entry. split; [by vm_compute | exact Hl].
  - vm_compute in H. discriminate H.
  - destruct H as (_ & _ & H). vm_compute in H. discriminate H.
Defined.

Lemma log_statement_format_witness :
  log_statement (fun _ => str "Bad") (str "2024-01-01") (str "  123") INFO WARN 17 (str "src/a.cc") 17 [] sample_items
  = Ok (Some (str "2024-01-01 |   123 | WARN  | peer 42false-1.23456789012e+30" ++ [NUL]
      ++ str "-(/ | a.cc:17 | Bad (errno=17)" ++ [LF], false)).
Proof.
  exact (log_statement_format (fun _ => str "Bad") (str "2024-01-01") (str "  123") INFO WARN 17 (str "src/a.cc") 17 []
    sample_items sample_items_typed in_type_17 in_type_17 eq_refl ltac:(apply Nat.ltb_lt; by vm_compute)).
Defined.

Lemma cut_double_logs_nul :
  put_double (str "-1.23456789012e+308") (new_FixedSizeLogBuffer LOG_ENTRY_BUFFER_SIZE)
  = Ok (extend (str "-1.23456789012e+30" ++ [NUL]) (new_FixedSizeLogBuffer LOG_ENTRY_BUFFER_SIZE)).
Proof. by vm_compute. Qed.
