(* ===== verification/LogFile.v ===== *)
(** The files behind the log ([include/log_file.h], [src/log_file.cc],
    [include/util/physical_file.h], [src/util/physical_file.cc],
    [src/util/datetime.cc]). *)
From S2P Require Import Prelude Format LogBuilder.
Open Scope Z_scope.

(** * [AppendOnlyPhysicalFile]

    [file_content] is everything [fwrite_unlocked] accepted, of which the first
    [on_disk] bytes have left the user-space buffer. *)
Record AppendOnlyPhysicalFile := mkFile {
  file_name : bytes;
  file_content : bytes;
  on_disk : nat;
  _total_number_of_bytes_written : Z
}.

Definition new_AppendOnlyPhysicalFile (name : bytes) : AppendOnlyPhysicalFile := mkFile name [] 0 0.

(** [accepted] is the result of [fwrite_unlocked]; a short write is reported on
    [stderr] only. *)
Definition write_physical (data : bytes) (accepted : nat) (f : AppendOnlyPhysicalFile) : AppendOnlyPhysicalFile :=
  mkFile (file_name f) (file_content f ++ take accepted data) (on_disk f)
    (u64 (_total_number_of_bytes_written f + Z.of_nat accepted)).

Definition flush_physical (f : AppendOnlyPhysicalFile) : AppendOnlyPhysicalFile :=
  mkFile (file_name f) (file_content f) (length (file_content f)) (_total_number_of_bytes_written f).

(** The destructor: [fclose] flushes. *)
Definition delete_AppendOnlyPhysicalFile : AppendOnlyPhysicalFile -> AppendOnlyPhysicalFile := flush_physical.

(** * [Datetime::get_datetime_string]: [strftime] of the local time is a
    parameter *)
Inductive Purpose := RENAMING | PRINTING.

Section LogFile.
Context (strftime : string -> Z -> bytes).
(** The results of the successive calls of [::time]. *)
Context (clock : nat -> Z).

Definition get_datetime_string (time_from_epoch_in_seconds : Z) (purpose : Purpose) : bytes :=
  match purpose with
  | RENAMING => strftime "%Y_%m_%d_%H_%M_%S" time_from_epoch_in_seconds
  | PRINTING => strftime "%Y-%m-%d %H:%M:%S" time_from_epoch_in_seconds
  end.

(** * [LogFile]; [closed] are the files it has finished with, [calls] the number
    of calls of [::time] so far *)
Record LogFile := mkLogFile {
  _base_name : bytes;
  _physical_file_ptr : AppendOnlyPhysicalFile;
  _time_of_last_major_check_from_epoch_in_seconds : Z;
  _number_of_normal_checks_since_last_major_check : Z;
  closed : list AppendOnlyPhysicalFile;
  calls : nat
}.

Definition _PHYSICAL_FILE_SIZE_THRESHOLD : Z := 500 * 1000 * 1000.
Definition _FLUSH_INTERVAL_IN_SECONDS : Z := 3.
Definition _SWITCH_INTERVAL_IN_SECONDS : Z := 24 * 60 * 60.
Definition _MAJOR_CHECK_FREQUENCY : Z := 1000.

Definition with_file (f : AppendOnlyPhysicalFile) (l : LogFile) : LogFile :=
  mkLogFile (_base_name l) f (_time_of_last_major_check_from_epoch_in_seconds l)
    (_number_of_normal_checks_since_last_major_check l) (closed l) (calls l).
Definition with_check (time number : Z) (l : LogFile) : LogFile :=
  mkLogFile (_base_name l) (_physical_file_ptr l) time number (closed l) (calls l).

Definition get_current_time_from_epoch_in_seconds (l : LogFile) : Z * LogFile :=
  (clock (calls l),
   mkLogFile (_base_name l) (_physical_file_ptr l) (_time_of_last_major_check_from_epoch_in_seconds l)
     (_number_of_normal_checks_since_last_major_check l) (closed l) (S (calls l))).

Definition name_of_file (base_name datetime_string : bytes) : bytes :=
  base_name ++ str "." ++ datetime_string ++ str ".log".

Definition _get_name_for_a_new_underlying_physical_file (l : LogFile) : bytes * LogFile :=
  let '(now, l) := get_current_time_from_epoch_in_seconds l in
  (name_of_file (_base_name l) (get_datetime_string now RENAMING), l).

(** The new file is opened, then the old one is closed. *)
Definition _switch_to_a_new_underlying_physical_file (l : LogFile) : LogFile :=
  let '(new_file_name, l) := _get_name_for_a_new_underlying_physical_file l in
  mkLogFile (_base_name l) (new_AppendOnlyPhysicalFile new_file_name)
    (_time_of_last_major_check_from_epoch_in_seconds l) (_number_of_normal_checks_since_last_major_check l)
    (closed l ++ [delete_AppendOnlyPhysicalFile (_physical_file_ptr l)]) (calls l).

Definition new_LogFile (base_name : bytes) : result LogFile :=
  if bool_decide (SLASH ∈ base_name) then Err Uncaught
  else Ok (mkLogFile base_name
             (new_AppendOnlyPhysicalFile (name_of_file base_name (get_datetime_string (clock 0%nat) RENAMING)))
             0 0 [] 1).

Definition flush_to_disk (l : LogFile) : LogFile := with_file (flush_physical (_physical_file_ptr l)) l.

(** [/] on [time_t] truncates. *)
Definition _is_in_a_new_switch_interval (time_from_epoch_in_seconds : Z) (l : LogFile) : bool :=
  negb (Z.quot time_from_epoch_in_seconds _SWITCH_INTERVAL_IN_SECONDS
        =? Z.quot (_time_of_last_major_check_from_epoch_in_seconds l) _SWITCH_INTERVAL_IN_SECONDS).

Definition _do_formal_check (l : LogFile) : LogFile :=
  let '(now, l) := get_current_time_from_epoch_in_seconds l in
  if _is_in_a_new_switch_interval now l then
    let l := _switch_to_a_new_underlying_physical_file l in
    let '(again, l) := get_current_time_from_epoch_in_seconds l in
    with_check again (_number_of_normal_checks_since_last_major_check l) l
  else if _FLUSH_INTERVAL_IN_SECONDS <? now - _time_of_last_major_check_from_epoch_in_seconds l then
    let l := flush_to_disk l in
    let '(again, l) := get_current_time_from_epoch_in_seconds l in
    with_check again (_number_of_normal_checks_since_last_major_check l) l
  else with_check now (_number_of_normal_checks_since_last_major_check l) l.

Definition with_number (n : Z) (l : LogFile) : LogFile :=
  with_check (_time_of_last_major_check_from_epoch_in_seconds l) n l.

Definition _do_quick_check (l : LogFile) : LogFile :=
  let l := with_number (_number_of_normal_checks_since_last_major_check l + 1) l in
  if _PHYSICAL_FILE_SIZE_THRESHOLD <? _total_number_of_bytes_written (_physical_file_ptr l) then
    with_number 0 (_switch_to_a_new_underlying_physical_file l)
  else if _number_of_normal_checks_since_last_major_check l <=? _MAJOR_CHECK_FREQUENCY then l
  else with_number 0 (_do_formal_check l).

Definition write_to_user_space_memory (data : bytes) (accepted : nat) (l : LogFile) : LogFile :=
  _do_quick_check (with_file (write_physical data accepted (_physical_file_ptr l)) l).

(** * Nothing is lost across files *)

(** The bytes of all the files, in order. *)
Definition all_text (l : LogFile) : bytes :=
  concat (file_content <$> closed l) ++ file_content (_physical_file_ptr l).

Definition file_ok (f : AppendOnlyPhysicalFile) : Prop :=
  _total_number_of_bytes_written f = Z.of_nat (length (file_content f)) /\ (on_disk f <= length (file_content f))%nat.

Record log_file_ok (largest : Z) (l : LogFile) : Prop := {
  lf_file : file_ok (_physical_file_ptr l);
  lf_size : _total_number_of_bytes_written (_physical_file_ptr l) <= _PHYSICAL_FILE_SIZE_THRESHOLD;
  lf_closed : Forall (fun f => on_disk f = length (file_content f) /\
      Z.of_nat (length (file_content f)) <= _PHYSICAL_FILE_SIZE_THRESHOLD + largest) (closed l);
  lf_number : 0 <= _number_of_normal_checks_since_last_major_check l <= _MAJOR_CHECK_FREQUENCY
}.

Lemma switch_text l : all_text (_switch_to_a_new_underlying_physical_file l) = all_text l.
Proof.
  unfold all_text, _switch_to_a_new_underlying_physical_file. cbn. rewrite fmap_app, concat_app. cbn.
  by rewrite !app_nil_r.
Qed.

Lemma formal_check_text l : all_text (_do_formal_check l) = all_text l.
Proof.
  unfold _do_formal_check. cbn [get_current_time_from_epoch_in_seconds].
  destruct (_is_in_a_new_switch_interval _ _); [| by destruct (_ <? _)].
  transitivity (all_text (_switch_to_a_new_underlying_physical_file
    (snd (get_current_time_from_epoch_in_seconds l)))); [done | by rewrite switch_text].
Qed.

Lemma quick_check_text l : all_text (_do_quick_check l) = all_text l.
Proof.
  unfold _do_quick_check. destruct (_ <? _); [etransitivity; [| apply (switch_text
    (with_number (_number_of_normal_checks_since_last_major_check l + 1) l))]; done |].
  destruct (_ <=? _); [done |].
  etransitivity; [| apply (formal_check_text
    (with_number (_number_of_normal_checks_since_last_major_check l + 1) l))]; done.
Qed.

Lemma write_text data l :
  all_text (write_to_user_space_memory data (length data) l) = all_text l ++ data.
Proof.
  unfold write_to_user_space_memory. rewrite quick_check_text. unfold all_text. cbn.
  by rewrite take_ge, app_assoc.
Qed.

Definition named_after (base : bytes) (f : AppendOnlyPhysicalFile) : Prop :=
  exists t, file_name f = name_of_file base (get_datetime_string t RENAMING).

Definition names_ok (l : LogFile) : Prop :=
  named_after (_base_name l) (_physical_file_ptr l) /\ Forall (named_after (_base_name l)) (closed l).

Lemma new_file_ok name : file_ok (new_AppendOnlyPhysicalFile name).
Proof using. by split. Qed.

Lemma flush_file_ok f : file_ok f -> file_ok (flush_physical f).
Proof using. intros [H1 H2]. by split. Qed.

(** Every check keeps the invariant of a log file whose current file may be over
    the threshold by one write. *)
Definition before_check (largest : Z) (l : LogFile) : Prop :=
  file_ok (_physical_file_ptr l) /\
  _total_number_of_bytes_written (_physical_file_ptr l) <= _PHYSICAL_FILE_SIZE_THRESHOLD + largest /\
  Forall (fun f => on_disk f = length (file_content f) /\
    Z.of_nat (length (file_content f)) <= _PHYSICAL_FILE_SIZE_THRESHOLD + largest) (closed l).

Lemma switch_ok largest l :
  before_check largest l -> let l' := _switch_to_a_new_underlying_physical_file l in
  file_ok (_physical_file_ptr l') /\ _total_number_of_bytes_written (_physical_file_ptr l') = 0 /\
  Forall (fun f => on_disk f = length (file_content f) /\
    Z.of_nat (length (file_content f)) <= _PHYSICAL_FILE_SIZE_THRESHOLD + largest) (closed l') /\
  (names_ok l -> names_ok l').
Proof using.
  intros ([H1 H2] & H3 & H4). cbn. split; [apply new_file_ok |]. split; [done |]. split.
  - apply Forall_app. split; [done |]. constructor; [| done]. cbn. split; [done | lia].
  - intros [Hn Hc]. split; cbn; [by eexists |]. apply Forall_app. split; [done |].
    constructor; [| done]. destruct Hn as [t Ht]. by exists t.
Qed.

Lemma quick_check_ok largest l :
  before_check largest l -> 0 <= _number_of_normal_checks_since_last_major_check l <= _MAJOR_CHECK_FREQUENCY ->
  log_file_ok largest (_do_quick_check l) /\ (names_ok l -> names_ok (_do_quick_check l)).
Proof using.
  intros Hb Hn. unfold _do_quick_check.
  set (l1 := with_number (_number_of_normal_checks_since_last_major_check l + 1) l).
  assert (Hb1 : before_check largest l1) by done.
  assert (Hf : 0 <= 0 <= _MAJOR_CHECK_FREQUENCY) by (unfold _MAJOR_CHECK_FREQUENCY; lia).
  destruct (Z.ltb_spec _PHYSICAL_FILE_SIZE_THRESHOLD (_total_number_of_bytes_written (_physical_file_ptr l1))) as [Hs | Hs].
  { destruct (switch_ok largest l1 Hb1) as (H1 & H2 & H3 & H4). split; [| exact H4].
    split; [exact H1 | cbn in *; unfold _PHYSICAL_FILE_SIZE_THRESHOLD; lia | exact H3 | exact Hf]. }
  destruct Hb as (H1 & _ & H3). destruct (Z.leb_spec (_number_of_normal_checks_since_last_major_check l1) _MAJOR_CHECK_FREQUENCY) as [Hm | Hm].
  { split; [| done]. split; [exact H1 | exact Hs | exact H3 | cbn in *; lia]. }
  unfold _do_formal_check. cbn [get_current_time_from_epoch_in_seconds].
  set (l2 := mkLogFile (_base_name l1) (_physical_file_ptr l1) _ _ (closed l1) _).
  destruct (_is_in_a_new_switch_interval _ _).
  { destruct (switch_ok largest l2 Hb1) as (G1 & G2 & G3 & G4). split; [| exact G4].
    split; [exact G1 | cbn in *; unfold _PHYSICAL_FILE_SIZE_THRESHOLD; lia | exact G3 | exact Hf]. }
  destruct (_ <? _).
  - split; [| done]. split; [by apply flush_file_ok | exact Hs | exact H3 | exact Hf].
  - split; [| done]. split; [exact H1 | exact Hs | exact H3 | exact Hf].
Qed.

Lemma write_ok largest data l :
  log_file_ok largest l -> Z.of_nat (length data) <= largest -> _PHYSICAL_FILE_SIZE_THRESHOLD + largest < 2 ^ 64 ->
  let l' := write_to_user_space_memory data (length data) l in
  log_file_ok largest l' /\ (names_ok l -> names_ok l').
Proof using.
  intros [[H1 H2] H3 H4 H5] Hd Hl. unfold write_to_user_space_memory.
  set (l1 := with_file (write_physical data (length data) (_physical_file_ptr l)) l).
  assert (Hb : before_check largest l1).
  { cbn. unfold before_check, file_ok, l1. cbn. rewrite take_ge, length_app by done.
    rewrite u64_small by lia. repeat split; [lia | lia | lia | done]. }
  destruct (quick_check_ok largest l1 Hb H5) as [Hq Hn]. split; [done |].
  intros [[t Ht] Hc]. apply Hn. split; [by exists t | done].
Qed.

Fixpoint write_each (datas : list bytes) (l : LogFile) : LogFile :=
  match datas with
  | [] => l
  | data :: datas => write_each datas (write_to_user_space_memory data (length data) l)
  end.

(** Whatever the clock says, as long as the disk takes what is written: the files,
    in the order they were opened, hold exactly what was written, in order; every
    file but the current one is entirely on disk; no file exceeds 500 MB by more
    than one write; every file is named after the base name and a date, with the
    only extension; and a base name with a slash is refused. *)
Theorem log_file_spec base datas largest
    (Hd : Forall (fun d => Z.of_nat (length d) <= largest) datas)
    (Hl : 0 <= largest /\ _PHYSICAL_FILE_SIZE_THRESHOLD + largest < 2 ^ 64) :
  if bool_decide (SLASH ∈ base) then new_LogFile base = Err Uncaught
  else exists l0, new_LogFile base = Ok l0 /\ let l := write_each datas l0 in
    all_text l = concat datas /\ log_file_ok largest l /\ names_ok l /\ _base_name l0 = base.
Proof using.
  unfold new_LogFile. case_bool_decide; [done |]. eexists. split; [reflexivity |].
  set (l0 := mkLogFile base _ 0 0 [] 1).
  assert (H0 : log_file_ok largest l0 /\ names_ok l0 /\ all_text l0 = []).
  { split; [split; cbn; [by split | unfold _PHYSICAL_FILE_SIZE_THRESHOLD; lia | done |
      unfold _MAJOR_CHECK_FREQUENCY; lia] |]. split; [| done]. split; [by eexists | by apply Forall_nil]. }
  cut (forall l, log_file_ok largest l -> names_ok l ->
         all_text (write_each datas l) = all_text l ++ concat datas /\
         log_file_ok largest (write_each datas l) /\ names_ok (write_each datas l)).
  { intros Hcut. destruct H0 as (H1 & H2 & H3). destruct (Hcut l0 H1 H2) as (E & H4 & H5).
    rewrite H3 in E. done. }
  clear H0. induction Hd as [| data datas Hlen Hd IH]; intros l Hok Hn; cbn [write_each concat].
  - by rewrite app_nil_r.
  - destruct (write_ok largest data l Hok Hlen ltac:(lia)) as [Hok' Hn'].
    destruct (IH _ Hok' (Hn' Hn)) as (E & H1 & H2). split; [| done].
    by rewrite E, write_text, app_assoc.
Qed.
End LogFile.

Definition sample_strftime (format : string) (t : Z) : bytes := str "2024_01_01_13_00_23".

Lemma log_file_spec_witness :
  exists l0, new_LogFile sample_strftime (fun _ => 1704114023) (str "my_server") = Ok l0 /\
    all_text (write_each sample_strftime (fun _ => 1704114023) [str "a"; str "bc"] l0) = str "abc".
Proof.
  destruct (log_file_spec sample_strftime (fun _ => 1704114023) (str "my_server") [str "a"; str "bc"] 10
    ltac:(repeat constructor; simpl; lia) ltac:(unfold _PHYSICAL_FILE_SIZE_THRESHOLD; lia)) as (l0 & E & H & _).
  exists l0. exact (conj E H).
Defined.
