(* ===== verification/LogCollector.v ===== *)
(** The log collector ([include/log_collector.h], [src/log_collector.cc]): threads
    put entries into a chunk buffer under a mutex, and a background thread writes
    full chunks to the log file.

    The collector is a machine whose steps are the critical sections of the threads
    and the unlocked writing of the background thread; a schedule interleaves them
    in any order.  The wait on the condition variable may end at any time: it has a
    timeout and may wake up spuriously. *)
From S2P Require Import Prelude Format LogBuilder LogFile.
Open Scope nat_scope.

Definition LOG_CHUNK_BUFFER_SIZE : nat := Z.to_nat (4 * 1000 * 1000).

Lemma chunk_larger_than_entry : LOG_ENTRY_BUFFER_SIZE + 1 < LOG_CHUNK_BUFFER_SIZE.
Proof. apply Nat2Z.inj_lt. unfold LOG_CHUNK_BUFFER_SIZE, LOG_ENTRY_BUFFER_SIZE. rewrite Z2Nat.id by lia. lia. Qed.
#[global] Opaque LOG_CHUNK_BUFFER_SIZE.

Definition new_LogChunkBuffer : FixedSizeLogBuffer := new_FixedSizeLogBuffer LOG_CHUNK_BUFFER_SIZE.
Definition flush_mark : bytes := str "flush" ++ [LF].
Definition _DROP_THRESHOLD_OF_CHUNK_BUFFERS_TO_BE_WRITTEN : nat := 16.

(** * What the background thread writes to *)
Class LogSink (F : Type) := {
  sink_write : bytes -> F -> F;
  sink_flush : F -> F;
  sink_text : F -> bytes;
  sink_flushed : F -> Prop
}.

Class LogSinkLaws (F : Type) `{LogSink F} : Prop := {
  sink_write_text d f : sink_text (sink_write d f) = sink_text f ++ d;
  sink_flush_text f : sink_text (sink_flush f) = sink_text f;
  sink_flush_flushed f : sink_flushed (sink_flush f)
}.

(** The log file is one, when the disk takes all that is written. *)
#[export] Instance log_file_sink (strftime : string -> Z -> bytes) (clock : nat -> Z) : LogSink LogFile := {
  sink_write d l := write_to_user_space_memory strftime clock d (length d) l;
  sink_flush := flush_to_disk;
  sink_text := all_text;
  sink_flushed l := on_disk (_physical_file_ptr l) = length (file_content (_physical_file_ptr l))
}.

#[export] Instance log_file_sink_laws strftime clock : @LogSinkLaws LogFile (log_file_sink strftime clock).
Proof. split; [intros d f; apply write_text | done | done]. Qed.

(** * The collector *)

(** The static base name of the files, set from the path of the program. *)
Definition initial_base_name : bytes := str "log_collector".
Definition set_base_name (path base_name : bytes) : bytes :=
  match path with [] => base_name | _ => drop (get_base_name_of_path path) path end.

(** The constructor of the log file never refuses it. *)
Lemma set_base_name_accepted strftime clock path base_name :
  SLASH ∉ base_name -> exists l, new_LogFile strftime clock (set_base_name path base_name) = Ok l.
Proof.
  intros Hb. unfold new_LogFile. rewrite bool_decide_eq_false_2; [by eexists |].
  destruct path as [| c path]; [done |]. apply base_name_no_slash.
Qed.

(** Where the background thread is: about to lock, waiting, writing the buffers it
    swapped out (and whether on a request to flush), or returned. *)
Inductive worker_state :=
| Locking
| Waiting
| Writing (fulled_chunk_buffers_to_be_written : list FixedSizeLogBuffer) (flushing : bool)
| Returned.

(** A [unique_ptr] is an [option].  [taken] are the entries handed to the
    collector so far. *)
Record LogCollector (F : Type) := mkCollector {
  _current_chunk_buffer_ptr : option FixedSizeLogBuffer;
  _spare_chunk_buffer_ptr : option FixedSizeLogBuffer;
  _fulled_chunk_buffers : list FixedSizeLogBuffer;
  _need_flush : bool;
  _need_stop : bool;
  spare_chunk_buffer_for_current_chunk_buffer : option FixedSizeLogBuffer;
  spare_chunk_buffer_for_spare_chunk_buffer : option FixedSizeLogBuffer;
  log_file : F;
  worker : worker_state;
  taken : bytes
}.
Arguments mkCollector {F} _ _ _ _ _ _ _ _ _ _.
Arguments _current_chunk_buffer_ptr {F} _.
Arguments _spare_chunk_buffer_ptr {F} _.
Arguments _fulled_chunk_buffers {F} _.
Arguments _need_flush {F} _.
Arguments _need_stop {F} _.
Arguments spare_chunk_buffer_for_current_chunk_buffer {F} _.
Arguments spare_chunk_buffer_for_spare_chunk_buffer {F} _.
Arguments log_file {F} _.
Arguments worker {F} _.
Arguments taken {F} _.

(** [*ptr] *)
Definition deref {A} (p : option A) : result A := of_option UndefinedBehaviour p.

Section Collector.
Context {F : Type} `{LogSink F}.
(** The line that reports dropped buffers: their number and the date. *)
Context (drop_message : nat -> bytes).

Implicit Types c : LogCollector F.

Definition new_LogCollector (f : F) : LogCollector F :=
  mkCollector (Some new_LogChunkBuffer) (Some new_LogChunkBuffer) [] false false
    (Some new_LogChunkBuffer) (Some new_LogChunkBuffer) f Locking [].

Definition with_buffers (current spare : option FixedSizeLogBuffer) (fulled : list FixedSizeLogBuffer) c :=
  mkCollector current spare fulled (_need_flush c) (_need_stop c)
    (spare_chunk_buffer_for_current_chunk_buffer c) (spare_chunk_buffer_for_spare_chunk_buffer c)
    (log_file c) (worker c) (taken c).
Definition with_marks (flush stop : bool) c :=
  mkCollector (_current_chunk_buffer_ptr c) (_spare_chunk_buffer_ptr c) (_fulled_chunk_buffers c) flush stop
    (spare_chunk_buffer_for_current_chunk_buffer c) (spare_chunk_buffer_for_spare_chunk_buffer c)
    (log_file c) (worker c) (taken c).
Definition with_worker (w : worker_state) c :=
  mkCollector (_current_chunk_buffer_ptr c) (_spare_chunk_buffer_ptr c) (_fulled_chunk_buffers c)
    (_need_flush c) (_need_stop c) (spare_chunk_buffer_for_current_chunk_buffer c)
    (spare_chunk_buffer_for_spare_chunk_buffer c) (log_file c) w (taken c).
Definition with_spares (s1 s2 : option FixedSizeLogBuffer) c :=
  mkCollector (_current_chunk_buffer_ptr c) (_spare_chunk_buffer_ptr c) (_fulled_chunk_buffers c)
    (_need_flush c) (_need_stop c) s1 s2 (log_file c) (worker c) (taken c).
Definition with_log_file (f : F) c :=
  mkCollector (_current_chunk_buffer_ptr c) (_spare_chunk_buffer_ptr c) (_fulled_chunk_buffers c)
    (_need_flush c) (_need_stop c) (spare_chunk_buffer_for_current_chunk_buffer c)
    (spare_chunk_buffer_for_spare_chunk_buffer c) f (worker c) (taken c).
Definition log_taken (e : bytes) c :=
  mkCollector (_current_chunk_buffer_ptr c) (_spare_chunk_buffer_ptr c) (_fulled_chunk_buffers c)
    (_need_flush c) (_need_stop c) (spare_chunk_buffer_for_current_chunk_buffer c)
    (spare_chunk_buffer_for_spare_chunk_buffer c) (log_file c) (worker c) (taken c ++ e).

(** The critical section of [take_this_log]. *)
Definition take_this_log (entry : bytes) c : result (LogCollector F) :=
  let* current := deref (_current_chunk_buffer_ptr c) in
  if length entry <? length_of_spare current then
    let* current := append entry (length entry) current in
    Ok (log_taken entry
          (with_buffers (Some current) (_spare_chunk_buffer_ptr c) (_fulled_chunk_buffers c) c))
  else
    let fulled := _fulled_chunk_buffers c ++ [current] in
    let current := match _spare_chunk_buffer_ptr c with Some spare => spare | None => new_LogChunkBuffer end in
    let* current := append entry (length entry) current in
    Ok (log_taken entry (with_buffers (Some current) None fulled c)).

(** The other branch of [take_this_log]: [written] is the result of [fwrite]. *)
Definition take_this_log_directly (entry : bytes) (written : nat) (terminal : bytes) : result bytes :=
  if negb (written =? length entry) then Err Fatal else Ok (terminal ++ entry).

Definition flush (is_instantiated : bool) c : LogCollector F :=
  if is_instantiated then with_marks true (_need_stop c) c else c.

(** [_stop] up to the join: whether this call is the one that stops. *)
Definition begin_stop c : bool * LogCollector F :=
  if _need_stop c then (false, c) else (true, with_marks (_need_flush c) true c).

(** What [_stop(also_need_abort)] does to the thread that calls it, once the
    background thread is joined. *)
Inductive stop_outcome := Continues | Aborts.
Definition _stop (also_need_abort stops : bool) : stop_outcome :=
  if negb stops then Continues else if also_need_abort then Aborts else Continues.

(** The swap at the end of the critical section of the background thread. *)
Definition swap_buffers (flushing : bool) c : result (LogCollector F) :=
  let* current := deref (_current_chunk_buffer_ptr c) in
  let to_be_written := _fulled_chunk_buffers c ++ [current] in
  match _spare_chunk_buffer_ptr c with
  | Some _ => Err Uncaught
  | None =>
      Ok (with_worker (Writing to_be_written flushing)
            (with_spares None None
               (with_buffers (spare_chunk_buffer_for_current_chunk_buffer c)
                  (spare_chunk_buffer_for_spare_chunk_buffer c) [] c)))
  end.

(** The critical section once there is something to write, or the wait is over. *)
Definition after_wait c : result (LogCollector F) :=
  match _fulled_chunk_buffers c with
  | [] =>
      if _need_stop c then
        let* current := deref (_current_chunk_buffer_ptr c) in
        let f := if 0 <? buffer_length current then sink_write (content current) (log_file c) else log_file c in
        Ok (with_worker Returned (with_log_file (sink_flush f) c))
      else if negb (_need_flush c) then Ok (with_worker Locking c)
      else
        let c := with_marks false (_need_stop c) c in
        let* spare := deref (_spare_chunk_buffer_ptr c) in
        let* spare := append flush_mark 6 spare in
        swap_buffers true (with_buffers (_current_chunk_buffer_ptr c) None [spare] c)
  | _ => swap_buffers false c
  end.

(** What follows the critical section: the buffers are written and the first two
    become the new spares. *)
Definition write_buffers (bs : list FixedSizeLogBuffer) c : result (LogCollector F) :=
  let T := _DROP_THRESHOLD_OF_CHUNK_BUFFERS_TO_BE_WRITTEN in
  let '(f, bs) :=
    if T <? length bs then (sink_write (drop_message (length bs - T)) (log_file c), take T bs)
    else (log_file c, bs) in
  let f := fold_left (fun f b => sink_write (content b) f) bs f in
  match spare_chunk_buffer_for_current_chunk_buffer c, spare_chunk_buffer_for_spare_chunk_buffer c with
  | None, None =>
      let* b0 := deref (bs !! 0) in
      let* b1 := deref (bs !! 1) in
      Ok (with_worker Locking
            (with_log_file (sink_flush f) (with_spares (Some (reset b0)) (Some (reset b1)) c)))
  | _, _ => Err Uncaught
  end.

Definition worker_step c : result (LogCollector F) :=
  match worker c with
  | Locking =>
      match _fulled_chunk_buffers c with
      | [] => Ok (with_worker Waiting c)
      | _ => after_wait c
      end
  | Waiting => after_wait c
  | Writing bs _ => write_buffers bs c
  | Returned => Ok c
  end.

(** ** Schedules *)
Inductive collector_op := TakeThisLog (entry : bytes) | Flush | Stop | Work.

Definition run_op (op : collector_op) c : result (LogCollector F) :=
  match op with
  | TakeThisLog entry => take_this_log entry c
  | Flush => Ok (flush true c)
  | Stop => Ok (snd (begin_stop c))
  | Work => worker_step c
  end.

Fixpoint run_ops (ops : list collector_op) c : result (LogCollector F) :=
  match ops with
  | [] => Ok c
  | op :: ops => let* next := run_op op c in run_ops ops next
  end.

Definition op_ok (op : collector_op) : Prop :=
  match op with TakeThisLog entry => length entry < LOG_ENTRY_BUFFER_SIZE | _ => True end.

(** ** What reaches the file *)
Definition text_of (bs : list FixedSizeLogBuffer) : bytes := concat (content <$> bs).
#[local] Arguments text_of _ : simpl never.
#[local] Arguments flush_mark : simpl never.

(** [written a t]: the entries [a] went into the file text [t], batch by batch: the
    buffers of a batch in order, preceded by a mark when the batch was flushed on
    request; of a batch of more than 16 buffers, the first 16, preceded by a line
    that says how many were dropped. *)
Inductive written (t0 : bytes) : bytes -> bytes -> Prop :=
| written_nil : written t0 [] t0
| written_batch a t bs : length bs <= _DROP_THRESHOLD_OF_CHUNK_BUFFERS_TO_BE_WRITTEN ->
    written t0 a t -> written t0 (a ++ text_of bs) (t ++ text_of bs)
| written_flush a t e : written t0 a t -> written t0 (a ++ e) (t ++ flush_mark ++ e)
| written_drop a t bs : _DROP_THRESHOLD_OF_CHUNK_BUFFERS_TO_BE_WRITTEN < length bs -> written t0 a t ->
    written t0 (a ++ text_of bs)
      (t ++ drop_message (length bs - _DROP_THRESHOLD_OF_CHUNK_BUFFERS_TO_BE_WRITTEN) ++
       text_of (take _DROP_THRESHOLD_OF_CHUNK_BUFFERS_TO_BE_WRITTEN bs)).

Definition chunk_ok (b : FixedSizeLogBuffer) : Prop :=
  _MAX_BUFFER_SIZE b = LOG_CHUNK_BUFFER_SIZE /\ buffer_length b < LOG_CHUNK_BUFFER_SIZE.

(** The entries in the buffers the background thread has swapped out. *)
Definition pending (w : worker_state) : bytes :=
  match w with
  | Writing bs false => text_of bs
  | Writing bs true => text_of (drop 1 bs)
  | _ => []
  end.

Definition spares_ok c : Prop :=
  match worker c with
  | Locking | Waiting => spare_chunk_buffer_for_current_chunk_buffer c = Some new_LogChunkBuffer /\
      spare_chunk_buffer_for_spare_chunk_buffer c = Some new_LogChunkBuffer
  | Writing bs flushing => spare_chunk_buffer_for_current_chunk_buffer c = None /\
      spare_chunk_buffer_for_spare_chunk_buffer c = None /\ Forall chunk_ok bs /\ 2 <= length bs /\
      (flushing = true -> exists b, bs !! 0 = Some b /\ content b = flush_mark /\ length bs = 2)
  | Returned => True
  end.

(** Where the entries taken so far are: in the file, in the buffers being written,
    in the full buffers or in the current one.  Once the background thread has
    returned, later entries stay in the buffers. *)
Definition accounted (t0 : bytes) c (current : FixedSizeLogBuffer) : Prop :=
  exists a, written t0 a (sink_text (log_file c)) /\
    match worker c with
    | Returned => exists late, taken c = a ++ late
    | w => taken c = a ++ pending w ++ text_of (_fulled_chunk_buffers c) ++ content current
    end.

Record collector_inv (t0 : bytes) c : Prop := {
  ci_current : exists current, _current_chunk_buffer_ptr c = Some current /\ chunk_ok current /\
                 accounted t0 c current;
  ci_fulled : Forall chunk_ok (_fulled_chunk_buffers c);
  ci_spare : _spare_chunk_buffer_ptr c
             = match _fulled_chunk_buffers c with [] => Some new_LogChunkBuffer | _ => None end;
  ci_spares : spares_ok c
}.

Lemma new_chunk_ok : chunk_ok new_LogChunkBuffer.
Proof using. pose proof chunk_larger_than_entry. split; [done |]. unfold buffer_length. cbn. lia. Qed.

Lemma text_of_app bs bs' : text_of (bs ++ bs') = text_of bs ++ text_of bs'.
Proof using. unfold text_of. by rewrite fmap_app, concat_app. Qed.

Lemma text_of_one b : text_of [b] = content b.
Proof using. apply app_nil_r. Qed.

(** An entry always fits an empty chunk, and one that fits is appended. *)
Lemma append_chunk b e : chunk_ok b -> length e <= length_of_spare b ->
  append e (length e) b = Ok (extend e b) /\ chunk_ok (extend e b).
Proof using.
  intros [Hs Hl] He. split; [by apply append_fits |]. split; [done |].
  unfold length_of_spare, buffer_length, extend in *. rewrite Hs in He. cbn [content]. rewrite length_app. lia.
Qed.

Lemma new_chunk_spare : length_of_spare new_LogChunkBuffer = LOG_CHUNK_BUFFER_SIZE - 1.
Proof using. unfold length_of_spare, buffer_length. cbn. lia. Qed.

Lemma flush_mark_fits : length flush_mark <= length_of_spare new_LogChunkBuffer.
Proof using.
  pose proof chunk_larger_than_entry. rewrite new_chunk_spare. change (length flush_mark) with 6.
  unfold LOG_ENTRY_BUFFER_SIZE in *. lia.
Qed.

Lemma take_this_log_ok t0 c e :
  collector_inv t0 c -> length e < LOG_ENTRY_BUFFER_SIZE ->
  exists c', take_this_log e c = Ok c' /\ collector_inv t0 c' /\ worker c' = worker c /\
    _need_stop c' = _need_stop c.
Proof using.
  intros [(cur & Hcur & Hok & a & Hw & Hacc) Hf Hs Hss] He. unfold take_this_log, deref. rewrite Hcur. cbn [of_option].
  destruct (Nat.ltb_spec (length e) (length_of_spare cur)) as [Hfit | Hfull].
  - destruct (append_chunk cur e Hok ltac:(lia)) as [-> Hok']. eexists. split; [done |].
    split; [| done]. split; [| done | done | done]. eexists. split; [done |]. split; [done |].
    exists a. split; [done |]. cbn. unfold extend. cbn [content].
    destruct (worker c); try (rewrite Hacc; by rewrite <- !app_assoc).
    destruct Hacc as [late ->]. exists (late ++ e). by rewrite app_assoc.
  - assert (Hnew : (match _spare_chunk_buffer_ptr c with Some spare => spare | None => new_LogChunkBuffer end)
              = new_LogChunkBuffer) by (rewrite Hs; by destruct (_fulled_chunk_buffers c)).
    rewrite Hnew. pose proof chunk_larger_than_entry.
    destruct (append_chunk new_LogChunkBuffer e new_chunk_ok) as [-> Hok'];
      [rewrite new_chunk_spare; lia |]. eexists. split; [done |]. split; [| done].
    split; [| | cbn; by destruct (_fulled_chunk_buffers c) | done].
    + eexists. split; [done |]. split; [done |]. exists a. split; [done |].
      cbn. rewrite text_of_app, text_of_one.
      destruct (worker c); try (rewrite Hacc; cbn; by rewrite <- !app_assoc).
      destruct Hacc as [late ->]. exists (late ++ e). by rewrite app_assoc.
    + cbn. apply Forall_app. split; [done |]. by constructor.
Qed.

Lemma spares_locked c : spares_ok c -> worker c = Locking \/ worker c = Waiting ->
  spare_chunk_buffer_for_current_chunk_buffer c = Some new_LogChunkBuffer /\
  spare_chunk_buffer_for_spare_chunk_buffer c = Some new_LogChunkBuffer.
Proof using. unfold spares_ok. by intros Hss [E | E]; rewrite E in Hss. Qed.

Lemma swap_full t0 c :
  collector_inv t0 c -> worker c = Locking \/ worker c = Waiting -> _fulled_chunk_buffers c <> [] ->
  exists c', swap_buffers false c = Ok c' /\ collector_inv t0 c' /\ _need_stop c' = _need_stop c /\
    exists bs, worker c' = Writing bs false.
Proof using.
  intros [(cur & Hcur & Hok & a & Hw & Hacc) Hf Hs Hss] Hwk Hne.
  destruct (spares_locked c Hss Hwk) as [Hs1 Hs2].
  assert (Hnone : _spare_chunk_buffer_ptr c = None) by (rewrite Hs; by destruct (_fulled_chunk_buffers c)).
  assert (Hacc' : taken c = a ++ text_of (_fulled_chunk_buffers c ++ [cur])).
  { rewrite text_of_app, text_of_one. by destruct Hwk as [E | E]; rewrite E in Hacc. }
  unfold swap_buffers, deref. rewrite Hcur, Hnone. cbn [of_option]. eexists. split; [done |].
  split; [| split; [done | by eexists]]. split; cbn; [| done | done |].
  - exists new_LogChunkBuffer. split; [done |]. split; [apply new_chunk_ok |]. exists a. split; [done |].
    cbn. by rewrite app_nil_r.
  - split; [done |]. split; [done |]. split; [apply Forall_app; split; [done | by constructor] |].
    split; [| done]. rewrite length_app. destruct (_fulled_chunk_buffers c); [done |]. cbn. lia.
Qed.

Lemma swap_flush t0 c :
  collector_inv t0 c -> worker c = Locking \/ worker c = Waiting -> _fulled_chunk_buffers c = [] ->
  exists c' bs, swap_buffers true (with_buffers (_current_chunk_buffer_ptr c) None
      [extend flush_mark new_LogChunkBuffer] (with_marks false (_need_stop c) c)) = Ok c' /\
    collector_inv t0 c' /\ _need_stop c' = _need_stop c /\ worker c' = Writing bs true.
Proof using.
  intros [(cur & Hcur & Hok & a & Hw & Hacc) Hf Hs Hss] Hwk He.
  destruct (spares_locked c Hss Hwk) as [Hs1 Hs2]. rewrite He in Hacc.
  assert (Hacc' : taken c = a ++ content cur) by by destruct Hwk as [E | E]; rewrite E in Hacc.
  unfold swap_buffers, deref. cbn. rewrite Hcur. cbn [of_option]. do 2 eexists. split; [done |].
  split; [| done]. split; cbn; [| done | done |].
  - exists new_LogChunkBuffer. split; [done |]. split; [apply new_chunk_ok |]. exists a. split; [done |].
    cbn. rewrite Hacc'. unfold text_of. cbn. by rewrite !app_nil_r.
  - split; [done |]. split; [done |]. split; [| split; [cbn; lia | intros _; by eexists]].
    constructor; [| by constructor].
    exact (proj2 (append_chunk new_LogChunkBuffer flush_mark new_chunk_ok flush_mark_fits)).
Qed.

(** The background thread returns from [after_wait] only when asked to stop and
    with everything written. *)
Definition finished (t0 : bytes) c : Prop :=
  worker c = Returned /\ sink_flushed (log_file c) /\ written t0 (taken c) (sink_text (log_file c)).

Lemma written_one t0 a t e : written t0 a t -> written t0 (a ++ e) (t ++ e).
Proof using.
  intros Hw. pose proof (written_batch t0 a t [mkBuffer 0 e]) as H1. rewrite text_of_one in H1.
  apply H1; [| done]. unfold _DROP_THRESHOLD_OF_CHUNK_BUFFERS_TO_BE_WRITTEN. cbn. lia.
Qed.


Context {laws : LogSinkLaws F}.

Lemma after_wait_ok t0 c :
  collector_inv t0 c -> worker c = Locking \/ worker c = Waiting ->
  exists c', after_wait c = Ok c' /\ collector_inv t0 c' /\ _need_stop c' = _need_stop c /\
    (_need_stop c = true ->
     if bool_decide (_fulled_chunk_buffers c = []) then finished t0 c'
     else exists bs, worker c' = Writing bs false).
Proof using laws.
  intros Hi Hwk. unfold after_wait. destruct (_fulled_chunk_buffers c) as [| b bs] eqn:Hf.
  - destruct (_need_stop c) eqn:Hstop.
    + destruct Hi as [(cur & Hcur & Hok & a & Hw & Hacc) Hfull Hs Hss]. unfold deref. rewrite Hcur. cbn [of_option].
      assert (Hacc' : taken c = a ++ content cur).
      { rewrite Hf in Hacc. by destruct Hwk as [E | E]; rewrite E in Hacc. }
      set (f := if 0 <? buffer_length cur then sink_write (content cur) (log_file c) else log_file c).
      assert (Hf' : written t0 (taken c) (sink_text (sink_flush f))).
      { rewrite Hacc', sink_flush_text. unfold f. destruct (Nat.ltb_spec 0 (buffer_length cur)) as [Hl | Hl].
        - rewrite sink_write_text. by apply written_one.
        - unfold buffer_length in Hl. destruct (content cur); [by rewrite app_nil_r | cbn in Hl; lia]. }
      eexists. split; [done |]. split; [| split; [done |]].
      * split; [| done | done | done]. exists cur. split; [done |]. split; [done |].
        exists (taken c). split; [exact Hf' |]. exists []. by rewrite app_nil_r.
      * intros _. rewrite bool_decide_eq_true_2 by done. split; [done |]. split; [apply sink_flush_flushed | exact Hf'].
    + destruct (_need_flush c); cbn [negb].
      * destruct Hi as [Hcur Hfull Hs Hss]. cbn [with_marks _spare_chunk_buffer_ptr]. rewrite Hs, Hf. cbn [deref of_option].
        destruct (append_chunk new_LogChunkBuffer flush_mark new_chunk_ok flush_mark_fits) as [E _].
        change (append flush_mark 6) with (append flush_mark (length flush_mark)). rewrite E.
        destruct (swap_flush t0 c) as (c' & bs & E' & Hi' & Hst & _); [by split | done | done |].
        cbn [with_marks _current_chunk_buffer_ptr]. rewrite Hstop in E'. rewrite E'. exists c'.
        split; [done |]. split; [done |]. split; [by rewrite Hst |]. done.
      * eexists. split; [done |]. split; [| done].
        destruct Hi as [(cur & Hcur & Hok & a & Hw & Hacc) Hfull Hs Hss]. split; try done.
        -- exists cur. split; [done |]. split; [done |]. exists a. split; [done |].
           by destruct Hwk as [E | E]; rewrite E in Hacc.
        -- exact (spares_locked c Hss Hwk).
  - destruct (swap_full t0 c Hi Hwk) as (c' & E & Hi' & Hst & Hbs); [by rewrite Hf |].
    exists c'. split; [done |]. split; [done |]. split; [done |]. done.
Qed.

Lemma fold_write_text bs f :
  sink_text (fold_left (fun f b => sink_write (content b) f) bs f) = sink_text f ++ text_of bs.
Proof using laws.
  revert f. induction bs as [| b bs IH]; intros f; [by rewrite app_nil_r |]. cbn [fold_left].
  rewrite IH, sink_write_text, <- app_assoc. done.
Qed.

Lemma write_buffers_ok t0 c bs flushing :
  collector_inv t0 c -> worker c = Writing bs flushing ->
  exists c', write_buffers bs c = Ok c' /\ collector_inv t0 c' /\ _need_stop c' = _need_stop c /\
    worker c' = Locking.
Proof using laws.
  intros [(cur & Hcur & Hok & a & Hw & Hacc) Hfull Hs Hss] Hwk. unfold spares_ok in Hss. rewrite Hwk in Hss, Hacc.
  destruct Hss as (Hs1 & Hs2 & Hbs & Hlen & Hfl). unfold write_buffers. rewrite Hs1, Hs2.
  destruct bs as [| b0 [| b1 bs]]; [cbn in Hlen; lia.. |].
  inversion Hbs as [| ? ? [Hz0 _] Hbs']; subst. inversion Hbs' as [| ? ? [Hz1 _] _]; subst.
  assert (Hreset : forall b, _MAX_BUFFER_SIZE b = LOG_CHUNK_BUFFER_SIZE -> reset b = new_LogChunkBuffer).
  { intros b E. unfold reset. by rewrite E. }
  set (T := _DROP_THRESHOLD_OF_CHUNK_BUFFERS_TO_BE_WRITTEN).
  assert (HT : T = 16) by done.
  assert (Hgoal : exists f, (let '(f, bs) := if T <? length (b0 :: b1 :: bs)
       then (sink_write (drop_message (length (b0 :: b1 :: bs) - T)) (log_file c), take T (b0 :: b1 :: bs))
       else (log_file c, b0 :: b1 :: bs) in
      (fold_left (fun f b => sink_write (content b) f) bs f, bs !! 0, bs !! 1)) = (f, Some b0, Some b1) /\
      written t0 (a ++ pending (Writing (b0 :: b1 :: bs) flushing)) (sink_text f)).
  { destruct (Nat.ltb_spec T (length (b0 :: b1 :: bs))) as [Hd | Hd].
    - eexists. split; [done |]. rewrite fold_write_text, sink_write_text.
      destruct flushing; [destruct (Hfl eq_refl) as (? & _ & _ & E); cbn in E, Hd; lia |].
      rewrite <- app_assoc. by apply written_drop.
    - eexists. split; [done |]. rewrite fold_write_text. destruct flushing; [| by apply written_batch].
      destruct (Hfl eq_refl) as (b & [= <-] & Hb & E). destruct bs; [| cbn in E; lia].
      unfold pending. cbn [drop]. rewrite text_of_one. unfold text_of. cbn [fmap list_fmap concat].
      rewrite Hb, app_nil_r. by apply written_flush. }
  destruct Hgoal as (f & E & Hwr). destruct (if T <? _ then _ else _) as [f1 bs1]. injection E as E1 E2 E3.
  rewrite E2, E3. cbn [deref of_option]. rewrite !Hreset by done. rewrite E1.
  eexists. split; [done |]. split; [| done]. split; try done.
  exists cur. split; [done |]. split; [done |]. eexists. split; [cbn; rewrite sink_flush_text; exact Hwr |].
  cbn. cbn in Hacc. by rewrite Hacc, <- app_assoc.
Qed.

(** How many steps of its own separate the background thread from returning, once
    asked to stop. *)
Definition steps_left c : nat :=
  match worker c, _fulled_chunk_buffers c with
  | Returned, _ => 0
  | Waiting, [] => 1
  | Locking, [] => 2
  | Waiting, _ | Locking, _ => 4
  | Writing _ _, [] => 3
  | Writing _ _, _ => 5
  end.

Lemma worker_step_ok t0 c :
  collector_inv t0 c ->
  exists c', worker_step c = Ok c' /\ collector_inv t0 c' /\ _need_stop c' = _need_stop c /\
    match worker c with
    | Returned => c' = c
    | Writing _ _ => worker c' = Locking
    | Locking =>
        if bool_decide (_fulled_chunk_buffers c = [])
        then worker c' = Waiting /\ _fulled_chunk_buffers c' = []
        else _need_stop c = true -> exists bs, worker c' = Writing bs false
    | Waiting =>
        _need_stop c = true ->
        if bool_decide (_fulled_chunk_buffers c = []) then finished t0 c'
        else exists bs, worker c' = Writing bs false
    end.
Proof using laws.
  intros Hi. unfold worker_step. destruct (worker c) as [| | bs flushing |] eqn:Hwk.
  - destruct (_fulled_chunk_buffers c) as [| b bs] eqn:Hf.
    + eexists. split; [done |]. split; [| split; [done |]].
      * destruct Hi as [(cur & Hcur & Hok & a & Hw & Hacc) Hfull Hs Hss]. split; try done.
        -- exists cur. split; [done |]. split; [done |]. exists a. split; [done |]. by rewrite Hwk in Hacc.
        -- unfold spares_ok in *. by rewrite Hwk in Hss.
      * by rewrite bool_decide_eq_true_2.
    + destruct (after_wait_ok t0 c Hi (or_introl Hwk)) as (c' & E & Hi' & Hst & Hend). exists c'.
      split; [done |]. split; [done |]. split; [done |]. rewrite Hf in Hend. exact Hend.
  - destruct (after_wait_ok t0 c Hi (or_intror Hwk)) as (c' & E & Hi' & Hst & Hend). by exists c'.
  - destruct (write_buffers_ok t0 c bs flushing Hi Hwk) as (c' & E & Hi' & Hst & Hw). by exists c'.
  - by exists c.
Qed.

Lemma swap_frame flushing c c' : swap_buffers flushing c = Ok c' ->
  taken c' = taken c /\ _fulled_chunk_buffers c' = [] /\ exists bs, worker c' = Writing bs flushing.
Proof using.
  unfold swap_buffers. destruct (deref _); [| done]. destruct (_spare_chunk_buffer_ptr c); [done |].
  intros [= <-]. split; [done |]. split; [done | by eexists].
Qed.

Lemma after_wait_frame c c' : after_wait c = Ok c' ->
  taken c' = taken c /\ (forall bs b, worker c' = Writing bs b -> _fulled_chunk_buffers c' = [] \/ worker c = Writing bs b).
Proof using.
  unfold after_wait. destruct (_fulled_chunk_buffers c) as [| b bs] eqn:Hf.
  - destruct (_need_stop c).
    + destruct (deref _); [| done]. by intros [= <-].
    + destruct (_need_flush c); cbn [negb]; [| by intros [= <-]].
      destruct (deref _); [| done]. destruct (append _ _ _); [| done].
      intros (-> & -> & _)%swap_frame. split; [done |]. by left.
  - intros (-> & -> & _)%swap_frame. split; [done |]. by left.
Qed.

Lemma write_frame bs c c' : write_buffers bs c = Ok c' ->
  taken c' = taken c /\ _fulled_chunk_buffers c' = _fulled_chunk_buffers c.
Proof using.
  unfold write_buffers. destruct (if _ <? _ then _ else _) as [f bs'].
  destruct (spare_chunk_buffer_for_current_chunk_buffer c), (spare_chunk_buffer_for_spare_chunk_buffer c); try done.
  destruct (deref (bs' !! 0)); [| done]. destruct (deref (bs' !! 1)); [| done]. by intros [= <-].
Qed.

Lemma worker_step_taken c c' : worker_step c = Ok c' -> taken c' = taken c.
Proof using.
  unfold worker_step. destruct (worker c) as [| | bs b |].
  - destruct (_fulled_chunk_buffers c); [by intros [= <-] | by intros [? _]%after_wait_frame].
  - by intros [? _]%after_wait_frame.
  - by intros [? _]%write_frame.
  - by intros [= <-].
Qed.

(** A stopping background thread makes progress. *)
Lemma stopping_step t0 c c' :
  collector_inv t0 c -> _need_stop c = true -> worker c <> Returned -> worker_step c = Ok c' ->
  finished t0 c' \/ (worker c' <> Returned /\ steps_left c' < steps_left c).
Proof using laws.
  intros Hi Hst Hne E. destruct (worker_step_ok t0 c Hi) as (c2 & E2 & _ & _ & Hm). rewrite E in E2.
  injection E2 as <-. unfold worker_step in E. unfold steps_left.
  destruct (worker c) as [| | bs b |] eqn:Hwk; [| | | done].
  - right. destruct (_fulled_chunk_buffers c) as [| b bs] eqn:Hf.
    + rewrite bool_decide_eq_true_2 in Hm by done. destruct Hm as [-> ->]. split; [done | lia].
    + rewrite bool_decide_eq_false_2 in Hm by done. destruct (Hm Hst) as [bs' Hw].
      apply after_wait_frame in E as [_ E]. destruct (E _ _ Hw) as [E' | E']; [| by rewrite Hwk in E'].
      rewrite Hw, E'. split; [done | lia].
  - specialize (Hm Hst). destruct (_fulled_chunk_buffers c) as [| b bs] eqn:Hf.
    + rewrite bool_decide_eq_true_2 in Hm by done. by left.
    + right. rewrite bool_decide_eq_false_2 in Hm by done. destruct Hm as [bs' Hw].
      apply after_wait_frame in E as [_ E]. destruct (E _ _ Hw) as [E' | E']; [| by rewrite Hwk in E'].
      rewrite Hw, E'. split; [done | lia].
  - right. apply write_frame in E as [_ E]. rewrite Hm, E. split; [done |].
    destruct (_fulled_chunk_buffers c); lia.
Qed.

Lemma finished_stays t0 n c : finished t0 c -> run_ops (replicate n Work) c = Ok c.
Proof using.
  intros [Hw _]. induction n as [| n IH]; [done |]. cbn [replicate run_ops run_op].
  unfold worker_step. by rewrite Hw.
Qed.

Lemma stopping_run t0 n c :
  collector_inv t0 c -> _need_stop c = true -> worker c <> Returned -> steps_left c <= n ->
  exists c', run_ops (replicate n Work) c = Ok c' /\ taken c' = taken c /\ finished t0 c'.
Proof using laws.
  revert c. induction n as [| n IH]; intros c Hi Hst Hne Hn.
  - exfalso. unfold steps_left in Hn. destruct (worker c), (_fulled_chunk_buffers c); first [done | lia].
  - cbn [replicate run_ops run_op]. destruct (worker_step_ok t0 c Hi) as (c1 & E & Hi1 & Hst1 & _). rewrite E.
    pose proof (worker_step_taken c c1 E) as Ht.
    destruct (stopping_step t0 c c1 Hi Hst Hne E) as [Hf | [Hne1 Hlt]].
    + exists c1. split; [by apply (finished_stays t0) | done].
    + destruct (IH c1 Hi1 ltac:(by rewrite Hst1) Hne1 ltac:(lia)) as (c' & E' & Ht' & Hf').
      exists c'. split; [done |]. split; [by rewrite Ht' | done].
Qed.

Lemma collector_run_op_ok t0 op c :
  collector_inv t0 c -> op_ok op ->
  exists c', run_op op c = Ok c' /\ collector_inv t0 c' /\
    (_need_stop c = true -> _need_stop c' = true).
Proof using laws.
  intros Hi Hop. destruct op as [e | | |]; cbn [run_op].
  - destruct (take_this_log_ok t0 c e Hi Hop) as (c' & E & Hi' & _ & Hst). exists c'.
    split; [done |]. split; [done |]. by rewrite Hst.
  - eexists. split; [done |]. split; [| done]. by destruct Hi as [Hcur Hfull Hs Hss].
  - eexists. split; [done |]. unfold begin_stop. destruct (_need_stop c) eqn:Hst; cbn [snd]; [done |].
    split; [| done]. by destruct Hi as [Hcur Hfull Hs Hss].
  - destruct (worker_step_ok t0 c Hi) as (c' & E & Hi' & Hst & _). exists c'.
    split; [done |]. split; [done |]. by rewrite Hst.
Qed.

Lemma collector_run_ops_ok t0 ops c :
  collector_inv t0 c -> Forall op_ok ops ->
  exists c', run_ops ops c = Ok c' /\ collector_inv t0 c' /\
    (_need_stop c = true \/ Stop ∈ ops -> _need_stop c' = true).
Proof using laws.
  intros Hi Hops. revert c Hi. induction Hops as [| op ops Hop _ IH]; intros c Hi; cbn [run_ops].
  - exists c. split; [done |]. split; [done |]. intros [? | Hin]; [done | by apply elem_of_nil in Hin].
  - destruct (collector_run_op_ok t0 op c Hi Hop) as (c1 & E & Hi1 & Hst). rewrite E.
    destruct (IH c1 Hi1) as (c' & E' & Hi' & Hst'). exists c'. split; [done |]. split; [done |].
    intros [Hs | Hin]; apply Hst'; [left; by apply Hst |]. apply elem_of_cons in Hin as [<- | Hin]; [| by right].
    left. cbn [run_op] in E. injection E as <-. unfold begin_stop. by destruct (_need_stop c) eqn:?.
Qed.

Lemma new_collector_inv f : collector_inv (sink_text f) (new_LogCollector f).
Proof using.
  split; [| done | done | done]. exists new_LogChunkBuffer. split; [done |]. split; [apply new_chunk_ok |].
  exists []. split; [constructor | done].
Qed.

(** C32: Under every interleaving of threads that log, ask for a flush or stop the
    collector with the steps of the background thread: no null buffer is
    dereferenced, the two places that should never be reached are not reached, and
    every entry handed in is, in order and once, in the file, in the buffers being
    written, in the full buffers or in the current one - except for the buffers
    past the sixteenth of a batch, which the file says were dropped. *)
Theorem log_collector_accounts f ops (Hops : Forall op_ok ops) :
  exists c, run_ops ops (new_LogCollector f) = Ok c /\
    exists current, _current_chunk_buffer_ptr c = Some current /\ accounted (sink_text f) c current.
Proof using laws.
  destruct (collector_run_ops_ok (sink_text f) ops _ (new_collector_inv f) Hops) as (c & E & Hi & _).
  exists c. split; [done |]. destruct (ci_current _ _ Hi) as (cur & Hcur & _ & Hacc). by exists cur.
Qed.

(** C34: Once the collector is asked to stop, and as long as the background thread has
    not returned yet, five of its steps without further entries write everything
    that was handed in, flush the file and return. *)
Theorem log_collector_stops f ops (Hops : Forall op_ok ops) (Hstop : Stop ∈ ops) :
  exists c, run_ops ops (new_LogCollector f) = Ok c /\
    (worker c <> Returned ->
     exists c', run_ops (replicate 5 Work) c = Ok c' /\ taken c' = taken c /\ finished (sink_text f) c').
Proof using laws.
  destruct (collector_run_ops_ok (sink_text f) ops _ (new_collector_inv f) Hops) as (c & E & Hi & Hst).
  exists c. split; [done |]. specialize (Hst (or_intror Hstop)). intros Hne.
  apply stopping_run; [done | done | done |]. unfold steps_left.
  destruct (worker c), (_fulled_chunk_buffers c); lia.
Qed.

(** A second LOG_FATAL does not stop the process: once any thread has begun to stop
    the collector, [abort()] returns to its caller without aborting. *)
Theorem second_fatal_continues f ops (Hops : Forall op_ok ops) (Hstop : Stop ∈ ops) :
  exists c, run_ops ops (new_LogCollector f) = Ok c /\
    fst (begin_stop c) = false /\ _stop true (fst (begin_stop c)) = Continues.
Proof using laws.
  destruct (collector_run_ops_ok (sink_text f) ops _ (new_collector_inv f) Hops) as (c & E & Hi & Hst).
  exists c. split; [done |]. unfold begin_stop. by rewrite (Hst (or_intror Hstop)).
Qed.
End Collector.

(** A sink that keeps its text. *)
#[export] Instance sample_sink : LogSink bytes := {
  sink_write d t := t ++ d; sink_flush t := t; sink_text t := t; sink_flushed _ := True
}.
#[export] Instance sample_sink_laws : LogSinkLaws bytes.
Proof. by split. Qed.

Definition sample_ops : list collector_op :=
  [TakeThisLog (str "one"); Work; Flush; Work; TakeThisLog (str "two"); Work; Stop].

Lemma sample_log_ops_ok : Forall op_ok sample_ops.
Proof. unfold sample_ops. repeat constructor; cbn; unfold LOG_ENTRY_BUFFER_SIZE; lia. Qed.

Lemma sample_log_ops_stop : Stop ∈ sample_ops.
Proof. unfold sample_ops. apply list_elem_of_In. cbn. auto 10. Qed.

Lemma log_collector_accounts_witness :
  exists c, run_ops (fun _ => []) sample_ops (new_LogCollector []) = Ok c /\
    exists current, _current_chunk_buffer_ptr c = Some current.
Proof.
  destruct (log_collector_accounts (fun _ => []) [] sample_ops sample_log_ops_ok) as (c & E & cur & Hcur & _).
  exists c. exact (conj E (ex_intro _ cur Hcur)).
Defined.

Lemma log_collector_stops_witness :
  exists c, run_ops (fun _ => []) sample_ops (new_LogCollector []) = Ok c /\
    (worker c <> Returned -> exists c', run_ops (fun _ => []) (replicate 5 Work) c = Ok c' /\ taken c' = taken c).
Proof.
  destruct (log_collector_stops (fun _ => []) [] sample_ops sample_log_ops_ok sample_log_ops_stop) as (c & E & H).
  exists c. split; [exact E |]. intros Hw. destruct (H Hw) as (c' & E' & H' & _). exists c'. exact (conj E' H').
Defined.

Lemma second_fatal_continues_witness :
  exists c, run_ops (fun _ => []) sample_ops (new_LogCollector []) = Ok c /\ fst (begin_stop c) = false.
Proof.
  destruct (second_fatal_continues (fun _ => []) [] sample_ops sample_log_ops_ok sample_log_ops_stop) as (c & E & H & _).
  exists c. exact (conj E H).
Defined.
