(* ===== verification/HttpResponse.v ===== *)
(** HTTP responses: [example/http/server/src/http_response.cc] and its header.

    The headers are a [std::unordered_map]; [order] is the order in which it is
    traversed.  [std::to_string]'s decimal digits are those of [Format]. *)
From S2P Require Import Prelude TimePoint Poller TcpBuffer TcpConnectSocketfd HttpRequest HttpParser Format.
Open Scope nat_scope.

(** [None]: the member has no initializer, reading it before it is set is undefined.
    The status is the value of its enumerator ([S_NONE] is 0). *)
Record HttpResponse := mkResponse {
  _version : option HttpVersionType;
  _status_code : Z;
  _headers : gmap bytes bytes;
  _body : bytes
}.

Definition new_HttpResponse : HttpResponse := mkResponse None 0 ∅ [].

Definition S_NONE : Z := 0.
Definition S_200_OK : Z := 200.
Definition S_404_NOT_FOUND : Z := 404.

(** The enumerators after [S_NONE]. *)
Definition HttpStatusCode : list Z :=
  [100; 101; 102; 200; 201; 202; 203; 204; 205; 206; 207; 208; 226; 300; 301; 302; 303; 304; 305;
   307; 308; 400; 401; 402; 403; 404; 405; 406; 407; 408; 409; 410; 411; 412; 413; 414; 415; 416;
   417; 418; 421; 422; 423; 424; 425; 426; 428; 429; 431; 451; 500; 501; 502; 503; 504; 505; 506;
   507; 508; 510; 511]%Z.

Definition set_version_type (x : HttpVersionType) (r : HttpResponse) : HttpResponse :=
  mkResponse (Some x) (_status_code r) (_headers r) (_body r).
Definition set_status_code (s : Z) (r : HttpResponse) : HttpResponse :=
  mkResponse (_version r) s (_headers r) (_body r).
Definition set_header (key value : bytes) (r : HttpResponse) : HttpResponse :=
  mkResponse (_version r) (_status_code r) (<[key := value]> (_headers r)) (_body r).

Definition get_header (key : bytes) (r : HttpResponse) : bytes := default [] (_headers r !! key).

(** Whether the header was there. *)
Definition erase_header (key : bytes) (r : HttpResponse) : bool * HttpResponse :=
  match _headers r !! key with
  | Some _ => (true, mkResponse (_version r) (_status_code r) (delete key (_headers r)) (_body r))
  | None => (false, r)
  end.

(** [util::to_string<StringType>] *)
Definition to_string (n : Z) : bytes :=
  match digit_loop 20 n with Ok l => reverse l | Err _ => [] end.

Definition with_body (body : bytes) (r : HttpResponse) : HttpResponse :=
  mkResponse (_version r) (_status_code r) (_headers r) body.

(** [set_body] of a constant reference, and of two pointers. *)
Definition set_body (body : bytes) (r : HttpResponse) : HttpResponse :=
  set_header CONTENT_LENGTH (to_string (Z.of_nat (length body))) (with_body body r).

(** [set_body] of an rvalue: the size is asked after the move.  [moved] is what the
    string is left with; libstdc++ leaves it empty. *)
Definition set_body_move (moved body : bytes) (r : HttpResponse) : HttpResponse :=
  set_header CONTENT_LENGTH (to_string (Z.of_nat (length moved))) (with_body body r).

(** [None] is the null pointer. *)
Definition get_version_type_as_string (r : HttpResponse) : result (option bytes) :=
  match _version r with
  | None => Err UndefinedBehaviour
  | Some HTTP_1_0 => Ok (Some (str "HTTP/1.0"))
  | Some HTTP_1_1 => Ok (Some (str "HTTP/1.1"))
  | Some UNSUPPORTED_HTTP_VERSION => Ok None
  end.

(** The cases of the [switch]. *)
Definition status_descriptions : list (Z * string) :=
  [(100, "100 Continue"); (101, "101 Switching Protocols"); (102, "102 Processing");
   (200, "200 OK"); (201, "201 Created"); (202, "202 Accepted");
   (203, "203 Non Authoritative Information"); (204, "204 No Content");
   (205, "205 Reset Content"); (206, "206 Partial Content"); (207, "207 Multi Status");
   (208, "208 Already Reported"); (226, "226 Im Used");
   (300, "300 Multiple Choices"); (301, "301 Moved Permanently"); (302, "302 Found");
   (303, "303 See Other"); (304, "304 Not Modified"); (305, "305 Use Proxy");
   (307, "307 Temporary Redirect"); (308, "308 Permanent Redirect");
   (400, "400 Bad Request"); (401, "401 Unauthorized"); (402, "402 Payment Required");
   (403, "403 Forbidden"); (404, "404 Not Found"); (405, "405 Method Not Allowed");
   (406, "406 Not Acceptable"); (407, "407 Proxy Authentication Required");
   (408, "408 Request Timeout"); (409, "409 Conflict"); (410, "410 Gone");
   (411, "411 Length Required"); (412, "412 Precondition Failed"); (413, "413 Payload Too Large");
   (414, "414 URI Too Long"); (415, "415 Unsupported Media Type");
   (416, "416 Range Not Satisfiable"); (417, "417 Expectation Failed"); (418, "418 Im A Teapot");
   (421, "421 Misdirected Request"); (422, "422 Unprocessable Entity"); (423, "423 Locked");
   (424, "424 Failed Dependency"); (425, "425 Too Early"); (426, "426 Upgrade Required");
   (428, "428 Precondition Required"); (429, "429 Too Many Requests");
   (431, "431 Request Header Fields Too Large"); (451, "451 Unavailable For Legal Reasons");
   (500, "500 Internal Server Error"); (501, "501 Not Implemented"); (502, "502 Bad Gateway");
   (503, "503 Service Unavailable"); (504, "504 Gateway Timeout");
   (505, "505 HTTP Version Not Supported"); (506, "506 Variant Also Negotiates");
   (507, "507 Insufficient Storage"); (508, "508 Loop Detected"); (510, "510 Not Extended");
   (511, "511 Network Authentication Required")]%Z%string.

Definition get_status_code_and_description_as_string (r : HttpResponse) : bytes :=
  match list_find (fun p => p.1 = _status_code r) status_descriptions with
  | Some (_, (_, description)) => str description
  | None => str "unknown http status code"
  end.

Section Dump.
Context {strings : StringAllocator} (order : gmap bytes bytes -> list (bytes * bytes)).

Fixpoint append_headers (l : list (bytes * bytes)) (buffer : TcpBuffer.t) : result TcpBuffer.t :=
  match l with
  | [] => Ok buffer
  | (key, value) :: l =>
      let* buffer := TcpBuffer.append key buffer in
      let* buffer := TcpBuffer.append_colon buffer in
      let* buffer := TcpBuffer.append value buffer in
      let* buffer := TcpBuffer.append_crlf buffer in
      append_headers l buffer
  end.

Definition dump_to_tcp_buffer (r : HttpResponse) (buffer : TcpBuffer.t) : result TcpBuffer.t :=
  if (_status_code r =? S_NONE)%Z then Err Fatal
  else
    let* version_str := get_version_type_as_string r in
    let* version_str := of_option UndefinedBehaviour version_str in      (* [strlen(nullptr)] *)
    let* buffer := TcpBuffer.append version_str buffer in
    let* buffer := TcpBuffer.append_space buffer in
    let* buffer := TcpBuffer.append (get_status_code_and_description_as_string r) buffer in
    let* buffer := TcpBuffer.append_crlf buffer in
    let* buffer := append_headers (order (_headers r)) buffer in
    let* buffer := TcpBuffer.append_crlf buffer in
    if bool_decide (_body r = []) then Ok buffer else TcpBuffer.append (_body r) buffer.

(** The buffer is new; [alloc] names its allocation. *)
Definition send_to_tcp_connection {K X U} `{Epoll K} `{Socket K}
    (cb : callbacks (TcpConnectSocketfd K X U)) (alloc : nat) (r : HttpResponse)
    (c : TcpConnectSocketfd K X U) : result (TcpConnectSocketfd K X U) :=
  let* buffer := dump_to_tcp_buffer r (TcpBuffer.new alloc) in
  send cb (TcpBuffer.contents buffer) c.
End Dump.

(** Every status has its own case in the [switch], and its text begins with its number
    and a space. *)
Theorem status_described r (Hs : _status_code r ∈ HttpStatusCode) :
  exists reason, get_status_code_and_description_as_string r = to_string (_status_code r) ++ [SP] ++ reason /\
    reason <> [].
Proof.
  assert (Hall : Forall (fun s =>
      take 4 (get_status_code_and_description_as_string (set_status_code s new_HttpResponse)) = to_string s ++ [SP] /\
      drop 4 (get_status_code_and_description_as_string (set_status_code s new_HttpResponse)) <> []) HttpStatusCode).
  { apply (bool_decide_unpack _). vm_compute. exact I. }
  rewrite Forall_forall in Hall. destruct (Hall _ Hs) as [H1 H2].
  change (get_status_code_and_description_as_string (set_status_code (_status_code r) new_HttpResponse))
    with (get_status_code_and_description_as_string r) in H1, H2.
  eexists. split; [| exact H2]. rewrite app_assoc, <- H1. symmetry. apply take_drop.
Qed.

(** * What a response looks like *)
Definition header_text (h : bytes * bytes) : bytes := h.1 ++ [COLON] ++ h.2.

Definition headers_text (hs : list (bytes * bytes)) : bytes :=
  concat ((fun h => header_text h ++ crlf) <$> hs).

Definition version_text (r : HttpResponse) : option bytes :=
  match _version r with Some x => version_name x | None => None end.

Definition status_line (version : bytes) (r : HttpResponse) : bytes :=
  version ++ [SP] ++ get_status_code_and_description_as_string r.

Definition render (order : gmap bytes bytes -> list (bytes * bytes)) (version : bytes) (r : HttpResponse)
    : bytes :=
  status_line version r ++ crlf ++ headers_text (order (_headers r)) ++ crlf ++ _body r.

(** * Appending to a buffer nothing was read from *)
Section Fresh.
Context {strings : StringAllocator}.

(** Such a buffer never compacts; it grows to at most twice what it holds. *)
Record fresh (l : bytes) (b : TcpBuffer.t) : Prop := {
  fresh_wf : TcpBuffer.wf b;
  fresh_read : TcpBuffer._read_offset b = 0;
  fresh_capacity : TcpBuffer.SSO <= TcpBuffer.capacity b <= Nat.max TcpBuffer.SSO (2 * length l);
  fresh_contents : TcpBuffer.contents b = l
}.

Definition small (n : nat) : Prop := (Z.of_nat n < 2 ^ 58)%Z.

Lemma fresh_new alloc : fresh [] (TcpBuffer.new alloc).
Proof. split; [apply TcpBuffer.new_wf | done | simpl; unfold TcpBuffer.SSO; lia | done]. Qed.

Lemma append_at_start d b b' :
  TcpBuffer.wf b -> TcpBuffer._read_offset b = 0 ->
  TcpBuffer.capacity b <= Nat.max TcpBuffer.SSO (2 * TcpBuffer._write_offset b) ->
  (Z.of_nat (TcpBuffer.capacity b + length d) < 2 ^ 60)%Z ->
  TcpBuffer.append d b = Ok b' ->
  TcpBuffer._read_offset b' = 0 /\
  TcpBuffer.capacity b' <= Nat.max TcpBuffer.SSO (2 * (TcpBuffer._write_offset b + length d)).
Proof.
  intros [_ _ Hw Hc _] Hr Hcap Hs. unfold TcpBuffer.append, TcpBuffer._make_space.
  destruct (Nat.eqb_spec (length d) 0) as [-> | Hd]; [intros [= <-]; split; [done | lia] |].
  rewrite TcpBuffer.size_sub_le, Hr, Z.add_0_r, u64_small by lia.
  destruct (Z.leb_spec (Z.of_nat (length d)) (Z.of_nat (TcpBuffer.capacity b - TcpBuffer._write_offset b)));
    unfold TcpBuffer.write_at.
  - rewrite TcpBuffer.resize_fits by lia. simpl. case_match; [| done]. intros [= <-]. simpl. lia.
  - rewrite TcpBuffer.resize_grows by lia. destruct (allocates _); [| done]. simpl.
    case_match; [| done]. intros [= <-]. simpl. unfold TcpBuffer.grown_capacity. lia.
Qed.

(** The string had to grow to a capacity that its allocator is undefined for, at most
    twice the [n] bytes it was to hold. *)
Definition no_room (n : nat) (e : failure) : Prop :=
  e = UndefinedBehaviour /\ exists k, TcpBuffer.SSO < k <= 2 * n /\ allocates (S k) = false.

Lemma no_room_le n m e : n <= m -> no_room n e -> no_room m e.
Proof. intros Hle (-> & k & Hk & Ha). split; [done |]. exists k. split; [lia | done]. Qed.

Lemma append_fresh d l b :
  fresh l b -> small (length (l ++ d)) ->
  match TcpBuffer.append d b with
  | Ok b' => fresh (l ++ d) b'
  | Err e => no_room (length (l ++ d)) e
  end.
Proof.
  intros [Hwf Hr Hc Hl] Hs. unfold small in Hs. rewrite length_app in Hs |- *.
  assert (Hlen : TcpBuffer._write_offset b = length l).
  { rewrite <- Hl, TcpBuffer.length_contents, Hr by done. lia. }
  pose proof (TcpBuffer.append_ok d b Hwf) as Happ.
  assert (Ho : TcpBuffer.compaction_overlaps (length d) b = false).
  { unfold TcpBuffer.compaction_overlaps. rewrite Hr, Nat.add_0_r.
    destruct (Nat.ltb_spec (TcpBuffer.capacity b - TcpBuffer._write_offset b) (length d)); [| done].
    by rewrite (proj2 (Nat.leb_gt _ _)). }
  unfold TcpBuffer.append_undefined in Happ. rewrite Ho in Happ. cbn [orb] in Happ.
  specialize (Happ ltac:(unfold TcpBuffer.SSO in Hc; lia)).
  destruct (TcpBuffer.growth_undefined _ _) eqn:Hg.
  - rewrite Happ. unfold TcpBuffer.growth_undefined in Hg.
    apply andb_true_iff in Hg as [Hlt%Nat.ltb_lt Ha%negb_true_iff]. rewrite Hr, Hlen in *.
    pose proof (TcpBuffer.wf_write _ Hwf). pose proof (TcpBuffer.wf_capacity _ Hwf).
    split; [done |]. eexists. split; [| exact Ha]. unfold TcpBuffer.grown_capacity.
    lia.
  - destruct Happ as (b' & E & Hwf' & Hc'). rewrite E.
    destruct (append_at_start d b b') as [Hr' Hcap']; try done;
      [rewrite Hlen; apply Hc | unfold TcpBuffer.SSO in Hc; lia |].
    pose proof (TcpBuffer.append_capacity _ _ _ E). rewrite Hlen in Hcap'.
    split; try done; [rewrite length_app; lia | by rewrite Hc', Hl].
Qed.

End Fresh.

(** ** The text of a number, read back by [strtol] *)
Lemma digits_fold s acc :
  forallb isdigit s = true ->
  digits s acc = fold_left (fun a c => 10 * a + digit_value c)%Z s acc.
Proof.
  revert acc. induction s as [| c s IH]; simpl; intros acc; [done |].
  intros [Hc Hs]%andb_true_iff. rewrite Hc. by rewrite IH.
Qed.

Lemma isdigit_not_isspace c : isdigit c = true -> isspace c = false.
Proof.
  unfold isdigit, isspace. rewrite !andb_true_iff, !Nat.leb_le. intros [H1 H2].
  rewrite !orb_false_iff, andb_false_iff, Nat.eqb_neq, !Nat.leb_gt. lia.
Qed.

Lemma isdigit_not_sign c : isdigit c = true -> c <> "-"%char /\ c <> "+"%char.
Proof. by split; intros ->. Qed.

Lemma to_string_digits n :
  (0 <= n <= int64_max)%Z -> forallb isdigit (to_string n) = true /\ to_string n <> [] /\
  fold_left (fun a c => 10 * a + digit_value c)%Z (to_string n) 0%Z = n.
Proof.
  unfold int64_max. intros Hn. unfold to_string.
  destruct (digit_loop_spec 20 n) as (l & -> & Hv & Hd & Hne & _); [lia | lia |].
  pose proof (read_digits_reverse l Hd Hne) as Hr. unfold read_digits in Hr.
  destruct (forallb isdigit (reverse l)); [| done].
  destruct (bool_decide_reflect (reverse l = [])) as [| Hnil]; [done |].
  apply (inj Some) in Hr. by rewrite Hv in Hr.
Qed.

Lemma strtol_to_string n : (0 <= n <= int64_max)%Z -> strtol (to_string n) = (n, true).
Proof.
  intros Hn. destruct (to_string_digits n Hn) as (Hdr & Hne & Hr).
  destruct (to_string n) as [| c s]; [done |]. unfold int64_max in Hn.
  pose proof Hdr as Hdr'. simpl in Hdr'. apply andb_true_iff in Hdr' as [Hc _].
  destruct (isdigit_not_sign c Hc). unfold strtol. cbn [drop_while].
  rewrite (isdigit_not_isspace c Hc), !decide_False, Hc, (digits_fold _ _ Hdr), Hr by done.
  unfold int64_min, int64_max. f_equal. lia.
Qed.

(** ** Headers that survive the wire *)
Definition clean (key value : bytes) : Prop :=
  key <> [] /\ (COLON ∉ key) /\ (CR ∉ key) /\ (CR ∉ value) /\ trim key = key /\ trim value = value.

Definition line_of (h : bytes * bytes) : header_line := mkHeaderLine (header_text h) h.1 h.2.

Lemma line_of_ok k v : clean k v -> header_line_ok (line_of (k, v)).
Proof.
  intros (Hne & Hcolon & Hcr & Hcr' & Hk & Hv). unfold header_line_ok, line_of, header_text; simpl.
  split; [by destruct k |]. split.
  { rewrite elem_of_app, elem_of_cons. intros [? | [? | ?]]; by unfold COLON, CR in *. }
  unfold header_of_line.
  assert (Hf : list_find (fun c => c = COLON) (k ++ COLON :: v) = Some (length k, COLON)).
  { apply list_find_Some. rewrite lookup_app_r, Nat.sub_diag by done. split; [done |]. split; [done |].
    intros j y Hj Hlt ->. rewrite lookup_app_l in Hj by done. apply list_elem_of_lookup_2 in Hj. done. }
  rewrite Hf, take_app_length. replace (S (length k)) with (length (k ++ [COLON])) by (rewrite length_app; simpl; lia).
  change (k ++ COLON :: v) with (k ++ [COLON] ++ v). rewrite app_assoc, drop_app_length, Hk, Hv.
  destruct (forallb isspace k) eqn:Hb; [| done]. exfalso.
  destruct (trim_split k) as [[_ Ht] | (_ & _ & c & k1 & _ & _ & _ & _ & _ & Ht & Hc & _)]; [congruence |].
  rewrite Hk in Ht. rewrite Ht in Hb. simpl in Hb. by rewrite Hc in Hb.
Qed.

(** The length of a body is a clean value. *)
Lemma clean_length n : (Z.of_nat n <= int64_max)%Z -> clean CONTENT_LENGTH (to_string (Z.of_nat n)).
Proof.
  intros Hn. destruct (to_string_digits (Z.of_nat n)) as (Hd & Hne & _); [lia |].
  unfold clean. split; [done |]. do 2 (split; [by vm_compute; set_solver |]). 
  rewrite forallb_forall in Hd. split; [intros H; apply list_elem_of_In, Hd in H; done |].
  split; [reflexivity |]. set (s := to_string _) in *. clearbody s.
  destruct s as [| c k]; [done |]. destruct (exists_last (l := c :: k)) as (k' & d & E); [done |].
  apply (trim_id _ c k d k'); try done; apply isdigit_not_isspace, Hd; [by left |].
  rewrite E. apply in_app_iff. right. by left.
Qed.

Lemma fields_of_list l m :
  NoDup l.*1 -> fields (line_of <$> l) m = list_to_map l ∪ m.
Proof.
  revert m. induction l as [| [k v] l IH]; simpl; intros m Hnd; [by rewrite map_empty_union |].
  apply NoDup_cons in Hnd as [Hk Hnd]. unfold fields in *. simpl. rewrite IH by done.
  rewrite <- insert_union_r; [by rewrite insert_union_l | by apply not_elem_of_list_to_map].
Qed.

(** ** Dumping *)

(** One append: what follows has a fresh buffer, unless it did not grow. *)
Ltac append_step :=
  match goal with
  | Hb : fresh ?l ?b |- context [TcpBuffer.append ?d ?b] =>
      let H := fresh "H" in let b' := fresh "b" in
      assert (H : small (length (l ++ d))) by (unfold small; rewrite !length_app, ?length_nil; lia);
      apply (append_fresh d l b Hb) in H; clear Hb; rename H into Hb;
      destruct (TcpBuffer.append d b) as [b' |];
      [cbn [mbind result_bind]
      | refine (no_room_le _ _ _ _ Hb); rewrite !length_app, ?length_nil; lia]
  end.

Section DumpSpec.
Context {strings : StringAllocator} (order : gmap bytes bytes -> list (bytes * bytes)).

Lemma append_headers_fresh hs l b :
  fresh l b -> small (length (l ++ headers_text hs)) ->
  match append_headers hs b with
  | Ok b' => fresh (l ++ headers_text hs) b'
  | Err e => no_room (length (l ++ headers_text hs)) e
  end.
Proof.
  revert l b. induction hs as [| [k v] hs IH]; intros l b Hb Hs.
  { unfold headers_text. simpl. by rewrite app_nil_r. }
  assert (E : headers_text ((k, v) :: hs) = k ++ str ":" ++ v ++ crlf ++ headers_text hs).
  { unfold headers_text, header_text. simpl. by rewrite <- !app_assoc. }
  rewrite E in Hs |- *. unfold small in Hs. rewrite !length_app in Hs.
  cbn [append_headers]. unfold TcpBuffer.append_colon, TcpBuffer.append_crlf. do 4 append_step.
  specialize (IH _ _ Hb). rewrite <- !app_assoc in IH. apply IH. unfold small. rewrite !length_app. lia.
Qed.

Lemma dump_fresh version r b :
  fresh [] b -> _status_code r <> S_NONE -> version_text r = Some version ->
  small (length (render order version r)) ->
  match dump_to_tcp_buffer order r b with
  | Ok b' => fresh (render order version r) b'
  | Err e => no_room (length (render order version r)) e
  end.
Proof.
  intros Hb Hst Hv Hs. unfold dump_to_tcp_buffer. rewrite (proj2 (Z.eqb_neq _ _) Hst).
  assert (E : get_version_type_as_string r = Ok (Some version)).
  { unfold version_text, get_version_type_as_string in *. destruct (_version r) as [[] |]; first [done | by injection Hv as <-]. }
  rewrite E. cbn [of_option mbind result_bind]. unfold render, status_line in *.
  rewrite <- !app_assoc in Hs |- *. unfold small in Hs. rewrite !length_app in Hs.
  unfold TcpBuffer.append_space, TcpBuffer.append_crlf. do 4 append_step.
  epose proof (append_headers_fresh (order (_headers r)) _ _ Hb) as Hh.
  specialize (Hh ltac:(unfold small; rewrite !length_app, ?length_nil; lia)). clear Hb.
  destruct (append_headers _ _) as [b' | e]; cbn [mbind result_bind];
    [| refine (no_room_le _ _ _ _ Hh); rewrite !length_app, ?length_nil; lia].
  append_step. case_bool_decide as Hbody.
  - rewrite Hbody, app_nil_r. simpl in Hh. by rewrite <- !app_assoc in Hh.
  - append_step. simpl in Hh. by rewrite <- !app_assoc in Hh.
Qed.
End DumpSpec.

(** ** The round trip *)
Lemma status_line_no_CR version r :
  version_text r = Some version -> CR ∉ status_line version r.
Proof.
  intros Hv. unfold status_line, get_status_code_and_description_as_string.
  rewrite !elem_of_app, list_elem_of_singleton. intros [H | [H | H]]; [| done |].
  - assert (Hver : forall x v, version_name x = Some v -> CR ∉ v).
    { intros [] v; [done | intros [= <-]; vm_compute; set_solver ..]. }
    unfold version_text in Hv. destruct (_version r); [| done]. by apply (Hver _ _ Hv).
  - assert (Hall : forallb (fun p => negb (bool_decide (CR ∈ str p.2))) status_descriptions = true)
      by (vm_compute; reflexivity).
    destruct (list_find _ _) as [[i [s d]] |] eqn:E; [| by vm_compute in H; set_solver].
    apply list_find_Some in E as (Hi & _). apply list_elem_of_lookup_2, list_elem_of_In in Hi.
    rewrite forallb_forall in Hall. specialize (Hall _ Hi). simpl in Hall.
    by apply negb_true_iff, bool_decide_eq_false in Hall.
Qed.

Section RoundTrip.
Set Default Proof Using "Type*".
Context {strings : StringAllocator} (order : gmap bytes bytes -> list (bytes * bytes)).
Hypothesis order_ok : forall m, order m ≡ₚ map_to_list m.

Lemma order_to_map m : list_to_map (order m) = m /\ NoDup (order m).*1.
Proof.
  assert (Hnd : NoDup (order m).*1) by (rewrite order_ok; apply NoDup_fst_map_to_list).
  split; [| done]. rewrite (list_to_map_proper _ (map_to_list m)) by done. apply list_to_map_to_list.
Qed.

(** C22: A response whose version and status are set, whose headers are clean and
    whose text is below 2^58 bytes, is written to a new buffer as one message: a
    status line, then header lines that the library's own header parser reads back
    to exactly the headers set, then the body; and the length announced for the
    body, read as the parser reads it, is the body's length.  The one exception is a
    buffer that has to grow to a capacity, at most twice the message, that the
    allocator of its string is undefined for: there are none with [std::string]. *)
Theorem response_roundtrip version body r0 alloc
    (Hv : version_text r0 = Some version) (Hst : _status_code r0 <> S_NONE)
    (Hclean : map_Forall clean (_headers r0))
    (Hs : small (length (render order version (set_body body r0)))) :
  let r := set_body body r0 in
  match dump_to_tcp_buffer order r (TcpBuffer.new alloc) with
  | Ok b =>
    TcpBuffer.wf b /\
    let m := TcpBuffer.contents b in
    let e := length (status_line version r0) in
    crlf_index m = Some e /\ take e m = status_line version r0 /\
    strtol (get_header CONTENT_LENGTH r) = (Z.of_nat (length body), true) /\
    forall p ts,
      parse_headers (S (length m)) p (drop (e + 2) m) ts
      = Ok (headers_finished
              (with_request (set_headers (_headers r ∪ HttpRequest._headers (_request p)) (_request p)) p)
              ts, body)
  | Err e =>
    e = UndefinedBehaviour /\
    exists k, TcpBuffer.SSO < k <= 2 * length (render order version r) /\ allocates (S k) = false
  end.
Proof.
  intros r. assert (Hlen : (Z.of_nat (length body) <= int64_max)%Z).
  { unfold render, small, int64_max in *. rewrite !length_app in Hs. simpl in Hs. lia. }
  pose proof (dump_fresh order version r _ (fresh_new alloc) Hst Hv Hs) as Hdump.
  destruct (dump_to_tcp_buffer order r (TcpBuffer.new alloc)) as [b | e]; [| exact Hdump].
  destruct Hdump as [Hwf _ _ Hc]. split; [done |]. rewrite Hc. cbv zeta.
  change (render order version r)
    with (status_line version r0 ++ crlf ++ (headers_text (order (_headers r)) ++ crlf ++ body)).
  split; [apply crlf_index_line; by apply status_line_no_CR |].
  split; [apply take_app_length |]. split.
  { unfold get_header, r, set_body, set_header; simpl. rewrite lookup_insert_eq. simpl.
    apply strtol_to_string. unfold int64_max in *. lia. }
  intros p ts. rewrite (app_assoc (status_line _ _) crlf), drop_app_length' by (rewrite length_app; simpl; lia).
  destruct (order_to_map (_headers r)) as [Hm Hnd].
  pose proof (parse_headers_lines (line_of <$> order (_headers r))
                (S (length ((status_line version r0 ++ crlf) ++ headers_text (order (_headers r)) ++ crlf ++ body)))
                p body ts) as Hp.
  rewrite fields_of_list, Hm in Hp by done.
  assert (Hr : render_headers (line_of <$> order (_headers r)) = headers_text (order (_headers r))).
  { unfold render_headers, headers_text. by rewrite <- list_fmap_compose. }
  rewrite Hr in Hp. apply Hp; [| rewrite !length_app; simpl; lia].
  apply Forall_fmap, Forall_forall. intros [k v] Hkv. apply line_of_ok.
  rewrite order_ok in Hkv. apply elem_of_map_to_list in Hkv.
  revert Hkv. unfold r, set_body, set_header; simpl. rewrite lookup_insert_Some.
  intros [[<- <-] | [_ Hkv]]; [| by apply (Hclean k v)].
  by apply clean_length.
Qed.
End RoundTrip.

(** What [dump_to_tcp_buffer] does with a response that is not ready: without a
    status the process ends, and without a version, or with an unsupported one,
    the behaviour is undefined. *)
Theorem dump_unready {strings : StringAllocator} order r b :
  (_status_code r = S_NONE -> dump_to_tcp_buffer order r b = Err Fatal) /\
  (_status_code r <> S_NONE -> version_text r = None ->
   dump_to_tcp_buffer order r b = Err UndefinedBehaviour).
Proof.
  unfold dump_to_tcp_buffer. split; [by intros -> |].
  intros Hst Hv. rewrite (proj2 (Z.eqb_neq _ _) Hst).
  unfold version_text, get_version_type_as_string in *. by destruct (_version r) as [[] |].
Qed.

(** Moving a body in announces the length of what the move left behind: with
    libstdc++ nothing, whatever the body was. *)
Theorem moved_body_announced_empty body r :
  strtol (get_header CONTENT_LENGTH (set_body_move [] body r)) = (0%Z, true) /\
  _body (set_body_move [] body r) = body.
Proof.
  split; [| done]. unfold get_header, set_body_move, set_header; simpl. by rewrite lookup_insert_eq.
Qed.

(** ** The strings in use

    With the slab allocator of strings no response can be written at all: the status
    line alone outgrows the 15 bytes that a string keeps inside. *)
Lemma slab_append d b :
  TcpBuffer.wf b -> TcpBuffer._read_offset b = 0 -> TcpBuffer.capacity b = TcpBuffer.SSO ->
  TcpBuffer._write_offset b + length d <= 2047 ->
  (TcpBuffer._write_offset b + length d <= TcpBuffer.SSO ->
   exists b', TcpBuffer.append (strings := slab_strings) d b = Ok b' /\ TcpBuffer.wf b' /\
     TcpBuffer._read_offset b' = 0 /\ TcpBuffer.capacity b' = TcpBuffer.SSO /\
     TcpBuffer._write_offset b' = TcpBuffer._write_offset b + length d) /\
  (TcpBuffer.SSO < TcpBuffer._write_offset b + length d ->
   TcpBuffer.append (strings := slab_strings) d b = Err UndefinedBehaviour).
Proof.
  intros Hwf Hr Hc Hd. pose proof (TcpBuffer.append_ok (strings := slab_strings) d b Hwf) as Happ.
  specialize (Happ ltac:(rewrite Hc; unfold TcpBuffer.SSO; lia)).
  pose proof (TcpBuffer.wf_write _ Hwf) as Hw. pose proof (TcpBuffer.wf_capacity _ Hwf) as Hcap.
  unfold TcpBuffer.append_undefined, TcpBuffer.compaction_overlaps, TcpBuffer.growth_undefined,
    TcpBuffer.grown_capacity in Happ. cbn [allocates slab_strings] in Happ.
  rewrite Hr, Hc, Nat.add_0_r in Happ.
  split; intros Hlt.
  - rewrite !(proj2 (Nat.ltb_ge (TcpBuffer.SSO - _) _)) in Happ by lia. simpl in Happ.
    destruct Happ as (b' & E & Hwf' & Hc'). exists b'. split; [done |]. split; [done |].
    pose proof (f_equal length Hc') as Hlen.
    rewrite length_app, !TcpBuffer.length_contents, Hr in Hlen by done.
    destruct (append_at_start (strings := slab_strings) d b b') as [Hr' Hcap']; try done; [lia | unfold TcpBuffer.SSO in *; lia |].
    pose proof (TcpBuffer.append_capacity (strings := slab_strings) _ _ _ E).
    split; [done |]. split; [| lia].
    revert E. unfold TcpBuffer.append, TcpBuffer._make_space.
    destruct (Nat.eqb_spec (length d) 0); [by intros [= <-] |].
    rewrite TcpBuffer.size_sub_le, (proj2 (Z.leb_le _ _)), TcpBuffer.resize_fits by (rewrite ?Hc; unfold TcpBuffer.SSO in *; lia).
    simpl. unfold TcpBuffer.write_at. destruct (_ && _); [| done]. by intros [= <-].
  - rewrite (proj2 (Nat.ltb_lt (TcpBuffer.SSO - _) _)) in Happ by lia.
    rewrite (proj2 (Nat.leb_gt (length d) _)) in Happ by lia.
    rewrite (proj2 (Nat.ltb_ge 2048 _)) in Happ by (unfold TcpBuffer.SSO; lia). exact Happ.
Qed.

Theorem slab_response_undefined order version r alloc
    (Hst : _status_code r <> S_NONE) (Hv : version_text r = Some version) :
  dump_to_tcp_buffer (strings := slab_strings) order r (TcpBuffer.new alloc) = Err UndefinedBehaviour.
Proof.
  unfold dump_to_tcp_buffer. rewrite (proj2 (Z.eqb_neq _ _) Hst).
  assert (E : get_version_type_as_string r = Ok (Some version) /\ length version = 8).
  { unfold version_text, get_version_type_as_string in *. destruct (_version r) as [[] |]; try done; by injection Hv as <-. }
  destruct E as [-> Hver]. cbn [of_option mbind result_bind].
  assert (Hstatus : 6 <= length (get_status_code_and_description_as_string r) <= 100).
  { unfold get_status_code_and_description_as_string.
    destruct (list_find _ _) as [[i [k d]] |] eqn:Ef; [| vm_compute; lia].
    apply list_find_Some in Ef as (Hi & _). apply list_elem_of_lookup_2, list_elem_of_In in Hi.
    assert (Hall : forallb (fun p => (6 <=? length (str p.2)) && (length (str p.2) <=? 100)) status_descriptions = true)
      by (vm_compute; reflexivity).
    rewrite forallb_forall in Hall. specialize (Hall _ Hi). cbn [snd] in Hall.
    apply andb_true_iff in Hall as [H1%Nat.leb_le H2%Nat.leb_le]. done. }
  generalize dependent (get_status_code_and_description_as_string r). intros status Hstatus.
  destruct (slab_append version (TcpBuffer.new alloc)) as [(b1 & -> & Hwf1 & Hr1 & Hc1 & Hw1) _];
    [apply TcpBuffer.new_wf | done | done | simpl; lia | simpl; unfold TcpBuffer.SSO; lia |].
  cbn [mbind result_bind]. simpl in Hw1. unfold TcpBuffer.append_space.
  destruct (slab_append [SP] b1) as [(b2 & -> & Hwf2 & Hr2 & Hc2 & Hw2) _]; try done; [simpl; lia | simpl; unfold TcpBuffer.SSO; lia |].
  cbn [mbind result_bind]. simpl in Hw2.
  destruct (slab_append status b2 Hwf2 Hr2 Hc2 ltac:(lia)) as [H1 H2].
  destruct (decide (length status = 6)) as [H6 |]; [| by rewrite H2 by (unfold TcpBuffer.SSO; lia)].
  destruct H1 as (b3 & -> & Hwf3 & Hr3 & Hc3 & Hw3); [unfold TcpBuffer.SSO; lia |].
  cbn [mbind result_bind]. unfold TcpBuffer.append_crlf.
  destruct (slab_append crlf b3 Hwf3 Hr3 Hc3 ltac:(simpl; lia)) as [_ H3]. by rewrite H3 by (simpl; unfold TcpBuffer.SSO; lia).
Qed.

(** * A concrete response *)
#[local] Existing Instance std_strings.

Definition sample_response : HttpResponse :=
  set_header (str "Content-Type") (str "text/html; charset=UTF-8")
    (set_status_code S_404_NOT_FOUND (set_version_type HTTP_1_1 new_HttpResponse)).

Lemma sample_response_clean : map_Forall clean (_headers sample_response).
Proof.
  intros k v. unfold sample_response, set_header, set_status_code, set_version_type. cbn [_headers].
  rewrite lookup_insert_Some. intros [[<- <-] | [_ H]]; [| done].
  unfold clean. split; [done |]. do 3 (split; [by vm_compute; set_solver |]). by split.
Qed.

Lemma response_roundtrip_witness :
  match dump_to_tcp_buffer map_to_list (set_body (str "not here") sample_response) (TcpBuffer.new 0) with
  | Ok b =>
      take 22 (TcpBuffer.contents b) = str "HTTP/1.1 404 Not Found" /\
      exists p, parse_headers (S (length (TcpBuffer.contents b))) new_HttpParser
                  (drop 24 (TcpBuffer.contents b)) (TimePoint.mk 0) = Ok (Some true, p, str "not here") /\
        HttpRequest._headers (_request p) !! CONTENT_LENGTH = Some (str "8")
  | Err _ => False
  end.
Proof.
  pose proof (response_roundtrip map_to_list (fun m => reflexivity _) (str "HTTP/1.1") (str "not here")
                sample_response 0 eq_refl) as H.
  specialize (H ltac:(discriminate) sample_response_clean ltac:(unfold small; vm_compute; reflexivity)).
  cbv zeta in H. destruct (dump_to_tcp_buffer _ _ _) as [b | e]; [| destruct H as (_ & k & _ & Hk); discriminate Hk].
  destruct H as (_ & _ & Ht & _ & Hp). split; [exact Ht |].
  specialize (Hp new_HttpParser (TimePoint.mk 0)). eexists. split; [exact Hp |]. vm_compute. reflexivity.
Defined.

Lemma dump_unready_witness :
  dump_to_tcp_buffer map_to_list new_HttpResponse (TcpBuffer.new 0) = Err Fatal /\
  dump_to_tcp_buffer map_to_list (set_status_code S_200_OK new_HttpResponse) (TcpBuffer.new 0)
  = Err UndefinedBehaviour.
Proof.
  split; apply dump_unready; [reflexivity | discriminate | reflexivity].
Defined.

Lemma status_described_witness :
  exists reason, get_status_code_and_description_as_string (set_status_code 418 new_HttpResponse)
    = str "418 " ++ reason /\ reason <> [].
Proof.
  apply (status_described (set_status_code 418 new_HttpResponse)).
  apply (bool_decide_unpack _). vm_compute. exact I.
Defined.
