(* ===== verification/HttpServer.v ===== *)
(** The HTTP server: [example/http/server/src/http_server.cc] and its header, on the
    TCP connections and the TCP server.

    The context of a connection is its parser.  [outside] holds what the server
    keeps with a connection: its time stamp, whether [_message_callback] has
    replaced the write-complete callback by one that shuts the write end down, and
    the state of the user. *)
From S2P Require Import Prelude TimePoint Poller TcpBuffer TcpConnectSocketfd.
From S2P Require Import EventLoopThreadPool TcpServer HttpRequest HttpParser.
From stdpp Require Import fin_maps sorting.
Open Scope nat_scope.

Record http_outside (W : Type) := mkHttpOutside {
  time_stamp : TimePoint.t;
  shut_when_written : bool;
  user : W
}.
Arguments mkHttpOutside {W} _ _ _.
Arguments time_stamp {W} _.
Arguments shut_when_written {W} _.
Arguments user {W} _.

Section Message.
Context {K W : Type} `{Epoll K} `{Socket K} {strings : StringAllocator}.
Abbreviation conn := (TcpConnectSocketfd K HttpParser (http_outside W)).
Context (_http_request_callback : HttpRequest -> conn -> result conn).
Context (_write_complete_callback : option (conn -> result conn)).
Context (_close_callback : option (conn -> result conn)).

Definition set_time_stamp (t : TimePoint.t) (c : conn) : conn :=
  with_outside (mkHttpOutside t (shut_when_written (outside c)) (user (outside c))) c.
Definition get_time_stamp (c : conn) : TimePoint.t := time_stamp (outside c).
Definition register_shutdown (c : conn) : conn :=
  with_outside (mkHttpOutside (time_stamp (outside c)) true (user (outside c))) c.
Definition with_context (p : HttpParser) (c : conn) : conn :=
  mkConn (_pollable_file_descriptor c) (_loop c) (_input_buffer c) (_output_buffer c) (Some p)
    (_is_write_end_shutdown c) (_is_reset c) (_is_abotrted c) (outside c).

(** The connect-success callback of the server: [user_callback] is the user's. *)
Definition _connect_success_callback_wrapper (user_callback : option (conn -> result conn)) (c : conn)
    : result conn := invoke user_callback (with_context new_HttpParser c).

(** [shutdown_write]: when the write-complete callback has been replaced, it calls
    [shutdown_write] again. *)
Fixpoint shutdown_connection (fuel : nat) (c : conn) : result conn :=
  match fuel with
  | O => Err OutOfFuel
  | S fuel =>
      shutdown_write
        (mkCallbacks None
           (Some (fun c => if shut_when_written (outside c) then shutdown_connection fuel c
                           else invoke _write_complete_callback c))
           _close_callback) c
  end.

Definition write_complete (fuel : nat) (c : conn) : result conn :=
  if shut_when_written (outside c) then shutdown_connection fuel c
  else invoke _write_complete_callback c.

(** [any_cast] of an empty context throws. *)
Definition _message_callback (fuel : nat) (t : TimePoint.t) (c : conn) : result conn :=
  let c := set_time_stamp t c in
  match context c with
  | None => Err Uncaught
  | Some parser =>
      let* (ok, parser, input_buffer) := parse parser (_input_buffer c) t in
      let c := with_context parser (with_input input_buffer c) in
      if negb ok then abort_from_event_loop (mkCallbacks None None _close_callback) c
      else if is_success parser then
        let* request := get_request parser in
        let* c := _http_request_callback request c in
        if _is_write_end_shutdown c then Ok c
        else if _need_close request then
          if is_writing c then Ok (register_shutdown c) else shutdown_connection fuel c
        else
          match context c with
          | Some parser => Ok (with_context (reset parser) c)
          | None => Err UndefinedBehaviour
          end
      else Ok c
  end.

(** The callbacks of a connection of the server. *)
Definition http_callbacks (fuel : nat) : callbacks conn :=
  mkCallbacks (Some (_message_callback fuel)) (Some (write_complete fuel)) _close_callback.
End Message.

(** * Removing inactive connections *)

(** [conn_abort] is [abort_from_event_loop], given the close callback as a function on
    the state of its owner. *)
Class TimedConnection (C : Type) := {
  conn_time_stamp : C -> TimePoint.t;
  conn_abort {S : Type} : (S -> result S) -> C -> S -> result (C * S)
}.

Class TimedConnectionLaws (C : Type) `{TimedConnection C} : Prop := {
  conn_abort_law {S : Type} (f : S -> result S) c s c' s' :
    conn_abort f c s = Ok (c', s') -> f s = Ok s'
}.

(** [posted]: the functors that check and abort, given to workers.  A functor has a
    copy of the two members and a reference to the entry of the table. *)
Record HttpServer (C : Type) := mkHttpServer {
  _tcp_server : TcpServer C;
  _current_time_point : TimePoint.t;
  _connection_timeout_interval : TimeInterval.t;
  posted : list (Z * TimePoint.t * TimeInterval.t)
}.
Arguments mkHttpServer {C} _ _ _ _.
Arguments _tcp_server {C} _.
Arguments _current_time_point {C} _.
Arguments _connection_timeout_interval {C} _.
Arguments posted {C} _.

(** The constructor, with what the clock says. *)
Definition new_HttpServer {C} (capacity queues : nat) (now : TimePoint.t) : HttpServer C :=
  mkHttpServer (new_TcpServer capacity queues) now (TimeInterval.mk (60 * TimeInterval.SECOND)) [].
Definition set_connection_timeout_interval {C} (i : TimeInterval.t) (h : HttpServer C) : HttpServer C :=
  mkHttpServer (_tcp_server h) (_current_time_point h) i (posted h).

Section Inactive.
Context {C : Type} `{ServerConnection C} `{TimedConnection C}.
(** The loop of a connection: [None] is the main loop. *)
Context (loop_of : Z -> option nat).

(** Whether [current_time_point - time_stamp > interval]. *)
Definition is_inactive (now : TimePoint.t) (interval : TimeInterval.t) (c : C) : result bool :=
  let* d := TimePoint.diff now (conn_time_stamp c) in Ok (TimeInterval.gt d interval).

Definition with_tcp_server (s : TcpServer C) (h : HttpServer C) : HttpServer C :=
  mkHttpServer s (_current_time_point h) (_connection_timeout_interval h) (posted h).
Definition post (id : Z) (h : HttpServer C) : HttpServer C :=
  mkHttpServer (_tcp_server h) (_current_time_point h) (_connection_timeout_interval h)
    (posted h ++ [(id, _current_time_point h, _connection_timeout_interval h)]).

(** [_check_and_abort_impl] of the connection, in the thread of its loop. *)
Definition check_and_abort (in_owner_thread : bool) (now : TimePoint.t) (interval : TimeInterval.t)
    (id : Z) (c : C) (h : HttpServer C) : result (HttpServer C) :=
  let* inactive := is_inactive now interval c in
  if negb inactive then Ok h
  else
    let* (c, s) := conn_abort (_close_callback in_owner_thread (get_loop_index (loop_of id)) id) c
                     (_tcp_server h) in
    Ok (with_tcp_server
          (match _tcp_connect_socketfds s !! id with
           | None => s
           | Some _ => with_table (<[id := c]> (_tcp_connect_socketfds s)) s
           end) h).

Definition _check_and_remove_inactive_connection (id : Z) (c : C) (h : HttpServer C)
    : result (HttpServer C) :=
  let* inactive := is_inactive (_current_time_point h) (_connection_timeout_interval h) c in
  if negb inactive then Ok h
  else match loop_of id with
       | None => check_and_abort true (_current_time_point h) (_connection_timeout_interval h) id c h
       | Some _ => Ok (post id h)
       end.

(** [run_for_each_connection], in the thread of the main loop: going on to the next
    element is undefined when the current one has been erased. *)
Fixpoint check_each (ids : list Z) (h : HttpServer C) : result (HttpServer C) :=
  match ids with
  | [] => Ok h
  | id :: ids =>
      match _tcp_connect_socketfds (_tcp_server h) !! id with
      | None => Err UndefinedBehaviour
      | Some c =>
          let* h := _check_and_remove_inactive_connection id c h in
          match _tcp_connect_socketfds (_tcp_server h) !! id with
          | None => Err UndefinedBehaviour
          | Some _ => check_each ids h
          end
      end
  end.

(** [now] is what the clock says. *)
Definition _remove_inactive_connections (now : TimePoint.t) (h : HttpServer C) : result (HttpServer C) :=
  check_each (ascending_ids (_tcp_connect_socketfds (_tcp_server h)))
    (mkHttpServer (_tcp_server h) now (_connection_timeout_interval h) (posted h)).

(** A worker runs the functor posted for a connection [c] that its copy of the
    shared pointer keeps alive; the time stamp is read through the entry. *)
Definition run_posted (functor : Z * TimePoint.t * TimeInterval.t) (c : C) (h : HttpServer C)
    : result (HttpServer C) :=
  let '(id, now, interval) := functor in
  match _tcp_connect_socketfds (_tcp_server h) !! id with
  | None => Err UndefinedBehaviour
  | Some _ => check_and_abort false now interval id c h
  end.
End Inactive.


(** * One message *)
Section MessageSpec.
Set Default Proof Using "Type*".
Context {K W : Type} `{Epoll K} `{!EpollLaws K} `{Socket K} `{!SocketLaws K} {strings : StringAllocator}.
Abbreviation conn := (TcpConnectSocketfd K HttpParser (http_outside W)).
Context (request_callback : HttpRequest -> conn -> result conn).
Context (write_complete_callback close_callback : option (conn -> result conn)).
Abbreviation message_callback := (_message_callback request_callback write_complete_callback close_callback).
Abbreviation shutdown := (shutdown_connection write_complete_callback close_callback).

(** A request as it arrives. *)
Record wire := mkWire {
  w_spaces : nat * nat * nat * nat;
  w_method : HttpMethodType;
  w_path : bytes;
  w_version : HttpVersionType;
  w_headers : list header_line;
  w_body : bytes
}.

Definition wire_ok (w : wire) : Prop :=
  is_Some (method_name (w_method w)) /\ is_Some (version_name (w_version w)) /\
  w_path w <> [] /\ (SP ∉ w_path w) /\ (CR ∉ w_path w) /\ Forall header_line_ok (w_headers w) /\
  body_announced (w_method w) (fields (w_headers w) ∅) (length (w_body w)).

Definition wire_bytes (w : wire) : bytes :=
  let '(n1, n2, n3, n4) := w_spaces w in
  render_request_line n1 (default [] (method_name (w_method w))) n2 (w_path w) n3
    (default [] (version_name (w_version w))) n4 ++ crlf ++
  render_headers (w_headers w) ++ crlf ++ w_body w.

Definition request_of (w : wire) (t : TimePoint.t) : HttpRequest :=
  complete_request (w_method w) (w_path w) (w_version w) (w_headers w) (w_body w) t.

(** The connection as the user's callback for requests finds it. *)
Definition given (t : TimePoint.t) (p : HttpParser) (b : TcpBuffer.t) (c : conn) : conn :=
  with_context p (with_input b (set_time_stamp t c)).

Lemma wire_parsed w rest t :
  wire_ok w ->
  exists p, parse new_HttpParser (wire_bytes w ++ rest) t = Ok (true, p, rest) /\
    get_request p = Ok (request_of w t).
Proof.
  intros ([m Hm] & [v Hv] & H1 & H2 & H3 & H4 & H5). unfold wire_bytes.
  destruct (w_spaces w) as [[[n1 n2] n3] n4]. rewrite Hm, Hv. cbn [default id]. rewrite <- !app_assoc.
  destruct (complete_request_parsed n1 _ m n2 _ n3 _ v n4 _ _ rest t Hm Hv H1 H2 H3 H4 H5) as (p & E & _ & Hp).
  by exists p.
Qed.

Lemma parse_wire w rest t b :
  wire_ok w -> TcpBuffer.wf b -> TcpBuffer.contents b = wire_bytes w ++ rest ->
  exists p b', parse new_HttpParser b t = Ok (true, p, b') /\ TcpBuffer.wf b' /\
    TcpBuffer.contents b' = rest /\ get_request p = Ok (request_of w t).
Proof.
  intros Hw Hb Hc. destruct (wire_parsed w rest t Hw) as (p & E & Hp).
  pose proof (parse_on_bytes new_HttpParser b t Hb ltac:(done)) as Hs. unfold same_outcome in Hs.
  assert (Hrb : readable b = TcpBuffer.contents b) by done. rewrite Hrb, Hc, E in Hs.
  destruct (parse new_HttpParser b t) as [[[r p'] b'] |]; [| done].
  destruct Hs as (-> & -> & Hb' & Hr). eauto 10.
Qed.

(** A strict prefix of a request leaves the parser waiting for the rest. *)
Lemma wire_prefix w got d t :
  wire_ok w -> got ++ d = wire_bytes w -> d <> [] ->
  exists p l, parse new_HttpParser got t = Ok (true, p, l) /\ finished p = false.
Proof.
  intros ([m Hm] & [v Hv] & H1 & H2 & H3 & H4 & H5). unfold wire_bytes.
  destruct (w_spaces w) as [[[n1 n2] n3] n4]. rewrite Hm, Hv. cbn [default id].
  intros Hgot Hd. exact (request_prefix_unfinished n1 _ m n2 _ n3 _ v n4 _ _ got d t Hm Hv H1 H2 H3 H4 H5 Hgot Hd).
Qed.

(** What remains to be done with a request. *)
Definition after_request (fuel : nat) (request : HttpRequest) (c : conn) : result conn :=
  if _is_write_end_shutdown c then Ok c
  else if _need_close request then
    if is_writing c then Ok (register_shutdown c) else shutdown fuel c
  else match context c with
       | Some parser => Ok (with_context (reset parser) c)
       | None => Err UndefinedBehaviour
       end.

(** A message that completes a request, whatever part of it the parser has seen. *)
Lemma message_completed fuel request p0 p b rest t (c : conn) :
  context c = Some p0 -> parse p0 (_input_buffer c) t = Ok (true, p, b) ->
  TcpBuffer.contents b = rest -> TcpBuffer.wf b -> get_request p = Ok request ->
  exists p b, _parsing_state p = SUCCESS /\ TcpBuffer.wf b /\ TcpBuffer.contents b = rest /\
    message_callback fuel t c
    = (let* c' := request_callback request (given t p b c) in after_request fuel request c') /\
    (_need_close request = false -> reset p = new_HttpParser).
Proof.
  intros Hctx E Hrest Hwf Hp. exists p, b. unfold get_request, is_success in Hp.
  destruct (bool_decide_reflect (_parsing_state p = SUCCESS)) as [Hs | Hs]; [| done].
  injection Hp as Hp. split; [done |]. split; [done |]. split; [done |]. split.
  - unfold _message_callback. cbn [context set_time_stamp with_outside]. rewrite Hctx.
    change (_input_buffer (set_time_stamp t c)) with (_input_buffer c). rewrite E. cbn [negb].
    unfold is_success, get_request, is_success. rewrite bool_decide_eq_true_2, Hp by done. done.
  - unfold reset, reset_request. rewrite Hp. by intros ->.
Qed.

Lemma message_parsed fuel w rest t (c : conn) :
  wire_ok w -> context c = Some new_HttpParser -> TcpBuffer.wf (_input_buffer c) ->
  TcpBuffer.contents (_input_buffer c) = wire_bytes w ++ rest ->
  exists p b, _parsing_state p = SUCCESS /\ TcpBuffer.wf b /\ TcpBuffer.contents b = rest /\
    message_callback fuel t c
    = (let* c' := request_callback (request_of w t) (given t p b c) in
       after_request fuel (request_of w t) c') /\
    (_need_close (request_of w t) = false -> reset p = new_HttpParser).
Proof.
  intros Hw Hctx Hb Hc.
  destruct (parse_wire w rest t _ Hw Hb Hc) as (p & b & E & Hwf & Hrest & Hp).
  by eapply message_completed.
Qed.

(** A message whose bytes begin with a complete request: the user's callback gets
    exactly that request, once.  What follows the request, though it may hold
    further requests, stays in the input buffer and is not looked at. *)
Theorem message_one_request fuel w rest t (c : conn)
    (Hw : wire_ok w) (Hctx : context c = Some new_HttpParser)
    (Hb : TcpBuffer.wf (_input_buffer c))
    (Hc : TcpBuffer.contents (_input_buffer c) = wire_bytes w ++ rest) :
  exists p b, _parsing_state p = SUCCESS /\ TcpBuffer.wf b /\ TcpBuffer.contents b = rest /\
    message_callback fuel t c
    = (let* c' := request_callback (request_of w t) (given t p b c) in
       after_request fuel (request_of w t) c') /\
    (_need_close (request_of w t) = false -> reset p = new_HttpParser).
Proof. by apply message_parsed. Qed.

(** ** After a request to close *)

(** The documented result of [shutdown(SHUT_WR)] on a connected socket, also when its
    write end is shut down already. *)
Hypothesis shutdown_succeeds : forall k fd, exists k', sys_shutdown_write k fd = (ShutdownDone, k').

(** The first steps of [shutdown_write]: up to the write-complete callback. *)
Lemma shutdown_write_unfold (cb : callbacks conn) (c : conn) :
  attached_ok c -> _is_write_end_shutdown c = false ->
  exists d k, attached_ok (with_descriptor d (with_kernel k c)) /\ 
    shutdown_write cb c
    = let* c := invoke (TcpConnectSocketfd._write_complete_callback cb)
                  (with_descriptor d (with_kernel k c)) in
      let c := with_output (TcpBuffer.release (_output_buffer c)) c in
      let c := clear_context c in
      Ok (with_marks true (_is_reset c) (_is_abotrted c) c).
Proof.
  intros Ha Hs. destruct (shutdown_succeeds (kernel_of c) (fd_of c)) as [k E].
  destruct (shutdown_law _ _ _ _ E) as [Hk _].
  destruct (descriptor_command DisableWrite _ (attached_with_kernel k c Hk Ha)) as (d & p & Ed & Ha' & _).
  change (run_command DisableWrite) with (disable_write_event (K := K)) in Ed.
  exists (d, p), k. split; [done |].
  unfold shutdown_write. rewrite Hs, E. unfold finish_shutdown. by rewrite Ed.
Qed.

(** Once the write-complete callback is the one that shuts the write end down, it runs
    from within [shutdown_write] before the mark is set, and never returns. *)
Lemma shutdown_recurses fuel (c : conn) :
  attached_ok c -> _is_write_end_shutdown c = false -> shut_when_written (outside c) = true ->
  shutdown fuel c = Err OutOfFuel.
Proof.
  revert c. induction fuel as [| fuel IH]; intros c Ha Hs Hw; [done |]. cbn [shutdown_connection].
  destruct (shutdown_write_unfold
              (mkCallbacks None (Some (fun c => if shut_when_written (outside c) then shutdown fuel c
                                                else invoke write_complete_callback c)) close_callback)
              c Ha Hs) as (d & k & Ha' & ->).
  cbn [invoke TcpConnectSocketfd._write_complete_callback].
  change (outside (with_descriptor d (with_kernel k c))) with (outside c). rewrite Hw.
  by rewrite IH.
Qed.

(** What the user's callback leaves when it answers a request: the context, a
    connection in its loop, and possibly bytes still to be written. *)
Definition answers (pending : bool) (w : wire) (t : TimePoint.t) (c : conn) : Prop :=
  forall p b, exists c1, request_callback (request_of w t) (given t p b c) = Ok c1 /\
    context c1 = Some p /\ attached_ok c1 /\ _is_write_end_shutdown c1 = false /\
    is_writing c1 = pending /\ shut_when_written (outside c1) = false.

(** After a request with [Connection: close] any further byte from the client ends the
    process: with the answer still being written the parser is asked to go on after
    its success, and afterwards the context is empty. *)
Theorem data_after_close_request_is_fatal pending fuel fuel' w rest t t' (c : conn)
    (Hw : wire_ok w) (Hctx : context c = Some new_HttpParser)
    (Hb : TcpBuffer.wf (_input_buffer c))
    (Hc : TcpBuffer.contents (_input_buffer c) = wire_bytes w ++ rest)
    (Hclose : _need_close (request_of w t) = true)
    (Hans : answers pending w t c) (Hwc : passive write_complete_callback) :
  exists c2, message_callback (S fuel) t c = Ok c2 /\
    forall c3, context c3 = context c2 ->
      message_callback fuel' t' c3 = Err (if pending then Fatal else Uncaught).
Proof.
  destruct (parse_wire w rest t _ Hw Hb Hc) as (p & b & E & _ & _ & Hp).
  unfold get_request, is_success in Hp.
  destruct (bool_decide_reflect (_parsing_state p = SUCCESS)) as [Hs | Hs]; [| done].
  injection Hp as Hp. destruct (Hans p b) as (c1 & E1 & Hctx1 & Ha & Hsd & Hwr & Hsw).
  assert (Em : message_callback (S fuel) t c
               = if pending then Ok (register_shutdown c1) else shutdown (S fuel) c1).
  { unfold _message_callback. cbn [context set_time_stamp with_outside]. rewrite Hctx.
    change (_input_buffer (set_time_stamp t c)) with (_input_buffer c). rewrite E. cbn [negb].
    unfold is_success, get_request, is_success. rewrite bool_decide_eq_true_2, Hp by done.
    fold (given t p b c). rewrite E1, Hsd, Hclose, Hwr. by destruct pending. }
  rewrite Em. destruct pending.
  - eexists. split; [done |]. intros c3 Hc3. unfold _message_callback.
    change (context (set_time_stamp t' c3)) with (context c3). rewrite Hc3.
    change (context (register_shutdown c1)) with (context c1). rewrite Hctx1.
    unfold parse, parse_rest. by rewrite !Hs.
  - cbn [shutdown_connection].
    destruct (shutdown_write_unfold
                (mkCallbacks None (Some (fun c => if shut_when_written (outside c) then shutdown fuel c
                                                  else invoke write_complete_callback c)) close_callback)
                c1 Ha Hsd) as (d & k & _ & ->).
    cbn [invoke TcpConnectSocketfd._write_complete_callback].
    change (outside (with_descriptor d (with_kernel k c1))) with (outside c1). rewrite Hsw.
    destruct (invoke_passive _ (with_descriptor d (with_kernel k c1)) Hwc) as [u ->].
    eexists. split; [done |]. intros c3 Hc3. unfold _message_callback.
    change (context (set_time_stamp t' c3)) with (context c3). by rewrite Hc3.
Qed.
Lemma send_loop_close (cb cb' : callbacks conn) fuel data total (c : conn) :
  TcpConnectSocketfd._close_callback cb = TcpConnectSocketfd._close_callback cb' ->
  send_loop cb fuel data total c = send_loop cb' fuel data total c.
Proof.
  intros Hcb. assert (Habort : forall c, abort_from_event_loop cb c = abort_from_event_loop cb' c).
  { intros c0. unfold abort_from_event_loop, reset_connection. by rewrite Hcb. }
  revert total c. induction fuel as [| fuel IH]; intros total c; simpl; [done |].
  case_match; [done |]. destruct (sys_send _ _ _) as [[] k]; auto. by rewrite Habort.
Qed.

Lemma flush_close (cb cb' : callbacks conn) (c : conn) :
  TcpConnectSocketfd._close_callback cb = TcpConnectSocketfd._close_callback cb' ->
  flush_output cb c = flush_output cb' c.
Proof.
  intros Hcb. unfold flush_output, _send_as_many_data. by rewrite (send_loop_close cb cb').
Qed.

Hypothesis close_passive : passive close_callback.

(** A response to a request with [Connection: close] that does not fit the send
    buffer: when the kernel has taken the last of it, the write event never returns
    (the recursion overflows the stack), whatever the fuel. *)
Theorem closing_write_never_returns fuel (c c1 : conn)
    (Hl : live c) (Hsw : shut_when_written (outside c) = true)
    (Hflush : flush_output (mkCallbacks None None close_callback) c = Ok (true, c1))
    (Hrun : is_stopped c1 = false) :
  _write_event_callback (http_callbacks request_callback write_complete_callback close_callback fuel) c
  = Err OutOfFuel.
Proof.
  unfold _write_event_callback. rewrite (live_running _ Hl).
  destruct (live_marks3 _ Hl) as (Hs & Hr & Hb). rewrite Hs.
  rewrite (flush_close _ (mkCallbacks None None close_callback)), Hflush by done.
  pose proof (flush_spec (mkCallbacks None None close_callback) close_passive ltac:(done) c Hl) as Hcase.
  rewrite Hflush in Hcase. destruct Hcase as [(k & o & -> & Hk & _) | (_ & Hab & _)].
  2: { pose proof (ab_flags _ Hab) as Hf. unfold flags in Hf. injection Hf as _ _ Hf.
       unfold is_stopped in Hrun. congruence. }
  assert (Ha : attached_ok (with_output o (with_kernel k c))).
  { change (attached_ok (with_kernel k c)). by apply attached_with_kernel, Hl. }
  destruct (descriptor_command DisableWrite _ Ha) as (d & p & E & Ha2 & _).
  change (run_command DisableWrite) with (disable_write_event (K := K)) in E. rewrite E.
  cbn [negb invoke TcpConnectSocketfd._write_complete_callback http_callbacks]. unfold write_complete.
  change (outside (with_descriptor (d, p) (with_output o (with_kernel k c)))) with (outside c).
  rewrite Hsw. by rewrite shutdown_recurses.
Qed.

End MessageSpec.

(** * One pass over the connections *)
Section InactiveSpec.
Set Default Proof Using "Type*".
Context {C : Type} `{ServerConnection C} `{TimedConnection C} `{!TimedConnectionLaws C}.
Context (loop_of : Z -> option nat).

(** A time point since the epoch: two of them never differ by more than an interval
    can hold. *)
Definition after_epoch (t : TimePoint.t) : Prop :=
  (0 <= TimePoint.nanoseconds_from_epoch t <= int64_max)%Z.

(** The reference: a connection has been silent for longer than the interval. *)
Definition silent (now : TimePoint.t) (interval : TimeInterval.t) (c : C) : bool :=
  (TimeInterval.nanoseconds interval <?
   TimePoint.nanoseconds_from_epoch now - TimePoint.nanoseconds_from_epoch (conn_time_stamp c))%Z.

Lemma is_inactive_ok now interval (c : C) :
  after_epoch now -> after_epoch (conn_time_stamp c) ->
  is_inactive now interval c = Ok (silent now interval c).
Proof.
  unfold after_epoch, is_inactive, TimePoint.diff, int64_max. intros H1 H2.
  rewrite i64_ok; [done |]. unfold int64_min, int64_max. lia.
Qed.

Definition silent_id (now : TimePoint.t) (interval : TimeInterval.t) (m : gmap Z C) (id : Z) : bool :=
  default false (silent now interval <$> m !! id).

(** Aborting a connection of the table succeeds when its close callback does. *)
Definition aborts (m : gmap Z C) : Prop :=
  forall id c (f : TcpServer C -> result (TcpServer C)) s1 s2,
    m !! id = Some c -> f s1 = Ok s2 -> exists r, conn_abort f c s1 = Ok r.

Definition all_posted (ids : list Z) (h : HttpServer C) : HttpServer C :=
  mkHttpServer (_tcp_server h) (_current_time_point h) (_connection_timeout_interval h)
    (posted h ++ ((fun id => (id, _current_time_point h, _connection_timeout_interval h)) <$> ids)).

Lemma all_posted_nil h : all_posted [] h = h.
Proof. destruct h. unfold all_posted. simpl. by rewrite app_nil_r. Qed.

Lemma all_posted_cons id ids h : all_posted (id :: ids) h = all_posted ids (post id h).
Proof. unfold all_posted, post. simpl. by rewrite <- app_assoc. Qed.

Lemma main_abort_erases id c now interval (h : HttpServer C) :
  aborts (_tcp_connect_socketfds (_tcp_server h)) ->
  _tcp_connect_socketfds (_tcp_server h) !! id = Some c ->
  is_inactive now interval c = Ok true ->
  exists h', check_and_abort loop_of true now interval id c h = Ok h' /\
    _tcp_connect_socketfds (_tcp_server h') !! id = None.
Proof.
  intros Hab Hc Hin. unfold check_and_abort. rewrite Hin. cbn [negb].
  pose proof (close_functor_ok id (_tcp_server h) ltac:(apply elem_of_dom; eauto)) as Hclose.
  destruct (Hab id c (_close_callback true (get_loop_index (loop_of id)) id) _ _ Hc Hclose) as [[c' s'] Hr].
  rewrite Hr. apply conn_abort_law in Hr. cbn [_close_callback] in Hr. rewrite Hclose in Hr.
  injection Hr as <-. cbn [_tcp_connect_socketfds with_table]. rewrite lookup_delete_eq.
  eexists. split; [done |]. apply lookup_delete_eq.
Qed.

Definition in_main (id : Z) : bool := bool_decide (loop_of id = None).

Lemma check_each_spec ids (h : HttpServer C) :
  let m := _tcp_connect_socketfds (_tcp_server h) in
  let old := List.filter (silent_id (_current_time_point h) (_connection_timeout_interval h) m) ids in
  aborts m -> after_epoch (_current_time_point h) ->
  (forall id c, m !! id = Some c -> after_epoch (conn_time_stamp c)) ->
  (forall id, id ∈ ids -> is_Some (m !! id)) ->
  check_each loop_of ids h
  = if existsb in_main old then Err UndefinedBehaviour else Ok (all_posted old h).
Proof.
  revert h. induction ids as [| id ids IH]; intros h m old Hab Hnow Hst Hids.
  { cbn. by rewrite all_posted_nil. }
  destruct (Hids id ltac:(by left)) as [c Hc].
  subst old. cbn [check_each List.filter]. fold m. rewrite Hc.
  assert (Eo : silent_id (_current_time_point h) (_connection_timeout_interval h) m id
               = silent (_current_time_point h) (_connection_timeout_interval h) c).
  { unfold silent_id. by rewrite Hc. }
  rewrite Eo. clear Eo. unfold _check_and_remove_inactive_connection.
  rewrite is_inactive_ok by eauto.
  destruct (silent _ _ c) eqn:Es; cbn [negb].
  - cbn [existsb]. unfold in_main at 1. destruct (loop_of id) as [i |] eqn:El.
    + rewrite bool_decide_eq_false_2 by done. cbn [orb].
      change (_tcp_connect_socketfds (_tcp_server (post id h))) with m. rewrite Hc.
      rewrite (IH (post id h)); try done; [| by intros; apply Hids; right].
      by rewrite all_posted_cons.
    + rewrite bool_decide_eq_true_2 by done. cbn [orb].
      destruct (main_abort_erases id c (_current_time_point h) (_connection_timeout_interval h) h)
        as (h' & -> & Hh'); [done | done | | by simpl; rewrite Hh'].
      rewrite is_inactive_ok by eauto. by rewrite Es.
  - simpl. fold m. rewrite Hc. apply IH; try done. by intros; apply Hids; right.
Qed.

(** C28: One pass of the timer for inactive connections, over any table: for exactly the
    connections that have been silent for longer than the interval, in the order of
    their ids, a functor is posted to their worker, and the table is left as it is.
    But if one of them belongs to the main loop itself (a server without workers),
    aborting it erases its entry under the loop over the table: undefined behaviour. *)
Theorem remove_inactive_spec now (h : HttpServer C)
    (Hab : aborts (_tcp_connect_socketfds (_tcp_server h))) (Hnow : after_epoch now)
    (Hst : forall id c, _tcp_connect_socketfds (_tcp_server h) !! id = Some c ->
                        after_epoch (conn_time_stamp c)) :
  let m := _tcp_connect_socketfds (_tcp_server h) in
  let old := List.filter (silent_id now (_connection_timeout_interval h) m) (ascending_ids m) in
  _remove_inactive_connections loop_of now h
  = if existsb in_main old then Err UndefinedBehaviour
    else Ok (mkHttpServer (_tcp_server h) now (_connection_timeout_interval h)
               (posted h ++ ((fun id => (id, now, _connection_timeout_interval h)) <$> old))).
Proof.
  intros m old. unfold _remove_inactive_connections. rewrite check_each_spec; try done.
  intros id Hid. apply elem_of_dom, elem_of_elements. unfold ascending_ids in Hid.
  by rewrite merge_sort_Permutation in Hid.
Qed.

(** A worker's second look at a connection: one that spoke in the meantime is left
    alone, one still silent is aborted and its close functor posted to the queue of
    the worker.  But when the connection was closed and erased in between, the time
    stamp is read through an entry of the table that is gone. *)
Theorem posted_check_spec id now interval i (c : C) (h : HttpServer C)
    (Hab : aborts (_tcp_connect_socketfds (_tcp_server h)))
    (Hnow : after_epoch now) (Hst : after_epoch (conn_time_stamp c))
    (Hc : forall c', _tcp_connect_socketfds (_tcp_server h) !! id = Some c' -> c' = c)
    (Hi : loop_of id = Some i) (Hq : i < number_of_queues (_tcp_server h)) :
  match _tcp_connect_socketfds (_tcp_server h) !! id with
  | None => run_posted loop_of (id, now, interval) c h = Err UndefinedBehaviour
  | Some _ =>
      exists h', run_posted loop_of (id, now, interval) c h = Ok h' /\ posted h' = posted h /\
        dom (_tcp_connect_socketfds (_tcp_server h')) = dom (_tcp_connect_socketfds (_tcp_server h)) /\
        if silent now interval c
        then queued (_tcp_server h') = <[i := queued (_tcp_server h) i ++ [id]]> (queued (_tcp_server h))
        else h' = h
  end.
Proof.
  unfold run_posted. destruct (_tcp_connect_socketfds _ !! id) as [c' |] eqn:E; [| done].
  rewrite (Hc c' eq_refl) in *. unfold check_and_abort. rewrite is_inactive_ok by done.
  destruct (silent now interval c) eqn:Es; cbn [negb]; [| by eauto].
  rewrite Hi. change (get_loop_index (Some i)) with i.
  assert (Hcl : _close_callback false i id (_tcp_server h)
                = Ok (with_queue i (queued (_tcp_server h) i ++ [id]) (_tcp_server h))).
  { unfold _close_callback. apply Nat.ltb_lt in Hq. by rewrite Hq. }
  destruct (Hab id c (_close_callback false i id) _ _ E Hcl) as [[c2 s2] Hr].
  rewrite Hr. apply conn_abort_law in Hr. rewrite Hcl in Hr. injection Hr as <-.
  cbn [_tcp_connect_socketfds with_queue]. rewrite E. eexists. split; [done |]. split; [done |].
  split; [| done]. cbn. apply dom_insert_lookup_L. eauto.
Qed.
End InactiveSpec.

(** * The connections of the HTTP server *)
Section HttpConnection.
Context {K W : Type} `{Epoll K} `{Socket K} {strings : StringAllocator}.
Context (make_loop : nat -> EventPoller K) (created : TimePoint.t) (user_state : W).
Abbreviation conn := (TcpConnectSocketfd K HttpParser (http_outside W)).
Context (cb : callbacks conn).

(** [abort_from_event_loop] and [reset_connection], with a close callback on the state
    of the owner. *)
Definition owned {S} (f : callbacks (TcpConnectSocketfd K HttpParser S) ->
                          TcpConnectSocketfd K HttpParser S -> result (TcpConnectSocketfd K HttpParser S))
    (close : S -> result S) (c : conn) (s : S) : result (conn * S) :=
  let* c' := f (owner_callback close) (set_outside s c) in
  Ok (set_outside (outside c) c', outside c').

#[export] Instance http_server_connection : ServerConnection conn := {
  conn_new fd loop id := new_TcpConnectSocketfd id fd (make_loop loop) (mkHttpOutside created false user_state);
  conn_start := TcpConnectSocketfd.start cb;
  conn_reset S := owned reset_connection
}.

#[export] Instance http_timed_connection : TimedConnection conn := {
  conn_time_stamp := get_time_stamp;
  conn_abort S := owned abort_from_event_loop
}.

Lemma owned_reset_runs {S} (f : S -> result S) c s c' s' :
  owned reset_connection f c s = Ok (c', s') -> f s = Ok s'.
Proof using Type.
  unfold owned, reset_connection. simpl. destruct (_is_reset c); [done |].
  destruct (f s) as [s1 |]; [| done]. simpl. destruct (set_linger _ _); [| done].
  unfold descriptor. destruct (close_fd _); [| done]. simpl. by intros [= _ <-].
Qed.

#[export] Instance http_server_connection_laws : ServerConnectionLaws conn.
Proof using Type.
  split; intros S f c s; simpl.
  - intros c' s'. apply owned_reset_runs.
  - intros e E. unfold owned, reset_connection. simpl. destruct (_is_reset c); [by right |].
    rewrite E. by left.
Qed.

#[export] Instance http_timed_connection_laws : TimedConnectionLaws conn.
Proof using Type.
  split. intros S f c s c' s'. simpl. unfold owned, abort_from_event_loop. simpl.
  destruct (_is_abotrted c); [done |]. unfold descriptor. destruct (detach_from_poller _) as [d |]; [| done].
  pose proof (owned_reset_runs f (with_descriptor d c) s) as Hr. unfold owned in Hr.
  change (set_outside s (with_descriptor d c)) with (with_descriptor d (set_outside s c)) in Hr.
  destruct (reset_connection (owner_callback f) (with_descriptor d (set_outside s c))) as [c2 |]; [| done].
  simpl. intros [= _ <-]. by eapply Hr.
Qed.

(** Aborting a connection that is in its loop fails only when the close callback does. *)
Lemma live_aborts `{!EpollLaws K} `{!SocketLaws K} {S} (f : S -> result S) (c : conn) s s' :
  live c -> f s = Ok s' -> exists r, owned abort_from_event_loop f c s = Ok r.
Proof using Type.
  intros Hl Hf. destruct (live_marks3 _ Hl) as (_ & Hr & Hb).
  destruct (abort_spec (mkCallbacks None None None) ltac:(done) c) as (c' & E & _);
    [apply Hl | done | done | apply Hl | left; apply Hl |].
  revert E. unfold owned, abort_from_event_loop, reset_connection.
  change (_is_abotrted (set_outside s c)) with (_is_abotrted c). rewrite Hb. unfold descriptor.
  change (_pollable_file_descriptor (set_outside s c), _loop (set_outside s c))
    with (_pollable_file_descriptor c, _loop c).
  destruct (detach_from_poller (_pollable_file_descriptor c, _loop c)) as [[d p] |]; [| done].
  cbn [_is_reset with_descriptor set_outside]. rewrite Hr.
  cbn [invoke TcpConnectSocketfd._close_callback owner_callback outside set_outside with_descriptor].
  rewrite Hf. unfold kernel_of, fd_of. cbn [_loop _pollable_file_descriptor with_descriptor with_outside fst snd].
  destruct (set_linger (kernel p) (_fd d)) as [k |]; [| done].
  cbn [_loop _pollable_file_descriptor with_descriptor with_outside with_kernel fst snd].
  destruct (close_fd _) as [d2 |]; [| done]. eauto.
Qed.
End HttpConnection.

(** * A connection on a concrete kernel *)

(** The kernel of the TCP connections, where [shutdown] always succeeds. *)
#[local] Existing Instance std_strings.

#[local] Instance steady_calls : Socket sample_socket := {
  send_patience := 2;
  sys_recv := sys_recv (Socket := sample_socket_calls);
  sys_send := sys_send (Socket := sample_socket_calls);
  sys_shutdown_write s fd := (ShutdownDone, s);
  set_linger := set_linger (Socket := sample_socket_calls);
  get_socketfd_errno := get_socketfd_errno (Socket := sample_socket_calls);
  accepted := accepted (Socket := sample_socket_calls)
}.
#[local] Instance steady_laws : SocketLaws sample_socket.
Proof.
  destruct sample_socket_laws. split; try done.
  intros k fd r k' E. injection E as _ <-. by split.
Qed.

Abbreviation sample_http_conn := (TcpConnectSocketfd sample_socket HttpParser (http_outside nat)).

(** A connection on descriptor [5] in the loop after [cmds], with [input] received and
    [out] pending. *)
Definition sample_in_loop (cmds : list fd_command) (input : bytes) (out : TcpBuffer.t)
    (shut : bool) : result sample_http_conn :=
  let* s := run_commands cmds (sample_fd, new_EventPoller (sample_socket_state 9 [] false ShutdownDone) 16) in
  Ok (mkConn s.1 s.2 (TcpBuffer.mk input 200 1 (Some 1) 0 (length input)) out (Some new_HttpParser)
        false false false (mkHttpOutside (TimePoint.mk 0) shut 0)).

Lemma sample_in_loop_live cmds input out shut :
  TcpBuffer.wf out -> length input <= 200 ->
  exists c, sample_in_loop cmds input out shut = Ok c /\ attached_ok c /\
    _input_buffer c = TcpBuffer.mk input 200 1 (Some 1) 0 (length input) /\
    (is_stopped c = false -> (is_writing c = false -> TcpBuffer.contents out = []) -> live c).
Proof.
  intros Hout Hlen. set (k := sample_socket_state 9 [] false ShutdownDone).
  assert (Hm : mirror (sample_fd, new_EventPoller k 16) /\ poller_ok (new_EventPoller k 16)).
  { destruct sample_mirror as [(Hu & H1 & H2 & H3 & H4) [H5 H6]].
    split; [| by split]. split; [exact Hu |]. split; [by right |]. by split. }
  destruct Hm as [Hm Hp].
  destruct (run_commands_good cmds _ _ Hm Hp) as ([d p] & E & Hm' & Hp' & _).
  unfold sample_in_loop. fold k. rewrite E. eexists. split; [done |]. split; [done |].
  split; [done |]. intros Hs Hw. split; try done. left. split; simpl; try done; lia.
Qed.

(** What arrives: a request, a second one, and the beginning of a third. *)
Definition sample_wire : wire :=
  mkWire (0, 1, 0, 0) POST (str "/form") HTTP_1_1 sample_headers (str "a=b&c").
Definition sample_get : wire := mkWire (0, 0, 0, 0) GET (str "/") HTTP_1_1 [] [].

Lemma sample_wire_ok : wire_ok sample_wire.
Proof.
  repeat split; try (eexists; reflexivity); try done; try (vm_compute; set_solver).
  exact sample_headers_ok.
Qed.

Lemma sample_get_ok : wire_ok sample_get.
Proof.
  repeat split; try (eexists; reflexivity); try done; try (vm_compute; set_solver).
Qed.


Definition sample_received : bytes := wire_bytes sample_wire ++ wire_bytes sample_get.

(** The user's callback counts the requests. *)
Definition count_request (r : HttpRequest) (c : sample_http_conn) : result sample_http_conn :=
  Ok (with_outside (mkHttpOutside (time_stamp (outside c)) (shut_when_written (outside c))
                      (S (user (outside c)))) c).

(** Two requests in one message: one is answered, the other one waits. *)
Lemma message_one_request_witness :
  exists c p b, sample_in_loop [EnableRead] sample_received (TcpBuffer.new 0) false = Ok c /\
    _parsing_state p = SUCCESS /\ TcpBuffer.contents b = wire_bytes sample_get /\
    _message_callback count_request None None 1 (TimePoint.mk 9) c
    = (let* c' := count_request (request_of sample_wire (TimePoint.mk 9)) (given (TimePoint.mk 9) p b c) in
       after_request None None 1 (request_of sample_wire (TimePoint.mk 9)) c').
Proof.
  destruct (sample_in_loop_live [EnableRead] sample_received (TcpBuffer.new 0) false
              (TcpBuffer.new_wf 0) ltac:(vm_compute; lia)) as (c & E & _ & Hb & _).
  destruct (message_one_request count_request None None 1 sample_wire (wire_bytes sample_get)
              (TimePoint.mk 9) c sample_wire_ok) as (p & b & H1 & _ & H2 & H3 & _).
  - vm_compute in E. by injection E as <-.
  - rewrite Hb. split; simpl; try done; lia.
  - rewrite Hb. reflexivity.
  - by exists c, p, b.
Defined.

(** The last byte of an answer is taken by the kernel. *)
Definition sample_last : TcpBuffer.t := TcpBuffer.mk (str "ok") 15 0 (Some 0) 1 2.

Lemma closing_write_never_returns_witness :
  exists c, sample_in_loop [EnableRead; EnableWrite] [] sample_last true = Ok c /\
    _write_event_callback (http_callbacks count_request None None 1000) c = Err OutOfFuel.
Proof.
  destruct (sample_in_loop_live [EnableRead; EnableWrite] [] sample_last true
              ltac:(split; simpl; try done; lia) ltac:(simpl; lia)) as (c & E & _ & _ & Hl).
  exists c. split; [exact E |].
  assert (Hc : is_stopped c = false /\ is_writing c = true /\ shut_when_written (outside c) = true /\
               match flush_output (mkCallbacks None None None) c with
               | Ok (b, c1) => b = true /\ is_stopped c1 = false
               | Err _ => False
               end).
  { clear Hl. vm_compute in E. injection E as <-. vm_compute. by repeat split. }
  destruct Hc as (H1 & H2 & H3 & H4).
  destruct (flush_output (mkCallbacks None None None) c) as [[b c1] |] eqn:Ef; [| contradiction].
  destruct H4 as [-> H4].
  apply (closing_write_never_returns count_request None None
           ltac:(intros k fd; by exists k) ltac:(done) 1000 c c1
           (Hl H1 ltac:(congruence)) H3 Ef H4).
Defined.

(** The answer fits the send buffer: nothing is pending when the write end is shut
    down. *)
Lemma data_after_close_request_is_fatal_witness :
  exists c c2, sample_in_loop [EnableRead] sample_received (TcpBuffer.new 0) false = Ok c /\
    _message_callback count_request None None 2 (TimePoint.mk 9) c = Ok c2 /\
    _message_callback count_request None None 2 (TimePoint.mk 10) c2 = Err Uncaught.
Proof.
  destruct (sample_in_loop_live [EnableRead] sample_received (TcpBuffer.new 0) false
              (TcpBuffer.new_wf 0) ltac:(vm_compute; lia)) as (c & E & Ha & Hb & _).
  destruct (data_after_close_request_is_fatal count_request None None
              ltac:(intros k fd; by exists k) false 1 2 sample_wire
              (wire_bytes sample_get) (TimePoint.mk 9) (TimePoint.mk 10) c sample_wire_ok)
    as (c2 & E2 & Hc).
  - vm_compute in E. by injection E as <-.
  - rewrite Hb. split; simpl; try done; lia.
  - rewrite Hb. reflexivity.
  - reflexivity.
  - intros p b. eexists. split; [reflexivity |]. split; [reflexivity |]. split; [exact Ha |].
    vm_compute in E. by injection E as <-.
  - done.
  - exists c, c2. split; [exact E |]. split; [exact E2 |]. by apply (Hc c2).
Defined.

(** A server with two workers and one connection, number 4, on the second worker. *)
#[local] Instance sample_http_server : ServerConnection sample_http_conn :=
  http_server_connection sample_loop (TimePoint.mk 0) 0 (http_callbacks count_request None None 1).

Definition sample_workers (id : Z) : option nat := Some 1.

Definition sample_busy (c : sample_http_conn) : HttpServer sample_http_conn :=
  mkHttpServer (with_table {[4%Z := c]} (new_TcpServer 2 2)) (TimePoint.mk 0) (TimeInterval.mk 5) [].

Lemma sample_aborts : exists c, sample_in_loop [EnableRead] [] (TcpBuffer.new 0) false = Ok c /\
  aborts {[4%Z := c]} /\ after_epoch (conn_time_stamp c).
Proof.
  destruct (sample_in_loop_live [EnableRead] [] (TcpBuffer.new 0) false
              (TcpBuffer.new_wf 0) ltac:(simpl; lia)) as (c & E & _ & _ & Hl).
  exists c. split; [exact E |].
  assert (Hc : is_stopped c = false /\ TimePoint.nanoseconds_from_epoch (conn_time_stamp c) = 0%Z).
  { clear Hl. vm_compute in E. by injection E as <-. }
  destruct Hc as [Hs Ht]. split; [| unfold after_epoch; rewrite Ht; by vm_compute].
  intros id c' f s1 s2 [_ <-]%lookup_singleton_Some Hf. by eapply live_aborts, Hf; apply Hl.
Qed.

Lemma remove_inactive_spec_witness :
  exists c, sample_in_loop [EnableRead] [] (TcpBuffer.new 0) false = Ok c /\
    posted <$> _remove_inactive_connections sample_workers (TimePoint.mk 6) (sample_busy c)
    = Ok [(4%Z, TimePoint.mk 6, TimeInterval.mk 5)] /\
    _remove_inactive_connections (fun _ => None) (TimePoint.mk 6) (sample_busy c) = Err UndefinedBehaviour /\
    posted <$> _remove_inactive_connections (fun _ => None) (TimePoint.mk 5) (sample_busy c) = Ok [].
Proof.
  destruct sample_aborts as (c & E & Hab & Ht). exists c. split; [exact E |].
  assert (Hst : forall id c', ({[4%Z := c]} : gmap Z sample_http_conn) !! id = Some c' ->
                              after_epoch (conn_time_stamp c')).
  { by intros id c' [_ <-]%lookup_singleton_Some. }
  pose proof (remove_inactive_spec sample_workers (TimePoint.mk 6) (sample_busy c) Hab
                ltac:(split; vm_compute; discriminate) Hst) as H1.
  pose proof (remove_inactive_spec (fun _ => None) (TimePoint.mk 6) (sample_busy c) Hab
                ltac:(split; vm_compute; discriminate) Hst) as H2.
  pose proof (remove_inactive_spec (fun _ => None) (TimePoint.mk 5) (sample_busy c) Hab
                ltac:(split; vm_compute; discriminate) Hst) as H3.
  cbn zeta in H1, H2, H3. rewrite H1, H2, H3. clear - E.
  vm_compute in E. injection E as <-. vm_compute. by repeat split.
Defined.

Lemma posted_check_spec_witness :
  exists c, sample_in_loop [EnableRead] [] (TcpBuffer.new 0) false = Ok c /\
    exists h, run_posted sample_workers (4%Z, TimePoint.mk 6, TimeInterval.mk 5) c (sample_busy c) = Ok h /\
      queued (_tcp_server h) 1 = [4%Z].
Proof.
  destruct sample_aborts as (c & E & Hab & Ht). exists c. split; [exact E |].
  destruct (posted_check_spec sample_workers 4 (TimePoint.mk 6) (TimeInterval.mk 5) 1 c (sample_busy c) Hab
              ltac:(split; vm_compute; discriminate) Ht) as (h & H1 & _ & _ & H2).
  - intros c' Hc. cbn [sample_busy _tcp_server with_table _tcp_connect_socketfds] in Hc.
    by apply lookup_singleton_Some in Hc as [_ <-].
  - reflexivity.
  - simpl. lia.
  - exists h. split; [exact H1 |]. clear H1.
    assert (Hs : silent (TimePoint.mk 6) (TimeInterval.mk 5) c = true).
    { vm_compute in E. by injection E as <-. }
    rewrite Hs in H2. by rewrite H2.
Defined.
