(* ===== verification/StaticServer.v ===== *)
(** The static file server: [example/http/server/server.cc], in the default build
    configuration (without the benchmark's fixed answer).

    The class [Files] is what the server asks of the file system.  [stat], [open],
    [fstat], [mmap] and [munmap] answer as they please; the state is threaded
    through the calls. *)
From S2P Require Import Prelude TimePoint Poller TcpBuffer TcpConnectSocketfd HttpRequest HttpParser.
From S2P Require Import Format HttpResponse TcpServer HttpServer.
Open Scope nat_scope.

(** [sys_mmap f fd n] gives the [n] bytes of the mapping. *)
Class Files (F : Type) := {
  sys_stat : F -> bytes -> bool;
  sys_open : F -> bytes -> option (Z * F);
  sys_fstat : F -> Z -> option nat;
  sys_mmap : F -> Z -> nat -> option (bytes * F);
  sys_munmap : F -> option F;
  close_file : F -> Z -> F;
  open_files : F -> gset Z;
  mappings : F -> nat
}.

(** * Paths *)

(** [sizeof] of a pointer. *)
Definition sizeof_pointer : nat := 8.

Definition slash_dot_dot_slash : bytes := str "/../".
Definition slash_dot_dot_slash_len : nat := sizeof_pointer.

(** Whether [p] is a prefix of [l]. *)
Definition starts_with (p l : bytes) : bool := bool_decide (take (length p) l = p).

(** [std::search]: the position of the first occurrence, or the length of [l]. *)
Fixpoint search (l p : bytes) : nat :=
  if starts_with p l then 0 else match l with [] => 0 | _ :: l => S (search l p) end.

(** [std::strncmp(a, b, n) == 0] *)
Definition strncmp_equal (a b : bytes) (n : nat) : bool :=
  bool_decide (take n (c_str a ++ [NUL]) = take n (c_str b ++ [NUL])).

Definition root : bytes := str "./example/http/server".
Definition html_404_file_path : bytes := str "./example/http/server/404.html".
Definition images_folder : bytes := str "/static/images/".
Definition images_folder_len : nat := sizeof_pointer.

(** [beyond]: what lies in memory after the literal and its NUL; the pattern searched
    for reaches into it. *)
Definition check_if_is_valid_path (beyond path : bytes) : bool :=
  if decide (default NUL (path !! 0) <> "/"%char) then false
  else
    let pattern := take slash_dot_dot_slash_len (slash_dot_dot_slash ++ [NUL] ++ beyond) in
    search path pattern =? length path.

Section Expand.
Context {F : Type} `{Files F}.

Definition _check_if_path_exists (f : F) (path : bytes) : bool := sys_stat f (c_str path).

(** Whether the path is accepted, and the path afterwards. *)
Definition check_if_path_exists_and_expand_it (f : F) (path : bytes) : bool * bytes :=
  if decide (path = str "/") then (true, root ++ path ++ str "index.html")
  else if decide (path = str "/index.html") then (true, path)
  else if negb (strncmp_equal path images_folder images_folder_len) then (false, path)
  else let path := root ++ path in (_check_if_path_exists f path, path).
End Expand.

Definition mime_map : list (bytes * bytes) :=
  [(str ".html", str "text/html"); (str ".htm", str "text/html"); (str ".css", str "text/css");
   (str ".js", str "application/javascript"); (str ".json", str "application/json");
   (str ".png", str "image/png"); (str ".jpg", str "image/jpeg"); (str ".jpeg", str "image/jpeg");
   (str ".gif", str "image/gif"); (str ".txt", str "text/plain"); (str ".xml", str "application/xml");
   (str ".pdf", str "application/pdf"); (str ".zip", str "application/zip");
   (str ".mp3", str "audio/mpeg"); (str ".mp4", str "video/mp4")].

Definition default_mime_type : bytes := str "application/octet-stream".

(** [rfind('.')] *)
Definition rfind_dot (s : bytes) : option nat :=
  match list_find (fun c => c = "."%char) (reverse s) with
  | Some (i, _) => Some (length s - 1 - i)
  | None => None
  end.

Definition get_mime_type (file_path : bytes) : bytes :=
  match rfind_dot file_path with
  | None => default_mime_type
  | Some pos =>
      match list_find (fun e => e.1 = drop pos file_path) mime_map with
      | Some (_, (_, mime)) => mime
      | None => default_mime_type
      end
  end.

(** * Answering *)
Section Answer.
Context {K X U F : Type} `{Epoll K} `{Socket K} `{Files F} {strings : StringAllocator}.
Abbreviation conn := (TcpConnectSocketfd K X U).
Context (order : gmap bytes bytes -> list (bytes * bytes)).
Context (beyond : bytes) (cb : callbacks conn).
Context (alloc : nat).   (* of the buffer a response is dumped to *)

Definition read_file_and_send (r : HttpResponse) (file_path : bytes) (c : conn) (f : F)
    : result (bool * conn * F) :=
  match sys_open f (c_str file_path) with
  | None => Ok (false, c, f)
  | Some (fd, f) =>
      match sys_fstat f fd with
      | None => Ok (false, c, close_file f fd)
      | Some file_size =>
          let r := set_header CONTENT_LENGTH (to_string (Z.of_nat file_size)) r in
          let* c := send_to_tcp_connection order cb alloc r c in
          match sys_mmap f fd file_size with
          | None => Ok (false, c, close_file f fd)
          | Some (mapped_data, f) =>
              let* c := send cb mapped_data c in
              match sys_munmap f with
              | None => Ok (false, c, close_file f fd)
              | Some f => Ok (true, c, close_file f fd)
              end
          end
      end
  end.

Definition answer_head (status : Z) (content_type : bytes) (need_close : bool) : HttpResponse :=
  let r := set_version_type HTTP_1_1 new_HttpResponse in
  let r := set_status_code status r in
  let r := set_header (str "Content-Type") content_type r in
  if need_close then set_header CONNECTION (str "close") r else r.

Definition send_404 (need_close : bool) (c : conn) (f : F) : result (conn * F) :=
  let* (_, c, f) :=
    read_file_and_send (answer_head S_404_NOT_FOUND (str "text/html; charset=UTF-8") need_close)
      html_404_file_path c f in
  Ok (c, f).

Definition send_file (need_close : bool) (file_path : bytes) (c : conn) (f : F) : result (conn * F) :=
  let* (_, c, f) :=
    read_file_and_send (answer_head S_200_OK (get_mime_type file_path) need_close) file_path c f in
  Ok (c, f).

Definition http_request_callback (request : HttpRequest) (c : conn) (f : F) : result (conn * F) :=
  if _is_write_end_shutdown c then Ok (c, f)
  else
    let need_close := _need_close request in
    if decide (_method request <> GET) then send_404 need_close c f
    else if negb (check_if_is_valid_path beyond (_path request)) then send_404 need_close c f
    else
      let '(exists_, path) := check_if_path_exists_and_expand_it f (_path request) in
      if negb exists_ then send_404 need_close c f else send_file need_close path c f.

(** The callback of the benchmark: [sizeof] of the array counts the NUL of the literal. *)
Definition hello_world_response_content : bytes :=
  str "HTTP/1.1 200 OK" ++ crlf ++ str "Content-type: text/plain" ++ crlf ++ crlf ++ str "Hello World" ++ [NUL].
Definition hello_world_response_content_size : nat := length hello_world_response_content.

Definition benchmark_request_callback (c : conn) : result conn :=
  if _is_write_end_shutdown c then Ok c
  else send cb (take hello_world_response_content_size hello_world_response_content) c.
End Answer.

(** * What the checks let through *)
Lemma starts_with_app p l : starts_with p l = true <-> exists k, l = p ++ k.
Proof.
  unfold starts_with. rewrite bool_decide_eq_true. split.
  - intros E. exists (drop (length p) l). by rewrite <- E at 1; rewrite take_drop.
  - intros [k ->]. apply take_app_length.
Qed.

Lemma search_absent l p : NUL ∈ p -> NUL ∉ l -> search l p = length l.
Proof.
  intros Hp. induction l as [| c l IH]; intros Hl; simpl;
    (destruct (starts_with p _) eqn:E; [apply starts_with_app in E as [k E] |]); try done.
  - destruct Hl. rewrite E. apply elem_of_app. by left.
  - rewrite IH; [done |]. by apply not_elem_of_cons in Hl as [_ ?].
Qed.

Lemma strncmp_static path :
  NUL ∉ path -> strncmp_equal path images_folder images_folder_len = starts_with (str "/static/") path.
Proof.
  intros Hn. unfold strncmp_equal, starts_with, images_folder_len, sizeof_pointer.
  rewrite c_str_id by done. apply bool_decide_ext.
  change (take 8 (c_str images_folder ++ [NUL])) with (str "/static/").
  change (length (str "/static/")) with 8. split; [| intros E].
  - intros E. destruct (decide (8 <= length path)) as [Hl | Hl]; [by rewrite take_app_le in E |].
    exfalso. rewrite take_app, (take_ge path) in E by lia.
    assert (NUL ∈ str "/static/") as Hin.
    { rewrite <- E. apply elem_of_app. right.
      destruct (8 - length path) as [| n] eqn:En; [lia |]. by left. }
    revert Hin. vm_compute. set_solver.
  - rewrite take_app_le; [done |].
    assert (Hl : length (take 8 path) = 8) by (rewrite E; reflexivity). rewrite length_take in Hl. lia.
Qed.

Lemma path_checks {F} `{Files F} beyond (f : F) path :
  NUL ∉ path ->
  check_if_is_valid_path beyond path = starts_with (str "/") path /\
  check_if_path_exists_and_expand_it f path
  = if decide (path = str "/") then (true, root ++ str "/index.html")
    else if decide (path = str "/index.html") then (true, str "/index.html")
    else if starts_with (str "/static/") path then (sys_stat f (root ++ path), root ++ path)
    else (false, path).
Proof.
  intros Hn. split.
  - unfold check_if_is_valid_path. destruct path as [| c path]; [done |].
    change (default NUL ((c :: path) !! 0)) with c.
    destruct (decide (c = "/"%char)) as [-> | Hc].
    + rewrite decide_False by (intros Hc; by apply Hc).
      rewrite search_absent; [| by right; right; right; right; left | done].
      rewrite Nat.eqb_refl. symmetry. apply starts_with_app. by exists path.
    + rewrite decide_True by done. symmetry. apply not_true_iff_false.
      rewrite starts_with_app. intros [k [= ? _]]. done.
  - unfold check_if_path_exists_and_expand_it, _check_if_path_exists.
    destruct (decide (path = str "/")) as [-> | _]; [done |].
    destruct (decide (path = str "/index.html")) as [-> | _]; [done |].
    rewrite strncmp_static by done. destruct (starts_with _ path); [| done]. cbn [negb].
    rewrite c_str_id; [done |]. rewrite elem_of_app. intros [Hr |]; [| done].
    revert Hr. vm_compute. set_solver.
Qed.

(** C27: Both length constants are the size of a pointer, not of the literal.  So the
    search for [/../] looks for a string with a NUL in it, which no C string
    contains: the check accepts every path that begins with a slash, whatever lies
    behind the literal.  And the comparison with the images folder stops after eight
    characters: everything under [/static/], and through [..] every file the process
    can read, is served.  [/index.html] is accepted without being expanded. *)
Theorem path_checks_spec {F} `{Files F} beyond (f : F) path (Hn : NUL ∉ path) :
  check_if_is_valid_path beyond path = starts_with (str "/") path /\
  check_if_path_exists_and_expand_it f path
  = if decide (path = str "/") then (true, root ++ str "/index.html")
    else if decide (path = str "/index.html") then (true, str "/index.html")
    else if starts_with (str "/static/") path then (sys_stat f (root ++ path), root ++ path)
    else (false, path).
Proof. by apply path_checks. Qed.

(** * Which file is served *)
Section Served.
Set Default Proof Using "Type*".
Context {F : Type} `{Files F}.

(** The file a request gets, and the head of the answer without the length: the
    reference for the checks above. *)
Definition served (request : HttpRequest) (f : F) : HttpResponse * bytes :=
  let need_close := _need_close request in
  let path := _path request in
  let not_found := (answer_head S_404_NOT_FOUND (str "text/html; charset=UTF-8") need_close, html_404_file_path) in
  let found path := (answer_head S_200_OK (get_mime_type path) need_close, path) in
  if decide (_method request <> GET) then not_found
  else if decide (path = str "/") then found (root ++ str "/index.html")
  else if decide (path = str "/index.html") then found (str "/index.html")
  else if starts_with (str "/static/") path && sys_stat f (root ++ path) then found (root ++ path)
  else not_found.

Lemma answer_head_ready status mime b :
  version_text (answer_head status mime b) = Some (str "HTTP/1.1") /\
  _status_code (answer_head status mime b) = status.
Proof. by destruct b. Qed.

Lemma served_ready request f :
  version_text (served request f).1 = Some (str "HTTP/1.1") /\ _status_code (served request f).1 <> S_NONE.
Proof.
  unfold served. repeat case_match; cbn [fst];
    match goal with |- context [answer_head ?s ?m ?b] => destruct (answer_head_ready s m b) as [-> ->] end; done.
Qed.

Lemma callback_serves {K X U} `{Epoll K} `{Socket K} {strings : StringAllocator} order beyond cb alloc request
    (c : TcpConnectSocketfd K X U) f :
  NUL ∉ _path request -> _is_write_end_shutdown c = false ->
  http_request_callback order beyond cb alloc request c f
  = let* (_, c, f) := read_file_and_send order cb alloc (served request f).1 (served request f).2 c f in
    Ok (c, f).
Proof.
  intros Hn Hs. unfold http_request_callback, served, send_404, send_file. rewrite Hs.
  destruct (decide (_method request <> GET)); [done |].
  destruct (path_checks beyond f (_path request) Hn) as [-> ->].
  destruct (decide (_path request = str "/")) as [-> |]; [done |].
  destruct (decide (_path request = str "/index.html")) as [-> |]; [done |].
  destruct (starts_with (str "/static/") (_path request)) eqn:Est; cbn [andb].
  - assert (Hsl : starts_with (str "/") (_path request) = true).
    { apply starts_with_app in Est as [k ->]. reflexivity. }
    rewrite Hsl. cbn [negb]. by destruct (sys_stat f (root ++ _path request)).
  - by destruct (starts_with (str "/") (_path request)).
Qed.
End Served.

(** * What is sent *)

(** Documented behaviour of the calls. *)
Class FilesLaws (F : Type) `{Files F} : Prop := {
  open_law f p fd f' :
    sys_open f p = Some (fd, f') ->
    (fd ∉ open_files f) /\ open_files f' = {[fd]} ∪ open_files f /\ mappings f' = mappings f;
  mmap_law f fd n d f' :
    sys_mmap f fd n = Some (d, f') ->
    length d = n /\ open_files f' = open_files f /\ mappings f' = S (mappings f);
  munmap_law f f' :
    sys_munmap f = Some f' -> open_files f' = open_files f /\ mappings f = S (mappings f');
  close_file_law f fd :
    open_files (close_file f fd) = (open_files f ∖ {[fd]}) /\ mappings (close_file f fd) = mappings f
}.

Section Released.
Set Default Proof Using "Type*".
Context {F : Type} `{Files F} `{!FilesLaws F}.

(** No descriptor is left open, no mapping behind, unless [munmap] fails. *)
Definition released_files (done : bool) (f f' : F) : Prop :=
  open_files f' = open_files f /\
  mappings f <= mappings f' <= S (mappings f) /\ (done = true -> mappings f' = mappings f).

Lemma released_close b f fd f1 :
  (fd ∉ open_files f) -> open_files f1 = {[fd]} ∪ open_files f ->
  mappings f <= mappings f1 <= S (mappings f) -> (b = true -> mappings f1 = mappings f) ->
  released_files b f (close_file f1 fd).
Proof.
  intros Hfd Ho Hm Hb. destruct (close_file_law f1 fd) as [Hc1 Hc2]. unfold released_files.
  rewrite Hc1, Hc2, Ho. split; [set_solver | by split].
Qed.
End Released.

Section AnswerSpec.
Set Default Proof Using "Type*".
Context {K X U F : Type} `{Epoll K} `{!EpollLaws K} `{Socket K} `{!SocketLaws K} {strings : StringAllocator}.
Context `{Files F} `{!FilesLaws F}.
Abbreviation conn := (TcpConnectSocketfd K X U).
Context (order : gmap bytes bytes -> list (bytes * bytes)) (beyond : bytes) (cb : callbacks conn) (alloc : nat).
Hypothesis close_passive : passive (TcpConnectSocketfd._close_callback cb).
Hypothesis write_complete_passive : passive (TcpConnectSocketfd._write_complete_callback cb).

(** The bytes of an answer: the head with the size of the file as the length of the
    body, then the file as far as it can be mapped. *)
Definition head_with_length (r : HttpResponse) (n : nat) : bytes :=
  render order (str "HTTP/1.1") (set_header CONTENT_LENGTH (to_string (Z.of_nat n)) r).

Definition answer (r : HttpResponse) (file_path : bytes) (f : F) : bytes :=
  match sys_open f (c_str file_path) with
  | None => []
  | Some (fd, f) =>
      match sys_fstat f fd with
      | None => []
      | Some n =>
          head_with_length r n ++
          match sys_mmap f fd n with Some (d, _) => d | None => [] end
      end
  end.

Lemma send_response_handed r c :
  live c -> version_text r = Some (str "HTTP/1.1") -> _status_code r <> S_NONE ->
  small (length (render order (str "HTTP/1.1") r)) -> fits (render order (str "HTTP/1.1") r) c ->
  match send_to_tcp_connection order cb alloc r c with
  | Ok c' => handed (render order (str "HTTP/1.1") r) c c'
  | Err e => send_error (fd_of c) e
  end.
Proof.
  intros Hl Hv Hst Hs Hf. unfold send_to_tcp_connection.
  pose proof (dump_fresh order (str "HTTP/1.1") r _ (fresh_new alloc) Hst Hv Hs) as Hdump.
  destruct (dump_to_tcp_buffer _ _ _) as [b | e]; [| left; apply Hdump].
  cbn [mbind result_bind]. rewrite (fresh_contents _ _ Hdump).
  by apply (send_handed cb close_passive write_complete_passive [] _ c c (handed_nil c Hl)).
Qed.

(** What one call needs: the head of the answer fits, and so does the file after it. *)
Definition room (r : HttpResponse) (file_path : bytes) (c : conn) (f : F) : Prop :=
  forall fd f1 n, sys_open f (c_str file_path) = Some (fd, f1) -> sys_fstat f1 fd = Some n ->
    small (length (head_with_length r n)) /\ fits (head_with_length r n) c /\
    forall c1 d f2,
      send_to_tcp_connection order cb alloc (set_header CONTENT_LENGTH (to_string (Z.of_nat n)) r) c = Ok c1 ->
      sys_mmap f1 fd n = Some (d, f2) -> fits d c1.

(** The numbers behind it: the answer and what is pending, four times over, stay far
    below the size of the address space. *)
Definition enough_room (r : HttpResponse) (file_path : bytes) (c : conn) (f : F) : Prop :=
  (Z.of_nat (TcpBuffer.capacity (_output_buffer c)
     + 4 * (length (TcpBuffer.contents (_output_buffer c)) + length (answer r file_path f)))
   < 2 ^ 57)%Z.

Lemma enough_room_is_room r file_path c f :
  live c -> version_text r = Some (str "HTTP/1.1") -> _status_code r <> S_NONE ->
  enough_room r file_path c f -> room r file_path c f.
Proof.
  intros Hl Hv Hst. unfold enough_room, answer. intros Hn fd f1 n Eo. rewrite Eo in Hn.
  intros Ef. rewrite Ef, length_app in Hn.
  assert (Hs : small (length (head_with_length r n))) by (unfold small; lia).
  assert (Hf : fits (head_with_length r n) c) by (unfold fits; lia).
  split; [exact Hs |]. split; [exact Hf |]. intros c1 d f2 E1 Em. rewrite Em in Hn.
  unfold send_to_tcp_connection in E1.
  pose proof (dump_fresh order (str "HTTP/1.1") (set_header CONTENT_LENGTH (to_string (Z.of_nat n)) r) _
                (fresh_new alloc) Hst Hv Hs) as Hdump.
  destruct (dump_to_tcp_buffer _ _ _) as [b | e]; [| done]. cbn [mbind result_bind] in E1.
  pose proof (fresh_contents _ _ Hdump) as Eq.
  change (render order (str "HTTP/1.1") _) with (head_with_length r n) in Eq. rewrite Eq in E1.
  pose proof (send_goes cb close_passive write_complete_passive _ c Hl Hf) as Hsend.
  rewrite E1 in Hsend. unfold fits in *. destruct Hsend as [_ [[Hl1 _] | [Hab _]]].
  - destruct (send_room cb close_passive write_complete_passive _ _ _ Hl E1 Hl1) as [Hcap _]. lia.
  - destruct (ab_output _ Hab) as (_ & _ & ->). unfold TcpBuffer.SSO. lia.
Qed.

Lemma read_file_and_send_spec_aux r file_path c f :
  live c -> version_text r = Some (str "HTTP/1.1") -> _status_code r <> S_NONE -> room r file_path c f ->
  match read_file_and_send order cb alloc r file_path c f with
  | Ok (done, c', f') => handed (answer r file_path f) c c' /\ released_files done f f'
  | Err e => send_error (fd_of c) e
  end.
Proof.
  intros Hl Hv Hst Hroom. unfold read_file_and_send, answer.
  destruct (sys_open f (c_str file_path)) as [[fd f1] |] eqn:Eo.
  2: { split; [by apply handed_nil |]. unfold released_files. split; [done |]. split; [lia | done]. }
  destruct (open_law _ _ _ _ Eo) as (Hfd & Ho & Hm).
  destruct (sys_fstat f1 fd) as [n |] eqn:Ef.
  2: { split; [by apply handed_nil |]. apply released_close; try done; lia. }
  destruct (Hroom _ _ _ Eo Ef) as (Hs & Hf & Hd).
  pose proof (send_response_handed (set_header CONTENT_LENGTH (to_string (Z.of_nat n)) r) c
                Hl Hv Hst Hs Hf) as Hsend.
  destruct (send_to_tcp_connection _ _ _ _ _) as [c1 | e]; [| done].
  destruct (sys_mmap f1 fd n) as [[d f2] |] eqn:Em.
  2: { rewrite app_nil_r. split; [done |]. apply released_close; try done; lia. }
  destruct (mmap_law _ _ _ _ _ Em) as (_ & Ho2 & Hm2).
  pose proof (send_handed cb close_passive write_complete_passive _ d c c1 Hsend (Hd _ _ _ eq_refl eq_refl)) as Hsend2.
  destruct (send cb d c1) as [c2 | e]; [| done].
  destruct (sys_munmap f2) as [f3 |] eqn:Eu.
  - destruct (munmap_law _ _ Eu) as [Ho3 Hm3]. split; [done |].
    apply released_close; [done | congruence | lia | lia].
  - split; [done |]. apply released_close; [done | congruence | lia | done].
Qed.

(** Reading a file and sending it, whatever the file system answers: exactly the head
    with the size of the file, and the file, are handed to the connection, and the
    file is closed on every path.  Where the mapping fails (an empty file, or a
    directory) the length has been announced and no body follows. *)
Theorem read_file_and_send_spec r file_path c f
    (Hl : live c) (Hv : version_text r = Some (str "HTTP/1.1")) (Hst : _status_code r <> S_NONE)
    (Hroom : room r file_path c f) :
  match read_file_and_send order cb alloc r file_path c f with
  | Ok (done, c', f') => handed (answer r file_path f) c c' /\ released_files done f f'
  | Err e => send_error (fd_of c) e
  end.
Proof. by apply read_file_and_send_spec_aux. Qed.


(** The benchmark's answer announces no length, and a NUL follows it on the wire. *)
Lemma benchmark_answer c :
  live c -> fits hello_world_response_content c ->
  match benchmark_request_callback cb c with
  | Ok c' => handed hello_world_response_content c c'
  | Err e => send_error (fd_of c) e
  end.
Proof.
  intros Hl Hf. unfold benchmark_request_callback. destruct (live_marks3 _ Hl) as (-> & _ & _).
  replace (take _ _) with hello_world_response_content by (symmetry; by apply take_ge).
  by apply (send_handed cb close_passive write_complete_passive [] _ c c (handed_nil c Hl)).
Qed.
End AnswerSpec.

(** * From the bytes of a request to the bytes of the file *)
Section Serve.
Set Default Proof Using "Type*".
Context {K F : Type} `{Epoll K} `{!EpollLaws K} `{Socket K} `{!SocketLaws K} {strings : StringAllocator}.
Context `{Files F} `{!FilesLaws F}.
Abbreviation conn := (TcpConnectSocketfd K HttpParser (http_outside F)).
Context (order : gmap bytes bytes -> list (bytes * bytes)) (beyond : bytes) (alloc : nat).
Context (write_complete_callback close_callback : option (conn -> result conn)).
Hypothesis close_passive : passive close_callback.
Hypothesis write_complete_passive : passive write_complete_callback.

(** The callbacks before any request to close. *)
Definition static_callbacks : callbacks conn := mkCallbacks None write_complete_callback close_callback.

(** The callback that [main] registers; the files are the state of the user. *)
Definition static_callback (request : HttpRequest) (c : conn) : result conn :=
  let* (c, f) := http_request_callback order beyond static_callbacks alloc request c (user (outside c)) in
  Ok (with_outside (mkHttpOutside (time_stamp (outside c)) (shut_when_written (outside c)) f) c).

Abbreviation message_callback :=
  (_message_callback static_callback write_complete_callback close_callback).

Lemma live_given t p b (c : conn) : TcpBuffer.wf b -> live c -> live (given t p b c).
Proof. intros Hb []. split; try done. by left. Qed.

(** What the message callback does once the parser [p] has the whole request and [b]
    is left of the input buffer. *)
Lemma request_answered fuel request p b t (c : conn) :
  live c -> TcpBuffer.wf b -> _need_close request = false -> NUL ∉ _path request ->
  message_callback fuel t c
  = (let* c' := static_callback request (given t p b c) in
     after_request write_complete_callback close_callback fuel request c') ->
  reset p = new_HttpParser ->
  (let '(r, path) := served request (user (outside c)) in
   room order static_callbacks alloc r path (given t p b c) (user (outside c))) ->
  let '(r, path) := served request (user (outside c)) in
  match message_callback fuel t c with
  | Ok c' =>
      fd_of c' = fd_of c /\ open_files (user (outside c')) = open_files (user (outside c)) /\
      ((live c' /\ stream c' = stream c ++ answer order r path (user (outside c)) /\
        context c' = Some new_HttpParser /\ _input_buffer c' = b /\ is_reading c' = is_reading c) \/
       aborted c')
  | Err e => send_error (fd_of c) e
  end.
Proof.
  intros Hl Hbwf Hkeep Hn -> Hreset.
  pose proof (callback_serves order beyond static_callbacks alloc request) as Hcb.
  pose proof (served_ready request (user (outside c))) as Hready.
  destruct (served request (user (outside c))) as [r path] eqn:Es. intros Hroom.
  pose proof (live_given t p b c Hbwf Hl) as Hlg.
  unfold static_callback. change (user (outside (given t p b c))) with (user (outside c)).
  rewrite (Hcb (given t p b c) (user (outside c))); [| done | by destruct (live_marks3 _ Hlg)].
  rewrite Es. cbn [fst snd] in Hready |- *.
  pose proof (read_file_and_send_spec_aux order static_callbacks alloc close_passive write_complete_passive r path (given t p b c) (user (outside c)) Hlg (proj1 Hready) (proj2 Hready) Hroom) as Hs.
  destruct (read_file_and_send _ _ _ _ _ _ _) as [[[ok c1] f1] | e]; [| done].
  destruct Hs as [[Hfd Hcase] [Hopen _]]. unfold after_request.
  set (c2 := with_outside _ c1). change (_is_write_end_shutdown c2) with (_is_write_end_shutdown c1).
  change (context c2) with (context c1). rewrite Hkeep.
  destruct Hcase as [(Hl1 & Hst & Hi1 & Hi2 & Hi3) | Hab].
  - destruct (live_marks3 _ Hl1) as (-> & _ & _). rewrite Hi1. cbn [context given with_context]. rewrite Hreset.
    split; [done |]. split; [done |]. left. split; [| split; [exact Hst | split; [done |]]].
    + by destruct Hl1.
    + split; [exact Hi2 | exact Hi3].
  - pose proof (ab_marks _ Hab) as Hm. injection Hm as -> _ _. split; [done |]. split; [done |].
    right. by destruct Hab.
Qed.

(** The whole path of one request: when the bytes in the input buffer of a connection
    begin with a complete request to keep the connection open, the message callback
    hands to the connection exactly the head and the contents of the file the request
    stands for, closes the file, and leaves the parser as new and the bytes after the
    request in the buffer; unless the peer breaks the connection. *)
Theorem request_served fuel w rest t (c : conn)
    (Hw : wire_ok w) (Hctx : context c = Some new_HttpParser) (Hl : live c)
    (Hb : TcpBuffer.wf (_input_buffer c))
    (Hc : TcpBuffer.contents (_input_buffer c) = wire_bytes w ++ rest)
    (Hkeep : _need_close (request_of w t) = false) (Hn : NUL ∉ w_path w)
    (Hroom : forall p b, let '(r, path) := served (request_of w t) (user (outside c)) in
             room order static_callbacks alloc r path (given t p b c) (user (outside c))) :
  let '(r, path) := served (request_of w t) (user (outside c)) in
  match message_callback fuel t c with
  | Ok c' =>
      fd_of c' = fd_of c /\ open_files (user (outside c')) = open_files (user (outside c)) /\
      ((live c' /\ stream c' = stream c ++ answer order r path (user (outside c)) /\
        context c' = Some new_HttpParser /\ TcpBuffer.contents (_input_buffer c') = rest) \/
       aborted c')
  | Err e => send_error (fd_of c) e
  end.
Proof.
  destruct (message_parsed static_callback write_complete_callback close_callback fuel w rest t c Hw Hctx Hb Hc)
    as (p & b & Hp & Hbwf & Hrest & E & Hreset).
  specialize (Hroom p b). pose proof (request_answered fuel _ p b t c Hl Hbwf Hkeep Hn E (Hreset Hkeep)) as Hs.
  destruct (served (request_of w t) (user (outside c))) as [r path]. specialize (Hs Hroom).
  destruct (message_callback fuel t c) as [c' |]; [| done].
  destruct Hs as (Hfd & Ho & Hcase). split; [done |]. split; [done |].
  destruct Hcase as [(Hl1 & Hst1 & Hctx1 & Hb1 & _) | Hab]; [left | by right].
  rewrite Hb1. by split; [| split; [| split]].
Qed.
End Serve.

(** * Concrete files *)
#[local] Existing Instance std_strings.

Record sample_files := mkFiles {
  f_contents : list (bytes * bytes);
  f_open : gmap Z bytes;
  f_mappings : nat
}.

Definition file_named (f : sample_files) (path : bytes) : option bytes :=
  match list_find (fun e => e.1 = path) (f_contents f) with Some (_, (_, d)) => Some d | None => None end.

#[export] Instance sample_files_calls : Files sample_files := {
  sys_stat f path := bool_decide (is_Some (file_named f path));
  sys_open f path :=
    match file_named f path with
    | Some d =>
        let fd : Z := base.fresh (dom (f_open f)) in
        Some (fd, mkFiles (f_contents f) (<[fd := d]> (f_open f)) (f_mappings f))
    | None => None
    end;
  sys_fstat f fd := length <$> f_open f !! fd;
  sys_mmap f fd n :=
    match f_open f !! fd with
    | Some d => if (0 <? n) && (n =? length d)
                then Some (d, mkFiles (f_contents f) (f_open f) (S (f_mappings f))) else None
    | None => None
    end;
  sys_munmap f :=
    match f_mappings f with
    | O => None
    | S n => Some (mkFiles (f_contents f) (f_open f) n)
    end;
  close_file f fd := mkFiles (f_contents f) (delete fd (f_open f)) (f_mappings f);
  open_files f := dom (f_open f);
  mappings f := f_mappings f
}.

#[export] Instance sample_files_laws : FilesLaws sample_files.
Proof.
  split; simpl.
  - intros f p fd f'. destruct (file_named f p) as [d |]; [| done]. intros [= <- <-].
    split; [apply is_fresh |]. simpl. by rewrite dom_insert_L.
  - intros f fd n d f'. destruct (f_open f !! fd) as [d' |]; [| done].
    destruct (_ && _) eqn:E; [| done]. intros [= <- <-].
    by apply andb_true_iff in E as [_ ->%Nat.eqb_eq].
  - intros f f'. destruct (f_mappings f); [done |]. by intros [= <-].
  - intros f fd. by rewrite dom_delete_L.
Qed.

(** The log of the machine, and a file of the server. *)
Definition sample_disk : sample_files :=
  mkFiles [(str "./example/http/server/static/../../etc/passwd", str "root");
           (str "./example/http/server/404.html", str "no such file")] ∅ 0.

(** Out of the folder of the server, past both checks. *)
Lemma path_checks_spec_witness :
  let path := str "/static/../../etc/passwd" in
  check_if_is_valid_path (str "xyz") path = true /\
  check_if_path_exists_and_expand_it sample_disk path = (true, str "./example/http/server/static/../../etc/passwd").
Proof.
  cbn zeta.
  destruct (path_checks_spec (str "xyz") sample_disk (str "/static/../../etc/passwd")
              ltac:(vm_compute; set_solver)) as [H1 H2].
  rewrite H1, H2. split; vm_compute; reflexivity.
Defined.

(** A request for that file, answered on a connection whose send buffer has room for
    nine bytes. *)
Definition sample_attack : wire :=
  mkWire (0, 0, 0, 0) GET (str "/static/../../etc/passwd") HTTP_1_1 [] [].

Lemma sample_attack_ok : wire_ok sample_attack.
Proof. repeat split; try (eexists; reflexivity); try done; try (vm_compute; set_solver). Qed.

Definition with_files (f : sample_files) (c : sample_http_conn)
    : TcpConnectSocketfd sample_socket HttpParser (http_outside sample_files) :=
  set_outside (mkHttpOutside (TimePoint.mk 0) false f) c.

Lemma sample_serving : exists c,
  with_files sample_disk <$> sample_in_loop [EnableRead] (wire_bytes sample_attack ++ str "GET") (TcpBuffer.new 0) false = Ok c /\
  live c /\ _input_buffer c = TcpBuffer.mk (wire_bytes sample_attack ++ str "GET") 200 1 (Some 1) 0
    (length (wire_bytes sample_attack ++ str "GET")) /\
  user (outside c) = sample_disk.
Proof.
  destruct (sample_in_loop_live [EnableRead] (wire_bytes sample_attack ++ str "GET") (TcpBuffer.new 0) false
              (TcpBuffer.new_wf 0) ltac:(vm_compute; lia)) as (c & E & _ & Hb & Hl).
  exists (with_files sample_disk c). rewrite E. split; [done |].
  assert (Hs : is_stopped c = false). { clear Hl. vm_compute in E. by injection E as <-. }
  destruct (Hl Hs (fun _ => eq_refl)). split; [by split |]. split; [exact Hb | done].
Qed.

Lemma read_file_and_send_spec_witness : exists c c' f',
  with_files sample_disk <$> sample_in_loop [EnableRead] (wire_bytes sample_attack ++ str "GET") (TcpBuffer.new 0) false = Ok c /\
  read_file_and_send map_to_list (static_callbacks None None) 0
    (answer_head S_404_NOT_FOUND (str "text/html; charset=UTF-8") false) html_404_file_path c sample_disk
  = Ok (true, c', f') /\ open_files f' = ∅ /\ f_mappings f' = 0 /\
  stream c' = answer map_to_list (answer_head S_404_NOT_FOUND (str "text/html; charset=UTF-8") false)
                html_404_file_path sample_disk.
Proof.
  destruct sample_serving as (c & E & Hl & _ & _).
  pose proof (read_file_and_send_spec map_to_list (static_callbacks None None) 0 ltac:(done) ltac:(done)
                (answer_head S_404_NOT_FOUND (str "text/html; charset=UTF-8") false)
                html_404_file_path c sample_disk Hl eq_refl ltac:(done)) as H.
  assert (Hx : room map_to_list (static_callbacks None None) 0
                 (answer_head S_404_NOT_FOUND (str "text/html; charset=UTF-8") false) html_404_file_path c sample_disk /\
               match read_file_and_send map_to_list (static_callbacks None None) 0
                       (answer_head S_404_NOT_FOUND (str "text/html; charset=UTF-8") false) html_404_file_path c sample_disk with
               | Ok (b, c', f') => b = true /\ _is_abotrted c' = false
               | Err _ => False
               end /\ stream c = []).
  { clear H Hl. vm_compute in E. injection E as <-. split; [| vm_compute; by repeat split].
    intros fd f1 n Eo. vm_compute in Eo. injection Eo as <- <-. intros Ef. vm_compute in Ef. injection Ef as <-.
    split; [unfold small; vm_compute; reflexivity |]. split; [unfold fits; vm_compute; reflexivity |].
    intros c1 d f2 E1 Em. vm_compute in E1, Em. injection E1 as <-. injection Em as <- <-.
    unfold fits. vm_compute. reflexivity. }
  destruct Hx as (Hr & Hx & Hst). specialize (H Hr).
  destruct (read_file_and_send _ _ _ _ _ _ _) as [[[b c'] f'] |] eqn:Er; [| contradiction].
  destruct Hx as [-> Hb], H as [[_ [(_ & Hs & _) | Hab]] (Ho & _ & Hm)].
  - exists c, c', f'. split; [exact E |]. split; [exact Er |]. split; [exact Ho |].
    split; [by apply Hm |]. rewrite Hs, Hst. reflexivity.
  - pose proof (ab_marks _ Hab) as H. congruence.
Defined.

(** The whole path: the bytes of the request for that file come in, the file goes out. *)
Lemma request_served_witness : exists c c',
  with_files sample_disk <$> sample_in_loop [EnableRead] (wire_bytes sample_attack ++ str "GET") (TcpBuffer.new 0) false = Ok c /\
  _message_callback (static_callback map_to_list [] 0 None None) None None 1 (TimePoint.mk 9) c = Ok c' /\
  stream c' = str "HTTP/1.1 200 OK" ++ crlf ++ str "Content-Length:4" ++ crlf ++
              str "Content-Type:application/octet-stream" ++ crlf ++ crlf ++ str "root" /\
  open_files (user (outside c')) = ∅ /\ TcpBuffer.contents (_input_buffer c') = str "GET".
Proof.
  destruct sample_serving as (c & E & Hl & Hb & Hu).
  pose proof (request_served map_to_list [] 0 None None ltac:(done) ltac:(done) 1
                sample_attack (str "GET") (TimePoint.mk 9) c sample_attack_ok) as H.
  rewrite Hu in H.
  assert (Hx : context c = Some new_HttpParser /\ stream c = [] /\
    (forall p b, room map_to_list (static_callbacks None None) 0
       (served (request_of sample_attack (TimePoint.mk 9)) sample_disk).1
       (served (request_of sample_attack (TimePoint.mk 9)) sample_disk).2
       (given (TimePoint.mk 9) p b c) sample_disk) /\
    match _message_callback (static_callback map_to_list [] 0 None None) None None 1 (TimePoint.mk 9) c with
    | Ok c' => _is_abotrted c' = false
    | Err _ => False
    end).
  { clear H Hl Hb Hu. vm_compute in E. injection E as <-. split; [reflexivity |]. split; [reflexivity |].
    split; [| vm_compute; reflexivity].
    intros p b fd f1 n Eo. vm_compute in Eo. injection Eo as <- <-. intros Ef. vm_compute in Ef. injection Ef as <-.
    split; [unfold small; vm_compute; reflexivity |]. split; [unfold fits; vm_compute; reflexivity |].
    intros c1 d f2 E1 Em. vm_compute in E1, Em. injection E1 as <-. injection Em as <- <-.
    unfold fits. vm_compute. reflexivity. }
  destruct Hx as (Hctx & Hst & Hr & Hx).
  assert (Hwf : TcpBuffer.wf (_input_buffer c)) by (rewrite Hb; split; simpl; try done; lia).
  specialize (H Hctx Hl Hwf ltac:(by rewrite Hb) eq_refl ltac:(vm_compute; set_solver)).
  destruct (served (request_of sample_attack (TimePoint.mk 9)) sample_disk) as [r path] eqn:Es.
  specialize (H Hr).
  destruct (_message_callback _ _ _ _ _ _) as [c' |] eqn:Em; [| contradiction].
  destruct H as (_ & Ho & [(_ & Hs & _ & Hi) | Hab]).
  - exists c, c'. split; [exact E |]. split; [exact Em |]. split; [| by split].
    rewrite Hs, Hst. vm_compute in Es. injection Es as <- <-. vm_compute. reflexivity.
  - pose proof (ab_marks _ Hab) as Hm. congruence.
Defined.
