(* ===== verification/RequestArrival.v ===== *)
(** From the read events of a connection to the answer of the static file server: the
    read event of [TcpConnectSocketfd], the parser, the message callback of
    [HttpServer] and the callback of [StaticServer] put together.

    A request need not come in one piece: [read_events] runs the read events one after
    the other, with what the network does to the kernel between them. *)
From S2P Require Import Prelude TimePoint Poller TcpBuffer TcpConnectSocketfd HttpRequest HttpParser HttpResponse HttpServer StaticServer.
Open Scope nat_scope.

(** One read event: the time the poll returned, what happened to the kernel since the
    event before, and the chunks that [recv] is going to deliver. *)
Record arrival (K : Type) := mkArrival {
  at_time : TimePoint.t;
  network : K -> K;
  chunks : list bytes
}.
Arguments mkArrival {K} _ _ _.
Arguments at_time {K} _.
Arguments network {K} _ _.
Arguments chunks {K} _.

(** The bytes of the events, in order. *)
Definition arrived {K} (es : list (arrival K)) : bytes := concat ((fun e => concat (chunks e)) <$> es).

Lemma arrived_app {K} (es : list (arrival K)) e : arrived (es ++ [e]) = arrived es ++ concat (chunks e).
Proof. unfold arrived. rewrite fmap_app, concat_app. simpl. by rewrite app_nil_r. Qed.

Section Arrival.
Set Default Proof Using "Type*".
Context {K F : Type} `{Epoll K} `{!EpollLaws K} `{Socket K} `{!SocketLaws K} {strings : StringAllocator}.
Context `{Files F} `{!FilesLaws F}.
Abbreviation conn := (TcpConnectSocketfd K HttpParser (http_outside F)).
Context (order : gmap bytes bytes -> list (bytes * bytes)) (beyond : bytes) (alloc : nat).
Context (write_complete_callback close_callback : option (conn -> result conn)).
Hypothesis close_passive : passive close_callback.
Hypothesis write_complete_passive : passive write_complete_callback.
(** The rounds of the receiving loop, and of [shutdown_connection]. *)
Context (fuel shutdown_fuel : nat).

Abbreviation callback := (static_callback order beyond alloc write_complete_callback close_callback).
Abbreviation server_callbacks :=
  (http_callbacks callback write_complete_callback close_callback shutdown_fuel).

Abbreviation message_callback :=
  (HttpServer._message_callback callback write_complete_callback close_callback).

Definition read_event (e : arrival K) (c : conn) : result conn :=
  _read_event_callback server_callbacks fuel (at_time e) (with_kernel (network e (kernel_of c)) c).

Fixpoint read_events (es : list (arrival K)) (c : conn) : result conn :=
  match es with
  | [] => Ok c
  | e :: es => let* c := read_event e c in read_events es c
  end.

(** What an event brings to [c]: its chunks, after which the kernel has no more for the
    moment; they fit into the input buffer. *)
Definition arrives (e : arrival K) (c : conn) : Prop :=
  let k0 := network e (kernel_of c) in
  kept (kernel_of c) k0 /\ accepted k0 (fd_of c) = accepted (kernel_of c) (fd_of c) /\
  exists n k b, delivers (fd_of c) n k0 (chunks e) k false /\ n <= fuel /\ chunks e <> [] /\
    appends (chunks e) (_input_buffer c) = Ok b /\ (Z.of_nat (TcpBuffer.capacity b) < 2 ^ 59)%Z.

Fixpoint arriving (es : list (arrival K)) (c : conn) : Prop :=
  match es with
  | [] => True
  | e :: es => arrives e c /\ forall c', read_event e c = Ok c' -> arriving es c'
  end.

Lemma read_events_app es e c :
  read_events (es ++ [e]) c = let* c := read_events es c in read_event e c.
Proof.
  revert c. induction es as [| e' es IH]; intros c; cbn [read_events app]; [by destruct (read_event e c) |].
  by destruct (read_event e' c).
Qed.

Lemma arriving_app es es' c :
  arriving (es ++ es') c -> arriving es c /\ forall c', read_events es c = Ok c' -> arriving es' c'.
Proof.
  revert c. induction es as [| e es IH]; intros c; cbn [arriving app].
  - intros Harr. split; [done |]. by intros c' [= <-].
  - intros [Ha Hnext]. split.
    + split; [done |]. intros c' E. by apply (IH _ (Hnext _ E)).
    + intros c'. cbn [read_events]. destruct (read_event e c) as [c1 |]; [| done]. intros E.
      by apply (IH _ (Hnext _ eq_refl)).
Qed.

(** A connection between two requests, with [rest] received already. *)
Record between_requests (rest : bytes) (c : conn) : Prop := {
  br_live : live c;
  br_reading : is_reading c = true;
  br_input : TcpBuffer.wf (_input_buffer c);
  br_rest : TcpBuffer.contents (_input_buffer c) = rest;
  br_context : context c = Some new_HttpParser
}.

(** A connection that was [c0] and has received [got], which is no whole request. *)
Record waiting (c0 : conn) (got : bytes) (c : conn) : Prop := {
  wa_live : live c;
  wa_reading : is_reading c = true;
  wa_input : TcpBuffer.wf (_input_buffer c);
  wa_same : fd_of c = fd_of c0 /\ stream c = stream c0 /\
            _output_buffer c = _output_buffer c0 /\ user (outside c) = user (outside c0);
  wa_parser : exists p t, context c = Some p /\ finished p = false /\
    parse new_HttpParser got t = Ok (true, p, TcpBuffer.contents (_input_buffer c))
}.

Lemma between_waiting c : between_requests [] c -> waiting c [] c.
Proof.
  intros []. split; try done. exists new_HttpParser, (TimePoint.mk 0). by rewrite br_rest0.
Qed.

(** What the parser makes of the buffer is what it makes of all the bytes so far. *)
Lemma parse_so_far p got b t t' (l d : bytes) r p' l' :
  parse new_HttpParser got t = Ok (true, p, l) -> finished p = false ->
  TcpBuffer.wf b -> TcpBuffer.contents b = l ++ d ->
  parse new_HttpParser (got ++ d) t' = Ok (r, p', l') ->
  exists b', parse p b t' = Ok (r, p', b') /\ TcpBuffer.wf b' /\ TcpBuffer.contents b' = l'.
Proof.
  intros Hgot Hfin Hb Hc E.
  assert (Hp : parser_ok p) by (by eapply parse_parser_ok; [| exact Hgot]).
  rewrite (parse_continues _ _ d t t' _ _ _ Hgot Hfin) in E.
  pose proof (parse_on_bytes p b t' Hb Hp) as Hs. unfold same_outcome in Hs.
  change (readable b) with (TcpBuffer.contents b) in Hs. rewrite Hc, E in Hs.
  destruct (parse p b t') as [[[r2 p2] b2] |]; [| done].
  destruct Hs as (-> & -> & Hb' & Hr). by exists b2.
Qed.

(** What the read event hands to the message callback. *)
Lemma read_event_message e c0 got c :
  waiting c0 got c -> arrives e c ->
  exists c1, waiting c0 got (with_input (_input_buffer c) c1) /\ live c1 /\
    TcpBuffer.wf (_input_buffer c1) /\
    TcpBuffer.contents (_input_buffer c1) = TcpBuffer.contents (_input_buffer c) ++ concat (chunks e) /\
    read_event e c
    = let* c2 := message_callback shutdown_fuel (at_time e) c1 in
      after_message server_callbacks c2.
Proof.
  intros Hw (Hk & Hacc & n & k & b & Hd & Hfuel & Hne & Hb & Hsize).
  set (c' := with_kernel (network e (kernel_of c)) c).
  destruct (wa_same _ _ _ Hw) as (Hfd & Hst & Hout & Hu).
  pose proof (live_kernel _ _ Hk (wa_live _ _ _ Hw)) as Hl'.
  destruct (delivers_chunks _ _ _ _ _ _ Hd) as (_ & Hk' & Hacc').
  destruct (read_event_delivers server_callbacks n k (chunks e) (at_time e) fuel _ b c' Hl'
              (wa_input _ _ _ Hw) Hd Hfuel Hne eq_refl Hb Hsize) as (Hl1 & Hwf & Hc & E).
  exists (with_input b (with_kernel k c')). split; [| by split].
  split; try apply Hw; [destruct Hl1; split; try done; left; apply Hw |].
  split; [exact Hfd |]. split; [| by split]. rewrite <- Hst. unfold stream. simpl.
  by rewrite <- Hacc, <- Hacc'.
Qed.

(** An event that leaves the request unfinished: the callback of the user is not called,
    and the bytes are kept, read or unread. *)
Lemma wait_more w c0 got d e c :
  wire_ok w -> waiting c0 got c -> arrives e c ->
  (got ++ concat (chunks e)) ++ d = wire_bytes w -> d <> [] ->
  exists c', read_event e c = Ok c' /\ waiting c0 (got ++ concat (chunks e)) c'.
Proof.
  intros Hwire Hwait Ha Hgot Hd.
  destruct (wire_prefix w _ d (at_time e) Hwire Hgot Hd) as (p' & l' & E & Hfin').
  destruct (read_event_message e c0 got c Hwait Ha) as (c1 & [Hl1 Hr1 _ Hs1 Hp1] & Hlive & Hwf & Hc1 & ->).
  destruct Hp1 as (p & t & Hctx & Hfin & Hgot1).
  destruct (parse_so_far p got _ t (at_time e) _ _ _ _ _ Hgot1 Hfin Hwf Hc1 E) as (b' & Eb & Hwf' & Hc').
  exists (given (at_time e) p' b' c1). split.
  - unfold HttpServer._message_callback.
    change (context (set_time_stamp (at_time e) c1)) with (context c1).
    change (context (with_input (_input_buffer c) c1)) with (context c1) in Hctx. rewrite Hctx.
    change (_input_buffer (set_time_stamp (at_time e) c1)) with (_input_buffer c1). rewrite Eb. cbn [negb].
    assert (Hns : is_success p' = false).
    { unfold is_success. apply bool_decide_eq_false. unfold finished in Hfin'. by destruct (_parsing_state p'). }
    rewrite Hns. unfold after_message. by replace (is_reading _) with true.
  - split; [by apply (live_given write_complete_callback close_callback) | exact Hr1 | exact Hwf' | exact Hs1 |].
    exists p', (at_time e). split; [done |]. split; [done |].
    change (_input_buffer (given (at_time e) p' b' c1)) with b'. by rewrite Hc'.
Qed.

Lemma wait_all w c0 es got d c :
  wire_ok w -> waiting c0 got c -> arriving es c ->
  (got ++ arrived es) ++ d = wire_bytes w -> d <> [] ->
  exists c', read_events es c = Ok c' /\ waiting c0 (got ++ arrived es) c'.
Proof.
  intros Hwire. revert got c. induction es as [| e es IH]; intros got c Hwait Harr Hgot Hd.
  { exists c. unfold arrived. simpl. by rewrite app_nil_r. }
  destruct Harr as [Ha Hnext].
  assert (Hsplit : got ++ arrived (e :: es) = (got ++ concat (chunks e)) ++ arrived es)
    by (unfold arrived; simpl; by rewrite app_assoc).
  rewrite Hsplit in Hgot |- *.
  destruct (wait_more w c0 got (arrived es ++ d) e c) as (c1 & E & Hwait1); try done.
  { by rewrite app_assoc. }
  { intros Hnil. apply Hd. by apply app_eq_nil in Hnil as [_ ?]. }
  cbn [read_events]. rewrite E. apply IH; try done. by apply Hnext.
Qed.

(** The event that completes the request. *)
Lemma wait_over w c0 got rest e c :
  wire_ok w -> _need_close (request_of w (at_time e)) = false -> NUL ∉ w_path w ->
  waiting c0 got c -> arrives e c -> got ++ concat (chunks e) = wire_bytes w ++ rest ->
  (let '(r, path) := served (request_of w (at_time e)) (user (outside c0)) in
   enough_room order r path c0 (user (outside c0))) ->
  let '(r, path) := served (request_of w (at_time e)) (user (outside c0)) in
  match read_event e c with
  | Ok c' =>
      fd_of c' = fd_of c0 /\ open_files (user (outside c')) = open_files (user (outside c0)) /\
      ((between_requests rest c' /\ stream c' = stream c0 ++ answer order r path (user (outside c0))) \/
       aborted c')
  | Err err => send_error (fd_of c0) err
  end.
Proof.
  intros Hwire Hkeep Hn Hwait Ha Hgot Hroom.
  destruct (read_event_message e c0 got c Hwait Ha) as (c1 & [_ Hr1 _ Hs1 Hp1] & Hlive & Hwf & Hc1 & ->).
  destruct Hs1 as (Hfd1 & Hst1 & Hout1 & Hu1), Hp1 as (p & t & Hctx & Hfin & Hgot1).
  destruct (wire_parsed w rest (at_time e) Hwire) as (p0 & E & Hreq). rewrite <- Hgot in E.
  destruct (parse_so_far p got _ t (at_time e) _ _ _ _ _ Hgot1 Hfin Hwf Hc1 E) as (b0 & Eb & Hwf0 & Hc0).
  destruct (message_completed callback write_complete_callback close_callback shutdown_fuel
              _ _ _ _ rest (at_time e) c1 Hctx Eb Hc0 Hwf0 Hreq) as (p1 & b1 & _ & Hwf1 & Hc2 & Em & Hreset).
  change (user (outside (with_input (_input_buffer c) c1))) with (user (outside c1)) in Hu1.
  rewrite <- Hu1 in Hroom |- *.
  pose proof (request_answered order beyond alloc write_complete_callback close_callback close_passive
                write_complete_passive shutdown_fuel _ p1 b1 (at_time e) c1 Hlive Hwf1 Hkeep Hn
                Em (Hreset Hkeep)) as Hans.
  pose proof (served_ready (request_of w (at_time e)) (user (outside c1))) as [Hv Hst].
  destruct (served (request_of w (at_time e)) (user (outside c1))) as [r path].
  assert (Hgiven : live (given (at_time e) p1 b1 c1)) by by apply (live_given write_complete_callback close_callback).
  unfold enough_room in Hroom. rewrite <- Hout1 in Hroom.
  specialize (Hans (enough_room_is_room order (static_callbacks write_complete_callback close_callback) alloc
                      close_passive write_complete_passive r path _ _ Hgiven Hv Hst Hroom)).
  destruct (message_callback shutdown_fuel (at_time e) c1) as [c2 |]; [| by rewrite <- Hfd1].
  destruct Hans as (Hfd2 & Hopen & [(Hl2 & Hst2 & Hctx2 & Hb2 & Hr2) | Hab]).
  - unfold after_message. rewrite Hr2. change (is_reading c1) with (is_reading (with_input (_input_buffer c) c1)).
    rewrite Hr1. split; [by etransitivity; [exact Hfd2 | exact Hfd1] |].
    split; [done |]. left. split.
    + split; [done | by rewrite Hr2 | by rewrite Hb2 | by rewrite Hb2 | done].
    + by rewrite Hst2, <- Hst1.
  - rewrite after_message_aborted by done. split; [by etransitivity; [exact Hfd2 | exact Hfd1] |].
    split; [done |]. right. destruct Hab; split; try done. apply released_release. by right.
Qed.

End Arrival.


(** * A request in three pieces *)
#[local] Existing Instance std_strings.

(** The network puts [ds] into the receive buffer. *)
Definition sample_piece (t : Z) (ds : list bytes) : arrival sample_socket :=
  mkArrival (TimePoint.mk t)
    (fun k => mkSocket (s_kernel k) ds (s_finished k) (s_room k) (s_accepted k) (s_shutdown k)) ds.

Definition sample_first : list (arrival sample_socket) :=
  [sample_piece 7 [str "GE"; str "T /sta"]; sample_piece 8 [str "tic/../../etc/passwd HTTP/1.1" ++ [CR]]].
Definition sample_rest : arrival sample_socket := sample_piece 9 [[LF; CR]; [LF] ++ str "GET"].

Abbreviation sample_read_events := (read_events map_to_list [] 0 None None 3 1).

Definition sample_answer : bytes :=
  str "HTTP/1.1 200 OK" ++ crlf ++ str "Content-Length:4" ++ crlf ++
  str "Content-Type:application/octet-stream" ++ crlf ++ crlf ++ str "root".

(** One event of the sample with [n] chunks, by computation. *)
Tactic Notation "sample_arrives" integer(n) :=
  cbn [arriving app sample_first]; split;
  [ split; [by split |]; split; [reflexivity |]; eexists _, _, _; split;
    [ do n (eapply delivers_data; [vm_compute; reflexivity |]); apply delivers_again; vm_compute; reflexivity
    | split; [by apply Nat.leb_le |]; split; [discriminate |];
      split; [vm_compute; reflexivity |]; vm_compute; reflexivity ]
  | let c' := fresh "c" in let E' := fresh "E" in intros c' E'; vm_compute in E'; injection E' as <- ].

