(* ===== verification/ServerStart.v ===== *)
(** Starting a server: [TcpServer::start] of [src/tcp_server.cc] and
    [HttpServer::start] of [example/http/server/src/http_server.cc], in the thread of
    the main loop, whose poller gets the listening socket and whose timers the one
    that looks for inactive connections. *)
From S2P Require Import Prelude TimePoint Timer TimerContainer EventLoopTimers Poller Descriptors FunctorQueue EventLoop EventLoopInvariant EventLoopLife Sockets EventLoopThreadPool TcpServer ListenSocketfd HttpServer.
Open Scope Z_scope.

Section Start.
Context {K Q C : Type} `{Epoll K, Descriptors K, FunctorQueue Q FunctorType}.
Context `{Sockets.Sockets K, AcceptKernel K} `{ServerConnection C}.
Context (threshold : Z) (timerfd_settime : timespec -> settime_outcome) (operator_new : timer_heap -> ptr).
Context (on_connect : C -> result C).
(** Where [new ListenSocketfd] puts its descriptor; the functor that looks for
    inactive connections. *)
Context (listen_address : Z) (remove_inactive : nat).

(** The lambda [start] registers. *)
Definition new_connection_callback (connect_socketfd : Z) (peer_address : bytes)
    (time_stamp : TimePoint.t) (s : TcpServer C) : result (TcpServer C) :=
  let* (_, s) := TcpServer._new_connection_callback on_connect connect_socketfd s in Ok s.

(** The listening socket: made, bound, and put into the loop; with its spare
    descriptor. *)
Definition start_listening (local_address : InetAddress) (s : TcpServer C) (loop : EventLoop K Q)
    : result (Z * EventLoop K Q) :=
  let* (listen_socketfd, k) := open_listen_socketfd local_address (EventLoop.kernel_of loop) in
  let* l := new_ListenSocketfd listen_address listen_socketfd
              (Descriptors.with_kernel k (_event_poller loop)) s in
  let* l := ListenSocketfd.start (Some new_connection_callback) l in
  Ok (_spare_fd l,
      with_poll (<[listen_address := ListenSocketfd._pollable_file_descriptor l]> (descriptors loop))
        (ListenSocketfd._loop l) loop).

(** [message_callback]: whether one is registered.  [None]: the server had been
    started before. *)
Definition start (message_callback : bool) (local_address : InetAddress) (s : TcpServer C)
    (loop : EventLoop K Q) : result (TcpServer C * option Z * EventLoop K Q) :=
  if TcpServer._is_started s then Ok (s, None, loop)
  else if negb message_callback then Err Fatal
  else
    let* (spare_fd, loop) := start_listening local_address s loop in
    let* s := start_thread_pool s in
    Ok (s, Some spare_fd, loop).

Definition start_http (http_request_callback : bool) (local_address : InetAddress) (h : HttpServer C)
    (loop : EventLoop K Q) : result (HttpServer C * option Z * EventLoop K Q) :=
  if negb http_request_callback then Err Fatal
  else
    let interval := _connection_timeout_interval h in
    let* loop :=
      if TimeInterval.lt interval (TimeInterval.mk TimeInterval.FOREVER)
      then
        let* (_, loop) := EventLoop.run_after_time_interval threshold timerfd_settime operator_new
                            interval interval (-1) remove_inactive loop in
        Ok loop
      else Ok loop in
    let* (s, spare_fd, loop) := start true local_address (_tcp_server h) loop in
    Ok (with_tcp_server s h, spare_fd, loop).
End Start.

(** * What the calls leave alone *)

(** A call that concerns a socket only. *)
Definition socket_call {K} `{Epoll K, Descriptors K} (k k' : K) : Prop :=
  same_modes k k' /\ counter k' = counter k.

(** Documented behaviour: [socket] and [open] open a descriptor, the others change
    the socket. *)
Class ListenLaws (K : Type) `{Epoll K, Descriptors K} `{Sockets.Sockets K, AcceptKernel K} : Prop := {
  socket_opens k fd k' : Sockets.sys_socket k = (fd, k') -> opens k fd k' /\ counter k' = counter k;
  reuseaddr_law fd k k' : setsockopt_so_reuseaddr fd k = Some k' -> socket_call k k';
  bind_law fd m k k' : sys_bind fd m k = Some k' -> socket_call k k';
  listen_law fd n k k' : sys_listen fd n k = Some k' -> socket_call k k';
  open_null_opens k fd k' :
    sys_open_null k = Some (fd, k') -> fd <> -1 /\ opens k fd k' /\ counter k' = counter k
}.

(** A functor that may be left with a loop may be left with it when it has more
    descriptors. *)
Lemma command_ok_more threshold horizon (g g' : gset Z) may_cancel c :
  g ⊆ g' -> command_ok threshold horizon g may_cancel c -> command_ok threshold horizon g' may_cancel c.
Proof.
  intros Hg. induction c as [a | a c | | f i IH] using command_ind'; simpl; [done | set_solver | done |].
  induction IH as [| c f Hc _ IHf]; [done |]. intros [H1 H2]. split; [by apply Hc | by apply IHf].
Qed.

Lemma functor_ok_more threshold horizon (g g' : gset Z) may_cancel f :
  g ⊆ g' -> functor_ok threshold horizon g may_cancel f -> functor_ok threshold horizon g' may_cancel f.
Proof.
  intros Hg. induction f as [| c f IH]; [done |]. intros [H1 H2].
  split; [by eapply command_ok_more | by apply IH].
Qed.

Section Joining.
Set Default Proof Using "All".
Context {K Q C : Type} {HE : Epoll K} {HEl : EpollLaws K} {HD : Descriptors K}
  {HDl : DescriptorLaws K} {HQ : FunctorQueue Q FunctorType} {HQl : FunctorQueueLaws Q FunctorType}.
Context {HSo : Sockets.Sockets K} {HA : AcceptKernel K} {HLl : ListenLaws K} `{ServerConnection C}.
Context (threshold horizon : Z).
Context (timerfd_settime : timespec -> settime_outcome) (operator_new : timer_heap -> ptr).
Context (eventfd_address : nat -> Z) (timerfd_address : Z).
Context (may_cancel : bool).

Abbreviation loop_ok n guests :=
  (EventLoopInvariant.loop_ok threshold horizon eventfd_address timerfd_address n guests may_cancel).
Abbreviation own n := (EventLoopInvariant.own eventfd_address timerfd_address n).

(** ** A descriptor joins a loop *)
Lemma guest_joins n g T (s : EventLoop K Q) a d' p' :
  loop_ok n g T s -> a ∉ own n -> a ∉ g ->
  table_ok (<[a := d']> (descriptors s)) p' ->
  counter (kernel p') = counter (EventLoop.kernel_of s) ->
  (forall fd, fd ∈ opened (EventLoop.kernel_of s) ->
     fcntl_getfl fd (kernel p') = fcntl_getfl fd (EventLoop.kernel_of s)) ->
  loop_ok n ({[a]} ∪ g) T (with_poll (<[a := d']> (descriptors s)) p' s).
Proof.
  intros ([[Htab Hdom Hown] Hlen Ho Hqs Ht Hc] & He & Htf) Hnew Hg Htab2 Hcnt Hmd.
  split; [| split; [exact He | exact Htf]].
  constructor; cbn [descriptors _event_poller with_poll _functor_blocking_queues _eventfd_pilot_lamps
    _timerfd _eventfds clock]; try done.
  - constructor; [done | |].
    + intros b. rewrite lookup_insert_is_Some', Hdom, elem_of_union, elem_of_singleton.
      split; [intros [<- | [? | ?]] | intros [? | [-> | ?]]]; tauto.
    + intros b e Hb. rewrite lookup_insert_ne by (intros <-; done). by apply Hown.
  - intros i Hi. destruct (Hqs i Hi) as [Hq (lamp & e & Hl & Hde & Hce & Hnb & Hed)].
    constructor.
    { destruct Hq as (q & Hq1 & Hq2 & Hq3 & Hq4). exists q. split; [exact Hq1 |]. split; [exact Hq2 |].
      split; [| exact Hq4]. eapply Forall_impl; [exact Hq3 |]. intros f. apply functor_ok_more. set_solver. }
    exists lamp, e. split; [exact Hl |].
    cbn [descriptors with_poll edges]. split.
    { rewrite lookup_insert_ne; [done |]. intros Heq. apply Hnew. rewrite Heq.
      apply elem_of_cons. right. apply list_elem_of_fmap. exists i. split; [done | apply elem_of_seq; lia]. }
    unfold EventLoop.kernel_of in *. cbn [_event_poller with_poll]. rewrite Hcnt.
    split; [exact Hce |]. split; [| exact Hed].
    destruct Hnb as (fl & Hfl & Hb). exists fl. rewrite Hmd; [done |].
    destruct (tb_mirror _ _ Htab _ _ Hde) as [([_ Hopen] & _) _]. exact Hopen.
  - destruct Ht as [Hinv Hh Hp]. constructor; try done.
    intros Hf. destruct (Hp Hf) as [[Hu Hx] | Hx]; [left | by right]. split; [done |].
    destruct Hx as [(e & Hde & Hed) | Hx]; [left | by right].
    exists e. cbn [descriptors with_poll edges]. split; [| done]. rewrite lookup_insert_ne; [done |].
    intros Heq. apply Hnew. rewrite Heq. apply elem_of_cons. by left.
Qed.

(** ** The timer for inactive connections *)
Lemma timers_change n g T (s : EventLoop K Q) t :
  loop_ok n g T s -> EventLoopTimers.inv threshold horizon (fired s) t ->
  loop_ok n g T (with_timers t (timer_unread s) (fired s) s).
Proof.
  intros ([Hd Hlen Ho Hqs [Hinv Hh Hp] Hc] & He & Htf) Ht. split; [| by split].
  constructor; try done; try (intros i Hi; destruct (Hqs i Hi); by constructor).
Qed.

Lemma timer_joins n g T (s : EventLoop K Q) i callback :
  environment_ok threshold timerfd_settime operator_new -> loop_ok n g T s ->
  let d := TimeInterval.nanoseconds i in
  T <= horizon -> 0 < T + d -> horizon + 2 * d < limit threshold -> 0 <= d ->
  exists p t, EventLoop.run_after_time_interval threshold timerfd_settime operator_new i i (-1) callback s
      = Ok (p, with_timers t (timer_unread s) (fired s) s) /\
    loop_ok n g T (with_timers t (timer_unread s) (fired s) s) /\
    heap t !! p = Some (new_Timer (TimePoint.mk (T + d)) i (-1) callback) /\
    _timer_container t = set_insert (TimePoint.mk (T + d), p) (_timer_container (_timers s)).
Proof.
  intros Henv Hok d HT Hpos Hlim Hd. pose proof Hok as ([_ _ _ _ [Hinv _ _] [Hc H0]] & _ & _).
  assert (Hadm : admissible threshold horizon (new_Timer (TimePoint.mk (T + d)) i (-1) callback)).
  { split; [apply new_Timer_wf |]. unfold new_Timer, ns. simpl. fold d. lia. }
  destruct (run_at_inv threshold horizon timerfd_settime operator_new Henv (fired s) any_timer [] _ _ _ _
              (_timers s) Hinv (pending_none _ _ _ _) Hadm)
    as (p & t & E & Hinv' & _ & _ & _ & _ & Hh & Hcont).
  exists p, t. split; [| split; [by apply timers_change | split; [by rewrite Hh, lookup_insert_eq | done]]].
  unfold EventLoop.run_after_time_interval, TimePoint.add. unfold ns in Hc. rewrite Hc.
  change (TimeInterval.nanoseconds i) with d. pose proof (threshold_range _ _ _ Henv).
  assert (TimePoint.nanoseconds_from_epoch TimePoint.FOREVER = int64_max - 1) as Ef by done.
  unfold limit, ns in *. rewrite i64_ok by (unfold int64_max, int64_min in *; lia).
  by rewrite E.
Qed.

(** ** The listening socket *)
Lemma socket_call_trans (k1 k2 k3 : K) : socket_call k1 k2 -> socket_call k2 k3 -> socket_call k1 k3.
Proof using Type.
  intros [[(? & ? & ?) ?] ?] [[(? & ? & ?) ?] ?].
  split; [split; [repeat split; congruence | intros fd; congruence] | congruence].
Qed.

(** A kernel with a new socket in it, and perhaps another descriptor; [old] is what
    the table was for. *)
Lemma socket_joins ds p a fd k :
  table_ok ds p -> table_covers p -> ds !! a = None ->
  (fd ∉ opened (kernel p)) -> 0 <= fd -> (forall limits, getrlimit (kernel p) = Some limits -> fd < limits.1) ->
  interest (kernel p) !! fd = None -> fd ∈ opened k -> opened (kernel p) ⊆ opened k ->
  interest k = interest (kernel p) ->
  let d := mkPfd a fd false false true 0 (mkEvent a 0) in
  table_ok (<[a := d]> ds) (Descriptors.with_kernel k p).
Proof.
  intros Htab Hcov Hnone Hno H0 Hlim Hint Hop Hsub Hi d.
  destruct (getrlimit_ok (kernel p)) as (soft & hard & Hg & _ & _).
  pose proof (Hlim _ Hg) as Hlt. pose proof (Hcov _ Hg) as Hle. simpl in Hlt, Hle.
  apply (table_insert ds p); try done.
  - split; [split; [simpl; lia | exact Hop] |]. split; [by left |]. split; [done |].
    split; [done |]. simpl. by rewrite Hi.
  - apply poller_ok_kernel; [done | apply (tb_poller _ _ Htab)].
  - simpl. intros b e Hb. exact (table_new_fd ds p fd Htab Hno b e Hb).
Qed.

Context (on_connect : C -> result C) (listen_address : Z).

(** The loop listens on a socket bound to [a]; [spare] is its spare descriptor. *)
Definition listening_on (a : InetAddress) (spare : Z) (s : EventLoop K Q) : Prop :=
  exists d len k1 k2 k3, descriptors s !! listen_address = Some d /\
    Poller._is_reading d = true /\ Poller._is_detached d = false /\
    get_address_length a = Ok len /\ sys_bind (_fd d) (take len (get_address a)) k1 = Some k2 /\
    sys_listen (_fd d) SOMAXCONN k2 = Some k3 /\ nonblocking (_fd d) (EventLoop.kernel_of s) /\
    spare <> _fd d /\ spare ∈ opened (EventLoop.kernel_of s).

Lemma open_listen_ok a len (k : K) :
  get_address_length a = Ok len ->
  match open_listen_socketfd a k with
  | Err e => e = Fatal
  | Ok (fd, k') => fd <> -1 /\ exists k0, opens k fd k0 /\ counter k0 = counter k /\ socket_call k0 k' /\
      exists k1 k2 k3, sys_bind fd (take len (get_address a)) k1 = Some k2 /\
        sys_listen fd SOMAXCONN k2 = Some k3
  end.
Proof using HLl.
  intros Hlen. unfold open_listen_socketfd, create_socketfd, set_socketfd_as_address_reusable, bind, listen.
  destruct (Sockets.sys_socket k) as [fd k0] eqn:E0. destruct (Z.eqb_spec fd (-1)) as [| Hne]; [done |].
  destruct (socket_opens _ _ _ E0) as [Hop Hc].
  destruct (setsockopt_so_reuseaddr fd k0) as [k1 |] eqn:E1; [| done]. cbn [of_option]. rewrite Hlen.
  destruct (sys_bind fd _ k1) as [k2 |] eqn:E2; [| done]. cbn [of_option].
  destruct (sys_listen fd _ k2) as [k3 |] eqn:E3; [| done]. cbn [of_option].
  split; [done |]. exists k0. split; [done |]. split; [done |]. split; [| by exists k1, k2, k3].
  eapply socket_call_trans; [by eapply reuseaddr_law |].
  eapply socket_call_trans; [by eapply bind_law | by eapply listen_law].
Qed.

Lemma start_listening_ok n g T a len srv (s : EventLoop K Q) :
  loop_ok n g T s -> table_covers (_event_poller s) -> listen_address ∉ own n -> listen_address ∉ g ->
  get_address_length a = Ok len ->
  match start_listening on_connect listen_address a srv s with
  | Err e => e = Fatal
  | Ok (spare, s') => loop_ok n ({[listen_address]} ∪ g) T s' /\ table_covers (_event_poller s') /\
      _functor_blocking_queues s' = _functor_blocking_queues s /\ _timers s' = _timers s /\
      (forall b, b <> listen_address -> descriptors s' !! b = descriptors s !! b) /\
      listening_on a spare s'
  end.
Proof.
  intros Hok Hcov Hnew Hg Hlen. pose proof Hok as ([[Htab Hdom Hown] _ _ _ _ _] & _ & _).
  assert (Hnone : descriptors s !! listen_address = None).
  { apply eq_None_not_Some. rewrite Hdom. tauto. }
  unfold start_listening. pose proof (open_listen_ok a len (EventLoop.kernel_of s) Hlen) as Ho.
  destruct (open_listen_socketfd a _) as [[fd k4] |]; [| done].
  destruct Ho as (Hne & k0 & Hop & Hc0 & [[(Ho4 & Hi4 & Hr4) Hm4] Hc4] & k1 & k2 & k3 & Eb & El).
  destruct Hop as [[-> _] | (Hno & H0 & Hlim & Hint & Ho0 & Hi0 & Hr0 & Hm0)]; [done |].
  unfold new_ListenSocketfd, construct_PollableFd, new_PollableFd. rewrite (proj2 (Z.ltb_ge _ _) H0).
  cbn -[set_fd_as_nonblocking ListenSocketfd.start insert lookup SOMAXCONN].
  destruct (set_nonblocking_ok fd k4) as (k5 & -> & Hnb & (Ho5 & Hi5 & Hr5) & Hc5 & Hm5).
  { rewrite Ho4, Ho0. set_solver. }
  unfold ListenSocketfd.start, _open_spare_fd. cbn -[enable_read_event insert lookup SOMAXCONN].
  destruct (sys_open_null k5) as [[spare k6] |] eqn:E6; [| done].
  destruct (open_null_opens _ _ _ E6) as (Hsp & Hop6 & Hc6).
  destruct Hop6 as [[-> _] | (Hno6 & H06 & _ & _ & Ho6 & Hi6 & Hr6 & Hm6)]; [done |].
  cbn -[enable_read_event insert lookup SOMAXCONN].
  set (d := mkPfd listen_address fd false false true 0 (mkEvent listen_address 0)).
  set (p := Descriptors.with_kernel k6 (_event_poller s)).
  change (mkPoller k6 _ _) with p.
  assert (Hsp2 : spare <> fd) by (intros ->; apply Hno6; rewrite Ho5, Ho4, Ho0; set_solver).
  assert (Htab1 : table_ok (<[listen_address := d]> (descriptors s)) p).
  { apply socket_joins; try done.
    - rewrite Ho6, Ho5, Ho4, Ho0. set_solver.
    - rewrite Ho6, Ho5, Ho4, Ho0. unfold EventLoop.kernel_of. set_solver.
    - rewrite Hi6, Hi5, Hi4. done. }
  destruct (tb_mirror _ _ Htab1 listen_address d) as [Hm _]; [by rewrite lookup_insert_eq |].
  destruct (run_command_good EnableRead d p Hm (tb_poller _ _ Htab1))
    as ([d' p'] & E & Hm' & Hok' & Hfd & Hoth).
  destruct (run_command_flags EnableRead d p d' p' Hm E) as [Hf Hctl].
  destruct (run_command_self EnableRead d p d' p' E) as [Hs _].
  change (run_command EnableRead (d, p)) with (enable_read_event (d, p)) in E. rewrite E.
  cbn -[insert lookup SOMAXCONN]. unfold flags, flags_after in Hf. simpl in Hf. injection Hf as Hrd _ Hdet.
  cbn [fst snd] in *. pose proof Hoth as (Hl' & Ho' & _).
  destruct (one_ctl_frame _ _ Hctl) as [Hcp Hmp].
  assert (Hgl : getrlimit (kernel p') = getrlimit (EventLoop.kernel_of s)).
  { destruct Hctl as [-> | (op & x & ev & Ectl)].
    - simpl. congruence.
    - destruct (ctl_frame _ _ _ _ _ Ectl) as (_ & -> & _). simpl. congruence. }
  assert (Hfdd : _fd d = fd) by done.
  assert (Hmode : forall x, x <> fd -> x <> spare ->
            fcntl_getfl x (kernel p') = fcntl_getfl x (EventLoop.kernel_of s)).
  { intros x Hx Hx2. rewrite Hmp. simpl. rewrite Hm6, Hm5, Hm4, Hm0 by done. done. }
  split; [| split; [| split; [done | split; [done | split]]]].
  - apply guest_joins; try done.
    + rewrite <- (insert_insert_eq (descriptors s) listen_address d' d).
      by apply (table_update _ p _ d); [| by rewrite lookup_insert_eq | | | | |].
    + rewrite Hcp. simpl. congruence.
    + intros x Hx. apply Hmode.
      * intros ->. done.
      * intros ->. apply Hno6. rewrite Ho5, Ho4, Ho0. set_solver.
  - intros limits. rewrite Hl', Hgl. apply Hcov.
  - intros b Hb. by rewrite lookup_insert_ne by done.
  - exists d', len, k1, k2, k3. cbn [descriptors with_poll]. rewrite lookup_insert_eq, Hfd, Hfdd.
    unfold EventLoop.kernel_of. cbn [_event_poller with_poll].
    do 6 (split; [done |]). split; [| split; [done |]].
    + destruct Hnb as (fl & Hfl & Hb). exists fl. rewrite Hmp. simpl. by rewrite Hm6 by congruence.
    + rewrite Ho'. simpl. rewrite Ho6. set_solver.
Qed.
End Joining.
