(* ===== verification/Programs.v ===== *)
(** The [main] functions of the example servers, [example/http/server/server.cc] and
    [example/echo/server/server.cc]: what they put together before the loop runs.

    The address of the server is in [Sockets], the callbacks it registers in [Echo] and
    [StaticServer]; [None] is the exit of the HTTP server when it has too many
    arguments. *)
From S2P Require Import Prelude TimePoint Timer TimerContainer EventLoopTimers Poller Descriptors FunctorQueue BlockingQueue Signals EventLoop EventLoopInvariant EventLoopLife Shutdown Sockets EventLoopThreadPool TcpServer ListenSocketfd ConnectionDestroying HttpServer LogBuilder ServerStart.
Open Scope Z_scope.

(** The settings of the log, made before anything can be logged. *)
Record log_settings := mkLogSettings {
  _base_name : bytes;
  _need_output_directly_to_terminal : bool;
  _log_level_mask : LogLevel
}.

Record program (K Q S : Type) := mkProgram {
  log_config : log_settings;
  signal_set : SignalSet;
  main_loop : EventLoop K Q;
  main_server : S;
  spare_descriptor : option Z            (* of the listening socket *)
}.
Arguments mkProgram {K Q S}.
Arguments log_config {K Q S}.
Arguments signal_set {K Q S}.
Arguments main_loop {K Q S}.
Arguments main_server {K Q S}.
Arguments spare_descriptor {K Q S}.

Section Main.
Context {K Q C : Type} `{Epoll K, Descriptors K, SignalCalls K, FunctorQueue Q FunctorType}.
Context `{Sockets.Sockets K, AcceptKernel K} `{ServerConnection C}.
Context (threshold : Z) (timerfd_settime : timespec -> settime_outcome) (operator_new : timer_heap -> ptr).
Context (new_queue : Q) (eventfd_address : nat -> Z) (timerfd_address : Z).
(** Where [new Signalfd] and [new ListenSocketfd] put their descriptors. *)
Context (signalfd_address listen_address : Z).
Context (inet_pton : Z -> bytes -> option bytes).
(** The connect-success callback, the functor that yells and the one that looks for
    inactive connections, the thread, the clock. *)
Context (on_connect : C -> result C) (yell remove_inactive : nat) (tid : Z) (now : TimePoint.t).

Abbreviation loop_with queues k :=
  (EventLoop.new_EventLoop threshold timerfd_settime operator_new new_queue eventfd_address timerfd_address
     yell 0 queues tid now k).

(** The descriptor of the signals joins the loop. *)
Definition signalfd_config (signal_set : SignalSet) (s : EventLoop K Q) : result (EventLoop K Q) :=
  let* (fd, k) := create_signalfd signal_set 0 (EventLoop.kernel_of s) in
  let* (d, p) := new_Signalfd signalfd_address fd (Descriptors.with_kernel k (_event_poller s)) in
  let* (d, p) := signalfd_start true (d, p) in
  Ok (with_poll (<[signalfd_address := d]> (descriptors s)) p s).

Definition echo_server_main (k : K) : result (program K Q (TcpServer C)) :=
  let* (signal_set, k) := signal_config k in
  let log := mkLogSettings (str "echo-server") false FATAL in
  let thread_pool_capacity := 1%nat in
  let number_of_functor_blocking_queues := thread_pool_capacity in
  let* loop := loop_with number_of_functor_blocking_queues k in
  let* server_address := new_InetAddress inet_pton (str "127.0.0.1") 8080 IPv4 in
  let server := new_TcpServer thread_pool_capacity number_of_functor_blocking_queues in
  let* loop := signalfd_config signal_set loop in
  let* (server, spare_fd, loop) :=
    ServerStart.start on_connect listen_address true server_address server loop in
  Ok (mkProgram log signal_set loop server spare_fd).

(** [benchmark]: whether [__HTTP_EXAMPLE_RUN_BENCHMARK] is defined. *)
Definition http_server_main (benchmark : bool) (argv : list bytes) (k : K)
    : option (result (program K Q (HttpServer C))) :=
  if (2 <? length argv)%nat then None
  else Some (
    let* (signal_set, k) := signal_config k in
    let log_file_base_name := match argv with [_; name] => name | _ => str "http-server" end in
    let log := mkLogSettings log_file_base_name false (if benchmark then FATAL else INFO) in
    let* k := set_limit_of_max_number_of_opened_file_descriptors_per_process 60000 k in
    let thread_pool_capacity := 4%nat in
    let number_of_functor_blocking_queues := thread_pool_capacity in
    let* loop := loop_with number_of_functor_blocking_queues k in
    let* server_address := new_InetAddress inet_pton (str "127.0.0.1") 8080 IPv4 in
    let server := new_HttpServer thread_pool_capacity number_of_functor_blocking_queues now in
    let* loop := signalfd_config signal_set loop in
    let server :=
      set_connection_timeout_interval
        (TimeInterval.mk (if benchmark then TimeInterval.FOREVER else 15 * TimeInterval.SECOND)) server in
    let* (server, spare_fd, loop) :=
      start_http threshold timerfd_settime operator_new on_connect listen_address remove_inactive true
        server_address server loop in
    Ok (mkProgram log signal_set loop server spare_fd)).
End Main.

(** Documented behaviour: blocking signals touches no descriptor, and [signalfd] opens
    one. *)
Class SignalLaws (K : Type) `{Epoll K, Descriptors K, SignalCalls K} : Prop := {
  block_law set k k' : sigprocmask_block set k = Some k' -> same_files k k';
  signalfd_opens set flags k fd k' :
    sys_signalfd set flags k = (fd, k') -> opens k fd k' /\ counter k' = counter k
}.

Section Ready.
Set Default Proof Using "All".
Context {K Q C : Type} {HE : Epoll K} {HEl : EpollLaws K} {HD : Descriptors K}
  {HDl : DescriptorLaws K} {HS : SignalCalls K} {HSl : SignalLaws K}
  {HQ : FunctorQueue Q FunctorType} {HQl : FunctorQueueLaws Q FunctorType}.
Context {HSo : Sockets.Sockets K} {HA : AcceptKernel K} {HLl : ListenLaws K} `{ServerConnection C}.
Context (threshold horizon : Z).
Context (timerfd_settime : timespec -> settime_outcome).
Context (operator_new : timer_heap -> ptr).
Context (new_queue : Q).
Context (eventfd_address : nat -> Z) (timerfd_address signalfd_address listen_address : Z).
Context (inet_pton : Z -> bytes -> option bytes) (inet_ntop : Z -> bytes -> bytes).
Context (HP : presentation inet_pton inet_ntop).
Context (on_connect : C -> result C) (yell remove_inactive : nat) (tid : Z).
Context (may_cancel : bool).

Abbreviation loop_ok n guests :=
  (EventLoopInvariant.loop_ok threshold horizon eventfd_address timerfd_address n guests may_cancel).
Abbreviation own n := (EventLoopInvariant.own eventfd_address timerfd_address n).
Abbreviation surroundings n now :=
  (surroundings_fine threshold horizon timerfd_settime operator_new new_queue eventfd_address timerfd_address n now).

(** A descriptor at [a] is in the poller, for reading. *)
Definition reading_at (a : Z) (s : EventLoop K Q) : Prop :=
  exists d, descriptors s !! a = Some d /\ Poller._is_reading d = true /\ Poller._is_detached d = false.

(** A loop of [n] queues that has started to listen for signals. *)
Lemma signalfd_config_ok n T set (s : EventLoop K Q) :
  loop_ok n ∅ T s -> table_covers (_event_poller s) -> signalfd_address ∉ own n ->
  match signalfd_config signalfd_address set s with
  | Err e => e = Fatal
  | Ok s' => loop_ok n {[signalfd_address]} T s' /\ table_covers (_event_poller s') /\
      _timers s' = _timers s /\ _need_stop s' = _need_stop s /\
      reading_at signalfd_address s'
  end.
Proof.
  intros Hok Hcov Hnew. pose proof Hok as ([[Htab Hdom _] _ _ _ _ _] & _ & _).
  assert (Hnone : descriptors s !! signalfd_address = None).
  { apply eq_None_not_Some. rewrite Hdom. intros [? | ?%elem_of_empty]; done. }
  unfold signalfd_config, create_signalfd. destruct (sys_signalfd _ _ _) as [fd k] eqn:Efd.
  destruct (signalfd_opens _ _ _ _ _ Efd) as [Hop Hcnt]. destruct (fd =? -1); [done |].
  unfold new_Signalfd.
  pose proof (construct_own threshold horizon timerfd_settime operator_new new_queue eventfd_address timerfd_address may_cancel _ _ signalfd_address fd k Htab Hcov Hnone Hop) as Hcon.
  destruct (message_fd_construct _ _ _) as [[d p] |]; [| done].
  destruct Hcon as (Hd & Htab1 & Hcov1 & Hnb1 & Hcnt1 & Hno & Ho1 & Hi1 & Hmd1).
  destruct (start_own threshold horizon timerfd_settime operator_new new_queue eventfd_address timerfd_address may_cancel _ p signalfd_address d Htab1 Hcov1) as
    (d' & p' & E & Hfd' & Hdet & Htab2 & Hcov2 & Ho2 & Hcnt2 & Hmd2);
    [by rewrite lookup_insert_eq | by rewrite Hd |].
  change (signalfd_start true (d, p)) with (message_fd_start true (d, p)). rewrite E.
  rewrite insert_insert_eq in Htab2.
  split; [| split; [done | split; [done | split; [done |]]]].
  - rewrite <- (union_empty_r_L {[signalfd_address]}).
    apply (guest_joins threshold horizon timerfd_settime operator_new eventfd_address timerfd_address);
      [done | done | apply not_elem_of_empty | done | |].
    + by rewrite Hcnt2, Hcnt1, Hcnt.
    + intros x Hx. unfold EventLoop.kernel_of. rewrite Hmd2, Hmd1; [done |]. by intros ->.
  - exists d'. cbn [descriptors with_poll]. rewrite lookup_insert_eq. split; [done |]. split; [| done].
    unfold message_fd_start in E. cbn [negb] in E. rewrite Hd in E. unfold enable_read_event in E.
    cbn [fresh_message_fd Poller._is_reading] in E. unfold _register_event in E.
    destruct (register_event_for_fd _ _ p); [| done]. by injection E as <- _.
Qed.

(** A server that is started and has accepted no connection yet, whose functors find
    their queues in the main loop. *)
Definition server_ready (n : nat) (s : TcpServer C) : Prop :=
  accounted (mkWorld s ∅ ∅) /\ TcpServer._is_started s = true /\ number_of_queues s = n /\
  exists p, _thread_pool_ptr s = Some p /\ pool_running p /\ _thread_pool_capasity p = n.

Lemma pool_of_server n :
  (0 < n)%nat -> exists s, start_thread_pool (new_TcpServer (C := C) n n) = Ok s /\ server_ready n s.
Proof.
  intros Hn. destruct (pool_starts n Hn) as (p0 & p1 & E0 & E1 & Hr & Hcap).
  assert (Hlt : (0 <? n)%nat = true) by by apply Nat.ltb_lt.
  unfold start_thread_pool. change (_thread_pool_capacity (new_TcpServer n n)) with n.
  rewrite Hlt, E0, E1. eexists. split; [done |].
  split; [| split; [done | split; [done | by exists p1]]].
  assert (Hw : waiting (with_state true (TcpServer._is_stopped (with_pool (Some p1) (new_TcpServer (C := C) n n)))
                          (with_pool (Some p1) (new_TcpServer (C := C) n n))) = []).
  { unfold waiting. cbn [queued number_of_queues with_state with_pool new_TcpServer].
    by induction (seq 0 n) as [| i l IH]. }
  split; cbn [srv chosen closed].
  - rewrite Hw. unfold table. cbn. set_solver.
  - rewrite Hw. constructor.
  - rewrite Hw. set_solver.
  - set_solver.
  - intros id Hid. by rewrite dom_empty_L in Hid; apply elem_of_empty in Hid.
  - cbn. lia.
  - intros id i Hi. by rewrite lookup_empty in Hi.
  - split; [exact Hn |]. change (_thread_pool_capacity _) with n. rewrite Hlt.
    exists p1. split; [done |]. split; [done |]. by rewrite Hcap.
Qed.

Definition yell_time (T : Z) : TimePoint.t := TimePoint.mk (T + 3 * TimeInterval.SECOND).

(** The timers of a loop that began at [T]: the one that yells, and the one that looks
    for connections inactive for [i]. *)
Definition timers_set (T : Z) (inactive : option TimeInterval.t) (t : loop_timers) : Prop :=
  match inactive with
  | None => exists q, _timer_container t = [(yell_time T, q)]
  | Some i =>
      let first := TimePoint.mk (T + TimeInterval.nanoseconds i) in
      exists q q', _timer_container t = [(yell_time T, q); (first, q')] /\
        heap t !! q' = Some (new_Timer first i (-1) remove_inactive)
  end.

(** What a server program has put together when its loop begins. *)
Record set_up {S} (n : nat) (T : Z) (inactive : option TimeInterval.t) (p : program K Q S)
    (s : TcpServer C) : Prop := {
  su_signals : signal_set p = list_to_set watched_signals;
  su_loop : loop_ok n ({[listen_address]} ∪ {[signalfd_address]}) T (main_loop p);
  su_queues : length (_functor_blocking_queues (main_loop p)) = n;
  su_running : _need_stop (main_loop p) = false;
  su_signalfd : reading_at signalfd_address (main_loop p);
  su_listening : exists a spare,
    new_InetAddress inet_pton (str "127.0.0.1") 8080 IPv4 = Ok a /\
    spare_descriptor p = Some spare /\ listening_on listen_address a spare (main_loop p);
  su_timers : timers_set T inactive (_timers (main_loop p));
  su_server : server_ready n s
}.

(** The loop with its signals, from a kernel that polls nothing. *)
Lemma main_loop_ok n now set k :
  surroundings n now -> (0 < n)%nat -> interest k = ∅ ->
  match EventLoop.new_EventLoop threshold timerfd_settime operator_new new_queue eventfd_address
                       timerfd_address yell 0 n tid (TimePoint.mk now) k with
  | Err e => e = Fatal \/ e = Uncaught
  | Ok s => signalfd_address ∉ own n ->
      match signalfd_config signalfd_address set s with
      | Err e => e = Fatal
      | Ok s => loop_ok n {[signalfd_address]} now s /\ table_covers (_event_poller s) /\
          timers_set now None (_timers s) /\ _need_stop s = false /\ reading_at signalfd_address s
      end
  end.
Proof.
  intros Hf Hn Hi.
  pose proof (new_EventLoop_fresh threshold horizon timerfd_settime operator_new new_queue eventfd_address
                timerfd_address may_cancel yell 0 n tid (TimePoint.mk now) k) as Hfresh.
  rewrite Nat.max_l in Hfresh by lia. specialize (Hfresh Hf Hi).
  destruct (EventLoop.new_EventLoop _ _ _ _ _ _ _ _ _ _ _ _) as [s |]; [| done]. intros Hnew.
  pose proof (signalfd_config_ok n now set s (fr_ok _ _ _ _ _ _ _ _ _ Hfresh)
                (fr_covers _ _ _ _ _ _ _ _ _ Hfresh) Hnew) as Hs.
  destruct (signalfd_config _ _ s) as [s' |]; [| done].
  destruct Hs as (Hok & Hcov & Ht & Hst & Hr). rewrite Ht, Hst.
  split; [done |]. split; [done |]. split; [exact (fr_timers _ _ _ _ _ _ _ _ _ Hfresh) |].
  split; [exact (fr_stop _ _ _ _ _ _ _ _ _ Hfresh) | done].
Qed.

Lemma signal_config_ok k :
  match signal_config k with
  | Err e => e = Fatal
  | Ok (set, k') => set = list_to_set watched_signals /\ same_files k k'
  end.
Proof.
  unfold signal_config. rewrite watched_set. unfold block_signals.
  destruct (sigprocmask_block _ k) as [k' |] eqn:E; [| done]. by apply block_law in E.
Qed.

Lemma limit_ok limit k :
  0 <= limit ->
  exists k', set_limit_of_max_number_of_opened_file_descriptors_per_process limit k = Ok k' /\
    opened k' = opened k /\ interest k' = interest k.
Proof.
  intros Hl. destruct (getrlimit_ok k) as (soft & hard & E & Hr & _).
  unfold set_limit_of_max_number_of_opened_file_descriptors_per_process. rewrite E. cbn [of_option].
  destruct (setrlimit_below soft hard (Z.min limit hard) k E) as (k' & -> & E' & Ho & Hi); [lia |].
  cbn [of_option]. rewrite E'. by exists k'.
Qed.

(** [TcpServer::start] on such a loop. *)
Lemma server_started n T a len (s : EventLoop K Q) inactive :
  (0 < n)%nat -> loop_ok n {[signalfd_address]} T s -> table_covers (_event_poller s) ->
  reading_at signalfd_address s -> _need_stop s = false -> timers_set T inactive (_timers s) ->
  listen_address ∉ own n -> listen_address <> signalfd_address ->
  new_InetAddress inet_pton (str "127.0.0.1") 8080 IPv4 = Ok a -> get_address_length a = Ok len ->
  match ServerStart.start on_connect listen_address true a (new_TcpServer n n) s with
  | Err e => e = Fatal
  | Ok (srv, spare, s') => forall S log (main : S),
      set_up n T inactive (mkProgram log (list_to_set watched_signals) s' main spare) srv
  end.
Proof.
  intros Hn Hok Hcov Hr Hst Ht Hnew Hne Ea Hlen. unfold ServerStart.start. cbn [TcpServer._is_started new_TcpServer negb].
  pose proof (start_listening_ok threshold horizon timerfd_settime operator_new eventfd_address timerfd_address
                may_cancel on_connect listen_address n {[signalfd_address]} T a len
                (new_TcpServer n n) s Hok Hcov Hnew) as Hl.
  specialize (Hl ltac:(set_solver) Hlen).
  change (mkServer false false ∅ 0 n None 0%nat n (fun _ => [])) with (new_TcpServer (C := C) n n).
  destruct (start_listening _ _ _ _ _) as [[spare s'] |] eqn:El; [| done].
  destruct (pool_of_server n Hn) as (srv & -> & Hsrv).
  destruct Hl as (Hok' & Hcov' & Hq & Ht' & Hd & Hon). intros S log main.
  pose proof Hok' as ([_ [Hlq _] _ _ _ _] & _).
  constructor; cbn [main_loop signal_set spare_descriptor]; try done.
  - unfold start_listening in El. by repeat case_match; simplify_eq/=.
  - destruct Hr as (d & Hd1 & Hrest). exists d. by rewrite Hd.
  - by exists a, spare.
  - by rewrite Ht'.
Qed.

Lemma server_address_length a :
  new_InetAddress inet_pton (str "127.0.0.1") 8080 IPv4 = Ok a -> exists len, get_address_length a = Ok len.
Proof.
  rewrite (new_picture _ _ HP). destruct (inet_pton _ _) as [addr |] eqn:E; [| done]. intros [= <-].
  destruct (picture_reads IPv4 8080 addr) as (_ & _ & _ & Hl & _); [| by eauto].
  by apply (pton_size _ _ HP IPv4 _ _ E).
Qed.

(** The echo server: the process ends while it is set up, or the loop is at the top of
    its first iteration, the signals of the program and the listening socket are in
    its poller, and the server is started, with a thread for the one queue of the
    loop. *)
Theorem echo_server_main_ready now k
    (Hf : surroundings 1%nat now) (Hi : interest k = ∅)
    (Hnew : signalfd_address ∉ own 1%nat) (Hlis : listen_address ∉ own 1%nat)
    (Hne : listen_address <> signalfd_address) :
  match echo_server_main threshold timerfd_settime operator_new new_queue eventfd_address
          timerfd_address signalfd_address listen_address inet_pton on_connect yell tid
          (TimePoint.mk now) k with
  | Err e => e = Fatal \/ e = Uncaught
  | Ok p => set_up 1 now None p (main_server p)
  end.
Proof.
  unfold echo_server_main. pose proof (signal_config_ok k) as Hsig.
  destruct (signal_config k) as [[set k1] |]; [| by left]. destruct Hsig as (-> & (_ & Hk & _)).
  pose proof (main_loop_ok 1 now (list_to_set watched_signals) k1 Hf ltac:(lia) ltac:(by rewrite Hk)) as Hloop.
  destruct (EventLoop.new_EventLoop _ _ _ _ _ _ _ _ _ _ _ _) as [loop |]; [| done].
  specialize (Hloop Hnew).
  destruct (new_InetAddress _ _ _ _) as [a | e] eqn:Ea.
  2: { rewrite (new_picture _ _ HP) in Ea. destruct (inet_pton _ _); [done |]. injection Ea as <-. by left. }
  destruct (server_address_length a Ea) as [len Hlen].
  destruct (signalfd_config _ _ loop) as [loop' |]; [| by left].
  destruct Hloop as (Hok & Hcov & Ht & Hst & Hr).
  pose proof (server_started 1 now a len loop' None ltac:(lia) Hok Hcov Hr Hst Ht Hlis Hne Ea Hlen) as Hs.
  destruct (ServerStart.start _ _ _ _ _ _) as [[[srv spare] loop2] |]; [| by left]. apply Hs.
Qed.

Lemma two_timers (a b : Z) (p q : ptr) :
  a < b -> set_insert (TimePoint.mk b, q) [(TimePoint.mk a, p)] = [(TimePoint.mk a, p); (TimePoint.mk b, q)].
Proof.
  intros Hab. cbn [set_insert]. unfold entry_ltb, TimePoint.lt, TimePoint.eq. simpl.
  rewrite (proj2 (Z.ltb_ge b a)), (proj2 (Z.eqb_neq b a)), (proj2 (Z.ltb_lt a b)) by lia. done.
Qed.

(** C26: The HTTP server: it exits when it has more than one argument; otherwise the process
    ends while it is set up, or the loop is at the top of its first iteration: the
    watched signals are blocked and their descriptor is in the poller; so is a
    socket, non-blocking, bound to 127.0.0.1:8080 and listening, which has a spare
    descriptor; the loop has its four queues, one for each thread of the server, and
    its timers are the one that yells after three seconds and the one that looks
    every fifteen seconds for connections inactive that long.  The benchmark has no
    such timer and no limit. *)
Theorem http_server_main_ready benchmark now argv k
    (Hf : surroundings 4%nat now) (Hhor : horizon + 30 * TimeInterval.SECOND < limit threshold)
    (Hi : interest k = ∅)
    (Hnew : signalfd_address ∉ own 4%nat) (Hlis : listen_address ∉ own 4%nat)
    (Hne : listen_address <> signalfd_address) :
  match http_server_main threshold timerfd_settime operator_new new_queue eventfd_address
          timerfd_address signalfd_address listen_address inet_pton on_connect yell remove_inactive tid
          (TimePoint.mk now) benchmark argv k with
  | None => (2 < length argv)%nat
  | Some (Err e) => e = Fatal \/ e = Uncaught
  | Some (Ok p) =>
      let timeout := TimeInterval.mk (15 * TimeInterval.SECOND) in
      (length argv <= 2)%nat /\
      _connection_timeout_interval (main_server p)
        = (if benchmark then TimeInterval.mk TimeInterval.FOREVER else timeout) /\
      set_up 4 now (if benchmark then None else Some timeout) p (_tcp_server (main_server p))
  end.
Proof.
  unfold http_server_main. destruct (Nat.ltb_spec 2 (length argv)) as [? | Hargc]; [done |].
  pose proof (signal_config_ok k) as Hsig.
  destruct (signal_config k) as [[set k1] |]; [| by left]. destruct Hsig as (-> & (_ & Hk & _)).
  destruct (limit_ok 60000 k1 ltac:(lia)) as (k2 & -> & _ & Hk2).
  pose proof (main_loop_ok 4 now (list_to_set watched_signals) k2 Hf ltac:(lia)
                ltac:(by rewrite Hk2, Hk)) as Hloop.
  destruct (EventLoop.new_EventLoop _ _ _ _ _ _ _ _ _ _ _ _) as [loop |]; [| done].
  specialize (Hloop Hnew).
  destruct (new_InetAddress _ _ _ _) as [a | e] eqn:Ea.
  2: { rewrite (new_picture _ _ HP) in Ea. destruct (inet_pton _ _); [done |]. injection Ea as <-. by left. }
  destruct (server_address_length a Ea) as [len Hlen].
  destruct (signalfd_config _ _ loop) as [loop' |]; [| by left].
  destruct Hloop as (Hok & Hcov & Ht & Hst & Hr).
  unfold start_http. cbn [negb _connection_timeout_interval set_connection_timeout_interval].
  change (_tcp_server (set_connection_timeout_interval _ _)) with (new_TcpServer (C := C) 4 4).
  destruct benchmark.
  - change (TimeInterval.lt _ _) with false. cbn [negb].
    pose proof (server_started 4 now a len loop' None ltac:(lia) Hok Hcov Hr Hst Ht Hlis Hne Ea Hlen) as Hs.
    destruct (ServerStart.start _ _ _ _ _ _) as [[[srv spare] loop2] |]; [| by left].
    split; [done |]. split; [done |]. apply Hs.
  - change (TimeInterval.lt _ _) with true.
    set (i := TimeInterval.mk (15 * TimeInterval.SECOND)).
    assert (Es : TimeInterval.nanoseconds i = 15000000000) by done.
    assert (TimeInterval.SECOND = 1000000000) as E1 by done.
    pose proof (l_horizon _ _ _ _ _ _ _ _ _ Hf) as [[H0 H1] _].
    destruct (timer_joins threshold horizon timerfd_settime operator_new eventfd_address timerfd_address
                may_cancel 4 {[signalfd_address]} now loop' i remove_inactive (l_env _ _ _ _ _ _ _ _ _ Hf) Hok)
      as (q & t & -> & Hok2 & Hheap & Hcont); [rewrite ?Es; lia .. |].
    destruct Ht as (q0 & Hc). rewrite Hc in Hcont. unfold yell_time in Hcont.
    rewrite two_timers in Hcont by (rewrite Es, E1; lia).
    pose proof (server_started 4 now a len (with_timers t (timer_unread loop') (fired loop') loop') (Some i)
                  ltac:(lia) Hok2 Hcov Hr Hst ltac:(by exists q0, q) Hlis Hne Ea Hlen) as Hs.
    destruct (ServerStart.start _ _ _ _ _ _) as [[[srv spare] loop2] |]; [| by left].
    split; [done |]. split; [done |]. apply Hs.
Qed.
End Ready.

(** * A concrete kernel *)
#[local] Instance sample_signal_calls : SignalCalls loop_kernel := {
  blocked k := ∅;
  sigprocmask_block set k := Some k;
  sigprocmask_unblock set k := Some k;
  sys_signalfd set flags k := lk_open flags k
}.

#[local] Instance sample_signal_laws : SignalLaws loop_kernel.
Proof.
  split.
  - by intros set k k' [= <-].
  - intros set flags k fd k' E. apply lk_open_opens in E as [Ho Hc]. split; [done |]. simpl. by rewrite Hc.
Qed.

(** Sockets of that kernel: nobody connects. *)
#[local] Instance sample_socket_calls : Sockets.Sockets loop_kernel := {|
  Sockets.sys_socket k := lk_open 0 k;
  getsockopt_so_error _ k := (Some 0, k);
  setsockopt_tcp_nodelay _ k := Some k;
  setsockopt_so_reuseaddr _ k := Some k;
  sys_bind _ _ k := Some k;
  sys_listen _ _ k := Some k;
  getsockname _ _ := None;
  getpeername _ _ := None;
  sys_connect _ _ k := Some k;
  Sockets.sys_accept _ _ := None
|}.

#[local] Instance sample_accept_calls : AcceptKernel loop_kernel := {|
  ListenSocketfd.sys_accept k _ := (AcceptError ListenSocketfd.EAGAIN, k);
  sys_open_null k := let '(fd, k) := lk_open 0 k in if fd =? -1 then None else Some (fd, k)
|}.

#[local] Instance sample_listen_laws : ListenLaws loop_kernel.
Proof.
  split.
  - intros k fd k' E. apply lk_open_opens in E as [Ho Hc]. split; [done |]. simpl. by rewrite Hc.
  - by intros fd k k' [= <-].
  - by intros fd m k k' [= <-].
  - by intros fd n k k' [= <-].
  - intros k fd k'. simpl. destruct (lk_open 0 k) as [fd0 k0] eqn:E. destruct (Z.eqb_spec fd0 (-1)); [done |].
    intros [= <- <-]. apply lk_open_opens in E as [Ho Hc]. split; [done |]. split; [done |]. simpl. by rewrite Hc.
Qed.

#[local] Instance sample_connection : ServerConnection unit := {|
  conn_new _ _ _ := Ok tt;
  conn_start _ := Ok tt;
  conn_reset _ f _ s := let* s := f s in Ok (tt, s)
|}.

(** The presentation of the address the programs use. *)
Definition main_pton (family : Z) (text : bytes) : option bytes :=
  if bool_decide (text = str "127.0.0.1") && (family =? AF_INET)
  then Some [octet 127; octet 0; octet 0; octet 1] else hex_pton family text.

Definition main_ntop (family : Z) (addr : bytes) : bytes := hex_ntop family addr.

Lemma main_presentation : presentation main_pton main_ntop.
Proof.
  destruct hex_presentation as [H1 H2 H3 H4]. unfold main_pton. constructor; [| | exact H3 | exact H4].
  - intros type text addr. case_bool_decide as Ht; [| apply H1]. simpl.
    destruct type; [by intros [= <-] | apply (H1 IPv6)].
  - intros type addr Hl. rewrite bool_decide_eq_false_2; [by apply H2 |].
    unfold main_ntop, hex_ntop. intros E. apply (f_equal length) in E.
    destruct (unhex_hex addr) as [_ Hx]. rewrite length_take, Hx, Hl in E. by destruct type.
Qed.

Lemma main_surroundings_fine n :
  n = 1%nat \/ n = 4%nat ->
  surroundings_fine 3 loop_horizon sample_settime sample_new loop_queue loop_eventfd loop_timerfd n 5.
Proof.
  intros Hn. destruct loop_surroundings_fine as [H1 H2 H3 _]. constructor; [done.. |].
  destruct Hn as [-> | ->]; apply (bool_decide_unpack _); vm_compute; exact I.
Qed.

Lemma main_addresses n :
  n = 1%nat \/ n = 4%nat ->
  (9500 ∉ EventLoopInvariant.own loop_eventfd loop_timerfd n) /\
  (9600 ∉ EventLoopInvariant.own loop_eventfd loop_timerfd n).
Proof. intros [-> | ->]; split; apply (bool_decide_unpack _); vm_compute; exact I. Qed.

Definition sample_http_main (benchmark : bool)
    : option (result (program loop_kernel (BlockingQueue FunctorType) (HttpServer unit))) :=
  http_server_main 3 sample_settime sample_new loop_queue loop_eventfd loop_timerfd 9500 9600 main_pton
    (fun c => Ok c) 0 1 77 (TimePoint.mk 5) benchmark [str "server"; str "log"] sample_loop_kernel.

Abbreviation sample_set_up n inactive p s :=
  (set_up 3 loop_horizon loop_eventfd loop_timerfd 9500 9600 main_pton 1 false n 5 inactive p s).

Lemma http_server_main_ready_witness :
  (exists p, sample_http_main false = Some (Ok p) /\
     sample_set_up 4 (Some (TimeInterval.mk (15 * TimeInterval.SECOND))) p (_tcp_server (main_server p))) /\
  exists p, sample_http_main true = Some (Ok p) /\ sample_set_up 4 None p (_tcp_server (main_server p)).
Proof.
  pose proof (fun b => http_server_main_ready 3 loop_horizon sample_settime sample_new loop_queue loop_eventfd
                loop_timerfd 9500 9600 main_pton main_ntop main_presentation (fun c : unit => Ok c) 0 1 77 false b 5
                [str "server"; str "log"] sample_loop_kernel
                (main_surroundings_fine 4 ltac:(by right)) ltac:(vm_compute; reflexivity) eq_refl
                (proj1 (main_addresses 4 ltac:(by right))) (proj2 (main_addresses 4 ltac:(by right)))
                ltac:(discriminate)) as Hm.
  split; [specialize (Hm false); fold (sample_http_main false) in Hm; destruct (sample_http_main false) as [[p | e] |] eqn:E
         | specialize (Hm true); fold (sample_http_main true) in Hm; destruct (sample_http_main true) as [[p | e] |] eqn:E].
  all: try (exists p; split; [reflexivity | destruct Hm as (_ & _ & Hs); exact Hs]).
  all: vm_compute in E; discriminate E.
Defined.

Lemma echo_server_main_ready_witness :
  exists p, echo_server_main 3 sample_settime sample_new loop_queue loop_eventfd loop_timerfd 9500 9600 main_pton
              (fun c : unit => Ok c) 0 77 (TimePoint.mk 5) sample_loop_kernel = Ok p /\
    sample_set_up 1 None p (main_server p).
Proof.
  pose proof (echo_server_main_ready 3 loop_horizon sample_settime sample_new loop_queue loop_eventfd
                loop_timerfd 9500 9600 main_pton main_ntop main_presentation (fun c : unit => Ok c) 0 1 77 false 5
                sample_loop_kernel (main_surroundings_fine 1 ltac:(by left)) eq_refl
                (proj1 (main_addresses 1 ltac:(by left))) (proj2 (main_addresses 1 ltac:(by left)))
                ltac:(discriminate)) as Hm.
  destruct (echo_server_main _ _ _ _ _ _ _ _ _ _ _ _ _ _) as [p | e] eqn:E.
  - exists p. split; [reflexivity | exact Hm].
  - vm_compute in E. discriminate E.
Defined.
